(** * Deep-zoom tiler: pyramid builder and viewport renderer

    A shallow embedding of the pyramid builder (the worker script and the
    companion Python script of [ImageSplitter.tsx]), of the archive loader
    [handleZipFile], and of the viewport logic of [ImageExplorer.tsx]
    together with its copy inside the standalone export page.

    Numbers.  JavaScript numbers are modelled by exact rationals [Q]:
    [a / b] is rational division, [2 ** e] is [2 ^ e] with an integer
    exponent of either sign, [Math.floor] and [Math.ceil] are [Qfloor] and
    [Qceiling], [Math.max] and [Math.min] are [Qmax] and [Qmin].  Level
    indices and level counts are integers [Z]; canvas sizes are integers
    [Z].  Rounding of doubles, NaN and the infinities are outside of this
    model; the module [Float] repeats the frame, the clamp, the zoom and
    the pan with every operation rounded to the nearest double.  Equality
    of two computed rationals is [==] ([Qeq]). *)

From Stdlib Require Import ZArith QArith Qminmax Qround Qpower Qabs.
From Stdlib Require Import Lia Lqa List String Ascii Bool DecimalString.
Import ListNotations.

Open Scope Q_scope.

(** ** Shared types ([types.ts]) *)

Definition TILE_SIZE : Z := 128.

(** [ImageDimensions]: [{ width, height }]. *)
Record ImageDimensions : Set := mkDims { width : Q; height : Q }.

(** A point or pan offset [{ x, y }]. *)
Record Point : Set := mkPoint { px : Q; py : Q }.

(** The part of [GeneratedImageData] that the viewport logic reads. *)
Record ImageData : Set := mkImageData {
  originalDimensions : ImageDimensions;
  numLevels : Z
}.

(** The React state of the explorer component. *)
Record ViewportState : Set := mkState {
  zoomIndex : Z;
  minZoomIndex : Z;
  pan : Point;
  viewportSize : ImageDimensions;
  isInitialized : bool
}.

(** The object returned by [getInitialState]. *)
Record InitialState : Set := mkInitial {
  init_zoomIndex : Z;
  init_minZoomIndex : Z;
  init_pan : Point
}.

(** ['up' | 'down' | 'left' | 'right']. *)
Inductive Direction : Set := Up | Down | Left | Right.

(** The four bounds computed by the drawing effect. *)
Record TileRange : Set := mkRange {
  startCol : Z; endCol : Z; startRow : Z; endRow : Z
}.

(** [2 ** e]. *)
Definition pow2 (e : Z) : Q := 2 ^ e.

(** Equality of values that hold rationals. *)
Definition point_eq (p q : Point) : Prop :=
  px p == px q /\ py p == py q.

Definition dims_eq (a b : ImageDimensions) : Prop :=
  width a == width b /\ height a == height b.

Definition state_eq (s t : ViewportState) : Prop :=
  zoomIndex s = zoomIndex t /\ minZoomIndex s = minZoomIndex t /\
  point_eq (pan s) (pan t) /\ dims_eq (viewportSize s) (viewportSize t) /\
  isInitialized s = isInitialized t.

(** ** The interactive component ([components/ImageExplorer.tsx]) *)

Module Explorer.

(** [clampPan], lines 119-129. *)
Definition clampPan (newPan : Point) (worldSize viewSize : ImageDimensions)
  : Point :=
  let x := px newPan in
  let y := py newPan in
  let x :=
    if Qlt_le_dec (width worldSize) (width viewSize)
    then (width worldSize - width viewSize) / 2
    else Qmax 0 (Qmin x (width worldSize - width viewSize)) in
  let y :=
    if Qlt_le_dec (height worldSize) (height viewSize)
    then (height worldSize - height viewSize) / 2
    else Qmax 0 (Qmin y (height worldSize - height viewSize)) in
  mkPoint x y.

(** World size of level [i] as the component computes it:
    [originalDimensions.width / scale] with [scale = 2 ** (numLevels - 1 - i)]. *)
Definition worldSizeAt (data : ImageData) (i : Z) : ImageDimensions :=
  let scale := pow2 (numLevels data - 1 - i) in
  mkDims (width (originalDimensions data) / scale)
         (height (originalDimensions data) / scale).

(** The scan of [getInitialState]: [fuel] iterations are left, [i] is the
    loop variable, [baseIndex] the value assigned so far. *)
Fixpoint scanLevels (data : ImageData) (vs : ImageDimensions)
  (fuel : nat) (i baseIndex : Z) : Z :=
  match fuel with
  | O => baseIndex
  | S fuel' =>
      let scale := pow2 (numLevels data - 1 - i) in
      let levelWidth := width (originalDimensions data) / scale in
      let levelHeight := height (originalDimensions data) / scale in
      if Qlt_le_dec (width vs) levelWidth then baseIndex
      else if Qlt_le_dec (height vs) levelHeight then baseIndex
      else scanLevels data vs fuel' (i + 1)%Z i
  end.

(** [getInitialState], lines 131-152; [None] is [null]. *)
Definition getInitialState (data : ImageData) (vs : ImageDimensions)
  : option InitialState :=
  if Qeq_bool (width vs) 0 then None
  else
    let baseIndex := scanLevels data vs (Z.to_nat (numLevels data)) 0%Z 0%Z in
    let scale := pow2 (numLevels data - 1 - baseIndex) in
    let worldWidth := width (originalDimensions data) / scale in
    let worldHeight := height (originalDimensions data) / scale in
    Some (mkInitial baseIndex baseIndex
            (clampPan (mkPoint 0 0) (mkDims worldWidth worldHeight) vs)).

(** The initialisation effect, lines 154-164. *)
Definition initialize (data : ImageData) (st : ViewportState)
  : ViewportState :=
  if isInitialized st then st
  else
    match getInitialState data (viewportSize st) with
    | Some initialState =>
        mkState (init_zoomIndex initialState)
                (init_minZoomIndex initialState)
                (init_pan initialState)
                (viewportSize st) true
    | None => st
    end.

(** [handleZoom], lines 212-234. *)
Definition handleZoom (data : ImageData) (st : ViewportState)
  (newZoomIndex : Z) (screenPoint : Point) : ViewportState :=
  let oldZoomIndex := zoomIndex st in
  if (newZoomIndex =? oldZoomIndex)%Z then st
  else
    let clampedNewZoomIndex :=
      Z.max (minZoomIndex st) (Z.min newZoomIndex (numLevels data - 1)) in
    let oldScale := pow2 (numLevels data - 1 - oldZoomIndex) in
    let newScale := pow2 (numLevels data - 1 - clampedNewZoomIndex) in
    let zoomRatio := oldScale / newScale in
    let newWorldWidth := width (originalDimensions data) / newScale in
    let newWorldHeight := height (originalDimensions data) / newScale in
    let worldPointX := px (pan st) + px screenPoint in
    let worldPointY := py (pan st) + py screenPoint in
    let newWorldPointX := worldPointX * zoomRatio in
    let newWorldPointY := worldPointY * zoomRatio in
    let newPanX := newWorldPointX - px screenPoint in
    let newPanY := newWorldPointY - py screenPoint in
    mkState clampedNewZoomIndex (minZoomIndex st)
      (clampPan (mkPoint newPanX newPanY)
                (mkDims newWorldWidth newWorldHeight) (viewportSize st))
      (viewportSize st) (isInitialized st).

(** [handlePan], lines 236-250. *)
Definition handlePan (data : ImageData) (st : ViewportState)
  (direction : Direction) : ViewportState :=
  let panAmount := 25 # 100 in
  let newPanX := px (pan st) in
  let newPanY := py (pan st) in
  let newPanX := match direction with
                 | Left => newPanX - width (viewportSize st) * panAmount
                 | _ => newPanX end in
  let newPanX := match direction with
                 | Right => newPanX + width (viewportSize st) * panAmount
                 | _ => newPanX end in
  let newPanY := match direction with
                 | Up => newPanY - height (viewportSize st) * panAmount
                 | _ => newPanY end in
  let newPanY := match direction with
                 | Down => newPanY + height (viewportSize st) * panAmount
                 | _ => newPanY end in
  let scale := pow2 (numLevels data - 1 - zoomIndex st) in
  let worldWidth := width (originalDimensions data) / scale in
  let worldHeight := height (originalDimensions data) / scale in
  mkState (zoomIndex st) (minZoomIndex st)
    (clampPan (mkPoint newPanX newPanY)
              (mkDims worldWidth worldHeight) (viewportSize st))
    (viewportSize st) (isInitialized st).

(** The visible tile window of the drawing effect, lines 176-179. *)
Definition visibleTiles (st : ViewportState) : TileRange :=
  let startCol := Qfloor (px (pan st) / inject_Z TILE_SIZE) in
  let endCol :=
    Qceiling ((px (pan st) + width (viewportSize st)) / inject_Z TILE_SIZE) in
  let startRow := Qfloor (py (pan st) / inject_Z TILE_SIZE) in
  let endRow :=
    Qceiling ((py (pan st) + height (viewportSize st)) / inject_Z TILE_SIZE) in
  mkRange startCol endCol startRow endRow.

End Explorer.

(** ** The copy inside the standalone export page
    ([createStandaloneHtml] in [components/ImageSplitter.tsx]) *)

Module Standalone.

(** [clampPan] of the exported page. *)
Definition clampPan (newPan : Point) (worldSize viewSize : ImageDimensions)
  : Point :=
  let '(mkPoint x y) := newPan in
  let x :=
    if Qlt_le_dec (width worldSize) (width viewSize)
    then (width worldSize - width viewSize) / 2
    else Qmax 0 (Qmin x (width worldSize - width viewSize)) in
  let y :=
    if Qlt_le_dec (height worldSize) (height viewSize)
    then (height worldSize - height viewSize) / 2
    else Qmax 0 (Qmin y (height worldSize - height viewSize)) in
  mkPoint x y.

Fixpoint scanLevels (data : ImageData) (vs : ImageDimensions)
  (fuel : nat) (i baseIndex : Z) : Z :=
  match fuel with
  | O => baseIndex
  | S fuel' =>
      let scale := pow2 (numLevels data - 1 - i) in
      let levelWidth := width (originalDimensions data) / scale in
      let levelHeight := height (originalDimensions data) / scale in
      if Qlt_le_dec (width vs) levelWidth then baseIndex
      else if Qlt_le_dec (height vs) levelHeight then baseIndex
      else scanLevels data vs fuel' (i + 1)%Z i
  end.

(** [getInitialState] of the exported page. *)
Definition getInitialState (data : ImageData) (vs : ImageDimensions)
  : option InitialState :=
  if Qeq_bool (width vs) 0 then None
  else
    let baseIndex := scanLevels data vs (Z.to_nat (numLevels data)) 0%Z 0%Z in
    let scale := pow2 (numLevels data - 1 - baseIndex) in
    let worldWidth := width (originalDimensions data) / scale in
    let worldHeight := height (originalDimensions data) / scale in
    Some (mkInitial baseIndex baseIndex
            (clampPan (mkPoint 0 0) (mkDims worldWidth worldHeight) vs)).

Definition initialize (data : ImageData) (st : ViewportState)
  : ViewportState :=
  if isInitialized st then st
  else
    match getInitialState data (viewportSize st) with
    | Some initialState =>
        mkState (init_zoomIndex initialState)
                (init_minZoomIndex initialState)
                (init_pan initialState)
                (viewportSize st) true
    | None => st
    end.

(** [handleZoom] of the exported page. *)
Definition handleZoom (data : ImageData) (st : ViewportState)
  (newZoomIndex : Z) (screenPoint : Point) : ViewportState :=
  let oldZoomIndex := zoomIndex st in
  if (newZoomIndex =? oldZoomIndex)%Z then st
  else
    let clampedNewZoomIndex :=
      Z.max (minZoomIndex st) (Z.min newZoomIndex (numLevels data - 1)) in
    let oldScale := pow2 (numLevels data - 1 - oldZoomIndex) in
    let newScale := pow2 (numLevels data - 1 - clampedNewZoomIndex) in
    let zoomRatio := oldScale / newScale in
    let newWorldWidth := width (originalDimensions data) / newScale in
    let newWorldHeight := height (originalDimensions data) / newScale in
    let worldPointX := px (pan st) + px screenPoint in
    let worldPointY := py (pan st) + py screenPoint in
    let newWorldPointX := worldPointX * zoomRatio in
    let newWorldPointY := worldPointY * zoomRatio in
    let newPanX := newWorldPointX - px screenPoint in
    let newPanY := newWorldPointY - py screenPoint in
    mkState clampedNewZoomIndex (minZoomIndex st)
      (clampPan (mkPoint newPanX newPanY)
                (mkDims newWorldWidth newWorldHeight) (viewportSize st))
      (viewportSize st) (isInitialized st).

(** [handlePan] of the exported page. *)
Definition handlePan (data : ImageData) (st : ViewportState)
  (direction : Direction) : ViewportState :=
  let panAmount := 25 # 100 in
  let newPanX := px (pan st) in
  let newPanY := py (pan st) in
  let newPanX := match direction with
                 | Left => newPanX - width (viewportSize st) * panAmount
                 | _ => newPanX end in
  let newPanX := match direction with
                 | Right => newPanX + width (viewportSize st) * panAmount
                 | _ => newPanX end in
  let newPanY := match direction with
                 | Up => newPanY - height (viewportSize st) * panAmount
                 | _ => newPanY end in
  let newPanY := match direction with
                 | Down => newPanY + height (viewportSize st) * panAmount
                 | _ => newPanY end in
  let scale := pow2 (numLevels data - 1 - zoomIndex st) in
  let worldWidth := width (originalDimensions data) / scale in
  let worldHeight := height (originalDimensions data) / scale in
  mkState (zoomIndex st) (minZoomIndex st)
    (clampPan (mkPoint newPanX newPanY)
              (mkDims worldWidth worldHeight) (viewportSize st))
    (viewportSize st) (isInitialized st).

(** The visible tile window of the exported page's drawing effect. *)
Definition visibleTiles (st : ViewportState) : TileRange :=
  let startCol := Qfloor (px (pan st) / inject_Z TILE_SIZE) in
  let endCol :=
    Qceiling ((px (pan st) + width (viewportSize st)) / inject_Z TILE_SIZE) in
  let startRow := Qfloor (py (pan st) / inject_Z TILE_SIZE) in
  let endRow :=
    Qceiling ((py (pan st) + height (viewportSize st)) / inject_Z TILE_SIZE) in
  mkRange startCol endCol startRow endRow.

End Standalone.

(** ** Numeric and string helpers of the builder *)

(** [Math.ceil(Math.log2(q))] for a positive rational [q], computed exactly:
    the least integer [k] with [q <= 2 ^ k] (see [ceil_log2_spec]).  The
    builder only calls it on [maxDim / TILE_SIZE] with [maxDim >= 1]. *)
Definition ceil_log2 (q : Q) : Z :=
  if Qle_bool 1 q then Z.log2_up (Qceiling q)
  else (- Z.log2 (Qfloor (/ q)))%Z.

(** [`${z}`] for an integer. *)
Definition string_of_Z (z : Z) : string :=
  DecimalString.NilZero.string_of_int (Z.to_int z).

(** The values [0, 1, ..., n-1] of a counting loop. *)
Definition zrange (n : Z) : list Z := map Z.of_nat (seq 0 (Z.to_nat n)).

(** ** Bitmaps *)

Inductive Pixel : Set := Transparent | Colour (rgba : Z).

(** A canvas or decoded image: its size and its pixels (only the
    coordinates inside the size are meaningful). *)
Record Canvas : Type := mkCanvas {
  cwidth : Z;
  cheight : Z;
  pixels : Z -> Z -> Pixel
}.

(** [new OffscreenCanvas(w, h)]: transparent black everywhere. *)
Definition newCanvas (w h : Z) : Canvas :=
  mkCanvas w h (fun _ _ => Transparent).

(** [ctx.drawImage(src, sx, sy, sWidth, sHeight, dx, dy, sWidth, sHeight)]
    on a context of [dst]: the destination size equals the source size, so
    the source rectangle is copied without scaling. *)
Definition drawImageRegion (dst src : Canvas)
  (sx sy sWidth sHeight dx dy : Z) : Canvas :=
  mkCanvas (cwidth dst) (cheight dst)
    (fun u v =>
       if ((dx <=? u) && (u <? dx + sWidth) &&
           (dy <=? v) && (v <? dy + sHeight))%Z%bool
       then pixels src (sx + (u - dx))%Z (sy + (v - dy))%Z
       else pixels dst u v).

(** ** Effectful code: a log of actions, and exceptions

    A computation appends the actions it performs to a log and either
    returns a value or throws an error that carries a message. *)

Inductive Outcome (A : Type) : Type :=
| Returned (a : A)
| Thrown (message : string).
Arguments Returned {A} a.
Arguments Thrown {A} message.

Definition M (Act A : Type) : Type := list Act -> Outcome A * list Act.

Definition ret {Act A} (a : A) : M Act A := fun log => (Returned a, log).

Definition throw {Act A} (message : string) : M Act A :=
  fun log => (Thrown message, log).

Definition bind {Act A B} (m : M Act A) (k : A -> M Act B) : M Act B :=
  fun log =>
    match m log with
    | (Returned a, log') => k a log'
    | (Thrown message, log') => (Thrown message, log')
    end.

Definition emit {Act} (a : Act) : M Act unit :=
  fun log => (Returned tt, log ++ [a]).

Notation "x <- m ;; k" := (bind m (fun x => k))
  (at level 61, m at next level, right associativity).
Notation "m ;;; k" := (bind m (fun _ => k))
  (at level 61, right associativity).

(** [try { body } catch (error) { handler } finally { fin }]. *)
Definition try_catch_finally {Act}
  (body : M Act unit) (handler : string -> M Act unit) (fin : M Act unit)
  : M Act unit :=
  fun log =>
    match body log with
    | (Returned _, log') => fin log'
    | (Thrown message, log') =>
        match handler message log' with
        | (Returned _, log'') => fin log''
        | (Thrown message', log'') =>
            match fin log'' with
            | (Returned _, log3) => (Thrown message', log3)
            | thrown => thrown
            end
        end
    end.

(** A [for] loop over the values of [l], collecting what each round makes. *)
Fixpoint forEach {Act A B} (f : A -> M Act B) (l : list A) : M Act (list B) :=
  match l with
  | [] => ret []
  | a :: l' => b <- f a ;; bs <- forEach f l' ;; ret (b :: bs)
  end.

(** ** The worker script ([workerScript] in [components/ImageSplitter.tsx]) *)

Module Builder.

(** What the host decides: whether an [OffscreenCanvas] of a given size
    with a 2d context can be had, and how a smoothed, scaled [drawImage]
    resamples ([resample src w h u v] is pixel [(u,v)] of [src] drawn into
    [w] by [h]). *)
Record Host : Type := mkHost {
  canvasOk : Z -> Z -> bool;
  resample : Canvas -> Z -> Z -> Z -> Z -> Pixel
}.

(** A tile blob: the PNG encoding is lossless, so the blob is the tile
    canvas.  A level's tiles are keyed by [(y, x)] for the key
    [`${y}_${x}`]. *)
Definition LevelTiles : Type := list ((Z * Z) * Canvas).

(** The [data] object of the final message. *)
Record PyramidData : Type := mkPyramid {
  tiles : list (Z * LevelTiles);
  pyramidDimensions : Z * Z;
  pyramidLevels : Z
}.

(** Messages sent with [self.postMessage]. *)
Inductive Message : Type :=
| MsgProgress (message : string)
| MsgDone (data : PyramidData)
| MsgError (message : string).

(** What the worker does, in order. *)
Inductive Action : Type :=
| Posted (m : Message)
| DrewTile (level y x sx sy sWidth sHeight : Z)
| Closed.

(** Worker computations. *)
Definition W (A : Type) : Type := M Action A.

(** The error of a canvas that cannot be had; the worker never reads its
    text. *)
Definition hostError : string := "host error".

(** [new OffscreenCanvas(w, h)] with its context. *)
Definition createCanvas (host : Host) (w h : Z) : W Canvas :=
  if canvasOk host w h then ret (newCanvas w h) else throw hostError.

(** The body of the two tile loops, lines 120-133. *)
Definition makeTile (host : Host) (level : Z) (currentCanvas : Canvas)
  (levelWidth levelHeight y x : Z) : W ((Z * Z) * Canvas) :=
  tileCanvas <- createCanvas host TILE_SIZE TILE_SIZE ;;
  let sx := (x * TILE_SIZE)%Z in
  let sy := (y * TILE_SIZE)%Z in
  let sWidth := Z.min TILE_SIZE (levelWidth - sx) in
  let sHeight := Z.min TILE_SIZE (levelHeight - sy) in
  emit (DrewTile level y x sx sy sWidth sHeight) ;;;
  ret ((y, x),
       drawImageRegion tileCanvas currentCanvas sx sy sWidth sHeight 0 0).

(** Lines 139-149: the next, coarser canvas. *)
Definition downsample (host : Host) (currentCanvas : Canvas) : W Canvas :=
  let levelWidth := cwidth currentCanvas in
  let levelHeight := cheight currentCanvas in
  let nextWidth := Qfloor (inject_Z levelWidth / 2) in
  let nextHeight := Qfloor (inject_Z levelHeight / 2) in
  nextCanvas <- createCanvas host nextWidth nextHeight ;;
  ret (mkCanvas (cwidth nextCanvas) (cheight nextCanvas)
         (resample host currentCanvas nextWidth nextHeight)).

(** The text of a progress message. *)
Definition progressText (level numLevels : Z) : string :=
  ("Processing level " ++ string_of_Z level ++ "/" ++
   string_of_Z (numLevels - 1) ++ "...")%string.

(** The level loop, lines 106-150: [n] rounds are left, the round's level
    is [n - 1].  The tiles of a level are listed row by row, in the order
    in which the loops start them; the worker stores each one when its
    blob is ready, so that only the set of the stored tiles, not their
    order within a level, is that of the code. *)
Fixpoint processLevels (host : Host) (numLevels : Z) (n : nat)
  (currentCanvas : Canvas) (allTiles : list (Z * LevelTiles))
  : W (list (Z * LevelTiles)) :=
  match n with
  | O => ret allTiles
  | S n' =>
      let level := Z.of_nat n' in
      emit (Posted (MsgProgress (progressText level numLevels))) ;;;
      let levelWidth := cwidth currentCanvas in
      let levelHeight := cheight currentCanvas in
      let cols := Qceiling (inject_Z levelWidth / inject_Z TILE_SIZE) in
      let rows := Qceiling (inject_Z levelHeight / inject_Z TILE_SIZE) in
      made <- forEach (fun y =>
                forEach (fun x =>
                  makeTile host level currentCanvas levelWidth levelHeight y x)
                  (zrange cols))
                (zrange rows) ;;
      let allTiles := allTiles ++ [(level, List.concat made)] in
      if (0 <? level)%Z then
        nextCanvas <- downsample host currentCanvas ;;
        processLevels host numLevels n' nextCanvas allTiles
      else
        processLevels host numLevels n' currentCanvas allTiles
  end.

(** Line 98-99. *)
Definition computeNumLevels (w h : Z) : Z :=
  let maxDim := Z.max w h in
  (ceil_log2 (inject_Z maxDim / inject_Z TILE_SIZE) + 1)%Z.

Definition tooLarge : string :=
  "The image is too large for the browser to process. Please use the 'Load Pre-Tiled Set' option.".

(** The [try] block, lines 95-158.  [decoded] is what
    [createImageBitmap(imageFile)] yields; [None] when it rejects. *)
Definition tryBlock (host : Host) (decoded : option Canvas) : W unit :=
  match decoded with
  | None => throw hostError
  | Some image =>
      let originalDimensions := (cwidth image, cheight image) in
      let numLevels := computeNumLevels (cwidth image) (cheight image) in
      blank <- createCanvas host (cwidth image) (cheight image) ;;
      let currentCanvas :=
        drawImageRegion blank image 0 0 (cwidth image) (cheight image) 0 0 in
      allTiles <- processLevels host numLevels (Z.to_nat numLevels)
                    currentCanvas [] ;;
      emit (Posted (MsgDone (mkPyramid allTiles originalDimensions numLevels)))
  end.

(** [self.onmessage], lines 92-165. *)
Definition onmessage (host : Host) (decoded : option Canvas) : list Action :=
  snd (try_catch_finally
         (tryBlock host decoded)
         (fun error => emit (Posted (MsgError tooLarge)))
         (emit Closed)
         []).

(** The messages the page receives, in order. *)
Fixpoint posted (log : list Action) : list Message :=
  match log with
  | [] => []
  | Posted m :: log' => m :: posted log'
  | _ :: log' => posted log'
  end.

Definition isProgress (m : Message) : bool :=
  match m with MsgProgress _ => true | _ => false end.

Definition isTerminal (m : Message) : bool :=
  match m with MsgDone _ | MsgError _ => true | MsgProgress _ => false end.

End Builder.

(** ** The companion script ([pythonScript], [generate_tiles_manually]) *)

Module PyBuilder.

(** Lines 194-195. *)
Definition compute_num_levels (w h : Z) : Z :=
  let max_dim := Z.max w h in
  if (0 <? max_dim)%Z
  then (ceil_log2 (inject_Z max_dim / inject_Z TILE_SIZE) + 1)%Z
  else 1%Z.

(** [image.crop(left, top, width, height)]. *)
Definition crop (image : Canvas) (left top width height : Z) : Canvas :=
  mkCanvas width height (fun u v => pixels image (left + u)%Z (top + v)%Z).

(** [image.embed(x, y, width, height, extend='background',
    background=[0, 0, 0, 0])]. *)
Definition embed (image : Canvas) (x y width height : Z) : Canvas :=
  mkCanvas width height
    (fun u v =>
       if ((x <=? u) && (u <? x + cwidth image) &&
           (y <=? v) && (v <? y + cheight image))%Z%bool
       then pixels image (u - x)%Z (v - y)%Z
       else Transparent).

(** A file [<temp_dir>/<level>/<y>_<x>.png]. *)
Record TileFile : Type := mkTileFile {
  file_level : Z;
  file_y : Z;
  file_x : Z;
  file_image : Canvas
}.

(** The body of the two tile loops, lines 214-226. *)
Definition write_tile (level : Z) (current_image : Canvas)
  (level_width level_height y x : Z) : TileFile :=
  let left := (x * TILE_SIZE)%Z in
  let top := (y * TILE_SIZE)%Z in
  let width := Z.min TILE_SIZE (level_width - left) in
  let height := Z.min TILE_SIZE (level_height - top) in
  let tile := crop current_image left top width height in
  let final_tile := embed tile 0 0 TILE_SIZE TILE_SIZE in
  mkTileFile level y x final_tile.

(** The level loop, lines 201-232: [n] rounds are left, the round's level
    is [n - 1].  [kernel] is the resampling done by [resize]. *)
Fixpoint process_levels (kernel : Canvas -> Z -> Z -> Z -> Z -> Pixel)
  (n : nat) (current_image : Canvas) : list TileFile :=
  match n with
  | O => []
  | S n' =>
      let level := Z.of_nat n' in
      let level_width := cwidth current_image in
      let level_height := cheight current_image in
      let cols := Qceiling (inject_Z level_width / inject_Z TILE_SIZE) in
      let rows := Qceiling (inject_Z level_height / inject_Z TILE_SIZE) in
      let written :=
        flat_map (fun y =>
          map (fun x =>
            write_tile level current_image level_width level_height y x)
            (zrange cols))
          (zrange rows) in
      if (0 <? level)%Z then
        let next_width := Qfloor (inject_Z level_width / 2) in
        let next_height := Qfloor (inject_Z level_height / 2) in
        written ++
        process_levels kernel n'
          (mkCanvas next_width next_height
             (kernel current_image next_width next_height))
      else
        written ++ process_levels kernel n' current_image
  end.

(** [generate_tiles_manually]: the files written, [original_dimensions]
    and [num_levels].  Errors raised by the imaging library are outside of
    the model. *)
Definition generate_tiles_manually
  (kernel : Canvas -> Z -> Z -> Z -> Z -> Pixel) (image : Canvas)
  : list TileFile * (Z * Z) * Z :=
  let original_dimensions := (cwidth image, cheight image) in
  let num_levels := compute_num_levels (cwidth image) (cheight image) in
  (process_levels kernel (Z.to_nat num_levels) image,
   original_dimensions, num_levels).

End PyBuilder.

(** ** Loading a persisted tile set ([handleZipFile], lines 469-531) *)

Module Loader.

Local Open Scope string_scope.

(** *** String operations (strings are sequences of one-byte characters) *)

(** [s.slice(n)]. *)
Fixpoint drop (n : nat) (s : string) : string :=
  match n, s with
  | O, _ => s
  | S n', String _ s' => drop n' s'
  | S _, EmptyString => EmptyString
  end.

(** [s.replace(pat, rep)] for a string pattern: the first occurrence only. *)
Fixpoint replace_first (pat rep s : string) : string :=
  if String.prefix pat s then rep ++ drop (String.length pat) s
  else
    match s with
    | EmptyString => EmptyString
    | String c s' => String c (replace_first pat rep s')
    end.

Definition isSpace (c : ascii) : bool :=
  match nat_of_ascii c with
  | 9%nat | 10%nat | 11%nat | 12%nat | 13%nat | 32%nat => true
  | _ => false
  end.

Fixpoint trimStart (s : string) : string :=
  match s with
  | String c s' => if isSpace c then trimStart s' else s
  | EmptyString => EmptyString
  end.

Definition reverse (s : string) : string :=
  string_of_list_ascii (rev (list_ascii_of_string s)).

(** [s.trim()], for the six blanks of ASCII: tab, line feed, vertical
    tab, form feed, carriage return and space. *)
Definition trim (s : string) : string :=
  reverse (trimStart (reverse (trimStart s))).

(** [s.replace(/;$/, '')]. *)
Definition dropFinalSemicolon (s : string) : string :=
  match reverse s with
  | String ";" r => reverse r
  | _ => s
  end.

(** [s.split('/')]. *)
Fixpoint splitSlash (s : string) : list string :=
  match s with
  | EmptyString => [EmptyString]
  | String c s' =>
      if Ascii.eqb c "/" then EmptyString :: splitSlash s'
      else
        match splitSlash s' with
        | part :: parts => String c part :: parts
        | [] => [String c EmptyString]
        end
  end.

(** *** Values *)

(** What [JSON.parse] returns. *)
#[local] Unset Elimination Schemes.
Inductive JSON : Type :=
| JNull
| JBool (b : bool)
| JNumber (q : Q)
| JString (s : string)
| JArray (items : list JSON)
| JObject (fields : list (string * JSON)).
#[local] Set Elimination Schemes.

Fixpoint lookupField (name : string) (fields : list (string * JSON))
  : option JSON :=
  match fields with
  | [] => None
  | (k, v) :: rest => if String.eqb k name then Some v else lookupField name rest
  end.

(** Reading the property [name] (one of the two manifest fields) of a
    parsed value that is not [null]; [None] is [undefined]. *)
Definition getProp (v : JSON) (name : string) : option JSON :=
  match v with
  | JObject fields => lookupField name fields
  | _ => None
  end.

(** [!!v]. *)
Definition truthy (v : option JSON) : bool :=
  match v with
  | None => false
  | Some JNull => false
  | Some (JBool b) => b
  | Some (JNumber q) => negb (Qeq_bool q 0)
  | Some (JString s) => negb (String.eqb s "")
  | Some (JArray _) => true
  | Some (JObject _) => true
  end.

(** What the script engine decides: the result of [JSON.parse] ([inl] is
    the message of the [SyntaxError] it throws), the result of [Number(s)]
    ([None] is [NaN]), and the message of the [TypeError] thrown when
    [null] is destructured. *)
Record Engine : Type := mkEngine {
  JSON_parse : string -> string + JSON;
  Number : string -> option Q;
  nullDestructured : string
}.

(** An entry of the archive. *)
Record ZipEntry : Type := mkEntry {
  name : string;
  dir : bool;
  content : string
}.

(** A blob; an object URL is modelled by the blob it names. *)
Definition Blob : Type := string.

(** [GeneratedImageData] as the loader builds it: the tiles in the order
    they were stored, each with its level and key. *)
Record LoadedData : Type := mkLoaded {
  loadedTiles : list (Q * string * Blob);
  loadedDimensions : option JSON;
  loadedLevels : option JSON
}.

Inductive Effect : Type :=
| SetIsProcessing (b : bool)
| SetProgressMessage (s : string)
| ReadText (entry : string)
| ReadBlob (entry : string)
| CreateObjectURL (entry : string)
| SetGeneratedBlobs (blobs : list (Q * string * Blob))
| SetGeneratedData (data : LoadedData)
| OnTilesGenerated (data : LoadedData)
| ConsoleError (message : string)
| Alert (message : string).

(** [content.file('image_data.js')]. *)
Fixpoint findFile (path : string) (entries : list ZipEntry) : option ZipEntry :=
  match entries with
  | [] => None
  | e :: rest =>
      if String.eqb (name e) path && negb (dir e) then Some e
      else findFile path rest
  end.

(** [content.file(/^tiles\//)]. *)
Definition tileFilesOf (entries : list ZipEntry) : list ZipEntry :=
  filter (fun e => String.prefix "tiles/" (name e) && negb (dir e)) entries.

(** The callback mapped over the tile files, lines 496-515; [None] when
    the file is skipped. *)
Definition extractTile (engine : Engine) (tileFile : ZipEntry)
  : M Effect (option (Q * string * Blob)) :=
  if dir tileFile then ret None
  else
    let pathParts := splitSlash (name tileFile) in
    match pathParts with
    | [_; levelPart; keyPart] =>
        let level := Number engine levelPart in
        let key := replace_first ".png" "" keyPart in
        match level with
        | None => ret None
        | Some level =>
            emit (ReadBlob (name tileFile)) ;;;
            let blob : Blob := content tileFile in
            emit (CreateObjectURL (name tileFile)) ;;;
            ret (Some (level, key, blob))
        end
    | _ => ret None
    end.

Fixpoint somes {A} (l : list (option A)) : list A :=
  match l with
  | [] => []
  | Some a :: l' => a :: somes l'
  | None :: l' => somes l'
  end.

(** The [try] block, lines 477-522.  [loaded] is the outcome of
    [zip.loadAsync(file)]; [inl] is the message of its rejection.  The
    callbacks of [tileFiles.map] are taken one after the other, in the
    order of the entries; the code starts them all and stores each tile
    when its own blob has been read. *)
Definition tryBlock (engine : Engine) (loaded : string + list ZipEntry)
  : M Effect unit :=
  match loaded with
  | inl message => throw message
  | inr entries =>
      match findFile "image_data.js" entries with
      | None => throw "image_data.js not found in the ZIP file."
      | Some imageDataFile =>
          emit (ReadText (name imageDataFile)) ;;;
          let imageDataStr := content imageDataFile in
          let jsonStr :=
            dropFinalSemicolon
              (trim (replace_first "window.imageData =" "" imageDataStr)) in
          match JSON_parse engine jsonStr with
          | inl message => throw message
          | inr JNull => throw (nullDestructured engine)
          | inr imageData =>
              let originalDimensions := getProp imageData "originalDimensions" in
              let numLevels := getProp imageData "numLevels" in
              if negb (truthy originalDimensions) || negb (truthy numLevels)
              then throw "Invalid image_data.js format."
              else
                emit (SetProgressMessage "Extracting tiles...") ;;;
                let tileFiles := tileFilesOf entries in
                extracted <- forEach (extractTile engine) tileFiles ;;
                let stored := somes extracted in
                emit (SetGeneratedBlobs stored) ;;;
                let finalData := mkLoaded stored originalDimensions numLevels in
                emit (SetGeneratedData finalData) ;;;
                emit (OnTilesGenerated finalData)
          end
      end
  end.

(** [handleZipFile]. *)
Definition handleZipFile (engine : Engine) (loaded : string + list ZipEntry)
  : list Effect :=
  snd ((emit (SetIsProcessing true) ;;;
        emit (SetProgressMessage "Reading ZIP file...") ;;;
        try_catch_finally
          (tryBlock engine loaded)
          (fun message =>
             emit (ConsoleError message) ;;;
             emit (Alert ("Failed to load tile set: " ++ message)))
          (emit (SetIsProcessing false) ;;;
           emit (SetProgressMessage "")))
       []).

(** The effects by which tiles leave the archive or the result is handed on. *)
Definition touchesTiles (e : Effect) : bool :=
  match e with
  | ReadBlob _ | CreateObjectURL _ | SetGeneratedBlobs _
  | SetGeneratedData _ | OnTilesGenerated _ => true
  | _ => false
  end.

End Loader.

(** * Vocabulary of the properties *)

(** ** The viewport *)

(** One axis of [clampPan]. *)
Definition clampAxis (p w v : Q) : Q :=
  if Qlt_le_dec w v then (w - v) / 2 else Qmax 0 (Qmin p (w - v)).

Definition zoomInvariant (data : ImageData) (st : ViewportState) : Prop :=
  (minZoomIndex st <= zoomIndex st <= numLevels data - 1)%Z.

(** The state with which React mounts the component. *)
Definition mountState (vs : ImageDimensions) : ViewportState :=
  mkState 0 0 (mkPoint 0 0) vs false.

(** The index and the pan that [handleZoom] commits. *)
Definition zoomTarget (data : ImageData) (st : ViewportState) (target : Z) : Z :=
  Z.max (minZoomIndex st) (Z.min target (numLevels data - 1)).

Definition zoomedPan (data : ImageData) (st : ViewportState) (target : Z)
  (screenPoint : Point) : Point :=
  let ratio := pow2 (numLevels data - 1 - zoomIndex st) /
               pow2 (numLevels data - 1 - zoomTarget data st target) in
  mkPoint ((px (pan st) + px screenPoint) * ratio - px screenPoint)
          ((py (pan st) + py screenPoint) * ratio - py screenPoint).

(** The pan that [handlePan] hands to the clamp. *)
Definition movedPan (st : ViewportState) (direction : Direction) : Point :=
  match direction with
  | Left => mkPoint (px (pan st) - width (viewportSize st) * (25 # 100))
                    (py (pan st))
  | Right => mkPoint (px (pan st) + width (viewportSize st) * (25 # 100))
                     (py (pan st))
  | Up => mkPoint (px (pan st))
                  (py (pan st) - height (viewportSize st) * (25 # 100))
  | Down => mkPoint (px (pan st))
                    (py (pan st) + height (viewportSize st) * (25 # 100))
  end.

(** The pan sits where a further step in [direction] cannot move it: the
    world is narrower than the view on that axis, or the pan is at the
    bound on that side. *)
Definition atBound (data : ImageData) (st : ViewportState)
  (direction : Direction) : Prop :=
  let world := Explorer.worldSizeAt data (zoomIndex st) in
  let vs := viewportSize st in
  match direction with
  | Left => width world < width vs \/ px (pan st) == 0
  | Right => width world < width vs \/ px (pan st) == width world - width vs
  | Up => height world < height vs \/ py (pan st) == 0
  | Down => height world < height vs \/ py (pan st) == height world - height vs
  end.

(** *** Example states *)

(** A 4000 by 3000 image with six levels, shown at level 3 in a view of
    600 by 450. *)
Definition zoomScenarioData : ImageData := mkImageData (mkDims 4000 3000) 6.

Definition zoomScenarioState : ViewportState :=
  mkState 3 1 (mkPoint 100 50) (mkDims 600 450) true.

Definition panData : ImageData := mkImageData (mkDims 1000 1000) 4.

(** Full resolution, view 400 by 400, pan near the right bound. *)
Definition panNearBound : ViewportState :=
  mkState 3 1 (mkPoint 550 0) (mkDims 400 400) true.

(** The same view with the pan at the origin: a clamped state. *)
Definition panAtOrigin : ViewportState :=
  mkState 3 1 (mkPoint 0 0) (mkDims 400 400) true.

(** The data the worker hands over for a source image of one pixel. *)
Definition onePixelData : ImageData :=
  mkImageData (mkDims 1 1) (Builder.computeNumLevels 1 1).

(** ** What a build is expected to produce *)

Module Expected.
Import Builder.

(** The tile grid of a level canvas. *)
Definition gridCols (c : Canvas) : Z :=
  Qceiling (inject_Z (cwidth c) / inject_Z TILE_SIZE).

Definition gridRows (c : Canvas) : Z :=
  Qceiling (inject_Z (cheight c) / inject_Z TILE_SIZE).

(** The extent of the crop of tile [(y, x)]. *)
Definition cropWidth (c : Canvas) (x : Z) : Z :=
  Z.min TILE_SIZE (cwidth c - x * TILE_SIZE).

Definition cropHeight (c : Canvas) (y : Z) : Z :=
  Z.min TILE_SIZE (cheight c - y * TILE_SIZE).

(** Tile [(y, x)] of the level canvas [c]. *)
Definition tileOf (c : Canvas) (y x : Z) : Canvas :=
  drawImageRegion (newCanvas TILE_SIZE TILE_SIZE) c
    (x * TILE_SIZE) (y * TILE_SIZE) (cropWidth c x) (cropHeight c y) 0 0.

(** All tiles of a level, row by row. *)
Definition levelTiles (c : Canvas) : LevelTiles :=
  flat_map (fun y => map (fun x => ((y, x), tileOf c y x)) (zrange (gridCols c)))
           (zrange (gridRows c)).

(** The draw calls of a level, row by row. *)
Definition levelDraws (level : Z) (c : Canvas) : list Action :=
  flat_map (fun y =>
              map (fun x => DrewTile level y x (x * TILE_SIZE) (y * TILE_SIZE)
                              (cropWidth c x) (cropHeight c y))
                  (zrange (gridCols c)))
           (zrange (gridRows c)).

(** The canvas of the next coarser level. *)
Definition nextCanvas (host : Host) (c : Canvas) : Canvas :=
  let nextWidth := Qfloor (inject_Z (cwidth c) / 2) in
  let nextHeight := Qfloor (inject_Z (cheight c) / 2) in
  mkCanvas nextWidth nextHeight (resample host c nextWidth nextHeight).

(** The canvas [k] levels below the finest one. *)
Fixpoint levelCanvas (host : Host) (finest : Canvas) (k : nat) : Canvas :=
  match k with
  | O => finest
  | S k' => nextCanvas host (levelCanvas host finest k')
  end.

(** The canvas on which the worker starts: the decoded image drawn on a
    fresh canvas of its size. *)
Definition firstCanvas (image : Canvas) : Canvas :=
  drawImageRegion (newCanvas (cwidth image) (cheight image)) image
    0 0 (cwidth image) (cheight image) 0 0.

(** Tiles and log of [n] rounds that start on canvas [c]. *)
Fixpoint expectedTiles (host : Host) (n : nat) (c : Canvas)
  : list (Z * LevelTiles) :=
  match n with
  | O => []
  | S n' =>
      (Z.of_nat n', levelTiles c) ::
      expectedTiles host n' (if (0 <? Z.of_nat n')%Z then nextCanvas host c else c)
  end.

Fixpoint expectedLog (host : Host) (numLevels : Z) (n : nat) (c : Canvas)
  : list Action :=
  match n with
  | O => []
  | S n' =>
      Posted (MsgProgress (progressText (Z.of_nat n') numLevels)) ::
      levelDraws (Z.of_nat n') c ++
      expectedLog host numLevels n'
        (if (0 <? Z.of_nat n')%Z then nextCanvas host c else c)
  end.

(** Actions other than a terminal message and the closing. *)
Definition quiet (a : Action) : Prop :=
  match a with
  | Posted (MsgProgress _) => True
  | DrewTile _ _ _ _ _ _ _ => True
  | _ => False
  end.

End Expected.

(** A computation only appends actions that satisfy [P]. *)
Definition appends {Act A} (P : Act -> Prop) (m : M Act A) : Prop :=
  forall log, exists added, snd (m log) = log ++ added /\ Forall P added.

(** A computation that cannot throw. *)
Definition succeeds {Act A} (m : M Act A) : Prop :=
  forall log, exists a log', m log = (Returned a, log').

(** If a computation returns, it returns [a] and has appended [added]. *)
Definition returns {Act A} (m : M Act A) (a : A) (added : list Act) : Prop :=
  forall log,
    match m log with
    | (Returned a', log') => a' = a /\ log' = log ++ added
    | (Thrown _, _) => True
    end.

Module Run.
Import Builder Expected.

(** The level count the worker computes for an image. *)
Definition levelsOf (image : Canvas) : Z :=
  computeNumLevels (cwidth image) (cheight image).

(** The [data] of a build that went through. *)
Definition expectedData (host : Host) (image : Canvas) : PyramidData :=
  mkPyramid
    (expectedTiles host (Z.to_nat (levelsOf image)) (firstCanvas image))
    (cwidth image, cheight image)
    (levelsOf image).

(** The levels [n-1, ..., 0] in the order the loop visits them. *)
Definition levelsDown (n : nat) : list nat := rev (seq 0 n).

(** A host on which every canvas can be had; it resamples by taking every
    second pixel. *)
Definition roomyHost : Host :=
  mkHost (fun _ _ => true) (fun c _ _ u v => pixels c (2 * u)%Z (2 * v)%Z).

(** A host on which no canvas wider than 4096 can be had. *)
Definition tightHost : Host :=
  mkHost (fun w _ => (w <=? 4096)%Z) (fun c _ _ u v => pixels c (2 * u)%Z (2 * v)%Z).

(** An opaque image of the given size. *)
Definition plainImage (w h : Z) : Canvas := mkCanvas w h (fun _ _ => Colour 255).

End Run.

(** ** The level images of the script *)

(** The image that [resize] makes of [c] for the next coarser level,
    lines 228-232. *)
Definition scriptNext (kernel : Canvas -> Z -> Z -> Z -> Z -> Pixel)
  (c : Canvas) : Canvas :=
  let next_width := Qfloor (inject_Z (cwidth c) / 2) in
  let next_height := Qfloor (inject_Z (cheight c) / 2) in
  mkCanvas next_width next_height (kernel c next_width next_height).

(** The image from which the script cuts the tiles [k] levels below the
    finest one; the finest level is cut from the source image itself. *)
Fixpoint scriptImage (kernel : Canvas -> Z -> Z -> Z -> Z -> Pixel)
  (image : Canvas) (k : nat) : Canvas :=
  match k with
  | O => image
  | S k' => scriptNext kernel (scriptImage kernel image k')
  end.

(** ** Tiles and the outline of a log *)

(** [tile] is tile [(y, x)] of the level canvas [c]: [TILE_SIZE] square,
    the crop of extent [min(TILE_SIZE, width - x * TILE_SIZE)] by
    [min(TILE_SIZE, height - y * TILE_SIZE)] at offset (0,0), transparent
    elsewhere. *)
Definition isTileOf (c : Canvas) (y x : Z) (tile : Canvas) : Prop :=
  cwidth tile = TILE_SIZE /\
  cheight tile = TILE_SIZE /\
  forall u v,
    pixels tile u v =
    if ((0 <=? u) && (u <? Z.min TILE_SIZE (cwidth c - x * TILE_SIZE)) &&
        (0 <=? v) && (v <? Z.min TILE_SIZE (cheight c - y * TILE_SIZE)))%Z%bool
    then pixels c (x * TILE_SIZE + u)%Z (y * TILE_SIZE + v)%Z
    else Transparent.

(** An outline of a worker log that can be compared by computation. *)
Inductive Step : Set :=
| StepProgress (message : string)
| StepTile (level y x : Z)
| StepDone
| StepError
| StepClosed.

Definition outlineOf (a : Builder.Action) : Step :=
  match a with
  | Builder.Posted (Builder.MsgProgress message) => StepProgress message
  | Builder.Posted (Builder.MsgDone _) => StepDone
  | Builder.Posted (Builder.MsgError _) => StepError
  | Builder.DrewTile level y x _ _ _ _ => StepTile level y x
  | Builder.Closed => StepClosed
  end.

Definition outline (log : list Builder.Action) : list Step := map outlineOf log.

Definition isTileStep (level : Z) (s : Step) : bool :=
  match s with
  | StepTile level' _ _ => (level' =? level)%Z
  | _ => false
  end.

Definition isProgressStep (s : Step) : bool :=
  match s with StepProgress _ => true | _ => false end.

(** The steps after the last tile of [level]; the whole outline when the
    level has no tile. *)
Fixpoint afterTiling (level : Z) (steps : list Step) : list Step :=
  match steps with
  | [] => []
  | s :: rest =>
      if existsb (isTileStep level) rest then afterTiling level rest
      else if isTileStep level s then rest
      else s :: rest
  end.

(** A progress message is posted once the tiling of [level] is over. *)
Definition progressAfterTiling (level : Z) (steps : list Step) : bool :=
  existsb (isTileStep level) steps &&
  existsb isProgressStep (afterTiling level steps).

(** A build used as an example: 200 by 100 pixels, two levels. *)
Definition smallImage : Canvas := Run.plainImage 200 100.

Definition smallBuild : list Builder.Action :=
  Builder.onmessage Run.roomyHost (Some smallImage).

Definition smallData : Builder.PyramidData :=
  Run.expectedData Run.roomyHost smallImage.

(** ** Manifests *)

Module Manifest.
Import Loader.
Local Open Scope string_scope.

(** The text handed to [JSON.parse]. *)
Definition manifestText (f : ZipEntry) : string :=
  dropFinalSemicolon (trim (replace_first "window.imageData =" "" (content f))).

(** The ways in which the manifest of an archive is unusable, each with
    the message of the error it raises and the entries read before. *)
Inductive Malformed (engine : Engine) (entries : list ZipEntry)
  : string -> list Effect -> Prop :=
| Missing :
    findFile "image_data.js" entries = None ->
    Malformed engine entries "image_data.js not found in the ZIP file." []
| Unparseable f message :
    findFile "image_data.js" entries = Some f ->
    JSON_parse engine (manifestText f) = inl message ->
    Malformed engine entries message [ReadText (name f)]
| ParsedNull f :
    findFile "image_data.js" entries = Some f ->
    JSON_parse engine (manifestText f) = inr JNull ->
    Malformed engine entries (nullDestructured engine) [ReadText (name f)]
| FieldAbsent f v :
    findFile "image_data.js" entries = Some f ->
    JSON_parse engine (manifestText f) = inr v ->
    v <> JNull ->
    getProp v "originalDimensions" = None \/ getProp v "numLevels" = None ->
    Malformed engine entries "Invalid image_data.js format." [ReadText (name f)].

(** The double-quote character. *)
Definition quote : string := String (ascii_of_nat 34) EmptyString.

(** A manifest of a 1024 by 1024 image with four levels. *)
Definition goodText : string :=
  "{" ++ quote ++ "originalDimensions" ++ quote ++ ":{" ++
  quote ++ "width" ++ quote ++ ":1024," ++
  quote ++ "height" ++ quote ++ ":1024}," ++
  quote ++ "numLevels" ++ quote ++ ":4}".

Definition goodValue : JSON :=
  JObject [("originalDimensions",
            JObject [("width", JNumber 1024); ("height", JNumber 1024)]);
           ("numLevels", JNumber 4)].

(** An engine that parses the two manifests of the examples and decimal
    level names up to 9. *)
Definition exampleEngine : Engine :=
  mkEngine
    (fun s => if String.eqb s goodText then inr goodValue
              else if String.eqb s "{}" then inr (JObject [])
              else inl "Unexpected token in JSON")
    (fun s => match s with
              | String c EmptyString =>
                  let n := nat_of_ascii c in
                  if ((48 <=? n) && (n <=? 57))%nat
                  then Some (inject_Z (Z.of_nat (n - 48)))
                  else None
              | _ => None
              end)
    "Cannot destructure property of null".

Definition tileEntry : ZipEntry := mkEntry "tiles/0/0_0.png" false "PNG".

(** An archive whose manifest lacks both fields. *)
Definition emptyManifestArchive : list ZipEntry :=
  [mkEntry "image_data.js" false "window.imageData = {};"; tileEntry].

(** An archive with a complete manifest. *)
Definition goodArchive : list ZipEntry :=
  [mkEntry "image_data.js" false ("window.imageData = " ++ goodText ++ ";");
   tileEntry].

End Manifest.

(** A source image whose width and height are odd. *)
Definition oddImage : Canvas := Run.plainImage 1001 1001.

Definition oddData : ImageData :=
  mkImageData (mkDims 1001 1001) (Run.levelsOf oddImage).

(** * The rest of the component and of the page *)

(** ** The frame, the clicks and the controls of the component
    ([components/ImageExplorer.tsx]) *)

Module View.

(** The callback of the [ResizeObserver], lines 98-110: the frame for a
    parent of the given content size and an image of positive size, in
    exact arithmetic; [Float.frameFor] is the callback with its
    roundings. *)
Definition frameFor (originalDimensions : ImageDimensions)
  (parentWidth parentHeight : Q) : ImageDimensions :=
  let imageAspectRatio :=
    width originalDimensions / height originalDimensions in
  let frameWidth := parentWidth * (95 # 100) in
  let frameHeight := frameWidth / imageAspectRatio in
  if Qlt_le_dec (parentHeight * (95 # 100)) frameHeight
  then
    let frameHeight := parentHeight * (95 # 100) in
    let frameWidth := frameHeight * imageAspectRatio in
    mkDims frameWidth frameHeight
  else mkDims frameWidth frameHeight.

(** Lines 110-111: the new frame is stored and the component is marked as
    not initialised. *)
Definition onResize (data : ImageData) (st : ViewportState)
  (parentWidth parentHeight : Q) : ViewportState :=
  mkState (zoomIndex st) (minZoomIndex st) (pan st)
    (frameFor (originalDimensions data) parentWidth parentHeight) false.

(** [handleZoomOutFully], line 252. *)
Definition handleZoomOutFully (st : ViewportState) : ViewportState :=
  mkState (zoomIndex st) (minZoomIndex st) (pan st) (viewportSize st) false.

(** [onClick], lines 254-267; [rectLeft] and [rectTop] are the corner of
    the container's bounding rectangle. *)
Definition onClick (data : ImageData) (st : ViewportState) (shiftKey : bool)
  (clientX clientY rectLeft rectTop : Q) : ViewportState :=
  let screenPoint := mkPoint (clientX - rectLeft) (clientY - rectTop) in
  if shiftKey then
    if (minZoomIndex st <? zoomIndex st)%Z
    then Explorer.handleZoom data st (zoomIndex st - 1) screenPoint
    else st
  else
    if (zoomIndex st <? numLevels data - 1)%Z
    then Explorer.handleZoom data st (zoomIndex st + 1) screenPoint
    else st.

(** The values computed on every render, lines 269-284. *)
Definition scale (data : ImageData) (st : ViewportState) : Q :=
  pow2 (numLevels data - 1 - zoomIndex st).

Definition worldWidth (data : ImageData) (st : ViewportState) : Q :=
  width (originalDimensions data) / scale data st.

Definition worldHeight (data : ImageData) (st : ViewportState) : Q :=
  height (originalDimensions data) / scale data st.

Definition displayedZoom (st : ViewportState) : Q :=
  pow2 (zoomIndex st - minZoomIndex st).

(** [Math.round]. *)
Definition round (q : Q) : Z := Qfloor (q + (1 # 2)).

Definition displayedResolutionWidth (data : ImageData) (st : ViewportState) : Z :=
  let visibleWorldWidth := Qmin (worldWidth data st) (width (viewportSize st)) in
  round (visibleWorldWidth * scale data st).

Definition displayedResolutionHeight (data : ImageData) (st : ViewportState) : Z :=
  let visibleWorldHeight := Qmin (worldHeight data st) (height (viewportSize st)) in
  round (visibleWorldHeight * scale data st).

Definition Qltb (a b : Q) : bool := if Qlt_le_dec a b then true else false.

Definition Qleb (a b : Q) : bool := if Qlt_le_dec b a then false else true.

Definition canPanX (data : ImageData) (st : ViewportState) : bool :=
  Qltb (width (viewportSize st)) (worldWidth data st).

Definition canPanY (data : ImageData) (st : ViewportState) : bool :=
  Qltb (height (viewportSize st)) (worldHeight data st).

Definition disableLeft (data : ImageData) (st : ViewportState) : bool :=
  negb (canPanX data st) || Qleb (px (pan st)) 0.

Definition disableRight (data : ImageData) (st : ViewportState) : bool :=
  negb (canPanX data st) ||
  Qleb (worldWidth data st - width (viewportSize st) - 1) (px (pan st)).

Definition disableUp (data : ImageData) (st : ViewportState) : bool :=
  negb (canPanY data st) || Qleb (py (pan st)) 0.

Definition disableDown (data : ImageData) (st : ViewportState) : bool :=
  negb (canPanY data st) ||
  Qleb (worldHeight data st - height (viewportSize st) - 1) (py (pan st)).

Definition showPanControls (st : ViewportState) : bool :=
  Qltb 1 (displayedZoom st).

Definition disabled (data : ImageData) (st : ViewportState)
  (direction : Direction) : bool :=
  match direction with
  | Up => disableUp data st
  | Down => disableDown data st
  | Left => disableLeft data st
  | Right => disableRight data st
  end.

(** The cursor, lines 286-291. *)
Inductive Cursor : Set := cursor_default | cursor_zoom_out | cursor_zoom_in.

Definition cursorClass (data : ImageData) (st : ViewportState)
  (isShiftPressed : bool) : Cursor :=
  if isShiftPressed && (minZoomIndex st <? zoomIndex st)%Z then cursor_zoom_out
  else if negb isShiftPressed && (zoomIndex st <? numLevels data - 1)%Z
       then cursor_zoom_in
       else cursor_default.

(** A press on a pan button, lines 297-300: the button exists only while
    [showPanControls] holds, and a disabled button does not call its
    handler. *)
Definition pressPan (data : ImageData) (st : ViewportState)
  (direction : Direction) : ViewportState :=
  if showPanControls st && negb (disabled data st direction)
  then Explorer.handlePan data st direction
  else st.

(** A press on the minus and on the plus button, lines 322-341. *)
Definition pressMinus (data : ImageData) (st : ViewportState) : ViewportState :=
  if (zoomIndex st <=? minZoomIndex st)%Z then st
  else Explorer.handleZoom data st (zoomIndex st - 1)
         (mkPoint (width (viewportSize st) / 2) (height (viewportSize st) / 2)).

Definition pressPlus (data : ImageData) (st : ViewportState) : ViewportState :=
  if (numLevels data - 1 <=? zoomIndex st)%Z then st
  else Explorer.handleZoom data st (zoomIndex st + 1)
         (mkPoint (width (viewportSize st) / 2) (height (viewportSize st) / 2)).

(** The values [a, a+1, ..., b-1] of a counting loop. *)
Definition between (a b : Z) : list Z :=
  map (fun k => (a + Z.of_nat k)%Z) (seq 0 (Z.to_nat (b - a))).

(** A call [ctx.drawImage(img, dx, dy, TILE_SIZE, TILE_SIZE)] for the tile
    [(row, col)] of a level. *)
Record Draw : Set := mkDraw {
  drawLevel : Z; drawRow : Z; drawCol : Z; drawX : Z; drawY : Z
}.

(** The drawing effect, lines 166-210, for a mounted canvas with a 2d
    context.  [tiles level y x] is [tiles[level][`${y}_${x}`]], and the
    test [if (tileSrc)] fails for an absent entry and for the empty
    string; the result lists the draws in the order of the loops, those
    that wait for an image to load included. *)
Definition drawTiles (tiles : Z -> Z -> Z -> option string)
  (st : ViewportState) : list Draw :=
  if negb (isInitialized st) || Qeq_bool (width (viewportSize st)) 0 then []
  else
    let startCol := Qfloor (px (pan st) / inject_Z TILE_SIZE) in
    let endCol :=
      Qceiling ((px (pan st) + width (viewportSize st)) / inject_Z TILE_SIZE) in
    let startRow := Qfloor (py (pan st) / inject_Z TILE_SIZE) in
    let endRow :=
      Qceiling ((py (pan st) + height (viewportSize st)) / inject_Z TILE_SIZE) in
    flat_map (fun y =>
      flat_map (fun x =>
        match tiles (zoomIndex st) y x with
        | Some (String _ _) =>
            [mkDraw (zoomIndex st) y x
               (Qfloor (inject_Z x * inject_Z TILE_SIZE - px (pan st)))
               (Qfloor (inject_Z y * inject_Z TILE_SIZE - py (pan st)))]
        | _ => []
        end)
        (between startCol endCol))
      (between startRow endRow).

End View.

(** ** Vocabulary for the component *)

(** Level [i] fits in the view. *)
Definition fits (data : ImageData) (vs : ImageDimensions) (i : Z) : Prop :=
  width (Explorer.worldSizeAt data i) <= width vs /\
  height (Explorer.worldSizeAt data i) <= height vs.

(** The pan is what [clampPan] would make of it at the current level. *)
Definition clampedState (data : ImageData) (st : ViewportState) : Prop :=
  point_eq
    (Explorer.clampPan (pan st)
       (Explorer.worldSizeAt data (zoomIndex st)) (viewportSize st))
    (pan st).

(** The coordinate of a pan along the axis of a direction. *)
Definition along (direction : Direction) (p : Point) : Q :=
  match direction with
  | Left | Right => px p
  | Up | Down => py p
  end.

(** The coordinate across the axis of a direction. *)
Definition across (direction : Direction) (p : Point) : Q :=
  match direction with
  | Left | Right => py p
  | Up | Down => px p
  end.




(** The tile map of a pyramid in which every tile has the same source. *)
Definition everyTile (level y x : Z) : option string := Some "blob:tile"%string.

(** ** Vocabulary for the pyramid *)

(** The canvas from which the worker cuts the tiles of [level]. *)
Definition canvasOfLevel (host : Builder.Host) (image : Canvas) (level : Z)
  : Canvas :=
  Expected.levelCanvas host (Expected.firstCanvas image)
    (Z.to_nat (Run.levelsOf image) - 1 - Z.to_nat level).

(** Level, row and column of the tiles of a pyramid, one entry for each
    tile of each level. *)
Definition pyramidKeys (tiles : list (Z * Builder.LevelTiles))
  : list (Z * (Z * Z)) :=
  flat_map (fun entry => map (fun tile => (fst entry, fst tile)) (snd entry))
           tiles.

(** Level, row and column of a file of the script. *)
Definition fileKey (f : PyBuilder.TileFile) : Z * (Z * Z) :=
  (PyBuilder.file_level f, (PyBuilder.file_y f, PyBuilder.file_x f)).

(** A kernel for the script's [resize] that takes every second pixel. *)
Definition everySecond (c : Canvas) (w h u v : Z) : Pixel :=
  pixels c (2 * u)%Z (2 * v)%Z.

(** The [originalDimensions] and [numLevels] that the explorer receives
    for a pyramid of the worker. *)
Definition dataOf (pyramid : Builder.PyramidData) : ImageData :=
  mkImageData
    (mkDims (inject_Z (fst (Builder.pyramidDimensions pyramid)))
            (inject_Z (snd (Builder.pyramidDimensions pyramid))))
    (Builder.pyramidLevels pyramid).

(** * The page around the worker ([components/ImageSplitter.tsx]) *)

Module Page.

Local Open Scope string_scope.
Local Open Scope list_scope.

(** The key [`${y}_${x}`] of a tile; the worker's model keeps the pair. *)
Definition tileKey (key : Z * Z) : string :=
  string_of_Z (fst key) ++ "_" ++ string_of_Z (snd key).

(** *** Objects as the lists of their assignments

    [o[k] = a] appends [(k, a)].  Reading a property finds the last
    assignment; enumerating the keys ([Object.keys], [for ... in]) gives
    every key once: keys that are array indices (the levels) in ascending
    order, other keys (the tile keys) in the order of their first
    assignment. *)

Fixpoint assigned {A} (k : Z) (o : list (Z * A)) : option A :=
  match o with
  | [] => None
  | (k', a) :: rest =>
      match assigned k rest with
      | Some b => Some b
      | None => if (k' =? k)%Z then Some a else None
      end
  end.

Fixpoint insertKey (k : Z) (keys : list Z) : list Z :=
  match keys with
  | [] => [k]
  | h :: rest =>
      if (k <? h)%Z then k :: keys
      else if (k =? h)%Z then keys
      else h :: insertKey k rest
  end.

Definition indexKeys {A} (o : list (Z * A)) : list Z :=
  fold_right insertKey [] (map fst o).

Definition keyEqb (a b : Z * Z) : bool :=
  ((fst a =? fst b) && (snd a =? snd b))%Z.

Fixpoint assignedKey {A} (k : Z * Z) (o : list ((Z * Z) * A)) : option A :=
  match o with
  | [] => None
  | (k', a) :: rest =>
      match assignedKey k rest with
      | Some b => Some b
      | None => if keyEqb k' k then Some a else None
      end
  end.

Fixpoint firstKeys {A} (seen : list (Z * Z)) (o : list ((Z * Z) * A))
  : list (Z * Z) :=
  match o with
  | [] => []
  | (k, _) :: rest =>
      if existsb (keyEqb k) seen then firstKeys seen rest
      else k :: firstKeys (k :: seen) rest
  end.

Definition stringKeys {A} (o : list ((Z * Z) * A)) : list (Z * Z) :=
  firstKeys [] o.

(** [o[level]] for a level that may be absent, read as [{}]. *)
Definition levelOf {A} (o : list (Z * list ((Z * Z) * A))) (level : Z)
  : list ((Z * Z) * A) :=
  match assigned level o with
  | Some tiles => tiles
  | None => []
  end.

(** *** [generateTiles], lines 562-625 *)

(** [GeneratedImageData]: the object URLs of the tiles, the dimensions of
    the source and the number of levels. *)
Record GeneratedData : Type := mkGenerated {
  tileUrls : list (Z * list ((Z * Z) * string));
  generatedDimensions : Z * Z;
  generatedLevels : Z
}.

Inductive Effect : Type :=
| SetIsProcessing (b : bool)
| SetGeneratedData (data : option GeneratedData)
| SetGeneratedBlobs (blobs : option (list (Z * Builder.LevelTiles)))
| SetProgressMessage (message : string)
| TerminatePrevious
| StartWorker
| PostImage
| CreateObjectURL (level : Z) (key : Z * Z)
| OnTilesGenerated (data : GeneratedData)
| ConsoleError (message : string)
| Alert (message : string)
| TerminateWorker
| RevokeWorkerUrl.

(** The [done] branch of [worker.onmessage], lines 582-605.
    [createObjectURL] is [URL.createObjectURL]. *)
Definition urlsOf (createObjectURL : Canvas -> string)
  (blobs : list (Z * Builder.LevelTiles))
  : list (Z * list ((Z * Z) * string)) :=
  map (fun level =>
         (level,
          flat_map (fun key =>
                      match assignedKey key (levelOf blobs level) with
                      | Some blob => [(key, createObjectURL blob)]
                      | None => []
                      end)
                   (stringKeys (levelOf blobs level))))
      (indexKeys blobs).

Definition urlEffects (blobs : list (Z * Builder.LevelTiles)) : list Effect :=
  flat_map (fun level =>
              map (fun key => CreateObjectURL level key)
                  (stringKeys (levelOf blobs level)))
           (indexKeys blobs).

Definition finalDataOf (createObjectURL : Canvas -> string)
  (data : Builder.PyramidData) : GeneratedData :=
  mkGenerated (urlsOf createObjectURL (Builder.tiles data))
    (Builder.pyramidDimensions data) (Builder.pyramidLevels data).

(** [worker.onmessage], lines 577-613. *)
Definition onWorkerMessage (createObjectURL : Canvas -> string)
  (m : Builder.Message) : list Effect :=
  match m with
  | Builder.MsgProgress message => [SetProgressMessage message]
  | Builder.MsgDone data =>
      [SetGeneratedBlobs (Some (Builder.tiles data))] ++
      urlEffects (Builder.tiles data) ++
      [SetGeneratedData (Some (finalDataOf createObjectURL data));
       OnTilesGenerated (finalDataOf createObjectURL data);
       SetIsProcessing false;
       SetProgressMessage "";
       TerminateWorker;
       RevokeWorkerUrl]
  | Builder.MsgError message =>
      [ConsoleError message;
       Alert ("An error occurred during tiling: " ++ message);
       SetIsProcessing false;
       TerminateWorker;
       RevokeWorkerUrl]
  end.

(** The messages are handled in the order in which they were posted; a
    terminated worker delivers nothing more. *)
Fixpoint deliver (createObjectURL : Canvas -> string)
  (messages : list Builder.Message) : list Effect :=
  match messages with
  | [] => []
  | m :: rest =>
      onWorkerMessage createObjectURL m ++
      (if Builder.isTerminal m then [] else deliver createObjectURL rest)
  end.

(** [generateTiles] with the run of the worker it starts.  [imageFile] is
    the decoded content of the selected file, if a file is selected and
    [None] inside when [createImageBitmap] rejects it; [previous] tells
    whether [workerRef.current] holds an earlier worker.  The worker's own
    [try]/[catch] leaves nothing for [worker.onerror]. *)
Definition generateTiles (host : Builder.Host)
  (createObjectURL : Canvas -> string)
  (imageFile : option (option Canvas)) (previous : bool) : list Effect :=
  match imageFile with
  | None => []
  | Some decoded =>
      [SetIsProcessing true;
       SetGeneratedData None;
       SetGeneratedBlobs None;
       SetProgressMessage "Initializing worker..."] ++
      (if previous then [TerminatePrevious] else []) ++
      [StartWorker; PostImage] ++
      deliver createObjectURL (Builder.posted (Builder.onmessage host decoded))
  end.

(** [tiles[zoomIndex] || {}] and then [currentTiles[`${y}_${x}`]] in the
    drawing effect of the explorer. *)
Definition tileSource (data : GeneratedData) (level y x : Z) : option string :=
  assignedKey (y, x) (levelOf (tileUrls data) level).

(** *** [handleExport], lines 627-687 *)

(** The object [imageData] that is written to [image_data.js]. *)
Definition manifestOf (data : GeneratedData) : Loader.JSON :=
  Loader.JObject
    [("originalDimensions",
      Loader.JObject
        [("width", Loader.JNumber (inject_Z (fst (generatedDimensions data))));
         ("height", Loader.JNumber (inject_Z (snd (generatedDimensions data))))]);
     ("numLevels", Loader.JNumber (inject_Z (generatedLevels data)))].

(** The entries added for the tiles, lines 644-655: the folder [tiles],
    and for every level its folder and its files. *)
Definition tileEntries (png : Canvas -> string)
  (blobs : list (Z * Builder.LevelTiles)) : list Loader.ZipEntry :=
  Loader.mkEntry "tiles/" true "" ::
  flat_map (fun level =>
              Loader.mkEntry ("tiles/" ++ string_of_Z level ++ "/") true "" ::
              flat_map (fun key =>
                          match assignedKey key (levelOf blobs level) with
                          | Some blob =>
                              [Loader.mkEntry
                                 ("tiles/" ++ string_of_Z level ++ "/" ++
                                  tileKey key ++ ".png")
                                 false (png blob)]
                          | None => []
                          end)
                       (stringKeys (levelOf blobs level)))
           (indexKeys blobs).

(** The archive that [handleExport] hands to [generateAsync]; [None] when
    it returns at once.  [stringify] is [JSON.stringify(_, null, 2)],
    [png] the bytes of a tile blob and [html] the text of
    [createStandaloneHtml()].  The progress messages and the download are
    left out. *)
Definition handleExport (stringify : Loader.JSON -> string)
  (png : Canvas -> string) (html : string)
  (generatedData : option GeneratedData) (imageFile : bool)
  (generatedBlobs : option (list (Z * Builder.LevelTiles)))
  : option (list Loader.ZipEntry) :=
  match generatedData, imageFile, generatedBlobs with
  | Some data, true, Some blobs =>
      Some ([Loader.mkEntry "image_data.js" false
               ("window.imageData = " ++ stringify (manifestOf data) ++ ";")] ++
            tileEntries png blobs ++
            [Loader.mkEntry "index.html" false html])
  | _, _, _ => None
  end.

(** The source of a tile in the exported page's drawing effect:
    [`tiles/${zoomIndex}/${y}_${x}.png`]. *)
Definition standaloneTileSrc (zoomIndex y x : Z) : string :=
  "tiles/" ++ string_of_Z zoomIndex ++ "/" ++ string_of_Z y ++ "_" ++
  string_of_Z x ++ ".png".

End Page.

(** ** Vocabulary for the page *)

(** What the page shows after a list of effects: the state of
    [isProcessing] and the progress message. *)
Definition processingAfter (effects : list Page.Effect) : bool :=
  fold_left (fun st e => match e with Page.SetIsProcessing b => b | _ => st end)
            effects false.

Definition progressAfter (effects : list Page.Effect) : string :=
  fold_left (fun st e =>
               match e with Page.SetProgressMessage message => message | _ => st end)
            effects EmptyString.

(** The results handed to [onTilesGenerated], the alerts, and the number
    of calls of [worker.terminate()]. *)
Definition handedOver (effects : list Page.Effect) : list Page.GeneratedData :=
  flat_map (fun e => match e with Page.OnTilesGenerated data => [data] | _ => [] end)
           effects.

Definition alerts (effects : list Page.Effect) : list string :=
  flat_map (fun e => match e with Page.Alert message => [message] | _ => [] end)
           effects.

Definition terminations (effects : list Page.Effect) : nat :=
  List.length (filter (fun e => match e with Page.TerminateWorker => true | _ => false end)
                 effects).

(** An [URL.createObjectURL] for the examples. *)
Definition exampleURL (blob : Canvas) : string := "blob:tile"%string.

(** The text of a progress message. *)
Definition progressTextOf (m : Builder.Message) : string :=
  match m with
  | Builder.MsgProgress message => message
  | _ => EmptyString
  end.


(** ** Vocabulary for archives *)

(** No character of [s] is [c]. *)
Fixpoint without (c : ascii) (s : string) : bool :=
  match s with
  | EmptyString => true
  | String a s' => negb (Ascii.eqb a c) && without c s'
  end.

(** The tile that [handleZipFile] stores for an entry that matches
    [/^tiles\//]: none for a folder, for a path that does not have three
    parts and for a level name that is not a number. *)
Definition accepted (engine : Loader.Engine) (e : Loader.ZipEntry)
  : option (Q * string * Loader.Blob) :=
  if Loader.dir e then None
  else
    match Loader.splitSlash (Loader.name e) with
    | [_; levelPart; keyPart] =>
        match Loader.Number engine levelPart with
        | Some level =>
            Some (level, Loader.replace_first ".png" "" keyPart,
                  Loader.content e)
        | None => None
        end
    | _ => None
    end.

(** The effects of reading the tile of an entry. *)
Definition readsOf (engine : Loader.Engine) (e : Loader.ZipEntry)
  : list Loader.Effect :=
  match accepted engine e with
  | Some _ => [Loader.ReadBlob (Loader.name e);
               Loader.CreateObjectURL (Loader.name e)]
  | None => []
  end.

(** The manifest of an archive can be used: the file is there, its text
    parses to a value other than [null], and both fields are truthy. *)
Definition Usable (engine : Loader.Engine) (entries : list Loader.ZipEntry)
  (f : Loader.ZipEntry) (v : Loader.JSON) : Prop :=
  Loader.findFile "image_data.js" entries = Some f /\
  Loader.JSON_parse engine (Manifest.manifestText f) = inr v /\
  v <> Loader.JNull /\
  Loader.truthy (Loader.getProp v "originalDimensions") = true /\
  Loader.truthy (Loader.getProp v "numLevels") = true.

(** The tiles of an export, listed as [handleExport] adds them, with
    the level and key under which the loader stores them. *)
Definition exportedTiles (png : Canvas -> string)
  (blobs : list (Z * Builder.LevelTiles)) : list (Q * string * Loader.Blob) :=
  flat_map (fun level =>
              flat_map (fun key =>
                          match Page.assignedKey key (Page.levelOf blobs level) with
                          | Some blob =>
                              [(inject_Z level, Page.tileKey key, png blob)]
                          | None => []
                          end)
                       (Page.stringKeys (Page.levelOf blobs level)))
           (Page.indexKeys blobs).

(** A text without a slash and without a dot, as decimal numerals and
    tile keys are. *)
Definition numeral (s : string) : Prop :=
  without "/" s = true /\ without "." s = true.

(** The tile files of an export, in the order in which they are added. *)
Definition exportedFiles (png : Canvas -> string)
  (blobs : list (Z * Builder.LevelTiles)) : list Loader.ZipEntry :=
  flat_map (fun level =>
              flat_map (fun key =>
                          match Page.assignedKey key (Page.levelOf blobs level) with
                          | Some blob =>
                              [Loader.mkEntry
                                 ("tiles/" ++ string_of_Z level ++ "/" ++
                                  Page.tileKey key ++ ".png")%string
                                 false (png blob)]
                          | None => []
                          end)
                       (Page.stringKeys (Page.levelOf blobs level)))
           (Page.indexKeys blobs).

(** *** An export used as an example *)

(** The result of the small build on the page. *)
Definition smallGenerated : Page.GeneratedData :=
  Page.finalDataOf exampleURL smallData.

(** A [JSON.stringify] and a PNG encoder for the example: every object
    is written as the manifest of the small build, every tile as the
    same bytes. *)
Definition smallManifestText : string :=
  ("{" ++ Manifest.quote ++ "originalDimensions" ++ Manifest.quote ++ ":{" ++
   Manifest.quote ++ "width" ++ Manifest.quote ++ ":200," ++
   Manifest.quote ++ "height" ++ Manifest.quote ++ ":100}," ++
   Manifest.quote ++ "numLevels" ++ Manifest.quote ++ ":2}")%string.

Definition exampleStringify (v : Loader.JSON) : string := smallManifestText.

Definition examplePng (blob : Canvas) : string := "PNG"%string.

(** An engine that parses that manifest and decimal level names up to 9. *)
Definition sessionEngine : Loader.Engine :=
  Loader.mkEngine
    (fun s => if String.eqb s smallManifestText
              then inr (Page.manifestOf smallGenerated)
              else inl "Unexpected token in JSON"%string)
    (Loader.Number Manifest.exampleEngine)
    "Cannot destructure property of null"%string.

(** A source image of 64 by 64 pixels, for which the worker computes no
    level at all. *)
Definition tinyImage : Canvas := Run.plainImage 64 64.

Definition tinyData : Builder.PyramidData :=
  Run.expectedData Run.roomyHost tinyImage.

(** The test of [content.file(/^tiles\//)]. *)
Definition isTileFile (e : Loader.ZipEntry) : bool :=
  String.prefix "tiles/" (Loader.name e) && negb (Loader.dir e).

(** The result of the build of the tiny image on the page, its manifest
    text, and an engine that parses it. *)
Definition tinyGenerated : Page.GeneratedData :=
  Page.finalDataOf exampleURL tinyData.

Definition tinyManifestText : string :=
  ("{" ++ Manifest.quote ++ "originalDimensions" ++ Manifest.quote ++ ":{" ++
   Manifest.quote ++ "width" ++ Manifest.quote ++ ":64," ++
   Manifest.quote ++ "height" ++ Manifest.quote ++ ":64}," ++
   Manifest.quote ++ "numLevels" ++ Manifest.quote ++ ":0}")%string.

Definition tinyStringify (v : Loader.JSON) : string := tinyManifestText.

Definition tinyEngine : Loader.Engine :=
  Loader.mkEngine
    (fun s => if String.eqb s tinyManifestText
              then inr (Page.manifestOf tinyGenerated)
              else inl "Unexpected token in JSON"%string)
    (Loader.Number Manifest.exampleEngine)
    "Cannot destructure property of null"%string.

(** * The archive of the companion script ([create_tiles_zip]) *)

Module PyZip.

Local Open Scope string_scope.
Local Open Scope list_scope.




End PyZip.




(** The direction of the button on the other side. *)
Definition opposite (direction : Direction) : Direction :=
  match direction with
  | Up => Down
  | Down => Up
  | Left => Right
  | Right => Left
  end.

(** ** The arithmetic of the handlers in binary64

    The frame, the clamp, the zoom and the pan once more, with every
    operation rounded to the nearest double as JavaScript rounds it.  The
    exponent is not bounded: the infinities, NaN and the subnormal numbers
    are not modelled, and the theorems about this module assume operands of
    moderate size, on which no operation reaches them. *)

Module Float.

(** The exponent of a positive number: [floor (log2 x)]. *)
Definition ilog2 (x : Q) : Z :=
  let e := (Z.log2 (Qnum x) - Z.log2 (Zpos (Qden x)))%Z in
  if Qlt_le_dec x (pow2 e) then (e - 1)%Z else e.

(** The integer nearest to [q]; of two that are equally near, the even
    one. *)
Definition nearestEven (q : Q) : Z :=
  let f := Qfloor q in
  match Qcompare (q - inject_Z f) (1 # 2) with
  | Lt => f
  | Eq => if Z.even f then f else (f + 1)%Z
  | Gt => (f + 1)%Z
  end.

(** [n] is the integer nearest to [q], the even one of two. *)
Definition isNearestEven (q : Q) (n : Z) : Prop :=
  Qabs (inject_Z n - q) < 1 # 2 \/
  (Qabs (inject_Z n - q) == 1 # 2 /\ Z.even n = true).

(** The distance of the doubles around [x]: a significand of 53 bits. *)
Definition ulp (x : Q) : Q := pow2 (ilog2 (Qabs x) - 52).

(** The double nearest to [x], ties to even. *)
Definition binary64 (x : Q) : Q :=
  if Qeq_bool x 0 then 0
  else inject_Z (nearestEven (x / ulp x)) * ulp x.

(** The operations of JavaScript on numbers: the exact result, rounded. *)
Definition add (a b : Q) : Q := binary64 (a + b).
Definition sub (a b : Q) : Q := binary64 (a - b).
Definition mul (a b : Q) : Q := binary64 (a * b).
Definition div (a b : Q) : Q := binary64 (a / b).

(** The callback of the [ResizeObserver], lines 98-110; the literal
    [0.95] is the double nearest to 95/100. *)
Definition frameFor (originalDimensions : ImageDimensions)
  (parentWidth parentHeight : Q) : ImageDimensions :=
  let imageAspectRatio :=
    div (width originalDimensions) (height originalDimensions) in
  let frameWidth := mul parentWidth (binary64 (95 # 100)) in
  let frameHeight := div frameWidth imageAspectRatio in
  if Qlt_le_dec (mul parentHeight (binary64 (95 # 100))) frameHeight
  then
    let frameHeight := mul parentHeight (binary64 (95 # 100)) in
    let frameWidth := mul frameHeight imageAspectRatio in
    mkDims frameWidth frameHeight
  else mkDims frameWidth frameHeight.

(** [clampPan], lines 119-129. *)
Definition clampPan (newPan : Point) (worldSize viewSize : ImageDimensions)
  : Point :=
  let x := px newPan in
  let y := py newPan in
  let x :=
    if Qlt_le_dec (width worldSize) (width viewSize)
    then div (sub (width worldSize) (width viewSize)) 2
    else Qmax 0 (Qmin x (sub (width worldSize) (width viewSize))) in
  let y :=
    if Qlt_le_dec (height worldSize) (height viewSize)
    then div (sub (height worldSize) (height viewSize)) 2
    else Qmax 0 (Qmin y (sub (height worldSize) (height viewSize))) in
  mkPoint x y.

(** The world size of level [i]; the scale [2 ** (numLevels - 1 - i)] is
    a power of two and so a double. *)
Definition worldSizeAt (data : ImageData) (i : Z) : ImageDimensions :=
  let scale := pow2 (numLevels data - 1 - i) in
  mkDims (div (width (originalDimensions data)) scale)
         (div (height (originalDimensions data)) scale).

(** [handleZoom], lines 212-234. *)
Definition handleZoom (data : ImageData) (st : ViewportState)
  (newZoomIndex : Z) (screenPoint : Point) : ViewportState :=
  let oldZoomIndex := zoomIndex st in
  if (newZoomIndex =? oldZoomIndex)%Z then st
  else
    let clampedNewZoomIndex :=
      Z.max (minZoomIndex st) (Z.min newZoomIndex (numLevels data - 1)) in
    let oldScale := pow2 (numLevels data - 1 - oldZoomIndex) in
    let newScale := pow2 (numLevels data - 1 - clampedNewZoomIndex) in
    let zoomRatio := div oldScale newScale in
    let newWorldWidth := div (width (originalDimensions data)) newScale in
    let newWorldHeight := div (height (originalDimensions data)) newScale in
    let worldPointX := add (px (pan st)) (px screenPoint) in
    let worldPointY := add (py (pan st)) (py screenPoint) in
    let newWorldPointX := mul worldPointX zoomRatio in
    let newWorldPointY := mul worldPointY zoomRatio in
    let newPanX := sub newWorldPointX (px screenPoint) in
    let newPanY := sub newWorldPointY (py screenPoint) in
    mkState clampedNewZoomIndex (minZoomIndex st)
      (clampPan (mkPoint newPanX newPanY)
                (mkDims newWorldWidth newWorldHeight) (viewportSize st))
      (viewportSize st) (isInitialized st).

(** [handlePan], lines 236-250; [0.25] is a double. *)
Definition handlePan (data : ImageData) (st : ViewportState)
  (direction : Direction) : ViewportState :=
  let panAmount := 25 # 100 in
  let newPanX := px (pan st) in
  let newPanY := py (pan st) in
  let newPanX := match direction with
                 | Left => sub newPanX (mul (width (viewportSize st)) panAmount)
                 | _ => newPanX end in
  let newPanX := match direction with
                 | Right => add newPanX (mul (width (viewportSize st)) panAmount)
                 | _ => newPanX end in
  let newPanY := match direction with
                 | Up => sub newPanY (mul (height (viewportSize st)) panAmount)
                 | _ => newPanY end in
  let newPanY := match direction with
                 | Down => add newPanY (mul (height (viewportSize st)) panAmount)
                 | _ => newPanY end in
  let scale := pow2 (numLevels data - 1 - zoomIndex st) in
  let worldWidth := div (width (originalDimensions data)) scale in
  let worldHeight := div (height (originalDimensions data)) scale in
  mkState (zoomIndex st) (minZoomIndex st)
    (clampPan (mkPoint newPanX newPanY)
              (mkDims worldWidth worldHeight) (viewportSize st))
    (viewportSize st) (isInitialized st).

(** *** Vocabulary *)

(** One axis of [clampPan]. *)
Definition clampAxis (p w v : Q) : Q :=
  if Qlt_le_dec w v then div (sub w v) 2 else Qmax 0 (Qmin p (sub w v)).

(** The world point under a screen point, as [handleZoom] computes it. *)
Definition worldPoint (st : ViewportState) (screenPoint : Point) : Point :=
  mkPoint (add (px (pan st)) (px screenPoint))
          (add (py (pan st)) (py screenPoint)).

(** The pan that [handleZoom] hands to the clamp. *)
Definition zoomedPan (data : ImageData) (st : ViewportState) (target : Z)
  (screenPoint : Point) : Point :=
  let ratio := div (pow2 (numLevels data - 1 - zoomIndex st))
                   (pow2 (numLevels data - 1 - zoomTarget data st target)) in
  mkPoint
    (sub (mul (add (px (pan st)) (px screenPoint)) ratio) (px screenPoint))
    (sub (mul (add (py (pan st)) (py screenPoint)) ratio) (py screenPoint)).

(** The pan that [handlePan] hands to the clamp. *)
Definition movedPan (st : ViewportState) (direction : Direction) : Point :=
  match direction with
  | Left => mkPoint (sub (px (pan st)) (mul (width (viewportSize st)) (25 # 100)))
                    (py (pan st))
  | Right => mkPoint (add (px (pan st)) (mul (width (viewportSize st)) (25 # 100)))
                     (py (pan st))
  | Up => mkPoint (px (pan st))
                  (sub (py (pan st)) (mul (height (viewportSize st)) (25 # 100)))
  | Down => mkPoint (px (pan st))
                    (add (py (pan st)) (mul (height (viewportSize st)) (25 # 100)))
  end.

(** The pan is what [clampPan] would make of it at the current level. *)
Definition clampedState (data : ImageData) (st : ViewportState) : Prop :=
  point_eq
    (clampPan (pan st) (worldSizeAt data (zoomIndex st)) (viewportSize st))
    (pan st).

(** A double that is zero or of a magnitude between [2 ** -100] and
    [2 ** 100].  On such operands no operation of the handlers overflows
    or underflows, so that rounding with an unbounded exponent is the
    rounding of binary64. *)
Definition moderate (x : Q) : Prop :=
  binary64 x == x /\
  (x == 0 \/ (pow2 (-100) <= Qabs x /\ Qabs x <= pow2 100)).

Definition moderateDims (d : ImageDimensions) : Prop :=
  moderate (width d) /\ moderate (height d).

Definition moderatePoint (p : Point) : Prop :=
  moderate (px p) /\ moderate (py p).

(** A state of moderate numbers with at most 512 levels. *)
Definition moderateState (data : ImageData) (st : ViewportState) : Prop :=
  moderateDims (originalDimensions data) /\
  moderateDims (viewportSize st) /\
  moderatePoint (pan st) /\
  (0 <= minZoomIndex st)%Z /\ (numLevels data <= 512)%Z.

(** *** An example state
    The six-level image of 4000 by 3000 at level 3 in a view of 600 by 450,
    with the pan at the doubles nearest to (125.7, 50), and the screen
    point at the doubles nearest to (300.1, 200). *)
Definition scenarioState : ViewportState :=
  mkState 3 1 (mkPoint (binary64 (1257 # 10)) 50) (mkDims 600 450) true.

Definition scenarioPoint : Point := mkPoint (binary64 (3001 # 10)) 200.

(** An image whose top level is 987.7 wide, shown at level 4 in the same
    view, and a screen point at the double nearest to (124.3, 200). *)
Definition narrowData : ImageData :=
  mkImageData (mkDims (binary64 (9877 # 10)) 740) 6.

Definition narrowState : ViewportState :=
  mkState 4 1 (mkPoint 300 50) (mkDims 600 450) true.

Definition narrowPoint : Point := mkPoint (binary64 (1243 # 10)) 200.

(** A number with a significand of at most 53 bits. *)
Definition representable (x : Q) : Prop :=
  exists (n k : Z), (Z.abs n <= 2 ^ 53)%Z /\ x == inject_Z n * pow2 k.

(** The unit roundoff: half the distance of the doubles around 1. *)
Definition u : Q := pow2 (-53).

End Float.

(** ** Tactics *)

(** Case analysis on [Qmax] and [Qmin]. *)
Ltac minmax_step :=
  match goal with
  | |- context [Qmax ?a ?b] =>
      lazymatch goal with
      | _ : Qmax a b == _ |- _ => fail
      | _ => destruct (Q.max_spec a b) as [[? ?]|[? ?]]
      end
  | |- context [Qmin ?a ?b] =>
      lazymatch goal with
      | _ : Qmin a b == _ |- _ => fail
      | _ => destruct (Q.min_spec a b) as [[? ?]|[? ?]]
      end
  end.

Ltac minmax := repeat minmax_step.

(** Case analysis on the sign under the absolute values of the goal. *)
Ltac qabs_step :=
  match goal with
  | |- context [Qabs ?t] =>
      let Hs := fresh "Hs" in
      pattern (Qabs t); apply Qabs_case; intros Hs
  end.

Ltac qabs := repeat qabs_step.

(** [lra] after the halving of [clampPan] is made a product. *)
Ltac qlra := unfold Qdiv in *; change (/ 2) with (1 # 2) in *; lra.

(** * Properties *)

(** ** Powers of two and the clamp *)

Lemma pow2_pos (e : Z) : 0 < pow2 e.
Proof. unfold pow2. apply Qpower_0_lt. reflexivity. Qed.

Lemma pow2_nonzero (e : Z) : ~ pow2 e == 0.
Proof. intro H. pose proof (pow2_pos e) as Hp. rewrite H in Hp. discriminate Hp. Qed.

Lemma pow2_add (a b : Z) : pow2 (a + b) == pow2 a * pow2 b.
Proof. unfold pow2. apply Qpower_plus. discriminate. Qed.

Lemma pow2_0 : pow2 0 == 1.
Proof. reflexivity. Qed.

Lemma clampPan_axes newPan worldSize viewSize :
  Explorer.clampPan newPan worldSize viewSize =
  mkPoint (clampAxis (px newPan) (width worldSize) (width viewSize))
          (clampAxis (py newPan) (height worldSize) (height viewSize)).
Proof. reflexivity. Qed.

Lemma clampAxis_small p w v : w < v -> clampAxis p w v == (w - v) / 2.
Proof. intros H. unfold clampAxis. destruct (Qlt_le_dec w v); [reflexivity | lra]. Qed.

Lemma clampAxis_range p w v : v <= w ->
  0 <= clampAxis p w v <= w - v.
Proof.
  intros H. unfold clampAxis. destruct (Qlt_le_dec w v); [lra|].
  minmax; qlra.
Qed.

Lemma clampAxis_inside p w v : v <= w -> 0 <= p <= w - v ->
  clampAxis p w v == p.
Proof.
  intros H H'. unfold clampAxis. destruct (Qlt_le_dec w v); [lra|].
  minmax; qlra.
Qed.

Lemma clampAxis_below p w v : v <= w -> p <= 0 -> clampAxis p w v == 0.
Proof.
  intros H H'. unfold clampAxis. destruct (Qlt_le_dec w v); [lra|].
  minmax; qlra.
Qed.

Lemma clampAxis_above p w v : v <= w -> w - v <= p ->
  clampAxis p w v == w - v.
Proof.
  intros H H'. unfold clampAxis. destruct (Qlt_le_dec w v); [lra|].
  minmax; qlra.
Qed.

Lemma clampAxis_compat p p' w w' v v' :
  p == p' -> w == w' -> v == v' -> clampAxis p w v == clampAxis p' w' v'.
Proof.
  intros Hp Hw Hv. unfold clampAxis.
  destruct (Qlt_le_dec w v), (Qlt_le_dec w' v'); try lra; minmax; qlra.
Qed.

Lemma clampAxis_idem p w v :
  clampAxis (clampAxis p w v) w v == clampAxis p w v.
Proof.
  destruct (Qlt_le_dec w v) as [H|H].
  - rewrite !clampAxis_small by assumption. reflexivity.
  - apply clampAxis_inside; [assumption|]. apply clampAxis_range; assumption.
Qed.


(** ** The viewport *)

(** C2. [clampPan] works per axis: where the world is smaller than the
    view, the pan is [(worldSize - viewSize) / 2], which puts the middle
    of the world on the middle of the view; elsewhere the pan is the input
    clamped into [[0, worldSize - viewSize]]: it lies in that interval, is
    the input when the input lies in it, and is the nearer bound
    otherwise. *)
Theorem clampPan_clamps (newPan : Point) (worldSize viewSize : ImageDimensions) :
  let r := Explorer.clampPan newPan worldSize viewSize in
  (width worldSize < width viewSize ->
     px r == (width worldSize - width viewSize) / 2 /\
     width worldSize / 2 - px r == width viewSize / 2) /\
  (width viewSize <= width worldSize ->
     px r == Qmax 0 (Qmin (px newPan) (width worldSize - width viewSize)) /\
     0 <= px r <= width worldSize - width viewSize /\
     (0 <= px newPan <= width worldSize - width viewSize -> px r == px newPan) /\
     (px newPan <= 0 -> px r == 0) /\
     (width worldSize - width viewSize <= px newPan ->
        px r == width worldSize - width viewSize)) /\
  (height worldSize < height viewSize ->
     py r == (height worldSize - height viewSize) / 2 /\
     height worldSize / 2 - py r == height viewSize / 2) /\
  (height viewSize <= height worldSize ->
     py r == Qmax 0 (Qmin (py newPan) (height worldSize - height viewSize)) /\
     0 <= py r <= height worldSize - height viewSize /\
     (0 <= py newPan <= height worldSize - height viewSize -> py r == py newPan) /\
     (py newPan <= 0 -> py r == 0) /\
     (height worldSize - height viewSize <= py newPan ->
        py r == height worldSize - height viewSize)).
Proof.
  intro r. subst r. rewrite clampPan_axes. cbn [px py].
  repeat split; intros.
  - apply clampAxis_small; assumption.
  - rewrite clampAxis_small by assumption. qlra.
  - unfold clampAxis. destruct (Qlt_le_dec _ _); [lra | reflexivity].
  - apply clampAxis_range; assumption.
  - apply clampAxis_range; assumption.
  - apply clampAxis_inside; assumption.
  - apply clampAxis_below; assumption.
  - apply clampAxis_above; assumption.
  - apply clampAxis_small; assumption.
  - rewrite clampAxis_small by assumption. qlra.
  - unfold clampAxis. destruct (Qlt_le_dec _ _); [lra | reflexivity].
  - apply clampAxis_range; assumption.
  - apply clampAxis_range; assumption.
  - apply clampAxis_inside; assumption.
  - apply clampAxis_below; assumption.
  - apply clampAxis_above; assumption.
Qed.

Lemma clampPan_clamps_witness :
  px (Explorer.clampPan (mkPoint 700 (-5)) (mkDims 1000 300) (mkDims 400 400))
    == 600 /\
  py (Explorer.clampPan (mkPoint 700 (-5)) (mkDims 1000 300) (mkDims 400 400))
    == -50.
Proof.
  destruct (clampPan_clamps (mkPoint 700 (-5)) (mkDims 1000 300)
              (mkDims 400 400)) as (_ & Hx & Hy & _).
  split.
  - destruct Hx as (_ & _ & _ & _ & Habove).
    + cbn. discriminate.
    + rewrite Habove.
      * reflexivity.
      * cbn. discriminate.
  - destruct Hy as (Hcentre & _).
    + reflexivity.
    + rewrite Hcentre. reflexivity.
Defined.

Lemma handleZoom_same data st screenPoint :
  Explorer.handleZoom data st (zoomIndex st) screenPoint = st.
Proof. unfold Explorer.handleZoom. rewrite Z.eqb_refl. reflexivity. Qed.

Lemma handleZoom_changed data st target screenPoint :
  target <> zoomIndex st ->
  Explorer.handleZoom data st target screenPoint =
  mkState (zoomTarget data st target) (minZoomIndex st)
    (Explorer.clampPan (zoomedPan data st target screenPoint)
       (Explorer.worldSizeAt data (zoomTarget data st target))
       (viewportSize st))
    (viewportSize st) (isInitialized st).
Proof.
  intros Hne. unfold Explorer.handleZoom.
  destruct (Z.eqb_spec target (zoomIndex st)); [contradiction | reflexivity].
Qed.

(** C1. A zoom to a target other than the current index commits the
    clamped target and the pan
    [clampPan((pan + screenPoint) * (oldScale / newScale) - screenPoint)]
    against the world size of the new level, with
    [oldScale = 2 ^ (numLevels - 1 - zoomIndex)] and
    [newScale = 2 ^ (numLevels - 1 - clampedTarget)].  With pan [(100, 50)],
    screen point [(300, 200)], old scale 4 and new scale 2 the point handed
    to the clamp is [(500, 300)]. *)
Theorem handleZoom_pan (data : ImageData) (st : ViewportState)
  (target : Z) (screenPoint : Point) :
  target <> zoomIndex st ->
  let clamped :=
    Z.max (minZoomIndex st) (Z.min target (numLevels data - 1)) in
  let oldScale := pow2 (numLevels data - 1 - zoomIndex st) in
  let newScale := pow2 (numLevels data - 1 - clamped) in
  let newPan :=
    mkPoint ((px (pan st) + px screenPoint) * (oldScale / newScale)
             - px screenPoint)
            ((py (pan st) + py screenPoint) * (oldScale / newScale)
             - py screenPoint) in
  let st' := Explorer.handleZoom data st target screenPoint in
  zoomIndex st' = clamped /\
  pan st' =
    Explorer.clampPan newPan
      (mkDims (width (originalDimensions data) / newScale)
              (height (originalDimensions data) / newScale))
      (viewportSize st) /\
  (point_eq (pan st) (mkPoint 100 50) ->
   point_eq screenPoint (mkPoint 300 200) ->
   oldScale == 4 -> newScale == 2 ->
   point_eq newPan (mkPoint 500 300)).
Proof.
  intros Hne clamped oldScale newScale newPan st'.
  subst st'. rewrite handleZoom_changed by assumption.
  split; [reflexivity | split; [reflexivity|]].
  intros [Hx Hy] [Hsx Hsy] Hold Hnew. subst newPan.
  cbn [px py] in *. split; cbn [px py].
  - rewrite Hx, Hsx, Hold, Hnew. reflexivity.
  - rewrite Hy, Hsy, Hold, Hnew. reflexivity.
Qed.

Lemma handleZoom_pan_witness :
  zoomIndex (Explorer.handleZoom zoomScenarioData zoomScenarioState 4
               (mkPoint 300 200)) = 4%Z /\
  point_eq (pan (Explorer.handleZoom zoomScenarioData zoomScenarioState 4
                   (mkPoint 300 200)))
           (mkPoint 500 300) /\
  point_eq (mkPoint ((100 + 300) * (pow2 (6 - 1 - 3) / pow2 (6 - 1 - 4)) - 300)
                    ((50 + 200) * (pow2 (6 - 1 - 3) / pow2 (6 - 1 - 4)) - 200))
           (mkPoint 500 300).
Proof.
  assert (Hne : 4%Z <> zoomIndex zoomScenarioState) by discriminate.
  destruct (handleZoom_pan zoomScenarioData zoomScenarioState 4
              (mkPoint 300 200) Hne) as (Hz & Hp & Hscenario).
  split; [exact Hz | split].
  - rewrite Hp. vm_compute. split; reflexivity.
  - apply Hscenario.
    + split; reflexivity.
    + split; reflexivity.
    + reflexivity.
    + reflexivity.
Defined.

(** *** The zoom index stays between its bounds *)

Lemma scanLevels_range data vs fuel : forall i baseIndex,
  let r := Explorer.scanLevels data vs fuel i baseIndex in
  r = baseIndex \/ (i <= r < i + Z.of_nat fuel)%Z.
Proof.
  induction fuel as [|fuel IH]; intros i baseIndex; cbn zeta.
  - left. reflexivity.
  - cbn [Explorer.scanLevels].
    destruct (Qlt_le_dec _ _); [left; reflexivity|].
    destruct (Qlt_le_dec _ _); [left; reflexivity|].
    right. destruct (IH (i + 1)%Z i) as [-> | H]; lia.
Qed.

Lemma getInitialState_index data vs s :
  (1 <= numLevels data)%Z ->
  Explorer.getInitialState data vs = Some s ->
  init_zoomIndex s = init_minZoomIndex s /\
  (0 <= init_zoomIndex s <= numLevels data - 1)%Z.
Proof.
  intros HN. unfold Explorer.getInitialState.
  destruct (Qeq_bool (width vs) 0); [discriminate|].
  intros [= <-]. cbn [init_zoomIndex init_minZoomIndex].
  split; [reflexivity|].
  pose proof (scanLevels_range data vs (Z.to_nat (numLevels data)) 0 0) as H.
  cbn zeta in H. lia.
Qed.

(** When the component is not initialised and the view has a width, the
    effect commits what [getInitialState] returns. *)
Lemma initialize_commits data st :
  isInitialized st = false -> ~ width (viewportSize st) == 0 ->
  exists s,
    Explorer.getInitialState data (viewportSize st) = Some s /\
    Explorer.initialize data st =
      mkState (init_zoomIndex s) (init_minZoomIndex s) (init_pan s)
              (viewportSize st) true.
Proof.
  intros Hfresh Hwidth. unfold Explorer.initialize. rewrite Hfresh.
  destruct (Explorer.getInitialState data (viewportSize st)) as [s|] eqn:E.
  - exists s. auto.
  - unfold Explorer.getInitialState in E.
    destruct (Qeq_bool (width (viewportSize st)) 0) eqn:E0; [|discriminate].
    apply Qeq_bool_iff in E0. contradiction.
Qed.

Lemma initialize_cases data st :
  Explorer.initialize data st = st \/
  exists s,
    Explorer.getInitialState data (viewportSize st) = Some s /\
    Explorer.initialize data st =
      mkState (init_zoomIndex s) (init_minZoomIndex s) (init_pan s)
              (viewportSize st) true.
Proof.
  unfold Explorer.initialize. destruct (isInitialized st); [left; reflexivity|].
  destruct (Explorer.getInitialState data (viewportSize st)) as [s|];
    [right; exists s; auto | left; reflexivity].
Qed.

(** C7 (amended). For image data with at least one level, the mount state
    satisfies [minZoomIndex <= zoomIndex <= numLevels - 1], initialisation
    yields it, and [initialize], [handleZoom] with any integer target and
    [handlePan] preserve it. *)
Theorem zoomIndex_invariant (data : ImageData) :
  (1 <= numLevels data)%Z ->
  (forall vs, zoomInvariant data (mountState vs)) /\
  (forall st, isInitialized st = false ->
              ~ width (viewportSize st) == 0 ->
              isInitialized (Explorer.initialize data st) = true /\
              zoomInvariant data (Explorer.initialize data st)) /\
  (forall st, zoomInvariant data st ->
              zoomInvariant data (Explorer.initialize data st)) /\
  (forall st target screenPoint,
      zoomInvariant data st ->
      zoomInvariant data (Explorer.handleZoom data st target screenPoint)) /\
  (forall st direction,
      zoomInvariant data st ->
      zoomInvariant data (Explorer.handlePan data st direction)).
Proof.
  intros HN. unfold zoomInvariant.
  split; [|split; [|split; [|split]]].
  - intros vs. cbn. lia.
  - intros st Hfresh Hwidth.
    destruct (initialize_commits data st Hfresh Hwidth) as (s & Hs & ->).
    apply (getInitialState_index data _ _ HN) in Hs. cbn. split; [reflexivity | lia].
  - intros st Hinv.
    destruct (initialize_cases data st) as [-> | (s & Hs & ->)]; [exact Hinv|].
    apply (getInitialState_index data _ _ HN) in Hs. cbn. lia.
  - intros st target screenPoint Hinv.
    destruct (Z.eq_dec target (zoomIndex st)) as [-> | Hne].
    + rewrite handleZoom_same. exact Hinv.
    + rewrite handleZoom_changed by assumption. unfold zoomTarget. cbn. lia.
  - intros st direction Hinv. destruct direction; exact Hinv.
Qed.

Lemma zoomIndex_invariant_witness :
  zoomInvariant zoomScenarioData
    (Explorer.handleZoom zoomScenarioData
       (Explorer.initialize zoomScenarioData (mountState (mkDims 600 450)))
       9 (mkPoint 300 200)).
Proof.
  assert (HN : (1 <= numLevels zoomScenarioData)%Z) by (cbn; lia).
  destruct (zoomIndex_invariant zoomScenarioData HN)
    as (Hmount & _ & Hinit & Hzoom & _).
  apply Hzoom, Hinit, Hmount.
Defined.

(** C7 as stated fails: for a source image of one pixel the worker posts
    a pyramid with the level count -6, and initialisation on that data sets
    [zoomIndex = 0], above [numLevels - 1 = -7]. *)
Lemma initialize_exceeds_top_level :
  Builder.posted (Builder.onmessage Run.roomyHost (Some (Run.plainImage 1 1))) =
    [Builder.MsgDone (Builder.mkPyramid [] (1, 1)%Z (-6)%Z)] /\
  numLevels onePixelData = (-6)%Z /\
  zoomIndex (Explorer.initialize onePixelData (mountState (mkDims 95 95)))
    = 0%Z /\
  ~ zoomInvariant onePixelData
      (Explorer.initialize onePixelData (mountState (mkDims 95 95))).
Proof.
  split; [reflexivity|].
  split; [reflexivity | split; [reflexivity |]].
  unfold zoomInvariant. vm_compute. intros [_ H]. apply H. reflexivity.
Qed.

(** *** Repeating an operation *)

Lemma point_eq_refl p : point_eq p p.
Proof. split; reflexivity. Qed.

Lemma state_eq_refl s : state_eq s s.
Proof. repeat split; reflexivity. Qed.

Lemma clampPan_compat p p' w v :
  point_eq p p' ->
  point_eq (Explorer.clampPan p w v) (Explorer.clampPan p' w v).
Proof.
  intros [Hx Hy]. rewrite !clampPan_axes.
  split; cbn [px py]; apply clampAxis_compat; auto; reflexivity.
Qed.

Lemma clampPan_idem p w v :
  point_eq (Explorer.clampPan (Explorer.clampPan p w v) w v)
           (Explorer.clampPan p w v).
Proof.
  rewrite !clampPan_axes. split; cbn [px py]; apply clampAxis_idem.
Qed.

(** A target that is the current index, or lies between the minimum
    index and the top level, is reached by the first call: the second call
    finds [newZoomIndex = prev.zoomIndex] and returns the state as it is. *)
Lemma handleZoom_twice data st target screenPoint :
  (target = zoomIndex st \/
   (minZoomIndex st <= target <= numLevels data - 1)%Z) ->
  Explorer.handleZoom data
    (Explorer.handleZoom data st target screenPoint) target screenPoint =
  Explorer.handleZoom data st target screenPoint.
Proof.
  intros Htarget.
  destruct (Z.eq_dec target (zoomIndex st)) as [->|Hne].
  - rewrite !handleZoom_same. reflexivity.
  - destruct Htarget as [Heq | Hin]; [contradiction|].
    rewrite (handleZoom_changed data st) by assumption.
    assert (Hc : zoomTarget data st target = target).
    { unfold zoomTarget. lia. }
    rewrite Hc.
    set (s1 := mkState target _ _ _ _).
    exact (handleZoom_same data s1 screenPoint).
Qed.

Lemma handlePan_unfold data st direction :
  Explorer.handlePan data st direction =
  mkState (zoomIndex st) (minZoomIndex st)
    (Explorer.clampPan (movedPan st direction)
       (Explorer.worldSizeAt data (zoomIndex st)) (viewportSize st))
    (viewportSize st) (isInitialized st).
Proof. destruct direction; reflexivity. Qed.

Lemma clampAxis_step_up p w v d :
  0 < d -> v <= w ->
  (clampAxis (clampAxis p w v + d) w v == clampAxis p w v <->
   clampAxis p w v == w - v).
Proof.
  intros Hd Hw. pose proof (clampAxis_range p w v Hw) as Hr.
  generalize dependent (clampAxis p w v). intros X Hr.
  unfold clampAxis. destruct (Qlt_le_dec w v); [lra|].
  minmax; split; intros; lra.
Qed.

Lemma clampAxis_step_down p w v d :
  0 < d -> v <= w ->
  (clampAxis (clampAxis p w v - d) w v == clampAxis p w v <->
   clampAxis p w v == 0).
Proof.
  intros Hd Hw. pose proof (clampAxis_range p w v Hw) as Hr.
  generalize dependent (clampAxis p w v). intros X Hr.
  unfold clampAxis. destruct (Qlt_le_dec w v); [lra|].
  minmax; split; intros; lra.
Qed.

Lemma clampAxis_centred p p' w v : w < v -> clampAxis p w v == clampAxis p' w v.
Proof. intros H. rewrite !clampAxis_small by assumption. reflexivity. Qed.

Lemma handlePan_twice data st direction :
  0 < width (viewportSize st) -> 0 < height (viewportSize st) ->
  (state_eq
     (Explorer.handlePan data (Explorer.handlePan data st direction) direction)
     (Explorer.handlePan data st direction) <->
   atBound data (Explorer.handlePan data st direction) direction).
Proof.
  intros Hw Hh. rewrite (handlePan_unfold data st).
  set (world := Explorer.worldSizeAt data (zoomIndex st)).
  set (vs := viewportSize st) in *.
  rewrite handlePan_unfold.
  cbn [zoomIndex minZoomIndex pan viewportSize isInitialized].
  fold world. unfold state_eq, point_eq, dims_eq, atBound.
  cbn [zoomIndex minZoomIndex pan viewportSize isInitialized].
  fold world. rewrite !clampPan_axes.
  assert (Hqw : 0 < width vs * (25 # 100)) by lra.
  assert (Hqh : 0 < height vs * (25 # 100)) by lra.
  destruct direction; unfold movedPan;
    cbn [zoomIndex minZoomIndex pan viewportSize isInitialized px py].
  - (* up *)
    destruct (Qlt_le_dec (height world) (height vs)) as [Hs|Hs].
    + split; [intros _; left; exact Hs | intros _].
      repeat split; try reflexivity;
        [apply clampAxis_idem | apply clampAxis_centred; exact Hs].
    + rewrite <- (clampAxis_step_down _ _ _ _ Hqh Hs). split.
      * intros (_ & _ & (_ & Hy) & _). right. exact Hy.
      * intros [Hlt | Hy]; [lra|].
        repeat split; try reflexivity; [apply clampAxis_idem | exact Hy].
  - (* down *)
    destruct (Qlt_le_dec (height world) (height vs)) as [Hs|Hs].
    + split; [intros _; left; exact Hs | intros _].
      repeat split; try reflexivity;
        [apply clampAxis_idem | apply clampAxis_centred; exact Hs].
    + rewrite <- (clampAxis_step_up _ _ _ _ Hqh Hs). split.
      * intros (_ & _ & (_ & Hy) & _). right. exact Hy.
      * intros [Hlt | Hy]; [lra|].
        repeat split; try reflexivity; [apply clampAxis_idem | exact Hy].
  - (* left *)
    destruct (Qlt_le_dec (width world) (width vs)) as [Hs|Hs].
    + split; [intros _; left; exact Hs | intros _].
      repeat split; try reflexivity;
        [apply clampAxis_centred; exact Hs | apply clampAxis_idem].
    + rewrite <- (clampAxis_step_down _ _ _ _ Hqw Hs). split.
      * intros (_ & _ & (Hx & _) & _). right. exact Hx.
      * intros [Hlt | Hx]; [lra|].
        repeat split; try reflexivity; [exact Hx | apply clampAxis_idem].
  - (* right *)
    destruct (Qlt_le_dec (width world) (width vs)) as [Hs|Hs].
    + split; [intros _; left; exact Hs | intros _].
      repeat split; try reflexivity;
        [apply clampAxis_centred; exact Hs | apply clampAxis_idem].
    + rewrite <- (clampAxis_step_up _ _ _ _ Hqw Hs). split.
      * intros (_ & _ & (Hx & _) & _). right. exact Hx.
      * intros [Hlt | Hx]; [lra|].
        repeat split; try reflexivity; [exact Hx | apply clampAxis_idem].
Qed.

(** C8 (amended). Applying [handleZoom] with the same target and screen
    point a second time leaves the state unchanged when the target is the
    current index or lies between the minimum index and the top level (the
    second call is then the early return).  Applying [handlePan]
    with the same direction a second time leaves the state unchanged
    exactly when, after the first application, the world is narrower than
    the view on that axis or the pan already sits at the bound on that
    side; otherwise the second application moves the pan again. *)
Theorem repeated_operation (data : ImageData) (st : ViewportState) :
  (forall target screenPoint,
     (target = zoomIndex st \/
      (minZoomIndex st <= target <= numLevels data - 1)%Z) ->
     Explorer.handleZoom data
       (Explorer.handleZoom data st target screenPoint) target screenPoint =
     Explorer.handleZoom data st target screenPoint) /\
  (forall direction,
     0 < width (viewportSize st) -> 0 < height (viewportSize st) ->
     (state_eq
        (Explorer.handlePan data
           (Explorer.handlePan data st direction) direction)
        (Explorer.handlePan data st direction) <->
      atBound data (Explorer.handlePan data st direction) direction)).
Proof.
  split.
  - intros target screenPoint Htarget. apply handleZoom_twice. exact Htarget.
  - intros direction Hw Hh. apply handlePan_twice; assumption.
Qed.

Lemma repeated_operation_witness :
  Explorer.handleZoom zoomScenarioData
    (Explorer.handleZoom zoomScenarioData zoomScenarioState 4 (mkPoint 300 200))
    4 (mkPoint 300 200) =
  Explorer.handleZoom zoomScenarioData zoomScenarioState 4 (mkPoint 300 200) /\
  state_eq
    (Explorer.handlePan panData
       (Explorer.handlePan panData panNearBound Right) Right)
    (Explorer.handlePan panData panNearBound Right).
Proof.
  split.
  - destruct (repeated_operation zoomScenarioData zoomScenarioState)
      as [Hzoom _].
    apply (Hzoom 4%Z (mkPoint 300 200)). right. vm_compute.
    split; discriminate.
  - destruct (repeated_operation panData panNearBound) as [_ Hpan].
    apply (Hpan Right).
    + reflexivity.
    + reflexivity.
    + right. vm_compute. reflexivity.
Defined.

(** C8 as stated fails for panning: from the clamped state [panAtOrigin]
    the first step to the right gives pan.x = 100 and the second gives
    pan.x = 200. *)
Lemma handlePan_not_idempotent :
  point_eq
    (Explorer.clampPan (pan panAtOrigin)
       (Explorer.worldSizeAt panData (zoomIndex panAtOrigin))
       (viewportSize panAtOrigin))
    (pan panAtOrigin) /\
  px (pan (Explorer.handlePan panData panAtOrigin Right)) == 100 /\
  px (pan (Explorer.handlePan panData
             (Explorer.handlePan panData panAtOrigin Right) Right)) == 200 /\
  ~ state_eq
      (Explorer.handlePan panData
         (Explorer.handlePan panData panAtOrigin Right) Right)
      (Explorer.handlePan panData panAtOrigin Right).
Proof.
  split; [split; vm_compute; reflexivity|].
  split; [vm_compute; reflexivity|].
  split; [vm_compute; reflexivity|].
  intros (_ & _ & (Hx & _) & _). vm_compute in Hx. discriminate Hx.
Qed.

(** *** The exported page against the component *)

Lemma standalone_clampPan p w v :
  Standalone.clampPan p w v = Explorer.clampPan p w v.
Proof. destruct p. reflexivity. Qed.

Lemma standalone_scanLevels data vs fuel : forall i baseIndex,
  Standalone.scanLevels data vs fuel i baseIndex =
  Explorer.scanLevels data vs fuel i baseIndex.
Proof.
  induction fuel as [|fuel IH]; intros i baseIndex; cbn; [reflexivity|].
  rewrite IH. reflexivity.
Qed.

Lemma standalone_getInitialState data vs :
  Standalone.getInitialState data vs = Explorer.getInitialState data vs.
Proof.
  unfold Standalone.getInitialState, Explorer.getInitialState.
  rewrite standalone_scanLevels, standalone_clampPan. reflexivity.
Qed.

(** C10. The viewport logic of the exported page computes what the
    component computes: [clampPan], [getInitialState], the initialisation,
    [handleZoom], [handlePan] and the visible tile window agree on all
    arguments, hence so do the resulting [zoomIndex], [minZoomIndex] and
    [pan]. *)
Theorem standalone_agrees :
  (forall p w v, Standalone.clampPan p w v = Explorer.clampPan p w v) /\
  (forall data vs,
     Standalone.getInitialState data vs = Explorer.getInitialState data vs) /\
  (forall data st, Standalone.initialize data st = Explorer.initialize data st) /\
  (forall data st target screenPoint,
     Standalone.handleZoom data st target screenPoint =
     Explorer.handleZoom data st target screenPoint) /\
  (forall data st direction,
     Standalone.handlePan data st direction =
     Explorer.handlePan data st direction) /\
  (forall st, Standalone.visibleTiles st = Explorer.visibleTiles st).
Proof.
  split; [exact standalone_clampPan|].
  split; [exact standalone_getInitialState|].
  split.
  { intros data st. unfold Standalone.initialize, Explorer.initialize.
    rewrite standalone_getInitialState. reflexivity. }
  split.
  { intros data st target screenPoint.
    unfold Standalone.handleZoom, Explorer.handleZoom.
    cbv zeta. rewrite standalone_clampPan. reflexivity. }
  split.
  { intros data st direction.
    unfold Standalone.handlePan, Explorer.handlePan.
    cbv zeta. rewrite standalone_clampPan. reflexivity. }
  intros st. reflexivity.
Qed.

(** ** The level count *)

Lemma pow2_inject (k : Z) : (0 <= k)%Z -> inject_Z (2 ^ k) == pow2 k.
Proof. intros Hk. unfold pow2. rewrite Zpower_Qpower by assumption. reflexivity. Qed.

Lemma pow2_opp (k : Z) : pow2 (- k) == / pow2 k.
Proof. unfold pow2. apply Qpower_opp. Qed.

Lemma pow2_lt (a b : Z) : (a < b)%Z -> pow2 a < pow2 b.
Proof. intros H. unfold pow2. apply Qpower_lt_compat_l; [assumption | reflexivity]. Qed.

Lemma pow2_le (a b : Z) : (a <= b)%Z -> pow2 a <= pow2 b.
Proof. intros H. unfold pow2. apply Qpower_le_compat_l; [assumption | discriminate]. Qed.

Lemma pow2_lt_inv (a b : Z) : pow2 a < pow2 b -> (a < b)%Z.
Proof. intros H. apply (Qpower_lt_compat_l_inv 2); [exact H | reflexivity]. Qed.

Lemma inject_Z_lt (a b : Z) : (a < b)%Z -> inject_Z a < inject_Z b.
Proof. intros H. rewrite <- Zlt_Qlt. exact H. Qed.

Lemma inject_Z_le (a b : Z) : (a <= b)%Z -> inject_Z a <= inject_Z b.
Proof. intros H. rewrite <- Zle_Qle. exact H. Qed.

(** [ceil_log2 q] is the least [k] with [q <= 2 ^ k]. *)
Lemma ceil_log2_spec (q : Q) :
  0 < q -> pow2 (ceil_log2 q - 1) < q /\ q <= pow2 (ceil_log2 q).
Proof.
  intros Hq. unfold ceil_log2.
  destruct (Qle_bool 1 q) eqn:E.
  - apply Qle_bool_iff in E.
    pose proof (Qle_ceiling q) as Hup.
    pose proof (Qceiling_lt q) as Hlow.
    assert (Hc : (1 <= Qceiling q)%Z).
    { change 1%Z with (Qceiling 1). apply Qceiling_resp_le. exact E. }
    destruct (Z.eq_dec (Qceiling q) 1) as [H1 | H1].
    + rewrite H1 in *. cbn. split; [|exact Hup].
      change (pow2 (-1)) with (1 # 2). lra.
    + assert (Hgt : (1 < Qceiling q)%Z) by lia.
      pose proof (Z.log2_up_spec _ Hgt) as [Hl Hu].
      pose proof (Z.log2_up_pos _ Hgt) as Hk.
      set (k := Z.log2_up (Qceiling q)) in *.
      split.
      * rewrite <- pow2_inject by lia.
        apply Qle_lt_trans with (inject_Z (Qceiling q - 1)); [|exact Hlow].
        apply inject_Z_le. replace (k - 1)%Z with (Z.pred k) by lia. lia.
      * rewrite <- pow2_inject by lia.
        apply Qle_trans with (inject_Z (Qceiling q)); [exact Hup|].
        apply inject_Z_le. exact Hu.
  - assert (Hlt : q < 1).
    { apply Qnot_le_lt. intro H. apply Qle_bool_iff in H. congruence. }
    assert (Hr : 1 < / q).
    { change 1 with (/ 1).
      apply (proj1 (Qinv_lt_contravar q 1 Hq eq_refl)). exact Hlt. }
    assert (Hqr : q * / q == 1) by (apply Qmult_inv_r; lra).
    pose proof (Qfloor_le (/ q)) as Hfl.
    pose proof (Qlt_floor (/ q)) as Hfu.
    assert (Hf : (1 <= Qfloor (/ q))%Z).
    { change 1%Z with (Qfloor 1). apply Qfloor_resp_le. lra. }
    pose proof (Z.log2_spec (Qfloor (/ q)) ltac:(lia)) as [Hl Hu].
    pose proof (Z.log2_nonneg (Qfloor (/ q))) as Hm.
    set (m := Z.log2 (Qfloor (/ q))) in *.
    assert (Hlow : pow2 m <= / q).
    { rewrite <- pow2_inject by lia.
      apply Qle_trans with (inject_Z (Qfloor (/ q))); [|exact Hfl].
      apply inject_Z_le. exact Hl. }
    assert (Hup : / q < pow2 (m + 1)).
    { rewrite <- pow2_inject by lia.
      apply Qlt_le_trans with (inject_Z (Qfloor (/ q) + 1)); [exact Hfu|].
      apply inject_Z_le. unfold Z.succ in Hu. lia. }
    split.
    + replace (- m - 1)%Z with (- (m + 1))%Z by lia. rewrite pow2_opp.
      apply Qlt_shift_inv_r; [apply pow2_pos|].
      assert (Hmul : forall r p, q * r == 1 -> r < p -> 1 < q * p)
        by (intros; nra).
      apply (Hmul (/ q)); assumption.
    + rewrite pow2_opp.
      apply Qle_shift_inv_l; [apply pow2_pos|].
      assert (Hmul : forall r p, q * r == 1 -> p <= r -> q * p <= 1)
        by (intros; nra).
      apply (Hmul (/ q)); assumption.
Qed.

Lemma ceil_log2_unique (q : Q) (k : Z) :
  pow2 (k - 1) < q -> q <= pow2 k -> ceil_log2 q = k.
Proof.
  intros Hl Hu.
  assert (Hq : 0 < q) by (pose proof (pow2_pos (k - 1)); lra).
  destruct (ceil_log2_spec q Hq) as [Hl' Hu'].
  assert (H1 : (k - 1 < ceil_log2 q)%Z) by (apply pow2_lt_inv; lra).
  assert (H2 : (ceil_log2 q - 1 < k)%Z) by (apply pow2_lt_inv; lra).
  lia.
Qed.

Lemma pow2_tile (a : Z) : pow2 (a - 7) == pow2 a / inject_Z TILE_SIZE.
Proof.
  replace (a - 7)%Z with (a + -7)%Z by lia. rewrite pow2_add.
  change (pow2 (-7)) with (/ inject_Z TILE_SIZE). reflexivity.
Qed.

Lemma over_tile_lt (a b : Q) :
  a < b -> a / inject_Z TILE_SIZE < b / inject_Z TILE_SIZE.
Proof. intros H. apply Qmult_lt_compat_r; [reflexivity | exact H]. Qed.

Lemma over_tile_le (a b : Q) :
  a <= b -> a / inject_Z TILE_SIZE <= b / inject_Z TILE_SIZE.
Proof. intros H. apply Qmult_le_compat_r; [exact H | discriminate]. Qed.

(** Bounds of [Z.log2_up] carried over to the rationals. *)
Lemma log2_up_bounds (m : Z) :
  (1 <= m)%Z ->
  pow2 (Z.log2_up m - 1) < inject_Z m /\ inject_Z m <= pow2 (Z.log2_up m).
Proof.
  intros Hm. pose proof (Z.log2_up_nonneg m) as Hk. split.
  - destruct (Z.eq_dec m 1) as [-> | Hne].
    + reflexivity.
    + assert (Hgt : (1 < m)%Z) by lia.
      pose proof (Z.log2_up_spec m Hgt) as [Hl _].
      pose proof (Z.log2_up_pos m Hgt) as Hpos.
      rewrite <- pow2_inject by lia. apply inject_Z_lt.
      replace (Z.log2_up m - 1)%Z with (Z.pred (Z.log2_up m)) by lia.
      exact Hl.
  - rewrite <- pow2_inject by lia. apply inject_Z_le.
    apply Z.log2_log2_up_spec. lia.
Qed.

Lemma computeNumLevels_closed (w h : Z) :
  (1 <= w)%Z -> (1 <= h)%Z ->
  Builder.computeNumLevels w h = (Z.log2_up (Z.max w h) - 6)%Z.
Proof.
  intros Hw Hh. unfold Builder.computeNumLevels. cbv zeta.
  assert (Hm : (1 <= Z.max w h)%Z) by lia.
  destruct (log2_up_bounds _ Hm) as [Hl Hu].
  rewrite (ceil_log2_unique _ (Z.log2_up (Z.max w h) - 7)); [lia | |].
  - replace (Z.log2_up (Z.max w h) - 7 - 1)%Z
      with (Z.log2_up (Z.max w h) - 1 - 7)%Z by lia.
    rewrite pow2_tile. apply over_tile_lt. exact Hl.
  - rewrite pow2_tile. apply over_tile_le. exact Hu.
Qed.

Lemma py_compute_num_levels (w h : Z) :
  (1 <= w)%Z -> (1 <= h)%Z ->
  PyBuilder.compute_num_levels w h = Builder.computeNumLevels w h.
Proof.
  intros Hw Hh. unfold PyBuilder.compute_num_levels. cbv zeta.
  destruct (Z.ltb_spec 0 (Z.max w h)); [reflexivity | lia].
Qed.

(** C3 (amended). For a source image of width and height at least 1 both
    builders compute [numLevels = ceil(log2(max(w,h) / TILE_SIZE)) + 1]
    with [TILE_SIZE = 128], that is, [numLevels - 1] is the least integer
    [k] with [max(w,h) / 128 <= 2 ^ k]; in closed form it is
    [log2_up (max(w,h)) - 6].  It is at least 1 exactly when
    [max(w,h) > 64], and it is 1 for [64 < max(w,h) <= TILE_SIZE]. *)
Theorem numLevels_formula (w h : Z) :
  (1 <= w)%Z -> (1 <= h)%Z ->
  let maxDim := Z.max w h in
  let n := Builder.computeNumLevels w h in
  n = (ceil_log2 (inject_Z maxDim / inject_Z TILE_SIZE) + 1)%Z /\
  TILE_SIZE = 128%Z /\
  pow2 (n - 2) < inject_Z maxDim / inject_Z TILE_SIZE /\
  inject_Z maxDim / inject_Z TILE_SIZE <= pow2 (n - 1) /\
  PyBuilder.compute_num_levels w h = n /\
  n = (Z.log2_up maxDim - 6)%Z /\
  ((1 <= n)%Z <-> (64 < maxDim)%Z) /\
  ((64 < maxDim <= TILE_SIZE)%Z -> n = 1%Z).
Proof.
  intros Hw Hh maxDim n.
  assert (Hm : (1 <= maxDim)%Z) by (subst maxDim; lia).
  assert (Hq : 0 < inject_Z maxDim / inject_Z TILE_SIZE).
  { apply Qlt_shift_div_l; [reflexivity|]. rewrite Qmult_0_l.
    change 0 with (inject_Z 0). apply inject_Z_lt. lia. }
  destruct (ceil_log2_spec _ Hq) as [Hl Hu].
  assert (Hn : n = (ceil_log2 (inject_Z maxDim / inject_Z TILE_SIZE) + 1)%Z)
    by reflexivity.
  split; [exact Hn|]. split; [reflexivity|].
  split. { replace (n - 2)%Z with (n - 1 - 1)%Z by lia.
           rewrite Hn, Z.add_simpl_r. exact Hl. }
  split. { rewrite Hn, Z.add_simpl_r. exact Hu. }
  split. { apply py_compute_num_levels; assumption. }
  assert (Hclosed : n = (Z.log2_up maxDim - 6)%Z)
    by (apply computeNumLevels_closed; assumption).
  split; [exact Hclosed|].
  rewrite Hclosed.
  pose proof (Z.log2_up_le_pow2 maxDim 6 ltac:(lia)) as Hpow.
  pose proof (Z.log2_up_le_pow2 maxDim 7 ltac:(lia)) as Hpow'.
  change (2 ^ 6)%Z with 64%Z in Hpow. change (2 ^ 7)%Z with 128%Z in Hpow'.
  unfold TILE_SIZE. lia.
Qed.

Lemma numLevels_formula_witness :
  Builder.computeNumLevels 4000 3000 = 6%Z /\
  PyBuilder.compute_num_levels 4000 3000 = 6%Z /\
  (1 <= Builder.computeNumLevels 4000 3000)%Z.
Proof.
  assert (Hw : (1 <= 4000)%Z) by lia.
  assert (Hh : (1 <= 3000)%Z) by lia.
  destruct (numLevels_formula 4000 3000 Hw Hh)
    as (_ & _ & _ & _ & Hpy & Hclosed & Hone & _).
  split; [exact Hclosed | split].
  - rewrite Hpy. exact Hclosed.
  - apply Hone. reflexivity.
Defined.

(** C3 as stated fails: for a 1 by 1 image both builders compute -6
    levels and the worker posts a pyramid without any level; for 64 by 64
    they compute 0.  Neither count is at least 1, although the widths and
    heights are at least 1 and at most [TILE_SIZE]. *)
Lemma numLevels_below_one :
  Builder.computeNumLevels 1 1 = (-6)%Z /\
  PyBuilder.compute_num_levels 1 1 = (-6)%Z /\
  Builder.computeNumLevels 64 64 = 0%Z /\
  PyBuilder.compute_num_levels 64 64 = 0%Z /\
  Builder.posted (Builder.onmessage Run.roomyHost (Some (Run.plainImage 1 1))) =
    [Builder.MsgDone (Builder.mkPyramid [] (1, 1)%Z (-6)%Z)] /\
  ~ (1 <= Builder.computeNumLevels 1 1)%Z.
Proof.
  do 5 (split; [reflexivity|]).
  vm_compute. intros H. apply H. reflexivity.
Qed.

(** ** Reasoning about logged computations *)

Section Logged.
Context {Act : Type}.

Lemma appends_ret {A} (P : Act -> Prop) (a : A) : appends P (ret a).
Proof. intros log. exists []. cbn. rewrite app_nil_r. auto. Qed.

Lemma appends_throw {A} (P : Act -> Prop) (e : string) :
  appends P (@throw Act A e).
Proof. intros log. exists []. cbn. rewrite app_nil_r. auto. Qed.

Lemma appends_emit (P : Act -> Prop) (a : Act) : P a -> appends P (emit a).
Proof. intros Ha log. exists [a]. cbn. auto. Qed.

Lemma appends_bind {A B} (P : Act -> Prop) (m : M Act A) (k : A -> M Act B) :
  appends P m -> (forall a, appends P (k a)) -> appends P (bind m k).
Proof.
  intros Hm Hk log. unfold bind.
  destruct (Hm log) as (added & Hlog & Hadded).
  destruct (m log) as [[a | e] log1]; cbn in Hlog; subst log1.
  - destruct (Hk a (log ++ added)) as (added' & Hlog' & Hadded').
    exists (added ++ added'). rewrite Hlog', app_assoc. split; [reflexivity|].
    apply Forall_app; auto.
  - exists added. auto.
Qed.

Lemma appends_forEach {A B} (P : Act -> Prop) (f : A -> M Act B) (l : list A) :
  (forall a, appends P (f a)) -> appends P (forEach f l).
Proof.
  intros Hf. induction l as [|a l IH]; cbn [forEach].
  - apply appends_ret.
  - apply appends_bind; [apply Hf|]. intros b.
    apply appends_bind; [exact IH|]. intros bs. apply appends_ret.
Qed.

Lemma returns_ret {A} (a : A) : returns (@ret Act A a) a [].
Proof. intros log. cbn. rewrite app_nil_r. auto. Qed.

Lemma returns_throw {A} (e : string) (a : A) (added : list Act) :
  returns (throw e) a added.
Proof. intros log. exact I. Qed.

Lemma returns_emit (a : Act) : returns (emit a) tt [a].
Proof. intros log. cbn. auto. Qed.

Lemma returns_bind {A B} (m : M Act A) (k : A -> M Act B) a b added added' :
  returns m a added -> returns (k a) b added' ->
  returns (bind m k) b (added ++ added').
Proof.
  intros Hm Hk log. unfold bind. specialize (Hm log).
  destruct (m log) as [[a' | e] log1]; [|exact I].
  destruct Hm as [-> ->]. specialize (Hk (log ++ added)).
  destruct (k a (log ++ added)) as [[b' | e] log2]; [|exact I].
  destruct Hk as [-> ->]. rewrite app_assoc. auto.
Qed.

Lemma returns_forEach {A B} (f : A -> M Act B) (g : A -> B)
  (h : A -> list Act) (l : list A) :
  (forall a, returns (f a) (g a) (h a)) ->
  returns (forEach f l) (map g l) (flat_map h l).
Proof.
  intros Hf. induction l as [|a l IH]; cbn [forEach map flat_map].
  - apply returns_ret.
  - apply (returns_bind _ _ (g a)); [apply Hf|].
    rewrite <- (app_nil_r (flat_map h l)).
    apply (returns_bind _ _ (map g l)); [exact IH | apply returns_ret].
Qed.

Lemma succeeds_ret {A} (a : A) : succeeds (@ret Act A a).
Proof. intros log. eexists _, _. reflexivity. Qed.

Lemma succeeds_emit (a : Act) : succeeds (emit a).
Proof. intros log. eexists _, _. reflexivity. Qed.

Lemma succeeds_bind {A B} (m : M Act A) (k : A -> M Act B) :
  succeeds m -> (forall a, succeeds (k a)) -> succeeds (bind m k).
Proof.
  intros Hm Hk log. unfold bind.
  destruct (Hm log) as (a & log1 & ->). apply Hk.
Qed.

Lemma succeeds_forEach {A B} (f : A -> M Act B) (l : list A) :
  (forall a, succeeds (f a)) -> succeeds (forEach f l).
Proof.
  intros Hf. induction l as [|a l IH]; cbn [forEach].
  - apply succeeds_ret.
  - apply succeeds_bind; [apply Hf|]. intros b.
    apply succeeds_bind; [exact IH|]. intros bs. apply succeeds_ret.
Qed.

End Logged.

Lemma flat_map_single {A B} (f : A -> B) (l : list A) :
  flat_map (fun a => [f a]) l = map f l.
Proof. induction l as [|a l IH]; cbn; [reflexivity | now rewrite IH]. Qed.

(** ** The worker *)

Section Worker.
Import Builder Expected.
Variable host : Host.

Lemma createCanvas_returns w h :
  returns (createCanvas host w h) (newCanvas w h) [].
Proof.
  unfold createCanvas. destruct (canvasOk host w h);
    [apply returns_ret | apply returns_throw].
Qed.

Lemma createCanvas_quiet w h : appends quiet (createCanvas host w h).
Proof.
  unfold createCanvas. destruct (canvasOk host w h);
    [apply appends_ret | apply appends_throw].
Qed.

Lemma makeTile_returns level c y x :
  returns (makeTile host level c (cwidth c) (cheight c) y x)
          ((y, x), tileOf c y x)
          [DrewTile level y x (x * TILE_SIZE) (y * TILE_SIZE)
             (cropWidth c x) (cropHeight c y)].
Proof.
  unfold makeTile.
  set (draw := DrewTile level y x (x * TILE_SIZE) (y * TILE_SIZE)
                 (cropWidth c x) (cropHeight c y)).
  change [draw] with ([] ++ [draw] ++ []).
  eapply returns_bind; [apply createCanvas_returns|]. cbv zeta.
  eapply returns_bind; [apply returns_emit | apply returns_ret].
Qed.

Lemma makeTile_quiet level c lw lh y x :
  appends quiet (makeTile host level c lw lh y x).
Proof.
  unfold makeTile. apply appends_bind; [apply createCanvas_quiet|].
  intros tileCanvas. cbv zeta. apply appends_bind.
  - apply appends_emit. exact I.
  - intros _. apply appends_ret.
Qed.

Lemma downsample_returns c :
  returns (downsample host c) (nextCanvas host c) [].
Proof.
  unfold downsample. cbv zeta. rewrite <- (app_nil_r []).
  eapply returns_bind; [apply createCanvas_returns | apply returns_ret].
Qed.

Lemma downsample_quiet c : appends quiet (downsample host c).
Proof.
  unfold downsample. cbv zeta. apply appends_bind;
    [apply createCanvas_quiet | intros; apply appends_ret].
Qed.

Lemma tiling_returns level c :
  returns
    (forEach (fun y =>
       forEach (fun x => makeTile host level c (cwidth c) (cheight c) y x)
               (zrange (gridCols c)))
       (zrange (gridRows c)))
    (map (fun y => map (fun x => ((y, x), tileOf c y x)) (zrange (gridCols c)))
         (zrange (gridRows c)))
    (levelDraws level c).
Proof.
  unfold levelDraws. apply returns_forEach. intros y.
  rewrite <- (flat_map_single
                (fun x => DrewTile level y x (x * TILE_SIZE) (y * TILE_SIZE)
                            (cropWidth c x) (cropHeight c y))).
  apply (returns_forEach _ (fun x => ((y, x), tileOf c y x))). intros x.
  apply makeTile_returns.
Qed.

Lemma processLevels_returns numLevels n : forall c allTiles,
  returns (processLevels host numLevels n c allTiles)
          (allTiles ++ expectedTiles host n c)
          (expectedLog host numLevels n c).
Proof.
  induction n as [|n IH]; intros c allTiles.
  - cbn. rewrite app_nil_r. apply returns_ret.
  - cbn [processLevels expectedTiles expectedLog]. cbv zeta.
    change (Posted (MsgProgress (progressText (Z.of_nat n) numLevels)) ::
            levelDraws (Z.of_nat n) c ++
            expectedLog host numLevels n
              (if (0 <? Z.of_nat n)%Z then nextCanvas host c else c))
      with ([Posted (MsgProgress (progressText (Z.of_nat n) numLevels))] ++
            levelDraws (Z.of_nat n) c ++
            expectedLog host numLevels n
              (if (0 <? Z.of_nat n)%Z then nextCanvas host c else c)).
    eapply returns_bind; [apply returns_emit|].
    eapply returns_bind; [apply tiling_returns|].
    rewrite <- flat_map_concat_map. fold (levelTiles c).
    replace (allTiles ++ (Z.of_nat n, levelTiles c) ::
               expectedTiles host n
                 (if (0 <? Z.of_nat n)%Z then nextCanvas host c else c))
      with ((allTiles ++ [(Z.of_nat n, levelTiles c)]) ++
               expectedTiles host n
                 (if (0 <? Z.of_nat n)%Z then nextCanvas host c else c))
      by (rewrite <- app_assoc; reflexivity).
    destruct (0 <? Z.of_nat n)%Z.
    + rewrite <- (app_nil_l (expectedLog _ _ _ _)).
      eapply returns_bind; [apply downsample_returns | apply IH].
    + apply IH.
Qed.

Lemma processLevels_quiet numLevels n : forall c allTiles,
  appends quiet (processLevels host numLevels n c allTiles).
Proof.
  induction n as [|n IH]; intros c allTiles; cbn [processLevels].
  - apply appends_ret.
  - cbv zeta. apply appends_bind; [apply appends_emit; exact I|]. intros _.
    apply appends_bind.
    + apply appends_forEach. intros y. apply appends_forEach. intros x.
      apply makeTile_quiet.
    + intros made. destruct (0 <? Z.of_nat n)%Z.
      * apply appends_bind; [apply downsample_quiet | intros; apply IH].
      * apply IH.
Qed.

End Worker.

Section WorkerRun.
Import Builder Expected Run.
Variable host : Host.

Lemma posted_app l1 l2 : posted (l1 ++ l2) = posted l1 ++ posted l2.
Proof.
  induction l1 as [|a l1 IH]; [reflexivity|].
  destruct a; cbn; rewrite IH; reflexivity.
Qed.

Lemma posted_quiet l : Forall quiet l -> forallb isProgress (posted l) = true.
Proof.
  induction 1 as [|a l Ha _ IH]; [reflexivity|].
  destruct a as [[msg | d | msg] | | ]; cbn in *; try contradiction; auto.
Qed.

Lemma quiet_not_done l data : Forall quiet l -> ~ In (Posted (MsgDone data)) l.
Proof.
  intros Hq Hin. rewrite Forall_forall in Hq. exact (Hq _ Hin).
Qed.

Lemma levelDraws_quiet level c : Forall quiet (levelDraws level c).
Proof.
  unfold levelDraws. apply Forall_flat_map, Forall_forall. intros y _.
  apply Forall_map, Forall_forall. intros x _. exact I.
Qed.

Lemma expectedLog_quiet numLevels n : forall c,
  Forall quiet (expectedLog host numLevels n c).
Proof.
  induction n as [|n IH]; intros c; cbn [expectedLog]; [constructor|].
  constructor; [exact I|]. apply Forall_app. split; [apply levelDraws_quiet | apply IH].
Qed.

Lemma tryBlock_returns image :
  returns (tryBlock host (Some image)) tt
    (expectedLog host (levelsOf image) (Z.to_nat (levelsOf image))
       (firstCanvas image) ++
     [Posted (MsgDone (expectedData host image))]).
Proof.
  unfold tryBlock. cbv zeta.
  rewrite <- (app_nil_l (expectedLog _ _ _ _ ++ _)).
  eapply returns_bind; [apply createCanvas_returns|].
  eapply returns_bind; [|apply returns_emit].
  apply (processLevels_returns host _ _ (firstCanvas image) []).
Qed.

Lemma tryBlock_quiet decoded : forall log,
  exists added,
    Forall quiet added /\
    match tryBlock host decoded log with
    | (Returned _, log') =>
        exists data, log' = log ++ added ++ [Posted (MsgDone data)]
    | (Thrown _, log') => log' = log ++ added
    end.
Proof.
  intros log. destruct decoded as [image|].
  - unfold tryBlock. cbv zeta. unfold bind at 1.
    destruct (createCanvas_quiet host (cwidth image) (cheight image) log)
      as (a1 & H1 & Q1).
    destruct (createCanvas host (cwidth image) (cheight image) log)
      as [[blank | e] log1]; cbn in H1; subst log1.
    2: { exists a1. auto. }
    unfold bind.
    match goal with
    | |- context [processLevels host ?N ?n ?c ?t ?l] =>
        destruct (processLevels_quiet host N n c t l) as (a2 & H2 & Q2);
        destruct (processLevels host N n c t l) as [[allTiles | e] log2]
    end; cbn in H2; subst log2.
    + exists (a1 ++ a2). split; [apply Forall_app; auto|].
      eexists. cbn. rewrite <- !app_assoc. reflexivity.
    + exists (a1 ++ a2). split; [apply Forall_app; auto|].
      rewrite <- app_assoc. reflexivity.
  - exists []. split; [constructor|]. cbn. rewrite app_nil_r. reflexivity.
Qed.

(** A run ends in one of two ways. *)
Lemma onmessage_cases decoded :
  (exists image,
     decoded = Some image /\
     onmessage host decoded =
       expectedLog host (levelsOf image) (Z.to_nat (levelsOf image))
         (firstCanvas image) ++
       [Posted (MsgDone (expectedData host image)); Closed]) \/
  (exists added,
     Forall quiet added /\
     onmessage host decoded = added ++ [Posted (MsgError tooLarge); Closed]).
Proof.
  unfold onmessage, try_catch_finally.
  destruct (tryBlock_quiet decoded []) as (added & Hq & Hlog).
  destruct (tryBlock host decoded []) as [[u | e] log'] eqn:E.
  - left. destruct decoded as [image|]; [|discriminate E].
    exists image. split; [reflexivity|].
    pose proof (tryBlock_returns image []) as Hr. rewrite E in Hr.
    destruct Hr as [_ ->]. cbn. rewrite <- app_assoc. reflexivity.
  - right. exists added. split; [exact Hq|].
    cbn in Hlog. subst log'. cbn. rewrite <- app_assoc. reflexivity.
Qed.

Lemma processLevels_succeeds numLevels n :
  (forall w h, canvasOk host w h = true) ->
  forall c allTiles, succeeds (processLevels host numLevels n c allTiles).
Proof.
  intros Hok. assert (Hc : forall w h, succeeds (createCanvas host w h)).
  { intros w h. unfold createCanvas. rewrite Hok. apply succeeds_ret. }
  induction n as [|n IH]; intros c allTiles; cbn [processLevels].
  - apply succeeds_ret.
  - cbv zeta. apply succeeds_bind; [apply succeeds_emit|]. intros _.
    apply succeeds_bind.
    + apply succeeds_forEach. intros y. apply succeeds_forEach. intros x.
      unfold makeTile. apply succeeds_bind; [apply Hc|]. intros t. cbv zeta.
      apply succeeds_bind; [apply succeeds_emit | intros; apply succeeds_ret].
    + intros made. destruct (0 <? Z.of_nat n)%Z; [|apply IH].
      apply succeeds_bind; [|intros; apply IH].
      unfold downsample. cbv zeta.
      apply succeeds_bind; [apply Hc | intros; apply succeeds_ret].
Qed.

(** Where every canvas can be had, a decoded image is built. *)
Lemma onmessage_succeeds image :
  (forall w h, canvasOk host w h = true) ->
  onmessage host (Some image) =
    expectedLog host (levelsOf image) (Z.to_nat (levelsOf image))
      (firstCanvas image) ++
    [Posted (MsgDone (expectedData host image)); Closed].
Proof.
  intros Hok.
  destruct (onmessage_cases (Some image)) as [(image' & [= <-] & H) | (added & Hq & H)];
    [exact H|].
  exfalso. unfold onmessage, try_catch_finally in H.
  assert (Hs : succeeds (tryBlock host (Some image))).
  { unfold tryBlock. cbv zeta. apply succeeds_bind.
    - unfold createCanvas. rewrite Hok. apply succeeds_ret.
    - intros blank. apply succeeds_bind;
        [apply processLevels_succeeds; exact Hok | intros; apply succeeds_emit]. }
  destruct (Hs []) as (u & log' & E). rewrite E in H.
  pose proof (tryBlock_returns image []) as Hr. rewrite E in Hr.
  destruct Hr as [_ ->]. cbn in H.
  rewrite <- app_assoc in H. cbn in H.
  assert (Hin : In (Posted (MsgDone (expectedData host image)))
                  (added ++ [Posted (MsgError tooLarge); Closed])).
  { rewrite <- H. apply in_or_app. right. left. reflexivity. }
  apply in_app_or in Hin. destruct Hin as [Hin | [Hin | [Hin | []]]];
    try discriminate Hin.
  exact (quiet_not_done _ _ Hq Hin).
Qed.

(** A build that posts [done] is the expected one. *)
Lemma onmessage_done decoded data :
  In (Posted (MsgDone data)) (onmessage host decoded) ->
  exists image,
    decoded = Some image /\ data = expectedData host image /\
    onmessage host decoded =
      expectedLog host (levelsOf image) (Z.to_nat (levelsOf image))
        (firstCanvas image) ++
      [Posted (MsgDone data); Closed].
Proof.
  intros Hin.
  destruct (onmessage_cases decoded) as [(image & -> & H) | (added & Hq & H)];
    rewrite H in Hin; apply in_app_or in Hin.
  - exists image. split; [reflexivity|].
    destruct Hin as [Hin | [Hin | [Hin | []]]]; try discriminate Hin.
    + exfalso. exact (quiet_not_done _ _ (expectedLog_quiet _ _ _) Hin).
    + injection Hin as <-. split; [reflexivity | exact H].
  - exfalso. destruct Hin as [Hin | [Hin | [Hin | []]]]; try discriminate Hin.
    exact (quiet_not_done _ _ Hq Hin).
Qed.

End WorkerRun.

(** ** Levels and grids *)

Lemma zrange_In (n z : Z) : In z (zrange n) <-> (0 <= z < n)%Z.
Proof.
  unfold zrange. rewrite in_map_iff. split.
  - intros (k & <- & Hk). apply in_seq in Hk. lia.
  - intros Hz. exists (Z.to_nat z). split; [lia|]. apply in_seq. lia.
Qed.

Lemma levelsDown_S n : Run.levelsDown (S n) = n :: Run.levelsDown n.
Proof.
  unfold Run.levelsDown. rewrite seq_S, rev_app_distr. reflexivity.
Qed.

Lemma levelsDown_In n l : In l (Run.levelsDown n) <-> (l < n)%nat.
Proof.
  unfold Run.levelsDown. rewrite <- in_rev, in_seq. lia.
Qed.

Lemma flat_map_agree {A B} (f g : A -> list B) (l : list A) :
  (forall a, In a l -> f a = g a) -> flat_map f l = flat_map g l.
Proof.
  intros H. rewrite !flat_map_concat_map. f_equal. apply map_ext_in. exact H.
Qed.

Lemma floor_half (w : Z) : Qfloor (inject_Z w / 2) = (w / 2)%Z.
Proof. symmetry. apply (Zdiv_Qdiv w 2). Qed.

(** Below a ceiling: [x < ceil(w / TILE_SIZE)] exactly when
    [x * TILE_SIZE < w]. *)
Lemma below_grid (w x : Z) :
  (x < Qceiling (inject_Z w / inject_Z TILE_SIZE))%Z <-> (x * TILE_SIZE < w)%Z.
Proof.
  set (q := inject_Z w / inject_Z TILE_SIZE).
  assert (Hq : q * inject_Z TILE_SIZE == inject_Z w).
  { unfold q. field. discriminate. }
  pose proof (Qle_ceiling q) as Hup. pose proof (Qceiling_lt q) as Hlow.
  split; intros H.
  - assert (Hx : inject_Z x < q).
    { apply Qle_lt_trans with (inject_Z (Qceiling q - 1)); [|exact Hlow].
      apply inject_Z_le. lia. }
    rewrite Zlt_Qlt, inject_Z_mult, <- Hq.
    apply Qmult_lt_compat_r; [reflexivity | exact Hx].
  - rewrite Zlt_Qlt, inject_Z_mult, <- Hq in H.
    apply Qmult_lt_r in H; [|reflexivity].
    rewrite Zlt_Qlt. apply Qlt_le_trans with q; assumption.
Qed.

Section Levels.
Import Builder Expected Run.
Variable host : Host.

Lemma levelCanvas_next c k :
  levelCanvas host (nextCanvas host c) k = levelCanvas host c (S k).
Proof.
  induction k as [|k IH]; [reflexivity|].
  cbn [levelCanvas] in *. rewrite IH. reflexivity.
Qed.

(** The sizes of the level canvases: repeated floor halving, which is the
    floor of one division by the power of two. *)
Lemma levelCanvas_size c k :
  cwidth (levelCanvas host c k) = (cwidth c / 2 ^ Z.of_nat k)%Z /\
  cheight (levelCanvas host c k) = (cheight c / 2 ^ Z.of_nat k)%Z.
Proof.
  induction k as [|k [IHw IHh]].
  - cbn. rewrite !Z.div_1_r. auto.
  - cbn [levelCanvas]. unfold nextCanvas. cbn [cwidth cheight].
    rewrite !floor_half, IHw, IHh.
    rewrite !Z.div_div by lia.
    replace (Z.of_nat (S k)) with (Z.of_nat k + 1)%Z by lia.
    rewrite Z.pow_add_r by lia. auto.
Qed.

Lemma levelCanvas_halves c k :
  cwidth (levelCanvas host c (S k)) = (cwidth (levelCanvas host c k) / 2)%Z /\
  cheight (levelCanvas host c (S k)) = (cheight (levelCanvas host c k) / 2)%Z.
Proof.
  cbn [levelCanvas]. unfold nextCanvas. cbn [cwidth cheight].
  rewrite !floor_half. auto.
Qed.

Lemma expectedTiles_flat n : forall c,
  expectedTiles host n c =
  map (fun l => (Z.of_nat l, levelTiles (levelCanvas host c (n - 1 - l))))
      (levelsDown n).
Proof.
  induction n as [|n IH]; intros c; [reflexivity|].
  cbn [expectedTiles]. rewrite levelsDown_S. cbn [map].
  replace (S n - 1 - n)%nat with 0%nat by lia. cbn [levelCanvas].
  f_equal. rewrite IH. apply map_ext_in. intros l Hl.
  apply levelsDown_In in Hl. f_equal. f_equal.
  destruct (Z.ltb_spec 0 (Z.of_nat n)); [|lia].
  rewrite levelCanvas_next. f_equal. lia.
Qed.

Lemma expectedLog_flat numLevels n : forall c,
  expectedLog host numLevels n c =
  flat_map (fun l =>
              Posted (MsgProgress (progressText (Z.of_nat l) numLevels)) ::
              levelDraws (Z.of_nat l) (levelCanvas host c (n - 1 - l)))
           (levelsDown n).
Proof.
  induction n as [|n IH]; intros c; [reflexivity|].
  cbn [expectedLog]. rewrite levelsDown_S. cbn [flat_map].
  replace (S n - 1 - n)%nat with 0%nat by lia. cbn [levelCanvas app].
  f_equal. f_equal. rewrite IH. apply flat_map_agree. intros l Hl.
  apply levelsDown_In in Hl. f_equal. f_equal.
  destruct (Z.ltb_spec 0 (Z.of_nat n)); [|lia].
  rewrite levelCanvas_next. f_equal. lia.
Qed.

Lemma posted_levelDraws level c : posted (levelDraws level c) = [].
Proof.
  unfold levelDraws.
  assert (Hrow : forall y xs,
            posted (map (fun x => DrewTile level y x (x * TILE_SIZE)
                                    (y * TILE_SIZE) (cropWidth c x)
                                    (cropHeight c y)) xs) = []).
  { intros y xs. induction xs as [|x xs IHx]; [reflexivity | exact IHx]. }
  induction (zrange (gridRows c)) as [|y ys IH]; [reflexivity|].
  cbn [flat_map]. rewrite posted_app, IH, Hrow. reflexivity.
Qed.

Lemma posted_expectedLog numLevels n c :
  posted (expectedLog host numLevels n c) =
  map (fun l => MsgProgress (progressText (Z.of_nat l) numLevels))
      (levelsDown n).
Proof.
  rewrite expectedLog_flat.
  induction (levelsDown n) as [|l ls IH]; [reflexivity|].
  cbn [flat_map map]. cbn [app posted].
  rewrite posted_app, posted_levelDraws, IH. reflexivity.
Qed.

(** The tiles of a level are those of its grid. *)
Lemma levelTiles_In c key tile :
  In (key, tile) (levelTiles c) <->
  exists y x, key = (y, x) /\ tile = tileOf c y x /\
              (0 <= y < gridRows c)%Z /\ (0 <= x < gridCols c)%Z.
Proof.
  unfold levelTiles. rewrite in_flat_map. split.
  - intros (y & Hy & Hin). apply in_map_iff in Hin.
    destruct Hin as (x & [= <- <-] & Hx).
    apply zrange_In in Hy, Hx. eauto 6.
  - intros (y & x & -> & -> & Hy & Hx). exists y.
    split; [apply zrange_In; exact Hy|].
    apply in_map_iff. exists x. split; [reflexivity | apply zrange_In; exact Hx].
Qed.

(** A tile: 128 by 128, the crop in its top-left corner, transparent
    elsewhere. *)
Lemma tileOf_shape c y x :
  cwidth (tileOf c y x) = TILE_SIZE /\
  cheight (tileOf c y x) = TILE_SIZE /\
  forall u v,
    pixels (tileOf c y x) u v =
    if ((0 <=? u) && (u <? cropWidth c x) &&
        (0 <=? v) && (v <? cropHeight c y))%Z%bool
    then pixels c (x * TILE_SIZE + u)%Z (y * TILE_SIZE + v)%Z
    else Transparent.
Proof.
  split; [reflexivity | split; [reflexivity|]]. intros u v.
  unfold tileOf, drawImageRegion. cbn [pixels newCanvas].
  rewrite !Z.add_0_l, !Z.sub_0_r. reflexivity.
Qed.

(** Inside the grid the crop is not empty and not larger than a tile. *)
Lemma crop_extent c y x :
  (0 <= y < gridRows c)%Z -> (0 <= x < gridCols c)%Z ->
  (1 <= cropWidth c x <= TILE_SIZE)%Z /\ (1 <= cropHeight c y <= TILE_SIZE)%Z /\
  (x * TILE_SIZE + cropWidth c x <= cwidth c)%Z /\
  (y * TILE_SIZE + cropHeight c y <= cheight c)%Z.
Proof.
  intros [_ Hy] [_ Hx]. apply below_grid in Hy, Hx.
  unfold cropWidth, cropHeight, TILE_SIZE in *. lia.
Qed.

End Levels.

(** ** The Python script's tiles *)

Lemma py_tile_shape level c y x :
  let f := PyBuilder.write_tile level c (cwidth c) (cheight c) y x in
  PyBuilder.file_level f = level /\ PyBuilder.file_y f = y /\
  PyBuilder.file_x f = x /\
  cwidth (PyBuilder.file_image f) = TILE_SIZE /\
  cheight (PyBuilder.file_image f) = TILE_SIZE /\
  forall u v,
    pixels (PyBuilder.file_image f) u v = pixels (Expected.tileOf c y x) u v.
Proof.
  cbv zeta. do 5 (split; [reflexivity|]). intros u v. reflexivity.
Qed.

Lemma py_files_shape kernel n : forall c f,
  In f (PyBuilder.process_levels kernel n c) ->
  exists c' y x,
    (0 <= y < Expected.gridRows c')%Z /\ (0 <= x < Expected.gridCols c')%Z /\
    f = PyBuilder.write_tile (PyBuilder.file_level f) c'
          (cwidth c') (cheight c') y x.
Proof.
  induction n as [|n IH]; intros c f Hin; [destruct Hin|].
  cbn [PyBuilder.process_levels] in Hin. cbv zeta in Hin.
  assert (Hhere : forall rest, In f
     (flat_map (fun y => map (fun x =>
         PyBuilder.write_tile (Z.of_nat n) c (cwidth c) (cheight c) y x)
         (zrange (Qceiling (inject_Z (cwidth c) / inject_Z TILE_SIZE))))
       (zrange (Qceiling (inject_Z (cheight c) / inject_Z TILE_SIZE))) ++ rest) ->
     In f rest \/ exists y x,
       (0 <= y < Expected.gridRows c)%Z /\ (0 <= x < Expected.gridCols c)%Z /\
       f = PyBuilder.write_tile (PyBuilder.file_level f) c (cwidth c) (cheight c) y x).
  { intros rest H. apply in_app_or in H. destruct H as [H | H]; [right | left; exact H].
    apply in_flat_map in H. destruct H as (y & Hy & H).
    apply in_map_iff in H. destruct H as (x & <- & Hx).
    apply zrange_In in Hy, Hx. exists y, x. auto. }
  destruct (0 <? Z.of_nat n)%Z; apply Hhere in Hin;
    destruct Hin as [Hin | (y & x & Hy & Hx & Hf)];
    try (apply IH in Hin; exact Hin); exists c, y, x; auto.
Qed.

Lemma scriptImage_next kernel c k :
  scriptImage kernel (scriptNext kernel c) k = scriptImage kernel c (S k).
Proof.
  induction k as [|k IH]; [reflexivity|].
  cbn [scriptImage] in *. rewrite IH. reflexivity.
Qed.

(** The files of the script, level by level. *)
Lemma process_levels_flat kernel n : forall c,
  PyBuilder.process_levels kernel n c =
  flat_map
    (fun l =>
       let c' := scriptImage kernel c (n - 1 - l) in
       flat_map (fun y =>
         map (fun x =>
           PyBuilder.write_tile (Z.of_nat l) c' (cwidth c') (cheight c') y x)
           (zrange (Expected.gridCols c')))
         (zrange (Expected.gridRows c')))
    (Run.levelsDown n).
Proof.
  induction n as [|n IH]; intros c; [reflexivity|].
  cbn [PyBuilder.process_levels]. cbv zeta. rewrite levelsDown_S.
  cbn [flat_map]. replace (S n - 1 - n)%nat with 0%nat by lia.
  cbn [scriptImage].
  assert (Hrest : forall c1,
    (forall k, scriptImage kernel c1 k =
               scriptImage kernel c (if (0 <? Z.of_nat n)%Z then S k else k)) ->
    PyBuilder.process_levels kernel n c1 =
    flat_map
      (fun l =>
         flat_map (fun y =>
           map (fun x =>
             PyBuilder.write_tile (Z.of_nat l)
               (scriptImage kernel c (S n - 1 - l))
               (cwidth (scriptImage kernel c (S n - 1 - l)))
               (cheight (scriptImage kernel c (S n - 1 - l))) y x)
             (zrange (Expected.gridCols (scriptImage kernel c (S n - 1 - l)))))
           (zrange (Expected.gridRows (scriptImage kernel c (S n - 1 - l)))))
      (Run.levelsDown n)).
  { intros c1 Hc1. rewrite IH. apply flat_map_agree. intros l Hl.
    apply levelsDown_In in Hl. cbv zeta. rewrite Hc1.
    destruct (Z.ltb_spec 0 (Z.of_nat n)); [|lia].
    replace (S (n - 1 - l)) with (S n - 1 - l)%nat by lia. reflexivity. }
  destruct (Z.ltb_spec 0 (Z.of_nat n)) as [Hpos | Hzero].
  - f_equal. apply Hrest. intros k.
    destruct (Z.ltb_spec 0 (Z.of_nat n)); [|lia].
    apply (scriptImage_next kernel c k).
  - f_equal. assert (Hn : n = 0%nat) by lia. subst n. reflexivity.
Qed.

(** The files of the script are those of the grids of its level images. *)
Lemma process_levels_In kernel n c f :
  In f (PyBuilder.process_levels kernel n c) <->
  exists (l : nat) (y x : Z),
    (l < n)%nat /\
    (0 <= y < Expected.gridRows (scriptImage kernel c (n - 1 - l)))%Z /\
    (0 <= x < Expected.gridCols (scriptImage kernel c (n - 1 - l)))%Z /\
    f = PyBuilder.write_tile (Z.of_nat l) (scriptImage kernel c (n - 1 - l))
          (cwidth (scriptImage kernel c (n - 1 - l)))
          (cheight (scriptImage kernel c (n - 1 - l))) y x.
Proof.
  rewrite process_levels_flat, in_flat_map. split.
  - intros (l & Hl & Hin). cbv zeta in Hin. apply in_flat_map in Hin.
    destruct Hin as (y & Hy & Hin). apply in_map_iff in Hin.
    destruct Hin as (x & <- & Hx). apply levelsDown_In in Hl.
    apply zrange_In in Hy, Hx. exists l, y, x. auto.
  - intros (l & y & x & Hl & Hy & Hx & ->). exists l.
    split; [apply levelsDown_In; exact Hl|]. cbv zeta.
    apply in_flat_map. exists y. split; [apply zrange_In; exact Hy|].
    apply in_map_iff. exists x. split; [reflexivity | apply zrange_In; exact Hx].
Qed.

(** The level images of the script have the sizes of the level canvases
    of the worker. *)
Lemma scriptImage_size host kernel image k :
  cwidth (scriptImage kernel image k) =
    cwidth (Expected.levelCanvas host (Expected.firstCanvas image) k) /\
  cheight (scriptImage kernel image k) =
    cheight (Expected.levelCanvas host (Expected.firstCanvas image) k).
Proof.
  induction k as [|k [IHw IHh]]; [split; reflexivity|].
  cbn [scriptImage Expected.levelCanvas].
  unfold scriptNext, Expected.nextCanvas. cbn [cwidth cheight].
  rewrite IHw, IHh. split; reflexivity.
Qed.

Lemma write_tile_isTileOf level c y x :
  isTileOf c y x
    (PyBuilder.file_image
       (PyBuilder.write_tile level c (cwidth c) (cheight c) y x)).
Proof.
  destruct (py_tile_shape level c y x) as (_ & _ & _ & Hw & Hh & Hpix).
  split; [exact Hw|]. split; [exact Hh|].
  intros u v. rewrite Hpix. apply (proj2 (proj2 (tileOf_shape c y x))).
Qed.

Section Pyramid.
Import Builder Expected Run.

Lemma tileOf_isTileOf c y x : isTileOf c y x (tileOf c y x).
Proof. apply tileOf_shape. Qed.

(** C5. In a pyramid that the worker posts, the levels are
    [numLevels - 1, ..., 0]; the tiles of a level are exactly those of its
    grid of [ceil(width / TILE_SIZE)] columns and
    [ceil(height / TILE_SIZE)] rows; every tile, edge tiles included, is
    [TILE_SIZE] by [TILE_SIZE], holds the crop of extent
    [min(TILE_SIZE, width - col * TILE_SIZE)] by
    [min(TILE_SIZE, height - row * TILE_SIZE)] (at least one pixel each
    way) at offset (0,0) and is transparent elsewhere.  The same holds of
    the Python script: its level images have the sizes of the worker's
    level canvases, it writes a file for every cell of the grid of every
    level, every file it writes is for such a cell, and the image of the
    file is the tile of that cell of that level's image. *)
Theorem tiles_have_tile_size (host : Host) (decoded : option Canvas)
  (data : PyramidData) :
  In (Posted (MsgDone data)) (onmessage host decoded) ->
  exists image,
    decoded = Some image /\
    let n := Z.to_nat (levelsOf image) in
    map fst (tiles data) = map Z.of_nat (levelsDown n) /\
    (forall level stored,
       In (level, stored) (tiles data) ->
       exists c,
         c = levelCanvas host (firstCanvas image) (n - 1 - Z.to_nat level) /\
         (forall y x,
            (0 <= y < Qceiling (inject_Z (cheight c) / inject_Z TILE_SIZE))%Z ->
            (0 <= x < Qceiling (inject_Z (cwidth c) / inject_Z TILE_SIZE))%Z ->
            exists tile, In ((y, x), tile) stored) /\
         (forall key tile,
            In (key, tile) stored ->
            exists y x,
              key = (y, x) /\
              (0 <= y < Qceiling (inject_Z (cheight c) / inject_Z TILE_SIZE))%Z /\
              (0 <= x < Qceiling (inject_Z (cwidth c) / inject_Z TILE_SIZE))%Z /\
              isTileOf c y x tile /\
              (1 <= Z.min TILE_SIZE (cwidth c - x * TILE_SIZE))%Z /\
              (1 <= Z.min TILE_SIZE (cheight c - y * TILE_SIZE))%Z)) /\
    (forall kernel,
       let files := fst (fst (PyBuilder.generate_tiles_manually kernel image)) in
       let m := Z.to_nat (PyBuilder.compute_num_levels (cwidth image)
                            (cheight image)) in
       (forall k,
          cwidth (scriptImage kernel image k) =
            cwidth (levelCanvas host (firstCanvas image) k) /\
          cheight (scriptImage kernel image k) =
            cheight (levelCanvas host (firstCanvas image) k)) /\
       (forall level y x,
          (0 <= level < Z.of_nat m)%Z ->
          let c := scriptImage kernel image (m - 1 - Z.to_nat level) in
          (0 <= y < Qceiling (inject_Z (cheight c) / inject_Z TILE_SIZE))%Z ->
          (0 <= x < Qceiling (inject_Z (cwidth c) / inject_Z TILE_SIZE))%Z ->
          exists f,
            In f files /\
            PyBuilder.file_level f = level /\
            PyBuilder.file_y f = y /\ PyBuilder.file_x f = x /\
            isTileOf c y x (PyBuilder.file_image f)) /\
       (forall f,
          In f files ->
          (0 <= PyBuilder.file_level f < Z.of_nat m)%Z /\
          let c := scriptImage kernel image
                     (m - 1 - Z.to_nat (PyBuilder.file_level f)) in
          let y := PyBuilder.file_y f in
          let x := PyBuilder.file_x f in
          (0 <= y < Qceiling (inject_Z (cheight c) / inject_Z TILE_SIZE))%Z /\
          (0 <= x < Qceiling (inject_Z (cwidth c) / inject_Z TILE_SIZE))%Z /\
          isTileOf c y x (PyBuilder.file_image f) /\
          (1 <= Z.min TILE_SIZE (cwidth c - x * TILE_SIZE))%Z /\
          (1 <= Z.min TILE_SIZE (cheight c - y * TILE_SIZE))%Z)).
Proof.
  intros Hdone.
  destruct (onmessage_done host decoded data Hdone) as (image & -> & -> & _).
  exists image. split; [reflexivity|]. cbv zeta.
  unfold expectedData. cbn [tiles]. rewrite expectedTiles_flat.
  split; [|split].
  - rewrite map_map. apply map_ext. reflexivity.
  - intros level lt Hin. apply in_map_iff in Hin.
    destruct Hin as (l & [= <- <-] & Hl). rewrite Nat2Z.id.
    set (c := levelCanvas host (firstCanvas image) _).
    exists c. split; [reflexivity|]. split.
    + intros y x Hy Hx. exists (tileOf c y x).
      apply levelTiles_In. exists y, x. auto.
    + intros key tile Hin. apply levelTiles_In in Hin.
      destruct Hin as (y & x & -> & -> & Hy & Hx).
      exists y, x. split; [reflexivity|]. split; [exact Hy|].
      split; [exact Hx|]. split; [apply tileOf_isTileOf|].
      destruct (crop_extent c y x Hy Hx) as (Hw & Hh & _). split.
      * apply Hw.
      * apply Hh.
  - intros kernel. cbv zeta.
    cbn [PyBuilder.generate_tiles_manually fst].
    set (m := Z.to_nat (PyBuilder.compute_num_levels (cwidth image)
                          (cheight image))).
    split; [intros k; apply scriptImage_size|]. split.
    + intros level y x Hlevel Hy Hx.
      exists (PyBuilder.write_tile level
                (scriptImage kernel image (m - 1 - Z.to_nat level))
                (cwidth (scriptImage kernel image (m - 1 - Z.to_nat level)))
                (cheight (scriptImage kernel image (m - 1 - Z.to_nat level)))
                y x).
      split.
      * apply process_levels_In. exists (Z.to_nat level), y, x.
        rewrite Z2Nat.id by lia. split; [lia|]. auto.
      * split; [reflexivity|]. split; [reflexivity|]. split; [reflexivity|].
        apply write_tile_isTileOf.
    + intros f Hin. apply process_levels_In in Hin.
      destruct Hin as (l & y & x & Hl & Hy & Hx & ->).
      cbn [PyBuilder.write_tile PyBuilder.file_level PyBuilder.file_y
           PyBuilder.file_x].
      rewrite Nat2Z.id. split; [lia|].
      split; [exact Hy|]. split; [exact Hx|].
      split; [apply write_tile_isTileOf|].
      destruct (crop_extent _ y x Hy Hx) as (Hw & Hh & _). split.
      * apply Hw.
      * apply Hh.
Qed.

Lemma tiles_have_tile_size_witness :
  In (Posted (MsgDone smallData)) smallBuild /\
  map fst (tiles smallData) = [1; 0]%Z.
Proof.
  assert (Hdone : In (Posted (MsgDone smallData))
                     (onmessage roomyHost (Some smallImage))).
  { vm_compute. do 5 right. left. reflexivity. }
  split; [exact Hdone|].
  destruct (tiles_have_tile_size roomyHost (Some smallImage) smallData Hdone)
    as (image & Himage & Hlevels & _).
  injection Himage as <-. rewrite Hlevels. reflexivity.
Defined.

(** C6 (amended). At the start of each level's round, before any tile of
    that level is cut, the worker posts a progress message whose text is
    [Processing level <level>/<numLevels - 1>...].  The posted stream is a
    run of progress messages followed by exactly one terminal message,
    [done] with the pyramid or [error]; a stream that ends in [done] has
    one progress message per level, from [numLevels - 1] down to 0. *)
Theorem build_event_stream (host : Host) (decoded : option Canvas) :
  (exists progress term,
     posted (onmessage host decoded) = progress ++ [term] /\
     forallb isProgress progress = true /\
     isTerminal term = true /\
     ((exists data, term = MsgDone data) \/ term = MsgError tooLarge)) /\
  (forall data,
     In (Posted (MsgDone data)) (onmessage host decoded) ->
     exists image,
       decoded = Some image /\
       let n := Z.to_nat (levelsOf image) in
       pyramidLevels data = levelsOf image /\
       onmessage host decoded =
         flat_map
           (fun l =>
              Posted (MsgProgress (progressText (Z.of_nat l) (levelsOf image))) ::
              levelDraws (Z.of_nat l)
                (levelCanvas host (firstCanvas image) (n - 1 - l)))
           (levelsDown n) ++
         [Posted (MsgDone data); Closed] /\
       posted (onmessage host decoded) =
         map (fun l => MsgProgress (progressText (Z.of_nat l) (levelsOf image)))
             (levelsDown n) ++
         [MsgDone data]) /\
  (forall level numLevels,
     progressText level numLevels =
     ("Processing level " ++ string_of_Z level ++ "/" ++
      string_of_Z (numLevels - 1) ++ "...")%string).
Proof.
  split; [|split].
  - destruct (onmessage_cases host decoded)
      as [(image & _ & ->) | (added & Hq & ->)].
    + exists (posted (expectedLog host (levelsOf image)
                        (Z.to_nat (levelsOf image)) (firstCanvas image))),
             (MsgDone (expectedData host image)).
      split; [rewrite posted_app; reflexivity|].
      split; [apply posted_quiet, expectedLog_quiet|].
      split; [reflexivity|]. left. eauto.
    + exists (posted added), (MsgError tooLarge).
      split; [rewrite posted_app; reflexivity|].
      split; [apply posted_quiet; exact Hq|].
      split; [reflexivity|]. right. reflexivity.
  - intros data Hdone.
    destruct (onmessage_done host decoded data Hdone) as (image & -> & -> & Hlog).
    exists image. split; [reflexivity|]. cbv zeta.
    split; [reflexivity|]. rewrite Hlog. split.
    + rewrite expectedLog_flat. reflexivity.
    + rewrite posted_app, posted_expectedLog. reflexivity.
  - reflexivity.
Qed.

Lemma build_event_stream_witness :
  posted smallBuild =
  [MsgProgress "Processing level 1/1..."; MsgProgress "Processing level 0/1...";
   MsgDone smallData].
Proof.
  destruct (build_event_stream roomyHost (Some smallImage)) as (_ & Hdone & _).
  destruct (Hdone smallData) as (image & Himage & _ & _ & Hposted).
  - vm_compute. do 5 right. left. reflexivity.
  - injection Himage as <-. unfold smallBuild. rewrite Hposted. reflexivity.
Defined.

(** C6 as stated fails: in the build of a 200 by 100 image (two levels)
    the progress message of a level is posted before its tiles are cut,
    no progress message follows the tiling of level 0, and the messages
    carry [numLevels - 1 = 1], not [numLevels = 2]. *)
Lemma progress_precedes_tiling :
  levelsOf smallImage = 2%Z /\
  outline smallBuild =
    [StepProgress "Processing level 1/1..."; StepTile 1 0 0; StepTile 1 0 1;
     StepProgress "Processing level 0/1..."; StepTile 0 0 0;
     StepDone; StepClosed] /\
  progressAfterTiling 0 (outline smallBuild) = false.
Proof.
  split; [reflexivity | split; [reflexivity |]].
  vm_compute. reflexivity.
Qed.

(** An image wider than the host's limit: the only message is the error. *)
Example oversized_image_fails :
  onmessage tightHost (Some (plainImage 5000 100)) =
    [Posted (MsgError tooLarge); Closed].
Proof. reflexivity. Qed.

End Pyramid.

Section WorldSizes.
Import Builder Expected Run.

(** ** World sizes of the renderer against level sizes of the builder *)

Lemma quotient_by_pow2 (w e : Z) :
  (0 <= e)%Z -> inject_Z w / pow2 e == inject_Z w / inject_Z (2 ^ e).
Proof. intros He. rewrite pow2_inject by assumption. reflexivity. Qed.

Lemma floor_quotient (w e : Z) :
  (0 <= e)%Z -> Qfloor (inject_Z w / pow2 e) = (w / 2 ^ e)%Z.
Proof.
  intros He. rewrite (Qfloor_comp _ _ (quotient_by_pow2 w e He)).
  symmetry. apply Zdiv_Qdiv.
Qed.

Lemma quotient_exact (w e : Z) :
  (0 <= e)%Z ->
  (inject_Z w / pow2 e == inject_Z (w / 2 ^ e) <-> (w mod 2 ^ e = 0)%Z).
Proof.
  intros He. rewrite quotient_by_pow2 by assumption.
  assert (Hp : (0 < 2 ^ e)%Z) by (apply Z.pow_pos_nonneg; lia).
  assert (Hq : ~ inject_Z (2 ^ e) == 0).
  { intros H. change 0 with (inject_Z 0) in H.
    rewrite inject_Z_injective in H. lia. }
  split; intros H.
  - assert (Hm : inject_Z w == inject_Z (w / 2 ^ e) * inject_Z (2 ^ e)).
    { rewrite <- H. field. exact Hq. }
    rewrite <- inject_Z_mult, inject_Z_injective in Hm.
    rewrite Z.mod_eq by lia. rewrite (Z.mul_comm (2 ^ e)). lia.
  - apply Z.div_exact in H; [|lia]. rewrite H at 1.
    rewrite inject_Z_mult. field. exact Hq.
Qed.

Lemma scanLevels_step data vs fuel i baseIndex :
  Explorer.scanLevels data vs (S fuel) i baseIndex =
  if Qlt_le_dec (width vs) (width (Explorer.worldSizeAt data i))
  then baseIndex
  else if Qlt_le_dec (height vs) (height (Explorer.worldSizeAt data i))
       then baseIndex
       else Explorer.scanLevels data vs fuel (i + 1)%Z i.
Proof. reflexivity. Qed.

Lemma getInitialState_pan data vs s :
  Explorer.getInitialState data vs = Some s ->
  init_pan s =
  Explorer.clampPan (mkPoint 0 0)
    (Explorer.worldSizeAt data (init_zoomIndex s)) vs.
Proof.
  unfold Explorer.getInitialState. destruct (Qeq_bool (width vs) 0);
    [discriminate|]. intros [= <-]. reflexivity.
Qed.

(** C4 (amended). The world size that the renderer uses for level [i] --
    in the scan of the initialisation, for the initial pan, and in the
    clamps of [handleZoom] and [handlePan] -- is the original size divided
    directly by [2 ^ (numLevels - 1 - i)], without rounding.  The builder's
    level sizes come from repeated floor halving and equal the floor of
    that quotient; the two agree exactly when the power of two divides
    the original size. *)
Theorem world_size_is_direct_quotient (host : Host) (image : Canvas)
  (data : ImageData) (level : Z) :
  originalDimensions data =
    mkDims (inject_Z (cwidth image)) (inject_Z (cheight image)) ->
  (0 <= level <= numLevels data - 1)%Z ->
  let e := (numLevels data - 1 - level)%Z in
  let c := levelCanvas host (firstCanvas image) (Z.to_nat e) in
  let world := Explorer.worldSizeAt data level in
  (width world == inject_Z (cwidth image) / pow2 e /\
   height world == inject_Z (cheight image) / pow2 e) /\
  (forall k,
     cwidth (levelCanvas host (firstCanvas image) (S k)) =
       (cwidth (levelCanvas host (firstCanvas image) k) / 2)%Z /\
     cheight (levelCanvas host (firstCanvas image) (S k)) =
       (cheight (levelCanvas host (firstCanvas image) k) / 2)%Z) /\
  (cwidth c = Qfloor (width world) /\ cheight c = Qfloor (height world)) /\
  ((width world == inject_Z (cwidth c) <-> (cwidth image mod 2 ^ e = 0)%Z) /\
   (height world == inject_Z (cheight c) <-> (cheight image mod 2 ^ e = 0)%Z)) /\
  (forall vs fuel baseIndex,
     Explorer.scanLevels data vs (S fuel) level baseIndex =
     if Qlt_le_dec (width vs) (width world) then baseIndex
     else if Qlt_le_dec (height vs) (height world) then baseIndex
          else Explorer.scanLevels data vs fuel (level + 1)%Z level) /\
  (forall vs s,
     Explorer.getInitialState data vs = Some s -> init_zoomIndex s = level ->
     init_pan s = Explorer.clampPan (mkPoint 0 0) world vs) /\
  (forall st target screenPoint,
     target <> zoomIndex st -> zoomTarget data st target = level ->
     pan (Explorer.handleZoom data st target screenPoint) =
     Explorer.clampPan (zoomedPan data st target screenPoint) world
       (viewportSize st)) /\
  (forall st direction,
     zoomIndex st = level ->
     pan (Explorer.handlePan data st direction) =
     Explorer.clampPan (movedPan st direction) world (viewportSize st)).
Proof.
  intros Hdims Hlevel e c world.
  assert (He : (0 <= e)%Z) by (subst e; lia).
  destruct (levelCanvas_size host (firstCanvas image) (Z.to_nat e)) as [Hcw Hch].
  rewrite Z2Nat.id in Hcw, Hch by assumption.
  change (cwidth (firstCanvas image)) with (cwidth image) in Hcw.
  change (cheight (firstCanvas image)) with (cheight image) in Hch.
  assert (Hw : width world = inject_Z (cwidth image) / pow2 e).
  { subst world. unfold Explorer.worldSizeAt. rewrite Hdims. reflexivity. }
  assert (Hh : height world = inject_Z (cheight image) / pow2 e).
  { subst world. unfold Explorer.worldSizeAt. rewrite Hdims. reflexivity. }
  split. { rewrite Hw, Hh. split; reflexivity. }
  split. { intros k. apply levelCanvas_halves. }
  split. { fold c in Hcw, Hch. rewrite Hw, Hh, !floor_quotient by assumption. auto. }
  split. { fold c in Hcw, Hch. rewrite Hw, Hh, Hcw, Hch.
           split; apply quotient_exact; assumption. }
  split. { intros vs fuel baseIndex. apply scanLevels_step. }
  split. { intros vs s Hs <-. apply getInitialState_pan. exact Hs. }
  split.
  - intros st target screenPoint Hne <-.
    rewrite handleZoom_changed by assumption. reflexivity.
  - intros st direction <-. rewrite handlePan_unfold. reflexivity.
Qed.

Lemma world_size_is_direct_quotient_witness :
  cwidth (levelCanvas roomyHost (firstCanvas oddImage) 1) = 500%Z /\
  cwidth (levelCanvas roomyHost (firstCanvas oddImage) 1) =
    Qfloor (width (Explorer.worldSizeAt oddData 2)).
Proof.
  assert (Hdims : originalDimensions oddData =
                  mkDims (inject_Z (cwidth oddImage)) (inject_Z (cheight oddImage)))
    by reflexivity.
  assert (Hlevel : (0 <= 2 <= numLevels oddData - 1)%Z) by (vm_compute; split; discriminate).
  destruct (world_size_is_direct_quotient roomyHost oddImage oddData 2 Hdims Hlevel)
    as (_ & _ & (Hfloor & _) & _).
  split; [reflexivity | exact Hfloor].
Defined.

(** C4 as stated fails: for a 1001 by 1001 image (four levels) the
    builder's level 2 is 500 wide, the renderer's world at level 2 is
    1001/2 wide, and a step to the right from pan.x = 60 in a view of 400
    stops at 1001/2 - 400, not at 500 - 400. *)
Lemma world_size_not_halved :
  numLevels oddData = 4%Z /\
  cwidth (levelCanvas roomyHost (firstCanvas oddImage) 1) = 500%Z /\
  width (Explorer.worldSizeAt oddData 2) == 1001 # 2 /\
  ~ width (Explorer.worldSizeAt oddData 2) ==
    inject_Z (cwidth (levelCanvas roomyHost (firstCanvas oddImage) 1)) /\
  px (pan (Explorer.handlePan oddData
             (mkState 2 1 (mkPoint 60 0) (mkDims 400 400) true) Right))
    == 201 # 2.
Proof.
  split; [reflexivity|]. split; [reflexivity|].
  split; [vm_compute; reflexivity|].
  split; [|vm_compute; reflexivity].
  vm_compute. discriminate.
Qed.

End WorldSizes.

Section ArchiveLoading.
Import Loader Manifest.
Local Open Scope string_scope.
Local Open Scope list_scope.

(** ** Loading an archive *)

(** What [handleZipFile] does when its [try] block throws [message] after
    the effects [before]. *)
Lemma handleZipFile_thrown engine loaded message before :
  tryBlock engine loaded
    [SetIsProcessing true; SetProgressMessage "Reading ZIP file..."] =
    (Thrown message,
     [SetIsProcessing true; SetProgressMessage "Reading ZIP file..."] ++ before) ->
  handleZipFile engine loaded =
    [SetIsProcessing true; SetProgressMessage "Reading ZIP file..."] ++
    before ++
    [ConsoleError message; Alert ("Failed to load tile set: " ++ message)%string;
     SetIsProcessing false; SetProgressMessage ""].
Proof.
  intros H. unfold handleZipFile, bind, try_catch_finally. cbn [emit app].
  cbn [app] in H. rewrite H. unfold emit. cbn [snd app].
  rewrite <- !app_assoc. reflexivity.
Qed.

Lemma tryBlock_malformed engine entries message before log :
  Malformed engine entries message before ->
  tryBlock engine (inr entries) log = (Thrown message, log ++ before).
Proof.
  intros H. unfold tryBlock.
  destruct H as [Hf | f msg Hf Hp | f Hf Hp | f v Hf Hp Hv Hprop]; rewrite Hf.
  - cbn. rewrite app_nil_r. reflexivity.
  - unfold bind, emit. fold (manifestText f). rewrite Hp. reflexivity.
  - unfold bind, emit. fold (manifestText f). rewrite Hp. reflexivity.
  - unfold bind at 1. unfold emit at 1. fold (manifestText f). rewrite Hp.
    assert (Hfalsy : negb (truthy (getProp v "originalDimensions")) ||
                     negb (truthy (getProp v "numLevels")) = true).
    { destruct Hprop as [-> | ->]; cbn; [reflexivity | apply orb_true_r]. }
    destruct v; try contradiction; rewrite Hfalsy; reflexivity.
Qed.

Lemma touchesTiles_app l1 l2 :
  existsb touchesTiles (l1 ++ l2) =
  existsb touchesTiles l1 || existsb touchesTiles l2.
Proof. apply existsb_app. Qed.

(** C9. When the manifest of an archive is missing, does not parse, or
    lacks [originalDimensions] or [numLevels], [handleZipFile] raises an
    error that names the problem and shows it in an alert; it reads no
    tile, creates no object URL, stores no result and does not call
    [onTilesGenerated]. *)
Theorem malformed_manifest_fails (engine : Engine) (entries : list ZipEntry)
  (message : string) (before : list Effect) :
  Malformed engine entries message before ->
  handleZipFile engine (inr entries) =
    [SetIsProcessing true; SetProgressMessage "Reading ZIP file..."] ++
    before ++
    [ConsoleError message; Alert ("Failed to load tile set: " ++ message)%string;
     SetIsProcessing false; SetProgressMessage ""] /\
  existsb touchesTiles (handleZipFile engine (inr entries)) = false /\
  (forall data,
     ~ In (OnTilesGenerated data) (handleZipFile engine (inr entries))) /\
  (findFile "image_data.js" entries = None ->
     message = "image_data.js not found in the ZIP file.") /\
  (forall f v,
     findFile "image_data.js" entries = Some f ->
     JSON_parse engine (manifestText f) = inr v -> v <> JNull ->
     message = "Invalid image_data.js format.").
Proof.
  intros Hbad.
  pose proof (handleZipFile_thrown engine (inr entries) message before
                (tryBlock_malformed engine entries message before _ Hbad))
    as Hlog.
  assert (Hquiet : existsb touchesTiles (handleZipFile engine (inr entries)) = false).
  { rewrite Hlog. destruct Hbad; reflexivity. }
  split; [exact Hlog|]. split; [exact Hquiet|]. split; [|split].
  - intros data Hin.
    assert (Ht : existsb touchesTiles (handleZipFile engine (inr entries)) = true).
    { apply existsb_exists. exists (OnTilesGenerated data). auto. }
    congruence.
  - intros Hnone. destruct Hbad; congruence.
  - intros f v Hf Hp Hv. destruct Hbad; congruence.
Qed.

Lemma malformed_manifest_fails_witness :
  handleZipFile exampleEngine (inr emptyManifestArchive) =
    [SetIsProcessing true; SetProgressMessage "Reading ZIP file...";
     ReadText "image_data.js";
     ConsoleError "Invalid image_data.js format.";
     Alert "Failed to load tile set: Invalid image_data.js format.";
     SetIsProcessing false; SetProgressMessage ""].
Proof.
  assert (Hbad : Malformed exampleEngine emptyManifestArchive
                   "Invalid image_data.js format." [ReadText "image_data.js"]).
  { apply (FieldAbsent exampleEngine emptyManifestArchive
             (mkEntry "image_data.js" false "window.imageData = {};")
             (JObject [])).
    - reflexivity.
    - reflexivity.
    - discriminate.
    - left. reflexivity. }
  destruct (malformed_manifest_fails _ _ _ _ Hbad) as (Hlog & _).
  rewrite Hlog. reflexivity.
Defined.

(** For contrast: with a complete manifest the tile is read and the
    result is handed to [onTilesGenerated]. *)
Example complete_manifest_loads :
  handleZipFile exampleEngine (inr goodArchive) =
    [SetIsProcessing true; SetProgressMessage "Reading ZIP file...";
     ReadText "image_data.js";
     SetProgressMessage "Extracting tiles...";
     ReadBlob "tiles/0/0_0.png"; CreateObjectURL "tiles/0/0_0.png";
     SetGeneratedBlobs [(0, "0_0", "PNG")];
     SetGeneratedData
       (mkLoaded [(0, "0_0", "PNG")]
          (getProp goodValue "originalDimensions") (getProp goodValue "numLevels"));
     OnTilesGenerated
       (mkLoaded [(0, "0_0", "PNG")]
          (getProp goodValue "originalDimensions") (getProp goodValue "numLevels"));
     SetIsProcessing false; SetProgressMessage ""].
Proof. vm_compute. reflexivity. Qed.

End ArchiveLoading.

(** * Further properties *)

(** ** The initial level *)

Lemma fits_dec data vs i : {fits data vs i} + {~ fits data vs i}.
Proof.
  unfold fits.
  destruct (Qlt_le_dec (width vs) (width (Explorer.worldSizeAt data i)));
    [right; lra|].
  destruct (Qlt_le_dec (height vs) (height (Explorer.worldSizeAt data i)));
    [right; lra | left; auto].
Qed.

(** What the scan returns: the value it was given when the first level
    does not fit or no round is left, otherwise the last level of the run
    of fitting levels that starts at [i]. *)
Lemma scanLevels_spec data vs fuel : forall i baseIndex,
  let r := Explorer.scanLevels data vs fuel i baseIndex in
  (r = baseIndex /\ (fuel = 0%nat \/ ~ fits data vs i)) \/
  ((i <= r < i + Z.of_nat fuel)%Z /\
   (forall j, (i <= j <= r)%Z -> fits data vs j) /\
   ((r + 1 < i + Z.of_nat fuel)%Z -> ~ fits data vs (r + 1))).
Proof.
  induction fuel as [|fuel IH]; intros i baseIndex; cbv zeta.
  - left. auto.
  - rewrite scanLevels_step.
    destruct (Qlt_le_dec (width vs) _) as [Hw | Hw].
    { left. split; [reflexivity|]. right. unfold fits. lra. }
    destruct (Qlt_le_dec (height vs) _) as [Hh | Hh].
    { left. split; [reflexivity|]. right. unfold fits. lra. }
    assert (Hi : fits data vs i) by (split; assumption).
    right. destruct (IH (i + 1)%Z i) as [[Hr Hstop] | (Hr & Hall & Hnext)].
    + rewrite Hr. split; [lia|]. split.
      * intros j Hj. replace j with i by lia. exact Hi.
      * intros Hroom. destruct Hstop as [-> | Hstop]; [lia | exact Hstop].
    + split; [lia|]. split.
      * intros j Hj. destruct (Z.eq_dec j i) as [-> | Hne]; [exact Hi|].
        apply Hall. lia.
      * intros Hroom. apply Hnext. lia.
Qed.

(** Finer levels are not smaller. *)
Lemma worldSizeAt_mono data i j :
  0 <= width (originalDimensions data) ->
  0 <= height (originalDimensions data) ->
  (i <= j)%Z ->
  width (Explorer.worldSizeAt data i) <= width (Explorer.worldSizeAt data j) /\
  height (Explorer.worldSizeAt data i) <= height (Explorer.worldSizeAt data j).
Proof.
  intros Hw Hh Hij. unfold Explorer.worldSizeAt. cbn [width height].
  set (si := pow2 (numLevels data - 1 - i)).
  set (sj := pow2 (numLevels data - 1 - j)).
  assert (Hsi : 0 < si) by apply pow2_pos.
  assert (Hsj : 0 < sj) by apply pow2_pos.
  assert (Hs : sj <= si) by (apply pow2_le; lia).
  assert (Hinv : / si <= / sj).
  { apply Qle_shift_inv_l; [exact Hsj|].
    assert (H1 : / si * si == 1) by (field; lra).
    assert (H0 : 0 < / si) by (apply Qinv_lt_0_compat; exact Hsi).
    nra. }
  unfold Qdiv. split; nra.
Qed.

Lemma clampAxis_fitting w v : w <= v -> clampAxis 0 w v == (w - v) / 2.
Proof.
  intros Hwv. destruct (Qlt_le_dec w v) as [Hlt | Hge].
  - apply clampAxis_small. exact Hlt.
  - rewrite clampAxis_inside by lra. qlra.
Qed.

(** X2. For image data with at least one level and nonnegative size,
    [getInitialState] picks the finest level that fits in the view when
    level 0 fits -- all coarser levels fit as well, no finer level does --
    and then centres the image: the pan is [(world - view) / 2 <= 0] on
    both axes.  When not even level 0 fits it picks level 0.  The zoom
    index and its lower bound are both set to the picked level. *)
Theorem initial_level (data : ImageData) (vs : ImageDimensions)
  (s : InitialState) :
  (1 <= numLevels data)%Z ->
  0 <= width (originalDimensions data) ->
  0 <= height (originalDimensions data) ->
  Explorer.getInitialState data vs = Some s ->
  let b := init_zoomIndex s in
  let world := Explorer.worldSizeAt data b in
  init_minZoomIndex s = b /\
  (0 <= b <= numLevels data - 1)%Z /\
  (fits data vs 0 ->
     (forall j, (0 <= j <= b)%Z -> fits data vs j) /\
     (forall j, (b < j <= numLevels data - 1)%Z -> ~ fits data vs j) /\
     px (init_pan s) == (width world - width vs) / 2 /\
     py (init_pan s) == (height world - height vs) / 2 /\
     px (init_pan s) <= 0 /\ py (init_pan s) <= 0) /\
  (~ fits data vs 0 -> b = 0%Z).
Proof.
  intros HN Hw Hh Hs b world.
  pose proof (getInitialState_pan data vs s Hs) as Hpan. fold b world in Hpan.
  unfold Explorer.getInitialState in Hs.
  destruct (Qeq_bool (width vs) 0); [discriminate|].
  injection Hs as Hs.
  assert (Hb : b = Explorer.scanLevels data vs (Z.to_nat (numLevels data)) 0 0)
    by (subst b; rewrite <- Hs; reflexivity).
  assert (Hmin : init_minZoomIndex s = b) by (subst b; rewrite <- Hs; reflexivity).
  pose proof (scanLevels_spec data vs (Z.to_nat (numLevels data)) 0 0) as Hscan.
  cbv zeta in Hscan. rewrite <- Hb in Hscan. rewrite Z2Nat.id in Hscan by lia.
  split; [exact Hmin|].
  destruct Hscan as [[Hr [Hfuel | Hstop]] | (Hr & Hall & Hnext)].
  - lia.
  - split; [lia|]. split; [intros Hfit; contradiction | intros _; exact Hr].
  - split; [lia|]. split; [|intros Hno; exfalso; apply Hno, Hall; lia].
    intros _.
    assert (Hfit : fits data vs b) by (apply Hall; lia).
    split; [exact Hall|]. split.
    { intros j Hj Hfj. apply Hnext; [lia|].
      destruct (worldSizeAt_mono data (b + 1) j Hw Hh ltac:(lia)) as [Hmw Hmh].
      destruct Hfj as [Hjw Hjh]. split; lra. }
    destruct Hfit as [Hfw Hfh]. fold world in Hfw, Hfh.
    rewrite Hpan, clampPan_axes. cbn [px py width height].
    rewrite !clampAxis_fitting by assumption.
    split; [reflexivity|]. split; [reflexivity|]. split; qlra.
Qed.

Lemma initial_level_witness :
  exists s,
    Explorer.getInitialState zoomScenarioData (mkDims 600 450) = Some s /\
    init_zoomIndex s = 2%Z /\ init_minZoomIndex s = 2%Z /\
    point_eq (init_pan s) (mkPoint (-50) (-75 # 2)).
Proof.
  destruct (Explorer.getInitialState zoomScenarioData (mkDims 600 450))
    as [s|] eqn:E; [|discriminate E].
  exists s. split; [reflexivity|].
  assert (HN : (1 <= numLevels zoomScenarioData)%Z) by (cbn; lia).
  assert (Hw : 0 <= width (originalDimensions zoomScenarioData)) by discriminate.
  assert (Hh : 0 <= height (originalDimensions zoomScenarioData)) by discriminate.
  destruct (initial_level zoomScenarioData (mkDims 600 450) s HN Hw Hh E)
    as (Hmin & _ & Hfits & _).
  injection E as <-. split; [reflexivity|]. split; [exact Hmin|].
  destruct Hfits as (_ & _ & Hx & Hy & _).
  - split; vm_compute; discriminate.
  - split; [rewrite Hx | rewrite Hy]; vm_compute; reflexivity.
Defined.

(** ** The clamped state *)

Lemma clampedState_axes data st :
  clampedState data st <->
  clampAxis (px (pan st)) (width (Explorer.worldSizeAt data (zoomIndex st)))
            (width (viewportSize st)) == px (pan st) /\
  clampAxis (py (pan st)) (height (Explorer.worldSizeAt data (zoomIndex st)))
            (height (viewportSize st)) == py (pan st).
Proof. unfold clampedState, point_eq. rewrite clampPan_axes. reflexivity. Qed.

(** ** Clicks, buttons and the cursor *)

Lemma handleZoom_index data st target screenPoint :
  zoomInvariant data st ->
  (minZoomIndex st <= target <= numLevels data - 1)%Z ->
  zoomIndex (Explorer.handleZoom data st target screenPoint) = target /\
  minZoomIndex (Explorer.handleZoom data st target screenPoint) = minZoomIndex st /\
  viewportSize (Explorer.handleZoom data st target screenPoint) = viewportSize st /\
  isInitialized (Explorer.handleZoom data st target screenPoint) = isInitialized st.
Proof.
  intros Hinv Ht. destruct (Z.eq_dec target (zoomIndex st)) as [-> | Hne].
  - rewrite handleZoom_same. auto.
  - rewrite handleZoom_changed by assumption. cbn.
    unfold zoomTarget. split; [lia | auto].
Qed.

(** X5. A click is steered by the [shiftKey] of the click event, the
    cursor by the [isShiftPressed] state that the key listeners keep, and
    the code does not tie the two.  A click with [shiftKey] moves one level
    down when the index is above the minimum, a click without it one level
    up when the index is below the top level, and otherwise the state is
    unchanged.  When the state and the event agree on the shift key the
    click does what the cursor announces: nothing with the default cursor,
    one level up with the zoom-in cursor, one level down with the zoom-out
    cursor.  The zoom bounds, the frame and the invariant on the index are
    kept in every case. *)
Theorem click_follows_cursor (data : ImageData) (st : ViewportState)
  (isShiftPressed shiftKey : bool) (clientX clientY rectLeft rectTop : Q) :
  zoomInvariant data st ->
  let st' := View.onClick data st shiftKey clientX clientY rectLeft rectTop in
  (if shiftKey
   then if (minZoomIndex st <? zoomIndex st)%Z
        then zoomIndex st' = (zoomIndex st - 1)%Z
        else st' = st
   else if (zoomIndex st <? numLevels data - 1)%Z
        then zoomIndex st' = (zoomIndex st + 1)%Z
        else st' = st) /\
  (isShiftPressed = shiftKey ->
   match View.cursorClass data st isShiftPressed with
   | View.cursor_default => st' = st
   | View.cursor_zoom_in => zoomIndex st' = (zoomIndex st + 1)%Z
   | View.cursor_zoom_out => zoomIndex st' = (zoomIndex st - 1)%Z
   end) /\
  minZoomIndex st' = minZoomIndex st /\
  viewportSize st' = viewportSize st /\
  zoomInvariant data st'.
Proof.
  intros Hinv st'. subst st'. unfold View.onClick, View.cursorClass.
  pose proof Hinv as Hinv'. unfold zoomInvariant in Hinv'.
  destruct shiftKey.
  - destruct (Z.ltb_spec (minZoomIndex st) (zoomIndex st)) as [Hlt | Hge].
    + destruct (handleZoom_index data st (zoomIndex st - 1)
                  (mkPoint (clientX - rectLeft) (clientY - rectTop)) Hinv)
        as (Hz & Hm & Hv & _); [lia|].
      unfold zoomInvariant. rewrite Hz, Hm, Hv.
      split; [reflexivity|]. split; [intros ->; cbn [andb negb]; reflexivity|].
      repeat split; lia.
    + split; [reflexivity|]. split; [intros ->; cbn [andb negb]; reflexivity|].
      auto.
  - destruct (Z.ltb_spec (zoomIndex st) (numLevels data - 1)) as [Hlt | Hge].
    + destruct (handleZoom_index data st (zoomIndex st + 1)
                  (mkPoint (clientX - rectLeft) (clientY - rectTop)) Hinv)
        as (Hz & Hm & Hv & _); [lia|].
      unfold zoomInvariant. rewrite Hz, Hm, Hv.
      split; [reflexivity|]. split; [intros ->; cbn [andb negb]; reflexivity|].
      repeat split; lia.
    + split; [reflexivity|]. split; [intros ->; cbn [andb negb]; reflexivity|].
      auto.
Qed.

(** A click with the shift key held while the state still says it is not:
    the cursor shows zoom-in and the click goes one level down. *)
Lemma click_follows_cursor_witness :
  View.cursorClass zoomScenarioData zoomScenarioState false =
    View.cursor_zoom_in /\
  zoomIndex (View.onClick zoomScenarioData zoomScenarioState true 310 220 10 20)
    = 2%Z /\
  zoomIndex (View.onClick zoomScenarioData zoomScenarioState false 310 220 10 20)
    = 4%Z.
Proof.
  assert (Hinv : zoomInvariant zoomScenarioData zoomScenarioState)
    by (vm_compute; split; discriminate).
  split; [reflexivity|]. split.
  - destruct (click_follows_cursor zoomScenarioData zoomScenarioState false true
                310 220 10 20 Hinv) as (H & _).
    exact H.
  - destruct (click_follows_cursor zoomScenarioData zoomScenarioState false false
                310 220 10 20 Hinv) as (_ & H & _).
    exact (H eq_refl).
Defined.

Lemma displayedZoom_step st st' (d : Z) :
  zoomIndex st' = (zoomIndex st + d)%Z -> minZoomIndex st' = minZoomIndex st ->
  View.displayedZoom st' == pow2 d * View.displayedZoom st.
Proof.
  intros Hz Hm. unfold View.displayedZoom. rewrite Hz, Hm, <- pow2_add.
  replace (zoomIndex st + d - minZoomIndex st)%Z
    with (d + (zoomIndex st - minZoomIndex st))%Z by lia.
  reflexivity.
Qed.

(** X6. The plus button doubles the displayed zoom and the minus button
    halves it, one level at a time; at the top level the plus button and
    at the base level the minus button change nothing.  The displayed zoom
    is a power of two that is at least 1. *)
Theorem zoom_buttons_step (data : ImageData) (st : ViewportState) :
  zoomInvariant data st ->
  ((zoomIndex st < numLevels data - 1)%Z ->
     zoomIndex (View.pressPlus data st) = (zoomIndex st + 1)%Z /\
     View.displayedZoom (View.pressPlus data st) == 2 * View.displayedZoom st) /\
  ((zoomIndex st = numLevels data - 1)%Z -> View.pressPlus data st = st) /\
  ((minZoomIndex st < zoomIndex st)%Z ->
     zoomIndex (View.pressMinus data st) = (zoomIndex st - 1)%Z /\
     View.displayedZoom (View.pressMinus data st) == View.displayedZoom st / 2) /\
  ((zoomIndex st = minZoomIndex st)%Z -> View.pressMinus data st = st) /\
  zoomInvariant data (View.pressPlus data st) /\
  zoomInvariant data (View.pressMinus data st) /\
  1 <= View.displayedZoom st.
Proof.
  intros Hinv. pose proof Hinv as Hinv'. unfold zoomInvariant in Hinv'.
  unfold View.pressPlus, View.pressMinus.
  set (centre := mkPoint _ _).
  destruct (Z.leb_spec (numLevels data - 1) (zoomIndex st)) as [Htop | Hroom];
  destruct (Z.leb_spec (zoomIndex st) (minZoomIndex st)) as [Hbase | Hdown].
  all: try (destruct (handleZoom_index data st (zoomIndex st + 1) centre Hinv)
              as (Hz & Hm & Hv & _); [lia|]).
  all: try (destruct (handleZoom_index data st (zoomIndex st - 1) centre Hinv)
              as (Hz' & Hm' & Hv' & _); [lia|]).
  all: assert (Hone : 1 <= View.displayedZoom st)
    by (unfold View.displayedZoom;
        change 1 with (pow2 0); apply pow2_le; lia).
  all: split; [intros Hlt; try lia | ].
  all: try (split; [assumption|];
            rewrite (displayedZoom_step st _ 1 Hz Hm); reflexivity).
  all: split; [intros Heq; try reflexivity; try lia | ].
  all: split; [intros Hlt; try lia | ].
  all: try (split; [assumption|];
            rewrite (displayedZoom_step st _ (-1) Hz' Hm'); 
            change (pow2 (-1)) with (/ 2); unfold Qdiv; ring).
  all: split; [intros Heq; try reflexivity; try lia | ].
  all: unfold zoomInvariant; repeat split; try assumption;
       try rewrite ?Hz, ?Hm; try rewrite ?Hz', ?Hm'; try lia.
Qed.

Lemma zoom_buttons_step_witness :
  View.displayedZoom (View.pressPlus zoomScenarioData zoomScenarioState) ==
  2 * View.displayedZoom zoomScenarioState.
Proof.
  assert (Hinv : zoomInvariant zoomScenarioData zoomScenarioState)
    by (vm_compute; split; discriminate).
  destruct (zoom_buttons_step zoomScenarioData zoomScenarioState Hinv)
    as (H & _).
  apply H. vm_compute. reflexivity.
Defined.

(** ** The pan buttons *)

Lemma Qltb_true a b : View.Qltb a b = true <-> a < b.
Proof. unfold View.Qltb. destruct (Qlt_le_dec a b); split; intros; try discriminate; try lra; auto. Qed.

Lemma Qltb_false a b : View.Qltb a b = false <-> b <= a.
Proof. unfold View.Qltb. destruct (Qlt_le_dec a b); split; intros; try discriminate; try lra; auto. Qed.

Lemma Qleb_true a b : View.Qleb a b = true <-> a <= b.
Proof. unfold View.Qleb. destruct (Qlt_le_dec b a); split; intros; try discriminate; try lra; auto. Qed.

Lemma Qleb_false a b : View.Qleb a b = false <-> b < a.
Proof. unfold View.Qleb. destruct (Qlt_le_dec b a); split; intros; try discriminate; try lra; auto. Qed.

Lemma worldWidth_worldSizeAt data st :
  View.worldWidth data st = width (Explorer.worldSizeAt data (zoomIndex st)).
Proof. reflexivity. Qed.

Lemma worldHeight_worldSizeAt data st :
  View.worldHeight data st = height (Explorer.worldSizeAt data (zoomIndex st)).
Proof. reflexivity. Qed.

Lemma clampAxis_down p w v d :
  0 < d -> v < w -> 0 < p -> clampAxis (p - d) w v < p.
Proof.
  intros Hd Hw Hp. unfold clampAxis. destruct (Qlt_le_dec w v); [lra|].
  minmax; lra.
Qed.

Lemma clampAxis_up p w v d :
  0 < d -> v < w -> p < w - v -> p < clampAxis (p + d) w v.
Proof.
  intros Hd Hw Hp. unfold clampAxis. destruct (Qlt_le_dec w v); [lra|].
  minmax; lra.
Qed.

Lemma disabled_false data st direction :
  View.disabled data st direction = false ->
  let world := Explorer.worldSizeAt data (zoomIndex st) in
  match direction with
  | Left => width (viewportSize st) < width world /\ 0 < px (pan st)
  | Right => width (viewportSize st) < width world /\
             px (pan st) < width world - width (viewportSize st) - 1
  | Up => height (viewportSize st) < height world /\ 0 < py (pan st)
  | Down => height (viewportSize st) < height world /\
            py (pan st) < height world - height (viewportSize st) - 1
  end.
Proof.
  intros H. cbv zeta.
  destruct direction; cbn [View.disabled] in H;
    unfold View.disableUp, View.disableDown, View.disableLeft,
      View.disableRight, View.canPanX, View.canPanY in H;
    apply orb_false_elim in H; destruct H as [Hcan Hpan];
    apply negb_false_iff in Hcan; apply Qltb_true in Hcan;
    apply Qleb_false in Hpan;
    rewrite ?worldWidth_worldSizeAt, ?worldHeight_worldSizeAt in *;
    split; assumption.
Qed.

Lemma disabled_true data st direction :
  View.disabled data st direction = true ->
  let world := Explorer.worldSizeAt data (zoomIndex st) in
  match direction with
  | Left => width world <= width (viewportSize st) \/ px (pan st) <= 0
  | Right => width world <= width (viewportSize st) \/
             width world - width (viewportSize st) - 1 <= px (pan st)
  | Up => height world <= height (viewportSize st) \/ py (pan st) <= 0
  | Down => height world <= height (viewportSize st) \/
            height world - height (viewportSize st) - 1 <= py (pan st)
  end.
Proof.
  intros H. cbv zeta.
  destruct direction; cbn [View.disabled] in H;
    unfold View.disableUp, View.disableDown, View.disableLeft,
      View.disableRight, View.canPanX, View.canPanY in H;
    apply orb_true_elim in H; destruct H as [Hcan | Hpan];
    try (apply negb_true_iff in Hcan; apply Qltb_false in Hcan);
    try apply Qleb_true in Hpan;
    rewrite ?worldWidth_worldSizeAt, ?worldHeight_worldSizeAt in *;
    auto.
Qed.

(** X7. A pan button that is shown and enabled moves the view: the press
    calls [handlePan], and the pan changes strictly in the direction of
    the button (for a frame of positive size). *)
Theorem enabled_button_moves (data : ImageData) (st : ViewportState)
  (direction : Direction) :
  0 < width (viewportSize st) -> 0 < height (viewportSize st) ->
  View.showPanControls st = true ->
  View.disabled data st direction = false ->
  let st' := View.pressPan data st direction in
  st' = Explorer.handlePan data st direction /\
  match direction with
  | Left => px (pan st') < px (pan st)
  | Right => px (pan st) < px (pan st')
  | Up => py (pan st') < py (pan st)
  | Down => py (pan st) < py (pan st')
  end.
Proof.
  intros Hw Hh Hshow Hen st'. subst st'. unfold View.pressPan.
  rewrite Hshow, Hen. cbn [andb negb]. split; [reflexivity|].
  rewrite handlePan_unfold. cbn [pan]. rewrite clampPan_axes.
  pose proof (disabled_false data st direction Hen) as Hfacts.
  cbv zeta in Hfacts.
  destruct direction; destruct Hfacts as [Hcan Hpan]; cbn [movedPan px py].
  - apply clampAxis_down; lra.
  - apply clampAxis_up; lra.
  - apply clampAxis_down; lra.
  - apply clampAxis_up; lra.
Qed.

Lemma enabled_button_moves_witness :
  px (pan zoomScenarioState) <
  px (pan (View.pressPan zoomScenarioData zoomScenarioState Right)).
Proof.
  apply (enabled_button_moves zoomScenarioData zoomScenarioState Right);
    reflexivity.
Defined.

(** X8. The margin of one pixel in the tests that disable the right and
    the down button costs at most one pixel of travel: from a clamped
    state the handler of a disabled button would leave the pan where it
    is for left and up, and would move it by at most one pixel for right
    and down. *)
Theorem disabled_button_reach (data : ImageData) (st : ViewportState)
  (direction : Direction) :
  0 <= width (viewportSize st) -> 0 <= height (viewportSize st) ->
  clampedState data st ->
  View.disabled data st direction = true ->
  let p' := pan (Explorer.handlePan data st direction) in
  across direction p' == across direction (pan st) /\
  match direction with
  | Left | Up => along direction p' == along direction (pan st)
  | Right | Down =>
      along direction (pan st) <= along direction p' <=
      along direction (pan st) + 1
  end.
Proof.
  intros Hw Hh Hcl Hdis p'. subst p'.
  destruct (proj1 (clampedState_axes data st) Hcl) as [Hcx Hcy].
  rewrite handlePan_unfold. cbn [pan]. rewrite clampPan_axes.
  pose proof (disabled_true data st direction Hdis) as Hfacts.
  cbv zeta in Hfacts.
  destruct direction; destruct Hfacts as [Hcan | Hpan];
    cbn [movedPan px py along across];
    (split; [first [exact Hcx | exact Hcy] | ]);
    revert Hcx Hcy; unfold clampAxis;
    destruct (Qlt_le_dec (width (Explorer.worldSizeAt data (zoomIndex st)))
                (width (viewportSize st)));
    destruct (Qlt_le_dec (height (Explorer.worldSizeAt data (zoomIndex st)))
                (height (viewportSize st)));
    try (intros; lra); minmax; intros; qlra.
Qed.

Lemma disabled_button_reach_witness :
  599.5 <=
  px (pan (Explorer.handlePan panData
             (mkState 3 1 (mkPoint 599.5 0) (mkDims 400 400) true) Right))
  <= 599.5 + 1.
Proof.
  apply (disabled_button_reach panData
           (mkState 3 1 (mkPoint 599.5 0) (mkDims 400 400) true) Right).
  - vm_compute. discriminate.
  - vm_compute. discriminate.
  - vm_compute. split; reflexivity.
  - reflexivity.
Defined.

(** ** The drawing effect *)

Lemma floor_at_most (x : Q) (k : Z) : x < inject_Z k + 1 -> (Qfloor x <= k)%Z.
Proof.
  intros H. pose proof (Qfloor_le x) as Hf.
  assert (Hlt : inject_Z (Qfloor x) < inject_Z (k + 1)).
  { rewrite inject_Z_plus. change (inject_Z 1) with 1. lra. }
  rewrite <- Zlt_Qlt in Hlt. lia.
Qed.

Lemma floor_at_least (x : Q) (k : Z) : inject_Z k <= x -> (k <= Qfloor x)%Z.
Proof.
  intros H. pose proof (Qlt_floor x) as Hf.
  assert (Hlt : inject_Z k < inject_Z (Qfloor x + 1)) by lra.
  rewrite <- Zlt_Qlt in Hlt. lia.
Qed.

Lemma ceiling_at_most (x : Q) (k : Z) : x <= inject_Z k -> (Qceiling x <= k)%Z.
Proof.
  intros H. pose proof (Qceiling_lt x) as Hc.
  assert (Hlt : inject_Z (Qceiling x - 1) < inject_Z k) by lra.
  rewrite <- Zlt_Qlt in Hlt. lia.
Qed.

Lemma ceiling_above (x : Q) (k : Z) : inject_Z k < x -> (k < Qceiling x)%Z.
Proof.
  intros H. pose proof (Qle_ceiling x) as Hc.
  assert (Hlt : inject_Z k < inject_Z (Qceiling x)) by lra.
  rewrite <- Zlt_Qlt in Hlt. exact Hlt.
Qed.

Lemma floor_bounds (x : Q) :
  inject_Z (Qfloor x) <= x /\ x < inject_Z (Qfloor x) + 1.
Proof.
  split; [apply Qfloor_le|]. pose proof (Qlt_floor x) as H.
  rewrite inject_Z_plus in H. exact H.
Qed.

Lemma ceiling_bounds (x : Q) :
  inject_Z (Qceiling x) - 1 < x /\ x <= inject_Z (Qceiling x).
Proof.
  split; [|apply Qle_ceiling]. pose proof (Qceiling_lt x) as H.
  unfold Z.sub in H. rewrite inject_Z_plus in H. exact H.
Qed.

Lemma floor_shift (x : Q) (n : Z) : Qfloor (x + inject_Z n) = (Qfloor x + n)%Z.
Proof.
  destruct (floor_bounds x) as [Hl Hu]. apply Z.le_antisymm.
  - apply floor_at_most. rewrite inject_Z_plus. lra.
  - apply floor_at_least. rewrite inject_Z_plus. lra.
Qed.

Lemma tile_quotient (x : Q) : x / inject_Z TILE_SIZE == x * (1 # 128).
Proof. reflexivity. Qed.

Lemma tile_side : inject_Z TILE_SIZE == 128.
Proof. reflexivity. Qed.




Lemma between_length (a b : Z) :
  Z.of_nat (List.length (View.between a b)) = Z.max 0 (b - a).
Proof. unfold View.between. rewrite List.length_map, List.length_seq. lia. Qed.










Lemma flat_map_length_le {A B} (f : A -> list B) (l : list A) (n : nat) :
  (forall a, In a l -> (List.length (f a) <= n)%nat) ->
  (List.length (flat_map f l) <= List.length l * n)%nat.
Proof.
  induction l as [|a l IH]; intros H; [cbn; lia|].
  cbn [flat_map List.length]. rewrite List.length_app.
  specialize (IH (fun b Hb => H b (or_intror Hb))).
  specialize (H a (or_introl eq_refl)). lia.
Qed.

Lemma loop_span (p v : Q) :
  0 <= v ->
  (0 <= Qceiling (v / inject_Z TILE_SIZE))%Z /\
  (Qceiling ((p + v) / inject_Z TILE_SIZE) - Qfloor (p / inject_Z TILE_SIZE)
   <= Qceiling (v / inject_Z TILE_SIZE) + 1)%Z.
Proof.
  intros Hv.
  destruct (floor_bounds (p / inject_Z TILE_SIZE)) as [_ Hf].
  destruct (ceiling_bounds (v / inject_Z TILE_SIZE)) as [_ Hc].
  split.
  - assert (H : (-1 < Qceiling (v / inject_Z TILE_SIZE))%Z); [|lia].
    apply ceiling_above. rewrite tile_quotient.
    change (inject_Z (-1)) with (-1). lra.
  - assert (H : (Qceiling ((p + v) / inject_Z TILE_SIZE) <=
                 Qfloor (p / inject_Z TILE_SIZE) + 1 +
                 Qceiling (v / inject_Z TILE_SIZE))%Z); [|lia].
    apply ceiling_at_most. rewrite !inject_Z_plus.
    change (inject_Z 1) with 1.
    unfold Qdiv in *. change (/ inject_Z TILE_SIZE) with (1 # 128) in *.
    lra.
Qed.

(** X11. The work of a render depends on the frame alone: the number of
    draws is at most [(ceil(w / TILE_SIZE) + 1) * (ceil(h / TILE_SIZE) + 1)]
    for a frame of [w] by [h], whatever the image, the level and the
    pan. *)
Theorem draws_bounded_by_frame (tiles : Z -> Z -> Z -> option string)
  (st : ViewportState) :
  0 <= width (viewportSize st) -> 0 <= height (viewportSize st) ->
  (Z.of_nat (List.length (View.drawTiles tiles st)) <=
   (Qceiling (width (viewportSize st) / inject_Z TILE_SIZE) + 1) *
   (Qceiling (height (viewportSize st) / inject_Z TILE_SIZE) + 1))%Z.
Proof.
  intros Hw Hh.
  destruct (loop_span (px (pan st)) _ Hw) as [Hcw Hsw].
  destruct (loop_span (py (pan st)) _ Hh) as [Hch Hsh].
  unfold View.drawTiles.
  destruct (negb (isInitialized st) || Qeq_bool (width (viewportSize st)) 0).
  { cbn [List.length]. nia. }
  cbv zeta.
  set (cols := View.between (Qfloor (px (pan st) / inject_Z TILE_SIZE)) _).
  set (rows := View.between (Qfloor (py (pan st) / inject_Z TILE_SIZE)) _).
  pose proof (between_length (Qfloor (px (pan st) / inject_Z TILE_SIZE))
    (Qceiling ((px (pan st) + width (viewportSize st)) / inject_Z TILE_SIZE)))
    as Lc.
  pose proof (between_length (Qfloor (py (pan st) / inject_Z TILE_SIZE))
    (Qceiling ((py (pan st) + height (viewportSize st)) / inject_Z TILE_SIZE)))
    as Lr.
  fold cols in Lc. fold rows in Lr.
  match goal with
  | |- (Z.of_nat (List.length (flat_map ?f rows)) <= _)%Z =>
      assert (Hlen : (List.length (flat_map f rows) <=
                      List.length rows * List.length cols)%nat)
  end.
  { apply flat_map_length_le. intros y _.
    match goal with
    | |- (List.length (flat_map ?g cols) <= _)%nat =>
        pose proof (flat_map_length_le g cols 1) as H1
    end.
    rewrite Nat.mul_1_r in H1. apply H1. intros x _.
    destruct (tiles (zoomIndex st) y x) as [[|? ?]|]; cbn; lia. }
  nia.
Qed.

Lemma draws_bounded_by_frame_witness :
  (Z.of_nat (List.length (View.drawTiles everyTile zoomScenarioState)) <= 6 * 5)%Z.
Proof.
  apply (draws_bounded_by_frame everyTile zoomScenarioState);
    vm_compute; discriminate.
Defined.

(** X12. In a clamped state the loops ask only for tiles of the level's
    grid on every axis on which the world is at least as large as the
    frame: columns from 0 up to, and not including,
    [ceil(worldWidth / TILE_SIZE)].  On an axis on which the world is
    smaller than the frame the image is centred, and the loop starts at a
    negative index. *)
Theorem visible_range_in_grid (data : ImageData) (st : ViewportState) :
  clampedState data st ->
  let world := Explorer.worldSizeAt data (zoomIndex st) in
  let range := Explorer.visibleTiles st in
  (width (viewportSize st) <= width world ->
     (0 <= startCol range)%Z /\
     (endCol range <= Qceiling (width world / inject_Z TILE_SIZE))%Z) /\
  (height (viewportSize st) <= height world ->
     (0 <= startRow range)%Z /\
     (endRow range <= Qceiling (height world / inject_Z TILE_SIZE))%Z) /\
  (width world < width (viewportSize st) -> (startCol range < 0)%Z) /\
  (height world < height (viewportSize st) -> (startRow range < 0)%Z).
Proof.
  intros Hcl world range. subst world range.
  destruct (proj1 (clampedState_axes data st) Hcl) as [Hcx Hcy].
  unfold Explorer.visibleTiles. cbn [startCol endCol startRow endRow].
  assert (Haxis : forall p w v, clampAxis p w v == p ->
    (v <= w ->
       (0 <= Qfloor (p / inject_Z TILE_SIZE))%Z /\
       (Qceiling ((p + v) / inject_Z TILE_SIZE) <=
        Qceiling (w / inject_Z TILE_SIZE))%Z) /\
    (w < v -> (Qfloor (p / inject_Z TILE_SIZE) < 0)%Z)).
  { intros p w v Hp. split.
    - intros Hle. pose proof (clampAxis_range p w v Hle) as Hr.
      rewrite Hp in Hr. split.
      + apply floor_at_least. rewrite tile_quotient.
        change (inject_Z 0) with 0. lra.
      + apply ceiling_at_most.
        destruct (ceiling_bounds (w / inject_Z TILE_SIZE)) as [_ Hc].
        unfold Qdiv in *. change (/ inject_Z TILE_SIZE) with (1 # 128) in *.
        lra.
    - intros Hlt. rewrite clampAxis_small in Hp by assumption.
      assert (H : (Qfloor (p / inject_Z TILE_SIZE) <= -1)%Z); [|lia].
      apply floor_at_most. rewrite tile_quotient.
      change (inject_Z (-1)) with (-1). qlra. }
  destruct (Haxis _ _ _ Hcx) as [Hx1 Hx2].
  destruct (Haxis _ _ _ Hcy) as [Hy1 Hy2].
  auto.
Qed.

Lemma visible_range_in_grid_witness :
  (0 <= startCol (Explorer.visibleTiles zoomScenarioState))%Z /\
  (endCol (Explorer.visibleTiles zoomScenarioState) <= 8)%Z.
Proof.
  assert (Hcl : clampedState zoomScenarioData zoomScenarioState)
    by (vm_compute; split; reflexivity).
  destruct (visible_range_in_grid zoomScenarioData zoomScenarioState Hcl)
    as (H & _).
  apply H. vm_compute. discriminate.
Defined.

(** ** Resetting and the clamped pan *)

Lemma initialize_fresh data st st0 :
  isInitialized st = false -> isInitialized st0 = false ->
  viewportSize st0 = viewportSize st ->
  ~ width (viewportSize st) == 0 ->
  Explorer.initialize data st = Explorer.initialize data st0.
Proof.
  intros Hf Hf0 Hv Hw.
  destruct (initialize_commits data st Hf Hw) as (s & Hs & ->).
  rewrite <- Hv in Hw, Hs.
  destruct (initialize_commits data st0 Hf0 Hw) as (s0 & Hs0 & ->).
  rewrite Hv. congruence.
Qed.

(** X13. Zoom-out-fully and a resize (of an image of positive size)
    forget the zoom and the pan: once the initialisation effect has run,
    the state is the one a freshly mounted component gets for the same
    frame, the displayed zoom is 1 and the pan buttons are hidden.  While
    the frame has width 0 nothing is drawn. *)
Theorem reset_forgets_history (data : ImageData) (st : ViewportState)
  (parentWidth parentHeight : Q) :
  let fresh vs := Explorer.initialize data (mountState vs) in
  (~ width (viewportSize st) == 0 ->
     Explorer.initialize data (View.handleZoomOutFully st) =
       fresh (viewportSize st)) /\
  (let frame := View.frameFor (originalDimensions data) parentWidth parentHeight in
   0 < width (originalDimensions data) -> 0 < height (originalDimensions data) ->
   ~ width frame == 0 ->
     Explorer.initialize data (View.onResize data st parentWidth parentHeight) =
       fresh frame) /\
  (forall vs, ~ width vs == 0 ->
     isInitialized (fresh vs) = true /\
     View.displayedZoom (fresh vs) == 1 /\
     View.showPanControls (fresh vs) = false /\
     forall direction, View.pressPan data (fresh vs) direction = fresh vs) /\
  (forall tiles st', width (viewportSize st') == 0 ->
     View.drawTiles tiles (Explorer.initialize data st') = []).
Proof.
  intros fresh. subst fresh. cbv beta. split; [|split; [|split]].
  - intros Hw. apply initialize_fresh; auto.
  - intros frame _ _ Hw. apply initialize_fresh; auto.
  - intros vs Hw.
    destruct (initialize_commits data (mountState vs) eq_refl Hw)
      as (s & Hs & ->).
    assert (Hz : View.displayedZoom
                   (mkState (init_zoomIndex s) (init_minZoomIndex s)
                      (init_pan s) (viewportSize (mountState vs)) true) == 1).
    { unfold View.displayedZoom. cbn [zoomIndex minZoomIndex].
      unfold Explorer.getInitialState in Hs.
      destruct (Qeq_bool (width (viewportSize (mountState vs))) 0);
        [discriminate|]. injection Hs as <-.
      cbn [init_zoomIndex init_minZoomIndex]. rewrite Z.sub_diag. reflexivity. }
    assert (Hshow : View.showPanControls
                   (mkState (init_zoomIndex s) (init_minZoomIndex s)
                      (init_pan s) (viewportSize (mountState vs)) true) = false).
    { unfold View.showPanControls. apply Qltb_false. rewrite Hz. lra. }
    split; [reflexivity|]. split; [exact Hz|]. split; [exact Hshow|].
    intros direction. unfold View.pressPan. rewrite Hshow. reflexivity.
  - intros tiles st' Hw. unfold View.drawTiles.
    assert (Hv : viewportSize (Explorer.initialize data st') = viewportSize st').
    { destruct (initialize_cases data st') as [-> | (s & _ & ->)]; reflexivity. }
    rewrite Hv. apply Qeq_bool_iff in Hw. rewrite Hw.
    rewrite orb_true_r. reflexivity.
Qed.

Lemma handlers_clamp data st :
  (forall target screenPoint, clampedState data st ->
     clampedState data (Explorer.handleZoom data st target screenPoint)) /\
  (forall direction,
     clampedState data (Explorer.handlePan data st direction)) /\
  (isInitialized st = false -> ~ width (viewportSize st) == 0 ->
     clampedState data (Explorer.initialize data st)).
Proof.
  split; [|split].
  - intros target screenPoint Hcl.
    destruct (Z.eq_dec target (zoomIndex st)) as [-> | Hne].
    + rewrite handleZoom_same. exact Hcl.
    + rewrite handleZoom_changed by assumption. unfold clampedState.
      cbn [pan zoomIndex viewportSize]. apply clampPan_idem.
  - intros direction. rewrite handlePan_unfold. unfold clampedState.
    cbn [pan zoomIndex viewportSize]. apply clampPan_idem.
  - intros Hf Hw. destruct (initialize_commits data st Hf Hw) as (s & Hs & ->).
    unfold clampedState. cbn [pan zoomIndex viewportSize].
    rewrite (getInitialState_pan _ _ _ Hs). apply clampPan_idem.
Qed.

(** X14. The pan of the component is always a clamped one: initialisation
    establishes, and every handler and every control (zoom, pan, click,
    the pan buttons, plus and minus) preserves, that clamping the pan at
    the current level gives the pan back; so on every axis the pan is the
    centring offset when the world is smaller than the frame and lies in
    [[0, world - frame]] otherwise. *)
Theorem pan_stays_clamped (data : ImageData) (st : ViewportState) :
  (isInitialized st = false -> ~ width (viewportSize st) == 0 ->
     clampedState data (Explorer.initialize data st)) /\
  (clampedState data st ->
     (forall target screenPoint,
        clampedState data (Explorer.handleZoom data st target screenPoint)) /\
     (forall direction,
        clampedState data (Explorer.handlePan data st direction)) /\
     (forall shiftKey clientX clientY rectLeft rectTop,
        clampedState data
          (View.onClick data st shiftKey clientX clientY rectLeft rectTop)) /\
     (forall direction, clampedState data (View.pressPan data st direction)) /\
     clampedState data (View.pressPlus data st) /\
     clampedState data (View.pressMinus data st) /\
     let world := Explorer.worldSizeAt data (zoomIndex st) in
     (width world < width (viewportSize st) ->
        px (pan st) == (width world - width (viewportSize st)) / 2) /\
     (width (viewportSize st) <= width world ->
        0 <= px (pan st) <= width world - width (viewportSize st)) /\
     (height world < height (viewportSize st) ->
        py (pan st) == (height world - height (viewportSize st)) / 2) /\
     (height (viewportSize st) <= height world ->
        0 <= py (pan st) <= height world - height (viewportSize st))).
Proof.
  destruct (handlers_clamp data st) as (Hzoom & Hpan & Hinit).
  split; [exact Hinit|]. intros Hcl.
  split; [intros; apply Hzoom; exact Hcl|].
  split; [exact Hpan|].
  split.
  { intros shiftKey clientX clientY rectLeft rectTop. unfold View.onClick.
    destruct shiftKey; destruct (_ <? _)%Z; auto. }
  split.
  { intros direction. unfold View.pressPan.
    destruct (_ && _)%bool; auto. }
  split; [unfold View.pressPlus; destruct (_ <=? _)%Z; auto|].
  split; [unfold View.pressMinus; destruct (_ <=? _)%Z; auto|].
  destruct (proj1 (clampedState_axes data st) Hcl) as [Hcx Hcy].
  cbv zeta. split; [|split; [|split]].
  - intros H. rewrite <- Hcx. rewrite clampAxis_small by assumption. reflexivity.
  - intros H. pose proof (clampAxis_range (px (pan st)) _ _ H) as Hr.
    rewrite Hcx in Hr. exact Hr.
  - intros H. rewrite <- Hcy. rewrite clampAxis_small by assumption. reflexivity.
  - intros H. pose proof (clampAxis_range (py (pan st)) _ _ H) as Hr.
    rewrite Hcy in Hr. exact Hr.
Qed.

Lemma pan_stays_clamped_witness :
  clampedState zoomScenarioData
    (Explorer.handlePan zoomScenarioData zoomScenarioState Right).
Proof.
  assert (Hcl : clampedState zoomScenarioData zoomScenarioState)
    by (vm_compute; split; reflexivity).
  destruct (pan_stays_clamped zoomScenarioData zoomScenarioState)
    as (_ & H).
  destruct (H Hcl) as (_ & Hpan & _).
  apply Hpan.
Defined.

(** ** The pyramid of the worker *)

Lemma NoDup_map_injective {A B} (f : A -> B) (l : list A) :
  (forall a b, f a = f b -> a = b) -> NoDup l -> NoDup (map f l).
Proof.
  intros Hf Hl. induction Hl as [|a l Ha _ IH]; [constructor|].
  cbn [map]. constructor; [|exact IH]. intros Hin. apply in_map_iff in Hin.
  destruct Hin as (b & Hb & Hin). apply Hf in Hb. subst b. contradiction.
Qed.

Lemma NoDup_zrange (n : Z) : NoDup (zrange n).
Proof.
  unfold zrange. apply NoDup_map_injective; [|apply seq_NoDup].
  intros a b H. lia.
Qed.

Lemma NoDup_grid (ys xs : list Z) :
  NoDup ys -> NoDup xs ->
  NoDup (flat_map (fun y => map (fun x => (y, x)) xs) ys).
Proof.
  intros Hys Hxs. induction Hys as [|y ys Hy _ IH]; [constructor|].
  cbn [flat_map]. apply NoDup_app.
  - apply NoDup_map_injective; [|exact Hxs]. intros a b [= H]. exact H.
  - exact IH.
  - intros [y' x'] Hin Hin'. apply in_map_iff in Hin.
    destruct Hin as (x0 & [= <- <-] & _). apply in_flat_map in Hin'.
    destruct Hin' as (y0 & Hy0 & Hin'). apply in_map_iff in Hin'.
    destruct Hin' as (x1 & [= <- <-] & _). contradiction.
Qed.

Lemma levelTiles_keys c :
  map fst (Expected.levelTiles c) =
  flat_map (fun y => map (fun x => (y, x)) (zrange (Expected.gridCols c)))
           (zrange (Expected.gridRows c)).
Proof.
  unfold Expected.levelTiles. rewrite !flat_map_concat_map, concat_map, map_map.
  f_equal. apply map_ext. intros y. rewrite map_map. reflexivity.
Qed.

Lemma NoDup_levelsDown n : NoDup (map Z.of_nat (Run.levelsDown n)).
Proof.
  apply NoDup_map_injective; [intros a b H; lia|].
  unfold Run.levelsDown. apply NoDup_rev, seq_NoDup.
Qed.

Lemma firstCanvas_image image :
  cwidth (Expected.firstCanvas image) = cwidth image /\
  cheight (Expected.firstCanvas image) = cheight image /\
  forall u v, (0 <= u < cwidth image)%Z -> (0 <= v < cheight image)%Z ->
    pixels (Expected.firstCanvas image) u v = pixels image u v.
Proof.
  split; [reflexivity|]. split; [reflexivity|]. intros u v Hu Hv.
  unfold Expected.firstCanvas, drawImageRegion. cbn [pixels cwidth cheight newCanvas].
  destruct (Z.leb_spec 0 u); [|lia]. destruct (Z.ltb_spec u (0 + cwidth image)); [|lia].
  destruct (Z.leb_spec 0 v); [|lia]. destruct (Z.ltb_spec v (0 + cheight image)); [|lia].
  cbn [andb]. f_equal; lia.
Qed.

Lemma tile_holds_pixel c u v :
  (0 <= u < cwidth c)%Z -> (0 <= v < cheight c)%Z ->
  In ((v / TILE_SIZE, u / TILE_SIZE)%Z,
      Expected.tileOf c (v / TILE_SIZE) (u / TILE_SIZE))
     (Expected.levelTiles c) /\
  pixels (Expected.tileOf c (v / TILE_SIZE) (u / TILE_SIZE))
         (u mod TILE_SIZE) (v mod TILE_SIZE) = pixels c u v.
Proof.
  intros Hu Hv.
  pose proof (Z.div_mod u TILE_SIZE) as Hdu.
  pose proof (Z.mod_pos_bound u TILE_SIZE) as Hmu.
  pose proof (Z.div_mod v TILE_SIZE) as Hdv.
  pose proof (Z.mod_pos_bound v TILE_SIZE) as Hmv.
  assert (Hqu : (0 <= u / TILE_SIZE)%Z) by (apply Z.div_pos; unfold TILE_SIZE; lia).
  assert (Hqv : (0 <= v / TILE_SIZE)%Z) by (apply Z.div_pos; unfold TILE_SIZE; lia).
  unfold TILE_SIZE in Hdu, Hmu, Hdv, Hmv, Hqu, Hqv.
  split.
  - apply levelTiles_In. exists (v / TILE_SIZE)%Z, (u / TILE_SIZE)%Z.
    split; [reflexivity|]. split; [reflexivity|].
    unfold Expected.gridRows, Expected.gridCols.
    split; (split; [unfold TILE_SIZE; lia|]); apply below_grid;
      unfold TILE_SIZE; lia.
  - rewrite (proj2 (proj2 (tileOf_shape c _ _))).
    unfold Expected.cropWidth, Expected.cropHeight.
    destruct (Z.leb_spec 0 (u mod TILE_SIZE)); [|unfold TILE_SIZE in *; lia].
    destruct (Z.ltb_spec (u mod TILE_SIZE)
                (Z.min TILE_SIZE (cwidth c - u / TILE_SIZE * TILE_SIZE)));
      [|unfold TILE_SIZE in *; lia].
    destruct (Z.leb_spec 0 (v mod TILE_SIZE)); [|unfold TILE_SIZE in *; lia].
    destruct (Z.ltb_spec (v mod TILE_SIZE)
                (Z.min TILE_SIZE (cheight c - v / TILE_SIZE * TILE_SIZE)));
      [|unfold TILE_SIZE in *; lia].
    cbn [andb]. f_equal; unfold TILE_SIZE; lia.
Qed.

(** X15. The tiles of a level that the worker posts put the level back
    together: pixel [(u, v)] of the level canvas is pixel
    [(u mod TILE_SIZE, v mod TILE_SIZE)] of the tile stored under row
    [v / TILE_SIZE] and column [u / TILE_SIZE]; no key is stored twice, in
    a level or among the levels; and the canvas of the top level has the
    size and the pixels of the source image, so that no pixel of the
    source is lost. *)
Theorem tiles_reassemble_level (host : Builder.Host) (decoded : option Canvas)
  (data : Builder.PyramidData) :
  In (Builder.Posted (Builder.MsgDone data)) (Builder.onmessage host decoded) ->
  exists image,
    decoded = Some image /\
    NoDup (map fst (Builder.tiles data)) /\
    (forall level stored,
       In (level, stored) (Builder.tiles data) ->
       let c := canvasOfLevel host image level in
       NoDup (map fst stored) /\
       forall u v, (0 <= u < cwidth c)%Z -> (0 <= v < cheight c)%Z ->
         exists tile,
           In ((v / TILE_SIZE, u / TILE_SIZE)%Z, tile) stored /\
           pixels tile (u mod TILE_SIZE) (v mod TILE_SIZE) = pixels c u v) /\
    let top := canvasOfLevel host image (Run.levelsOf image - 1) in
    cwidth top = cwidth image /\ cheight top = cheight image /\
    forall u v, (0 <= u < cwidth image)%Z -> (0 <= v < cheight image)%Z ->
      pixels top u v = pixels image u v.
Proof.
  intros Hdone.
  destruct (onmessage_done host decoded data Hdone) as (image & -> & -> & _).
  exists image. split; [reflexivity|].
  unfold Run.expectedData. cbn [Builder.tiles]. rewrite expectedTiles_flat.
  split; [|split].
  - rewrite map_map. cbn [fst]. apply NoDup_levelsDown.
  - intros level stored Hin. apply in_map_iff in Hin.
    destruct Hin as (l & [= <- <-] & Hl). unfold canvasOfLevel.
    rewrite Nat2Z.id. cbv zeta. split.
    + rewrite levelTiles_keys. apply NoDup_grid; apply NoDup_zrange.
    + intros u v Hu Hv. eexists. apply tile_holds_pixel; assumption.
  - cbv zeta. unfold canvasOfLevel.
    replace (Z.to_nat (Run.levelsOf image) - 1 -
             Z.to_nat (Run.levelsOf image - 1))%nat with 0%nat by lia.
    cbn [Expected.levelCanvas]. apply firstCanvas_image.
Qed.

Lemma tiles_reassemble_level_witness :
  exists image, Some smallImage = Some image /\
    NoDup (map fst (Builder.tiles smallData)).
Proof.
  assert (Hdone : In (Builder.Posted (Builder.MsgDone smallData))
                     (Builder.onmessage Run.roomyHost (Some smallImage))).
  { vm_compute. do 5 right. left. reflexivity. }
  destruct (tiles_reassemble_level Run.roomyHost (Some smallImage) smallData
              Hdone) as (image & Himage & Hnodup & _).
  exists image. split; [exact Himage | exact Hnodup].
Defined.

Lemma canvasOfLevel_size host image level :
  (0 <= level < Run.levelsOf image)%Z ->
  cwidth (canvasOfLevel host image level) =
    (cwidth image / 2 ^ (Run.levelsOf image - 1 - level))%Z /\
  cheight (canvasOfLevel host image level) =
    (cheight image / 2 ^ (Run.levelsOf image - 1 - level))%Z.
Proof.
  intros Hl. unfold canvasOfLevel.
  destruct (levelCanvas_size host (Expected.firstCanvas image)
              (Z.to_nat (Run.levelsOf image) - 1 - Z.to_nat level)) as [Hw Hh].
  rewrite Hw, Hh.
  replace (Z.of_nat (Z.to_nat (Run.levelsOf image) - 1 - Z.to_nat level))
    with (Run.levelsOf image - 1 - level)%Z by lia.
  split; reflexivity.
Qed.

Lemma grid_at_most (w n : Z) :
  (0 <= n)%Z -> (w <= n * TILE_SIZE)%Z ->
  (Qceiling (inject_Z w / inject_Z TILE_SIZE) <= n)%Z.
Proof.
  intros Hn Hw.
  destruct (Z_lt_le_dec n (Qceiling (inject_Z w / inject_Z TILE_SIZE)))
    as [Hlt | Hle]; [|exact Hle].
  apply below_grid in Hlt. lia.
Qed.

Lemma grid_at_least (w n : Z) :
  ((n - 1) * TILE_SIZE < w)%Z ->
  (n <= Qceiling (inject_Z w / inject_Z TILE_SIZE))%Z.
Proof.
  intros Hw.
  assert (H : (n - 1 < Qceiling (inject_Z w / inject_Z TILE_SIZE))%Z)
    by (apply below_grid; exact Hw).
  lia.
Qed.

(** X16. For a source image of at least one pixel each way, the grid of
    level [l] of the pyramid has at most [2 ^ l] columns and [2 ^ l] rows,
    and along the longer side of the image at least half as many: level 0
    is a single tile or less, and each level up at most doubles the grid
    along an axis. *)
Theorem level_grid_doubles (host : Builder.Host) (image : Canvas) (level : Z) :
  (1 <= cwidth image)%Z -> (1 <= cheight image)%Z ->
  (0 <= level < Run.levelsOf image)%Z ->
  let c := canvasOfLevel host image level in
  (Expected.gridCols c <= 2 ^ level)%Z /\
  (Expected.gridRows c <= 2 ^ level)%Z /\
  (2 ^ level <= 2 * Z.max (Expected.gridCols c) (Expected.gridRows c))%Z /\
  (64 * 2 ^ level <= Z.max (cwidth c) (cheight c) <= 128 * 2 ^ level)%Z.
Proof.
  intros Hw Hh Hl c. subst c.
  destruct (canvasOfLevel_size host image level Hl) as [Hcw Hch].
  unfold Expected.gridCols, Expected.gridRows. rewrite Hcw, Hch.
  unfold Run.levelsOf in *.
  rewrite computeNumLevels_closed in * by assumption.
  set (m := Z.max (cwidth image) (cheight image)) in *.
  set (k := (Z.log2_up m - 6 - 1 - level)%Z) in *.
  assert (Hk : (0 <= k)%Z) by (unfold k; lia).
  assert (Hm : (1 < m)%Z).
  { destruct (Z.eq_dec m 1) as [E | E]; [|unfold m in *; lia].
    rewrite E in Hl. cbn in Hl. lia. }
  destruct (Z.log2_up_spec m Hm) as [Hlow Hup].
  assert (Hpk : (0 < 2 ^ k)%Z) by (apply Z.pow_pos_nonneg; lia).
  assert (Hpl : (0 < 2 ^ level)%Z) by (apply Z.pow_pos_nonneg; lia).
  assert (Hsplit : (2 ^ Z.log2_up m = 2 ^ k * (128 * 2 ^ level))%Z).
  { replace (Z.log2_up m) with (k + (7 + level))%Z by (unfold k; lia).
    rewrite !Z.pow_add_r by lia. reflexivity. }
  assert (Hsplit' : (2 ^ Z.pred (Z.log2_up m) = 2 ^ k * (64 * 2 ^ level))%Z).
  { replace (Z.pred (Z.log2_up m)) with (k + (6 + level))%Z by (unfold k; lia).
    rewrite !Z.pow_add_r by lia. reflexivity. }
  assert (Hdiv : forall a, (a <= m)%Z -> (a / 2 ^ k <= 128 * 2 ^ level)%Z).
  { intros a Ha. apply Z.div_le_upper_bound; [exact Hpk|]. lia. }
  assert (Hmax : (Z.max (cwidth image / 2 ^ k) (cheight image / 2 ^ k) =
                  m / 2 ^ k)%Z).
  { unfold m. destruct (Z.max_spec (cwidth image) (cheight image))
      as [[Hlt ->] | [Hle ->]].
    - apply Z.max_r. apply Z.div_le_mono; lia.
    - apply Z.max_l. apply Z.div_le_mono; lia. }
  assert (Hbig : (64 * 2 ^ level <= m / 2 ^ k)%Z).
  { apply Z.div_le_lower_bound; [exact Hpk|]. lia. }
  split; [|split; [|split]].
  - apply grid_at_most; [lia|]. unfold TILE_SIZE.
    specialize (Hdiv (cwidth image)). unfold m in Hdiv. lia.
  - apply grid_at_most; [lia|]. unfold TILE_SIZE.
    specialize (Hdiv (cheight image)). unfold m in Hdiv. lia.
  - assert (Hone : forall a, (64 * 2 ^ level <= a)%Z ->
      (2 ^ level <= 2 * Qceiling (inject_Z a / inject_Z TILE_SIZE))%Z).
    { intros a Ha.
      destruct (Z.eq_dec level 0) as [-> | Hpos].
      - change (2 ^ 0)%Z with 1%Z in *.
        assert (H1 : (1 <= Qceiling (inject_Z a / inject_Z TILE_SIZE))%Z)
          by (apply grid_at_least; unfold TILE_SIZE; lia).
        lia.
      - assert (H2 : (2 ^ level = 2 * 2 ^ (level - 1))%Z).
        { replace level with (1 + (level - 1))%Z at 1 by lia.
          rewrite Z.pow_add_r by lia. reflexivity. }
        assert (Hp1 : (0 < 2 ^ (level - 1))%Z) by (apply Z.pow_pos_nonneg; lia).
        assert (H1 : (2 ^ (level - 1) <=
                      Qceiling (inject_Z a / inject_Z TILE_SIZE))%Z)
          by (apply grid_at_least; unfold TILE_SIZE; lia).
        lia. }
    destruct (Z.max_spec (cwidth image / 2 ^ k) (cheight image / 2 ^ k))
      as [[Hlt E] | [Hle E]]; rewrite E in Hmax.
    + specialize (Hone (cheight image / 2 ^ k)%Z ltac:(lia)). lia.
    + specialize (Hone (cwidth image / 2 ^ k)%Z ltac:(lia)). lia.
  - rewrite Hmax. split; [exact Hbig|]. apply Hdiv. lia.
Qed.

Lemma level_grid_doubles_witness :
  (Expected.gridCols (canvasOfLevel Run.roomyHost smallImage 1) <= 2 ^ 1)%Z.
Proof.
  apply (level_grid_doubles Run.roomyHost smallImage 1); vm_compute;
    try discriminate; split; [discriminate | reflexivity].
Defined.

(** ** The script against the worker *)

Lemma process_levels_keys host kernel n : forall c c',
  cwidth c = cwidth c' -> cheight c = cheight c' ->
  map fileKey (PyBuilder.process_levels kernel n c) =
  pyramidKeys (Expected.expectedTiles host n c').
Proof.
  induction n as [|n IH]; intros c c' Hw Hh; [reflexivity|].
  cbn [PyBuilder.process_levels Expected.expectedTiles]. cbv zeta.
  unfold pyramidKeys. cbn [flat_map fst snd].
  assert (Hhere :
    map fileKey
      (flat_map (fun y => map (fun x =>
         PyBuilder.write_tile (Z.of_nat n) c (cwidth c) (cheight c) y x)
         (zrange (Qceiling (inject_Z (cwidth c) / inject_Z TILE_SIZE))))
       (zrange (Qceiling (inject_Z (cheight c) / inject_Z TILE_SIZE)))) =
    map (fun tile : Z * Z * Canvas => (Z.of_nat n, fst tile))
        (Expected.levelTiles c')).
  { unfold Expected.levelTiles, Expected.gridCols, Expected.gridRows.
    rewrite <- Hw, <- Hh. rewrite !flat_map_concat_map, !concat_map, !map_map.
    f_equal. apply map_ext. intros y. rewrite !map_map. reflexivity. }
  destruct (0 <? Z.of_nat n)%Z; rewrite map_app, Hhere; f_equal.
  - apply IH; cbn [cwidth cheight]; unfold Expected.nextCanvas;
      cbn [cwidth cheight]; congruence.
  - apply IH; assumption.
Qed.

Lemma NoDup_keyed {A} (f : nat -> list A) (ls : list nat) :
  NoDup ls -> (forall l, NoDup (f l)) ->
  NoDup (flat_map (fun l => map (fun a => (Z.of_nat l, a)) (f l)) ls).
Proof.
  intros Hls Hf. induction Hls as [|l ls Hl _ IH]; [constructor|].
  cbn [flat_map]. apply NoDup_app.
  - apply NoDup_map_injective; [|apply Hf]. intros a b [= H]. exact H.
  - exact IH.
  - intros [l' a'] Hin Hin'. apply in_map_iff in Hin.
    destruct Hin as (a0 & [= <- <-] & _). apply in_flat_map in Hin'.
    destruct Hin' as (l0 & Hl0 & Hin'). apply in_map_iff in Hin'.
    destruct Hin' as (a1 & [= Heq <-] & _).
    apply Nat2Z.inj in Heq. subst l0. contradiction.
Qed.

Lemma NoDup_pyramidKeys host n c :
  NoDup (pyramidKeys (Expected.expectedTiles host n c)).
Proof.
  rewrite expectedTiles_flat. unfold pyramidKeys.
  rewrite flat_map_concat_map, map_map, <- flat_map_concat_map.
  cbn [fst snd].
  rewrite (flat_map_ext _
    (fun l => map (fun a => (Z.of_nat l, a))
                (map fst (Expected.levelTiles
                            (Expected.levelCanvas host c (n - 1 - l)))))).
  - apply NoDup_keyed.
    + unfold Run.levelsDown. apply NoDup_rev, seq_NoDup.
    + intros l. rewrite levelTiles_keys. apply NoDup_grid; apply NoDup_zrange.
  - intros l. rewrite map_map. reflexivity.
Qed.

(** X17. The script names the tiles as the worker does: for a source
    image of at least one pixel each way, a level, row and column is
    carried by a file of the script exactly when the pyramid that the
    worker posts has a tile for it; no two files of the script and no two
    tiles of the pyramid carry the same level, row and column; and the
    dimensions and the level count of the script's manifest are those of
    the worker's result.  Nothing is said of the order in which either
    side stores its tiles. *)
Theorem script_matches_worker (host : Builder.Host)
  (kernel : Canvas -> Z -> Z -> Z -> Z -> Pixel) (image : Canvas)
  (data : Builder.PyramidData) :
  (1 <= cwidth image)%Z -> (1 <= cheight image)%Z ->
  In (Builder.Posted (Builder.MsgDone data))
     (Builder.onmessage host (Some image)) ->
  let result := PyBuilder.generate_tiles_manually kernel image in
  (forall level y x,
     (exists f, In f (fst (fst result)) /\ fileKey f = (level, (y, x))) <->
     (exists stored tile,
        In (level, stored) (Builder.tiles data) /\
        In ((y, x), tile) stored)) /\
  NoDup (map fileKey (fst (fst result))) /\
  NoDup (pyramidKeys (Builder.tiles data)) /\
  snd (fst result) = Builder.pyramidDimensions data /\
  snd result = Builder.pyramidLevels data.
Proof.
  intros Hw Hh Hdone.
  destruct (onmessage_done host (Some image) data Hdone)
    as (image' & [= <-] & -> & _).
  cbv zeta. unfold PyBuilder.generate_tiles_manually. cbn [fst snd].
  unfold Run.expectedData.
  cbn [Builder.tiles Builder.pyramidDimensions Builder.pyramidLevels].
  rewrite py_compute_num_levels by assumption. unfold Run.levelsOf.
  set (n := Z.to_nat (Builder.computeNumLevels (cwidth image) (cheight image))).
  assert (Hkeys :
    map fileKey (PyBuilder.process_levels kernel n image) =
    pyramidKeys (Expected.expectedTiles host n (Expected.firstCanvas image)))
    by (apply process_levels_keys; reflexivity).
  split; [|split; [|split; [|split; reflexivity]]].
  - intros level y x. split.
    + intros (f & Hin & Hkey).
      assert (Hk : In (level, (y, x))
                     (map fileKey (PyBuilder.process_levels kernel n image))).
      { rewrite <- Hkey. apply in_map. exact Hin. }
      rewrite Hkeys in Hk. unfold pyramidKeys in Hk.
      apply in_flat_map in Hk. destruct Hk as ([l stored] & Hl & Hk).
      apply in_map_iff in Hk. destruct Hk as ([key tile] & [= <- <-] & Ht).
      cbn [fst snd] in *. exists stored, tile. split; assumption.
    + intros (stored & tile & Hl & Ht).
      assert (Hk : In (level, (y, x))
                     (pyramidKeys (Expected.expectedTiles host n
                                     (Expected.firstCanvas image)))).
      { unfold pyramidKeys. apply in_flat_map. exists (level, stored).
        split; [exact Hl|]. apply in_map_iff. exists ((y, x), tile).
        split; [reflexivity | exact Ht]. }
      rewrite <- Hkeys in Hk. apply in_map_iff in Hk.
      destruct Hk as (f & Hkey & Hin). exists f. split; assumption.
  - rewrite Hkeys. apply NoDup_pyramidKeys.
  - apply NoDup_pyramidKeys.
Qed.

Lemma script_matches_worker_witness :
  (exists f,
     In f (fst (fst (PyBuilder.generate_tiles_manually everySecond smallImage)))
     /\ fileKey f = (1%Z, (0%Z, 1%Z))) /\
  NoDup (map fileKey
           (fst (fst (PyBuilder.generate_tiles_manually everySecond
                        smallImage)))).
Proof.
  destruct (script_matches_worker Run.roomyHost everySecond smallImage smallData)
    as (Hiff & Hnodup & _).
  - vm_compute. discriminate.
  - vm_compute. discriminate.
  - vm_compute. do 5 right. left. reflexivity.
  - split; [|exact Hnodup].
    apply (Hiff 1%Z 0%Z 1%Z).
    exists (Expected.levelTiles (Expected.firstCanvas smallImage)),
           (Expected.tileOf (Expected.firstCanvas smallImage) 0 1).
    split.
    + left. reflexivity.
    + right. left. reflexivity.
Defined.

(** ** A pyramid in the explorer *)

Lemma base_level_fits_tile (w h : Z) :
  (1 <= w)%Z -> (1 <= h)%Z ->
  let data := mkImageData (mkDims (inject_Z w) (inject_Z h))
                (Builder.computeNumLevels w h) in
  width (Explorer.worldSizeAt data 0) <= inject_Z TILE_SIZE /\
  height (Explorer.worldSizeAt data 0) <= inject_Z TILE_SIZE.
Proof.
  intros Hw Hh data. subst data. unfold Explorer.worldSizeAt.
  cbn [numLevels originalDimensions width height].
  rewrite computeNumLevels_closed by assumption.
  set (m := Z.max w h).
  assert (Hm : (1 <= m)%Z) by (unfold m; lia).
  destruct (log2_up_bounds m Hm) as [_ Hup].
  set (e := (Z.log2_up m - 6 - 1 - 0)%Z).
  assert (He : pow2 (Z.log2_up m) == pow2 e * inject_Z TILE_SIZE).
  { replace (Z.log2_up m) with (e + 7)%Z by (unfold e; lia).
    rewrite pow2_add. reflexivity. }
  pose proof (pow2_pos e) as Hpos.
  assert (Hwm : inject_Z w <= inject_Z m) by (apply inject_Z_le; unfold m; lia).
  assert (Hhm : inject_Z h <= inject_Z m) by (apply inject_Z_le; unfold m; lia).
  split; apply Qle_shift_div_r; try exact Hpos;
    rewrite (Qmult_comm (inject_Z TILE_SIZE)), <- He; lra.
Qed.

(** X18. A pyramid of the worker opens with the whole image in view: for
    a source image of at least one pixel each way with at least one level
    and a frame of at least one tile each way, the initial level fits in
    the frame on both axes, the image is centred, and the index lies
    within the levels of the pyramid. *)
Theorem pyramid_opens_in_view (host : Builder.Host) (image : Canvas)
  (pyramid : Builder.PyramidData) (vs : ImageDimensions) (s : InitialState) :
  (1 <= cwidth image)%Z -> (1 <= cheight image)%Z ->
  (1 <= Run.levelsOf image)%Z ->
  inject_Z TILE_SIZE <= width vs -> inject_Z TILE_SIZE <= height vs ->
  In (Builder.Posted (Builder.MsgDone pyramid))
     (Builder.onmessage host (Some image)) ->
  Explorer.getInitialState (dataOf pyramid) vs = Some s ->
  let world := Explorer.worldSizeAt (dataOf pyramid) (init_zoomIndex s) in
  (0 <= init_zoomIndex s <= Builder.pyramidLevels pyramid - 1)%Z /\
  init_minZoomIndex s = init_zoomIndex s /\
  width world <= width vs /\ height world <= height vs /\
  px (init_pan s) == (width world - width vs) / 2 /\
  py (init_pan s) == (height world - height vs) / 2.
Proof.
  intros Hw Hh HN Hvw Hvh Hdone Hs.
  destruct (onmessage_done host (Some image) pyramid Hdone)
    as (image' & [= <-] & -> & _).
  unfold dataOf, Run.expectedData in *.
  cbn [Builder.pyramidDimensions Builder.pyramidLevels fst snd] in *.
  unfold Run.levelsOf in *.
  set (data := mkImageData _ _) in *.
  destruct (base_level_fits_tile _ _ Hw Hh) as [Hbw Hbh]. fold data in Hbw, Hbh.
  pose proof (getInitialState_pan data vs s Hs) as Hpan.
  destruct (getInitialState_index data vs s HN Hs) as [Hmin Hrange].
  unfold Explorer.getInitialState in Hs.
  destruct (Qeq_bool (width vs) 0); [discriminate|]. injection Hs as Hs.
  assert (Hb : init_zoomIndex s =
               Explorer.scanLevels data vs (Z.to_nat (numLevels data)) 0 0)
    by (rewrite <- Hs; reflexivity).
  pose proof (scanLevels_spec data vs (Z.to_nat (numLevels data)) 0 0) as Hscan.
  cbv zeta in Hscan. rewrite <- Hb in Hscan.
  assert (Hfit0 : fits data vs 0) by (split; lra).
  assert (Hfit : fits data vs (init_zoomIndex s)).
  { destruct Hscan as [[Hr [Hfuel | Hstop]] | (Hr & Hall & _)].
    - change (numLevels data) with
        (Builder.computeNumLevels (cwidth image) (cheight image)) in Hfuel. lia.
    - contradiction.
    - apply Hall. lia. }
  cbv zeta. split; [exact Hrange|]. split; [symmetry; exact Hmin|].
  destruct Hfit as [Hfw Hfh]. split; [exact Hfw|]. split; [exact Hfh|].
  rewrite Hpan, clampPan_axes. cbn [px py].
  rewrite !clampAxis_fitting by assumption. split; reflexivity.
Qed.

Lemma pyramid_opens_in_view_witness :
  exists s,
    Explorer.getInitialState (dataOf smallData) (mkDims 600 450) = Some s /\
    px (init_pan s) ==
      (width (Explorer.worldSizeAt (dataOf smallData) (init_zoomIndex s)) - 600) / 2.
Proof.
  destruct (Explorer.getInitialState (dataOf smallData) (mkDims 600 450))
    as [s|] eqn:E; [|discriminate E].
  exists s. split; [reflexivity|].
  assert (Hdone : In (Builder.Posted (Builder.MsgDone smallData))
                     (Builder.onmessage Run.roomyHost (Some smallImage))).
  { vm_compute. do 5 right. left. reflexivity. }
  assert (Hw : (1 <= cwidth smallImage)%Z) by (vm_compute; discriminate).
  assert (Hh : (1 <= cheight smallImage)%Z) by (vm_compute; discriminate).
  assert (HN : (1 <= Run.levelsOf smallImage)%Z) by (vm_compute; discriminate).
  assert (Hvw : inject_Z TILE_SIZE <= width (mkDims 600 450))
    by (vm_compute; discriminate).
  assert (Hvh : inject_Z TILE_SIZE <= height (mkDims 600 450))
    by (vm_compute; discriminate).
  destruct (pyramid_opens_in_view Run.roomyHost smallImage smallData
              (mkDims 600 450) s Hw Hh HN Hvw Hvh Hdone E)
    as (_ & _ & _ & _ & Hx & _).
  exact Hx.
Defined.

(** ** The page and its worker *)

Section PageRun.
Import Builder Expected Run.
Local Open Scope list_scope.

Lemma deliver_stream url progress term :
  forallb isProgress progress = true -> isTerminal term = true ->
  Page.deliver url (progress ++ [term]) =
  flat_map (Page.onWorkerMessage url) progress ++ Page.onWorkerMessage url term.
Proof.
  intros Hp Ht. induction progress as [|m progress IH].
  - cbn [app Page.deliver flat_map]. rewrite Ht, app_nil_r. reflexivity.
  - cbn [forallb] in Hp. apply andb_prop in Hp. destruct Hp as [Hm Hp].
    cbn [app Page.deliver flat_map]. destruct m; try discriminate Hm.
    cbn [isTerminal]. rewrite IH by assumption. rewrite app_assoc. reflexivity.
Qed.

Lemma progress_effects url progress :
  forallb isProgress progress = true ->
  flat_map (Page.onWorkerMessage url) progress =
  map (fun m => match m with
                | MsgProgress message => Page.SetProgressMessage message
                | _ => Page.SetProgressMessage EmptyString
                end) progress.
Proof.
  intros Hp. induction progress as [|m progress IH]; [reflexivity|].
  cbn [forallb] in Hp. apply andb_prop in Hp. destruct Hp as [Hm Hp].
  destruct m; try discriminate Hm. cbn [flat_map map Page.onWorkerMessage app].
  rewrite IH by assumption. reflexivity.
Qed.

(** The stream of a run: progress messages, then one terminal message. *)
Lemma posted_stream host decoded :
  exists progress term,
    posted (onmessage host decoded) = progress ++ [term] /\
    forallb isProgress progress = true /\
    ((exists image, decoded = Some image /\
        term = MsgDone (expectedData host image)) \/
     term = MsgError tooLarge).
Proof.
  destruct (onmessage_cases host decoded)
    as [(image & Hd & ->) | (added & Hq & ->)].
  - exists (posted (expectedLog host (levelsOf image)
                      (Z.to_nat (levelsOf image)) (firstCanvas image))),
           (MsgDone (expectedData host image)).
    split; [rewrite posted_app; reflexivity|].
    split; [apply posted_quiet, expectedLog_quiet|]. left. eauto.
  - exists (posted added), (MsgError tooLarge).
    split; [rewrite posted_app; reflexivity|].
    split; [apply posted_quiet; exact Hq|]. right. reflexivity.
Qed.

End PageRun.

Section PageEffects.
Import Builder Expected Run.
Local Open Scope list_scope.

Lemma flat_map_nil {A B} (f : A -> list B) (l : list A) :
  (forall a, In a l -> f a = []) -> flat_map f l = [].
Proof.
  induction l as [|a l IH]; intros H; [reflexivity|].
  cbn [flat_map]. rewrite (H a (or_introl eq_refl)), IH; [reflexivity|].
  intros b Hb. apply H. right. exact Hb.
Qed.

Lemma filter_nil {A} (f : A -> bool) (l : list A) :
  (forall a, In a l -> f a = false) -> filter f l = [].
Proof.
  induction l as [|a l IH]; intros H; [reflexivity|].
  cbn [filter]. rewrite (H a (or_introl eq_refl)). apply IH.
  intros b Hb. apply H. right. exact Hb.
Qed.

Lemma fold_left_keep {A S} (f : S -> A -> S) (l : list A) (s : S) :
  (forall a t, In a l -> f t a = t) -> fold_left f l s = s.
Proof.
  revert s. induction l as [|a l IH]; intros s H; [reflexivity|].
  cbn [fold_left]. rewrite (H a s (or_introl eq_refl)). apply IH.
  intros b t Hb. apply H. right. exact Hb.
Qed.

Lemma last_cons {A} (a : A) (l : list A) (d d' : A) :
  last (a :: l) d = last (a :: l) d'.
Proof.
  revert a. induction l as [|b l IH]; intros a; [reflexivity|].
  change (last (b :: l) d = last (b :: l) d'). apply IH.
Qed.

Lemma progress_shown (progress : list Message) (s : string) :
  forallb isProgress progress = true ->
  fold_left (fun st e =>
               match e with Page.SetProgressMessage message => message | _ => st end)
    (map (fun m => match m with
                   | MsgProgress message => Page.SetProgressMessage message
                   | _ => Page.SetProgressMessage EmptyString
                   end) progress) s =
  last (map progressTextOf progress) s.
Proof.
  revert s. induction progress as [|m progress IH]; intros s Hp; [reflexivity|].
  cbn [forallb] in Hp. apply andb_prop in Hp. destruct Hp as [Hm Hp].
  destruct m as [message| |]; try discriminate Hm.
  cbn [map fold_left]. rewrite IH by assumption.
  destruct progress as [|m' progress']; [reflexivity|].
  cbn [map progressTextOf].
  change (last (progressTextOf m' :: map progressTextOf progress') message =
          last (progressTextOf m' :: map progressTextOf progress') s).
  apply last_cons.
Qed.

Lemma urlEffects_only blobs e :
  In e (Page.urlEffects blobs) -> exists level key, e = Page.CreateObjectURL level key.
Proof.
  unfold Page.urlEffects. intros H. apply in_flat_map in H.
  destruct H as (level & _ & H). apply in_map_iff in H.
  destruct H as (key & <- & _). eauto.
Qed.

(** X19. Every build leaves the page idle and reports once: the stream of
    the worker is a run of progress messages and one terminal message;
    after it [isProcessing] is false and the worker has been terminated
    exactly once.  After [done] the result is handed to
    [onTilesGenerated] exactly once, nothing is alerted and the progress
    line is empty; after [error] nothing is handed over, one alert names
    the error, and the progress line keeps the last progress message. *)
Theorem build_leaves_page_idle (host : Host) (url : Canvas -> string)
  (decoded : option Canvas) (previous : bool) :
  let effects := Page.generateTiles host url (Some decoded) previous in
  exists progress term,
    posted (onmessage host decoded) = progress ++ [term] /\
    forallb isProgress progress = true /\
    processingAfter effects = false /\
    terminations effects = 1%nat /\
    match term with
    | MsgDone data =>
        handedOver effects = [Page.finalDataOf url data] /\
        alerts effects = [] /\
        progressAfter effects = EmptyString
    | MsgError message =>
        handedOver effects = [] /\
        alerts effects = [("An error occurred during tiling: " ++ message)%string] /\
        progressAfter effects =
          last (map progressTextOf progress) "Initializing worker..."%string
    | MsgProgress _ => False
    end.
Proof.
  intros effects. subst effects.
  destruct (posted_stream host decoded) as (progress & term & Hs & Hp & Hterm).
  exists progress, term. split; [exact Hs|]. split; [exact Hp|].
  assert (Ht : isTerminal term = true)
    by (destruct Hterm as [(image & _ & ->) | ->]; reflexivity).
  unfold Page.generateTiles. rewrite Hs, deliver_stream by assumption.
  rewrite progress_effects by assumption.
  set (shown := map _ progress).
  assert (Hshown : forall e, In e shown -> exists message,
                     e = Page.SetProgressMessage message).
  { intros e He. unfold shown in He. apply in_map_iff in He.
    destruct He as (m & <- & _). destruct m; eauto. }
  set (start := [Page.SetIsProcessing true; Page.SetGeneratedData None;
                 Page.SetGeneratedBlobs None;
                 Page.SetProgressMessage "Initializing worker..."] ++
                (if previous then [Page.TerminatePrevious] else []) ++
                [Page.StartWorker; Page.PostImage]).
  assert (Hshape :
    ([Page.SetIsProcessing true; Page.SetGeneratedData None;
      Page.SetGeneratedBlobs None;
      Page.SetProgressMessage "Initializing worker..."] ++
     (if previous then [Page.TerminatePrevious] else []) ++
     [Page.StartWorker; Page.PostImage] ++
     shown ++ Page.onWorkerMessage url term) =
    start ++ shown ++ Page.onWorkerMessage url term).
  { unfold start. rewrite <- !app_assoc. reflexivity. }
  rewrite Hshape. clear Hshape.
  assert (Hfold_shown_proc : forall b,
    fold_left (fun st e => match e with Page.SetIsProcessing b' => b' | _ => st end)
      shown b = b).
  { intros b. apply fold_left_keep. intros e t He.
    destruct (Hshown e He) as (message & ->). reflexivity. }
  assert (Hhand_shown : handedOver shown = []).
  { apply flat_map_nil. intros e He. destruct (Hshown e He) as (message & ->).
    reflexivity. }
  assert (Halert_shown : alerts shown = []).
  { apply flat_map_nil. intros e He. destruct (Hshown e He) as (message & ->).
    reflexivity. }
  assert (Hterm_shown :
    filter (fun e => match e with Page.TerminateWorker => true | _ => false end)
      shown = []).
  { apply filter_nil. intros e He. destruct (Hshown e He) as (message & ->).
    reflexivity. }
  assert (Hstart_proc : processingAfter start = true)
    by (unfold start; destruct previous; reflexivity).
  assert (Hstart_prog : progressAfter start = "Initializing worker..."%string)
    by (unfold start; destruct previous; reflexivity).
  assert (Hstart_hand : handedOver start = [])
    by (unfold start; destruct previous; reflexivity).
  assert (Hstart_alert : alerts start = [])
    by (unfold start; destruct previous; reflexivity).
  assert (Hstart_term :
    filter (fun e => match e with Page.TerminateWorker => true | _ => false end)
      start = [])
    by (unfold start; destruct previous; reflexivity).
  unfold processingAfter, progressAfter, handedOver, alerts, terminations in *.
  rewrite !fold_left_app, !flat_map_app, !filter_app, !List.length_app.
  rewrite Hstart_proc, Hstart_prog, Hstart_hand, Hstart_alert, Hstart_term.
  rewrite Hfold_shown_proc, Hhand_shown, Halert_shown, Hterm_shown.
  unfold shown. rewrite progress_shown by assumption. fold shown.
  destruct Hterm as [(image & _ & ->) | ->].
  - cbn [Page.onWorkerMessage].
    set (urls := Page.urlEffects (tiles (expectedData host image))).
    assert (Hurls : forall e, In e urls -> exists level key,
                      e = Page.CreateObjectURL level key)
      by (intros e; apply urlEffects_only).
    rewrite !fold_left_app, !flat_map_app, !filter_app, !List.length_app.
    rewrite (fold_left_keep _ urls).
    2:{ intros e t He. destruct (Hurls e He) as (l & k & ->). reflexivity. }
    rewrite (fold_left_keep _ urls).
    2:{ intros e t He. destruct (Hurls e He) as (l & k & ->). reflexivity. }
    rewrite (flat_map_nil _ urls).
    2:{ intros e He. destruct (Hurls e He) as (l & k & ->). reflexivity. }
    rewrite (flat_map_nil _ urls).
    2:{ intros e He. destruct (Hurls e He) as (l & k & ->). reflexivity. }
    rewrite (filter_nil _ urls).
    2:{ intros e He. destruct (Hurls e He) as (l & k & ->). reflexivity. }
    cbn. auto.
  - cbn. auto.
Qed.

End PageEffects.

(** ** Objects of the page *)

Lemma assigned_None {A} (k : Z) (o : list (Z * A)) :
  ~ In k (map fst o) -> Page.assigned k o = None.
Proof.
  induction o as [|[k' a] o IH]; intros H; [reflexivity|].
  cbn [Page.assigned]. rewrite IH by (intros Hin; apply H; right; exact Hin).
  destruct (Z.eqb_spec k' k) as [-> | Hne]; [|reflexivity].
  exfalso. apply H. left. reflexivity.
Qed.

Lemma assigned_NoDup {A} (k : Z) (a : A) (o : list (Z * A)) :
  NoDup (map fst o) -> In (k, a) o -> Page.assigned k o = Some a.
Proof.
  induction o as [|[k' a'] o IH]; intros Hnd Hin; [destruct Hin|].
  cbn [map fst] in Hnd. inversion Hnd as [|? ? Hnotin Hnd']; subst.
  cbn [Page.assigned]. destruct Hin as [[= -> ->] | Hin].
  - rewrite assigned_None by exact Hnotin. rewrite Z.eqb_refl. reflexivity.
  - rewrite (IH Hnd' Hin). reflexivity.
Qed.

Lemma keyEqb_eq (a b : Z * Z) : Page.keyEqb a b = true <-> a = b.
Proof.
  destruct a as [a1 a2], b as [b1 b2]. unfold Page.keyEqb. cbn [fst snd].
  rewrite andb_true_iff, !Z.eqb_eq. split; [intros [-> ->]; reflexivity|].
  intros [= -> ->]. auto.
Qed.

Lemma assignedKey_None {A} (k : Z * Z) (o : list ((Z * Z) * A)) :
  ~ In k (map fst o) -> Page.assignedKey k o = None.
Proof.
  induction o as [|[k' a] o IH]; intros H; [reflexivity|].
  cbn [Page.assignedKey]. rewrite IH by (intros Hin; apply H; right; exact Hin).
  destruct (Page.keyEqb k' k) eqn:E; [|reflexivity].
  apply keyEqb_eq in E. exfalso. apply H. left. exact E.
Qed.

Lemma assignedKey_NoDup {A} (k : Z * Z) (a : A) (o : list ((Z * Z) * A)) :
  NoDup (map fst o) -> In (k, a) o -> Page.assignedKey k o = Some a.
Proof.
  induction o as [|[k' a'] o IH]; intros Hnd Hin; [destruct Hin|].
  cbn [map fst] in Hnd. inversion Hnd as [|? ? Hnotin Hnd']; subst.
  cbn [Page.assignedKey]. destruct Hin as [[= -> ->] | Hin].
  - rewrite assignedKey_None by exact Hnotin.
    rewrite (proj2 (keyEqb_eq k k) eq_refl). reflexivity.
  - rewrite (IH Hnd' Hin). reflexivity.
Qed.

Lemma firstKeys_NoDup {A} (o : list ((Z * Z) * A)) : forall seen,
  NoDup (map fst o) -> (forall k, In k seen -> ~ In k (map fst o)) ->
  Page.firstKeys seen o = map fst o.
Proof.
  induction o as [|[k a] o IH]; intros seen Hnd Hseen; [reflexivity|].
  cbn [map fst] in Hnd. inversion Hnd as [|? ? Hnotin Hnd']; subst.
  cbn [Page.firstKeys map fst].
  destruct (existsb (Page.keyEqb k) seen) eqn:E.
  - apply existsb_exists in E. destruct E as (k' & Hk' & E).
    apply keyEqb_eq in E. subst k'. exfalso. apply (Hseen k Hk'). left. reflexivity.
  - f_equal. apply IH; [exact Hnd'|].
    intros k' [<- | Hk']; [exact Hnotin|].
    intros Hin. apply (Hseen k' Hk'). right. exact Hin.
Qed.

Lemma stringKeys_NoDup {A} (o : list ((Z * Z) * A)) :
  NoDup (map fst o) -> Page.stringKeys o = map fst o.
Proof. intros H. apply firstKeys_NoDup; [exact H | intros k []]. Qed.

Lemma insertKey_last (k : Z) (keys : list Z) :
  (forall h, In h keys -> (h < k)%Z) -> Page.insertKey k keys = keys ++ [k].
Proof.
  induction keys as [|h keys IH]; intros H; [reflexivity|].
  cbn [Page.insertKey app]. pose proof (H h (or_introl eq_refl)) as Hh.
  destruct (Z.ltb_spec k h); [lia|]. destruct (Z.eqb_spec k h); [lia|].
  f_equal. apply IH. intros h' Hh'. apply H. right. exact Hh'.
Qed.

Section PageTiles.
Import Builder Expected Run.
Variable host : Host.

Lemma expectedTiles_levels n c :
  map fst (expectedTiles host n c) = map Z.of_nat (levelsDown n).
Proof. rewrite expectedTiles_flat, map_map. reflexivity. Qed.

Lemma indexKeys_expectedTiles n : forall c,
  Page.indexKeys (expectedTiles host n c) = map Z.of_nat (seq 0 n).
Proof.
  unfold Page.indexKeys. intros c. rewrite expectedTiles_levels. clear c.
  induction n as [|n IH]; [reflexivity|].
  rewrite levelsDown_S. cbn [map fold_right]. rewrite IH.
  rewrite insertKey_last.
  - rewrite seq_S, map_app. reflexivity.
  - intros h Hh. apply in_map_iff in Hh. destruct Hh as (l & <- & Hl).
    apply in_seq in Hl. lia.
Qed.

Lemma levelOf_expectedTiles image level :
  (0 <= level < levelsOf image)%Z ->
  Page.levelOf (tiles (expectedData host image)) level =
  levelTiles (canvasOfLevel host image level).
Proof.
  intros Hl. unfold Page.levelOf, expectedData. cbn [tiles].
  rewrite (assigned_NoDup level (levelTiles (canvasOfLevel host image level)));
    [reflexivity | |].
  - rewrite expectedTiles_levels. apply NoDup_levelsDown.
  - rewrite expectedTiles_flat. apply in_map_iff. exists (Z.to_nat level).
    split.
    + unfold canvasOfLevel. rewrite Z2Nat.id by lia. reflexivity.
    + apply levelsDown_In. lia.
Qed.

Lemma levelOf_outside image level :
  ~ (0 <= level < levelsOf image)%Z ->
  Page.levelOf (tiles (expectedData host image)) level = [].
Proof.
  intros Hl. unfold Page.levelOf, expectedData. cbn [tiles].
  rewrite assigned_None; [reflexivity|].
  rewrite expectedTiles_levels. intros Hin. apply in_map_iff in Hin.
  destruct Hin as (l & <- & Hin). apply levelsDown_In in Hin. lia.
Qed.

Lemma NoDup_levelTiles c : NoDup (map fst (levelTiles c)).
Proof. rewrite levelTiles_keys. apply NoDup_grid; apply NoDup_zrange. Qed.

Lemma keys_to_urls {B} (f : (Z * Z) -> Canvas -> list B)
  (o l : list ((Z * Z) * Canvas)) :
  (forall tile, In tile l ->
     Page.assignedKey (fst tile) o = Some (snd tile)) ->
  flat_map (fun key =>
              match Page.assignedKey key o with
              | Some blob => f key blob
              | None => []
              end)
           (map fst l) =
  flat_map (fun tile => f (fst tile) (snd tile)) l.
Proof.
  induction l as [|tile l IH]; intros Hall; [reflexivity|].
  cbn [map flat_map]. rewrite (Hall tile (or_introl eq_refl)).
  f_equal. apply IH. intros t Ht. apply Hall. right. exact Ht.
Qed.

Lemma level_lookup c tile :
  In tile (levelTiles c) ->
  Page.assignedKey (fst tile) (levelTiles c) = Some (snd tile).
Proof.
  destruct tile as [k t]. intros Hin.
  apply assignedKey_NoDup; [apply NoDup_levelTiles | exact Hin].
Qed.

Lemma level_urls (url : Canvas -> string) c :
  flat_map (fun key =>
              match Page.assignedKey key (levelTiles c) with
              | Some blob => [(key, url blob)]
              | None => []
              end)
           (Page.stringKeys (levelTiles c)) =
  map (fun tile => (fst tile, url (snd tile))) (levelTiles c).
Proof.
  rewrite stringKeys_NoDup by apply NoDup_levelTiles.
  rewrite (keys_to_urls (fun key blob => [(key, url blob)]))
    by apply level_lookup.
  apply flat_map_single.
Qed.

Lemma urlsOf_expected (url : Canvas -> string) image :
  Page.urlsOf url (tiles (expectedData host image)) =
  map (fun l =>
         (Z.of_nat l,
          map (fun tile => (fst tile, url (snd tile)))
              (levelTiles (canvasOfLevel host image (Z.of_nat l)))))
      (seq 0 (Z.to_nat (levelsOf image))).
Proof.
  unfold Page.urlsOf. unfold expectedData at 3. cbn [tiles].
  rewrite indexKeys_expectedTiles, map_map. apply map_ext_in.
  intros l Hl. apply in_seq in Hl.
  rewrite levelOf_expectedTiles by lia. rewrite level_urls. reflexivity.
Qed.

Lemma tileSource_expected (url : Canvas -> string) image level y x :
  Page.tileSource (Page.finalDataOf url (expectedData host image)) level y x =
  if ((0 <=? level) && (level <? levelsOf image) &&
      (0 <=? y) && (y <? gridRows (canvasOfLevel host image level)) &&
      (0 <=? x) && (x <? gridCols (canvasOfLevel host image level)))%Z%bool
  then Some (url (tileOf (canvasOfLevel host image level) y x))
  else None.
Proof.
  unfold Page.tileSource, Page.finalDataOf. cbn [Page.tileUrls].
  rewrite urlsOf_expected.
  set (urls := map _ (seq 0 _)).
  assert (Hkeys : map fst urls = map Z.of_nat (seq 0 (Z.to_nat (levelsOf image)))).
  { unfold urls. rewrite map_map. reflexivity. }
  assert (Hnd : NoDup (map fst urls)).
  { rewrite Hkeys. apply NoDup_map_injective; [intros a b H; lia | apply seq_NoDup]. }
  destruct (Z.leb_spec 0 level) as [H0 | H0];
    [destruct (Z.ltb_spec level (levelsOf image)) as [H1 | H1]|]; cbn [andb].
  - set (c := canvasOfLevel host image level).
    assert (Hlevel : Page.levelOf urls level =
                     map (fun tile => (fst tile, url (snd tile))) (levelTiles c)).
    { unfold Page.levelOf.
      rewrite (assigned_NoDup level
                 (map (fun tile => (fst tile, url (snd tile))) (levelTiles c)));
        [reflexivity | exact Hnd |].
      unfold urls. apply in_map_iff. exists (Z.to_nat level).
      split; [rewrite Z2Nat.id by lia; reflexivity | apply in_seq; lia]. }
    rewrite Hlevel.
    assert (Hnd' : NoDup (map fst (map (fun tile : Z * Z * Canvas =>
                                          (fst tile, url (snd tile)))
                                       (levelTiles c)))).
    { rewrite map_map. cbn [fst]. apply NoDup_levelTiles. }
    destruct (Z.leb_spec 0 y) as [Hy0 | Hy0];
      [destruct (Z.ltb_spec y (gridRows c)) as [Hy1 | Hy1];
       [destruct (Z.leb_spec 0 x) as [Hx0 | Hx0];
        [destruct (Z.ltb_spec x (gridCols c)) as [Hx1 | Hx1]|]|]|]; cbn [andb].
    + apply assignedKey_NoDup; [exact Hnd'|]. apply in_map_iff.
      exists ((y, x), tileOf c y x). split; [reflexivity|].
      apply levelTiles_In. exists y, x. repeat split; assumption.
    + apply assignedKey_None. rewrite map_map. cbn [fst]. intros Hin.
      apply in_map_iff in Hin. destruct Hin as ([k t] & Hk & Hin).
      cbn [fst] in Hk. subst k. apply levelTiles_In in Hin.
      destruct Hin as (y' & x' & [= <- <-] & _ & _ & Hx). lia.
    + apply assignedKey_None. rewrite map_map. cbn [fst]. intros Hin.
      apply in_map_iff in Hin. destruct Hin as ([k t] & Hk & Hin).
      cbn [fst] in Hk. subst k. apply levelTiles_In in Hin.
      destruct Hin as (y' & x' & [= <- <-] & _ & _ & Hx). lia.
    + apply assignedKey_None. rewrite map_map. cbn [fst]. intros Hin.
      apply in_map_iff in Hin. destruct Hin as ([k t] & Hk & Hin).
      cbn [fst] in Hk. subst k. apply levelTiles_In in Hin.
      destruct Hin as (y' & x' & [= <- <-] & _ & Hy & _). lia.
    + apply assignedKey_None. rewrite map_map. cbn [fst]. intros Hin.
      apply in_map_iff in Hin. destruct Hin as ([k t] & Hk & Hin).
      cbn [fst] in Hk. subst k. apply levelTiles_In in Hin.
      destruct Hin as (y' & x' & [= <- <-] & _ & Hy & _). lia.
  - unfold Page.levelOf. rewrite assigned_None; [reflexivity|].
    rewrite Hkeys. intros Hin. apply in_map_iff in Hin.
    destruct Hin as (l & <- & Hin). apply in_seq in Hin. lia.
  - unfold Page.levelOf. rewrite assigned_None; [reflexivity|].
    rewrite Hkeys. intros Hin. apply in_map_iff in Hin.
    destruct Hin as (l & <- & Hin). apply in_seq in Hin. lia.
Qed.

End PageTiles.

Section Session.
Import Builder Expected Run.

(** X20. The result that [generateTiles] hands to the explorer has an
    object URL for exactly the tiles of the pyramid: although the worker
    stores the levels from the top down, the handler visits them in
    ascending order; the explorer's lookup of tile [(y, x)] of a level
    finds the URL of that tile's blob when the level is one of the
    pyramid and [(y, x)] lies in its grid, and nothing otherwise. *)
Theorem session_tiles_present (host : Host) (url : Canvas -> string)
  (decoded : option Canvas) (data : PyramidData) :
  In (Posted (MsgDone data)) (onmessage host decoded) ->
  exists image,
    decoded = Some image /\
    map fst (tiles data) =
      map Z.of_nat (rev (seq 0 (Z.to_nat (levelsOf image)))) /\
    map fst (Page.tileUrls (Page.finalDataOf url data)) =
      map Z.of_nat (seq 0 (Z.to_nat (levelsOf image))) /\
    Page.generatedDimensions (Page.finalDataOf url data) =
      (cwidth image, cheight image) /\
    Page.generatedLevels (Page.finalDataOf url data) = levelsOf image /\
    forall level y x,
      Page.tileSource (Page.finalDataOf url data) level y x =
      if ((0 <=? level) && (level <? levelsOf image) &&
          (0 <=? y) && (y <? gridRows (canvasOfLevel host image level)) &&
          (0 <=? x) && (x <? gridCols (canvasOfLevel host image level)))%Z%bool
      then Some (url (tileOf (canvasOfLevel host image level) y x))
      else None.
Proof.
  intros Hdone.
  destruct (onmessage_done host decoded data Hdone) as (image & -> & -> & _).
  exists image. split; [reflexivity|]. split; [|split; [|split; [|split]]].
  - unfold expectedData. cbn [tiles]. apply expectedTiles_levels.
  - unfold Page.finalDataOf. cbn [Page.tileUrls]. rewrite urlsOf_expected.
    rewrite map_map. reflexivity.
  - reflexivity.
  - reflexivity.
  - intros level y x. apply tileSource_expected.
Qed.

Lemma session_tiles_present_witness :
  Page.tileSource (Page.finalDataOf exampleURL smallData) 1 0 1 =
  Some "blob:tile"%string.
Proof.
  assert (Hdone : In (Posted (MsgDone smallData))
                     (onmessage roomyHost (Some smallImage))).
  { vm_compute. do 5 right. left. reflexivity. }
  destruct (session_tiles_present roomyHost exampleURL (Some smallImage)
              smallData Hdone) as (image & Himage & _ & _ & _ & _ & Hsrc).
  injection Himage as <-. rewrite Hsrc. reflexivity.
Defined.



End Session.


(** ** Strings of the archive *)

Section ArchiveStrings.
Import Loader.
Local Open Scope string_scope.

Lemma append_nil_r (s : string) : s ++ "" = s.
Proof. induction s as [|c s IH]; [reflexivity|]. cbn. rewrite IH. reflexivity. Qed.

Lemma append_assoc (a b c : string) : (a ++ b) ++ c = a ++ (b ++ c).
Proof. induction a as [|x a IH]; [reflexivity|]. cbn. rewrite IH. reflexivity. Qed.

Lemma list_ascii_of_string_app (a b : string) :
  list_ascii_of_string (a ++ b) =
  (list_ascii_of_string a ++ list_ascii_of_string b)%list.
Proof. induction a as [|x a IH]; [reflexivity|]. cbn. rewrite IH. reflexivity. Qed.

Lemma string_of_list_ascii_app (a b : list ascii) :
  string_of_list_ascii (a ++ b)%list =
  string_of_list_ascii a ++ string_of_list_ascii b.
Proof. induction a as [|x a IH]; [reflexivity|]. cbn. rewrite IH. reflexivity. Qed.

Lemma reverse_app (a b : string) : reverse (a ++ b) = reverse b ++ reverse a.
Proof.
  unfold reverse. rewrite list_ascii_of_string_app, rev_app_distr.
  apply string_of_list_ascii_app.
Qed.

Lemma reverse_involutive (s : string) : reverse (reverse s) = s.
Proof.
  unfold reverse. rewrite list_ascii_of_string_of_list_ascii, rev_involutive.
  apply string_of_list_ascii_of_string.
Qed.

Lemma dropFinalSemicolon_app (j : string) : dropFinalSemicolon (j ++ ";") = j.
Proof.
  unfold dropFinalSemicolon. rewrite reverse_app.
  change (reverse ";") with ";". cbn [append]. apply reverse_involutive.
Qed.

Lemma trim_statement (c : ascii) (rest : string) :
  isSpace c = false ->
  trim (" " ++ String c rest ++ ";") = String c rest ++ ";".
Proof.
  intros Hc. unfold trim.
  assert (Hstart : trimStart (" " ++ String c rest ++ ";") = String c rest ++ ";").
  { cbn [append trimStart]. change (isSpace " ") with true. cbn iota.
    rewrite Hc. reflexivity. }
  rewrite Hstart. rewrite reverse_app. change (reverse ";") with ";".
  cbn [append trimStart]. change (isSpace ";") with false. cbn iota.
  change (String ";" (reverse (String c rest)))
    with (";" ++ reverse (String c rest)).
  rewrite reverse_app, reverse_involutive. reflexivity.
Qed.

(** The text that the loader parses, for a manifest written as
    [window.imageData = <json>;]. *)
Lemma manifestText_statement (entryName : string) (c : ascii) (rest : string) :
  isSpace c = false ->
  Manifest.manifestText
    (mkEntry entryName false ("window.imageData = " ++ String c rest ++ ";")) =
  String c rest.
Proof.
  intros Hc. unfold Manifest.manifestText. cbn [content].
  change (replace_first "window.imageData =" ""
            ("window.imageData = " ++ String c rest ++ ";"))
    with (" " ++ String c rest ++ ";").
  rewrite trim_statement by exact Hc. apply dropFinalSemicolon_app.
Qed.

Lemma splitSlash_nonempty (s : string) : splitSlash s <> [].
Proof.
  induction s as [|c s IH]; [discriminate|]. cbn [splitSlash].
  destruct (Ascii.eqb c "/"); [discriminate|].
  destruct (splitSlash s); discriminate.
Qed.

Lemma splitSlash_plain (a : string) :
  without "/" a = true -> splitSlash a = [a].
Proof.
  induction a as [|c a IH]; intros H; [reflexivity|].
  cbn [without] in H. apply andb_prop in H. destruct H as [Hc Ha].
  apply negb_true_iff in Hc. cbn [splitSlash]. rewrite Hc, (IH Ha). reflexivity.
Qed.

Lemma splitSlash_app (a b : string) :
  without "/" a = true -> splitSlash (a ++ String "/" b) = a :: splitSlash b.
Proof.
  induction a as [|c a IH]; intros H; [reflexivity|].
  cbn [without] in H. apply andb_prop in H. destruct H as [Hc Ha].
  apply negb_true_iff in Hc. cbn [append splitSlash]. rewrite Hc, (IH Ha).
  reflexivity.
Qed.

Lemma replace_png (k : string) :
  without "." k = true -> replace_first ".png" "" (k ++ ".png") = k.
Proof.
  induction k as [|c k IH]; intros H; [reflexivity|].
  cbn [without] in H. apply andb_prop in H. destruct H as [Hc Hk].
  apply negb_true_iff in Hc. cbn [append replace_first String.prefix].
  destruct (ascii_dec "." c) as [E | E].
  - subst c. discriminate Hc.
  - rewrite (IH Hk). reflexivity.
Qed.

Lemma prefix_app (a b : string) : String.prefix a (a ++ b) = true.
Proof.
  induction a as [|c a IH]; [destruct b; reflexivity|].
  cbn [append String.prefix]. destruct (ascii_dec c c); [exact IH | contradiction].
Qed.

Lemma without_app (c : ascii) (a b : string) :
  without c (a ++ b) = without c a && without c b.
Proof.
  induction a as [|x a IH]; [reflexivity|].
  cbn [append without]. rewrite IH, andb_assoc. reflexivity.
Qed.

Lemma numeral_uint (d : Decimal.uint) :
  numeral (DecimalString.NilEmpty.string_of_uint d).
Proof.
  induction d as [|d [IH1 IH2]|d [IH1 IH2]|d [IH1 IH2]|d [IH1 IH2]|d [IH1 IH2]
                  |d [IH1 IH2]|d [IH1 IH2]|d [IH1 IH2]|d [IH1 IH2]|d [IH1 IH2]];
    split; cbn [DecimalString.NilEmpty.string_of_uint without];
    try reflexivity; assumption.
Qed.

Lemma numeral_string_of_Z (z : Z) : numeral (string_of_Z z).
Proof.
  unfold string_of_Z, DecimalString.NilZero.string_of_int.
  destruct (Z.to_int z) as [d | d];
    unfold DecimalString.NilZero.string_of_uint;
    destruct d; try (split; reflexivity);
    try apply numeral_uint;
    match goal with
    | |- numeral (String "-" ?s) =>
        let H := fresh in
        assert (H : numeral s) by
          (first [apply numeral_uint | split; reflexivity]);
        destruct H; split; cbn [without]; assumption
    end.
Qed.

Lemma numeral_tileKey (key : Z * Z) : numeral (Page.tileKey key).
Proof.
  unfold Page.tileKey.
  destruct (numeral_string_of_Z (fst key)) as [H1 H2].
  destruct (numeral_string_of_Z (snd key)) as [H3 H4].
  split; rewrite !without_app, ?H1, ?H2; cbn [append without];
    rewrite ?H3, ?H4; reflexivity.
Qed.

(** The path of an exported tile, as the loader takes it apart. *)
Lemma tile_path_parts (level : Z) (key : Z * Z) :
  splitSlash ("tiles/" ++ string_of_Z level ++ "/" ++ Page.tileKey key ++ ".png") =
    ["tiles"; string_of_Z level; Page.tileKey key ++ ".png"] /\
  replace_first ".png" "" (Page.tileKey key ++ ".png") = Page.tileKey key.
Proof.
  destruct (numeral_string_of_Z level) as [Hl _].
  destruct (numeral_tileKey key) as [Hk1 Hk2].
  split; [|apply replace_png; exact Hk2].
  change ("tiles/" ++ string_of_Z level ++ "/" ++ Page.tileKey key ++ ".png")
    with ("tiles" ++ String "/" (string_of_Z level ++ String "/"
                                   (Page.tileKey key ++ ".png"))).
  rewrite splitSlash_app by reflexivity.
  rewrite splitSlash_app by exact Hl.
  rewrite splitSlash_plain; [reflexivity|].
  rewrite without_app, Hk1. reflexivity.
Qed.

End ArchiveStrings.

(** ** Loading an archive with a usable manifest *)

Section ArchiveSuccess.
Import Loader.
Local Open Scope string_scope.
Local Open Scope list_scope.

Variable engine : Engine.

Lemma extractTile_run (e : ZipEntry) (log : list Effect) :
  extractTile engine e log =
  (Returned (accepted engine e), log ++ readsOf engine e).
Proof.
  unfold extractTile, accepted, readsOf, accepted.
  destruct (dir e); [cbn; rewrite app_nil_r; reflexivity|].
  destruct (splitSlash (name e)) as [|p1 [|p2 [|p3 [|p4 rest]]]];
    try (cbn; rewrite app_nil_r; reflexivity).
  destruct (Number engine p2) as [level|];
    [|cbn; rewrite app_nil_r; reflexivity].
  unfold bind, emit, ret. rewrite <- app_assoc. reflexivity.
Qed.

Lemma extractTiles_run (files : list ZipEntry) : forall log,
  forEach (extractTile engine) files log =
  (Returned (map (accepted engine) files),
   log ++ flat_map (readsOf engine) files).
Proof.
  induction files as [|e files IH]; intros log.
  - cbn. rewrite app_nil_r. reflexivity.
  - cbn [forEach map flat_map]. unfold bind at 1. rewrite extractTile_run.
    unfold bind at 1. rewrite IH. unfold ret. rewrite <- app_assoc. reflexivity.
Qed.

Lemma tryBlock_usable entries f v log :
  Usable engine entries f v ->
  let stored := somes (map (accepted engine) (tileFilesOf entries)) in
  let final := mkLoaded stored (getProp v "originalDimensions")
                 (getProp v "numLevels") in
  tryBlock engine (inr entries) log =
  (Returned tt,
   log ++ [ReadText (name f); SetProgressMessage "Extracting tiles..."] ++
   flat_map (readsOf engine) (tileFilesOf entries) ++
   [SetGeneratedBlobs stored; SetGeneratedData final; OnTilesGenerated final]).
Proof.
  intros (Hf & Hp & Hv & Hd & Hn). cbv zeta. unfold tryBlock. rewrite Hf.
  unfold bind at 1. unfold emit at 1. fold (Manifest.manifestText f).
  rewrite Hp.
  assert (Hok : negb (truthy (getProp v "originalDimensions")) ||
                negb (truthy (getProp v "numLevels")) = false)
    by (rewrite Hd, Hn; reflexivity).
  destruct v; try contradiction; rewrite Hok;
    unfold bind at 1; unfold emit at 1;
    unfold bind at 1; rewrite extractTiles_run;
    unfold bind, emit; rewrite <- !app_assoc; reflexivity.
Qed.

Lemma handleZipFile_usable entries f v :
  Usable engine entries f v ->
  let stored := somes (map (accepted engine) (tileFilesOf entries)) in
  let final := mkLoaded stored (getProp v "originalDimensions")
                 (getProp v "numLevels") in
  handleZipFile engine (inr entries) =
  [SetIsProcessing true; SetProgressMessage "Reading ZIP file...";
   ReadText (name f); SetProgressMessage "Extracting tiles..."] ++
  flat_map (readsOf engine) (tileFilesOf entries) ++
  [SetGeneratedBlobs stored; SetGeneratedData final; OnTilesGenerated final;
   SetIsProcessing false; SetProgressMessage ""].
Proof.
  intros Hu. cbv zeta. unfold handleZipFile, bind, try_catch_finally.
  cbn [emit app].
  rewrite (tryBlock_usable entries f v _ Hu). cbv zeta.
  unfold emit. cbn [snd app]. rewrite <- !app_assoc. reflexivity.
Qed.

Lemma somes_In {A} (l : list (option A)) (a : A) :
  In a (somes l) <-> In (Some a) l.
Proof.
  induction l as [|[b|] l IH]; cbn [somes In].
  - reflexivity.
  - rewrite IH. split; intros [H | H]; auto; left; congruence.
  - rewrite IH. split; [auto | intros [H | H]; [discriminate | exact H]].
Qed.

Lemma readsOf_only e effect :
  In effect (readsOf engine e) ->
  effect = ReadBlob (name e) \/ effect = CreateObjectURL (name e).
Proof.
  unfold readsOf. destruct (accepted engine e); [|intros []].
  intros [<- | [<- | []]]; auto.
Qed.

End ArchiveSuccess.

Section ArchiveTheorems.
Import Loader.
Local Open Scope string_scope.
Local Open Scope list_scope.

(** X22. An archive with a usable manifest loads: the result is handed to
    [onTilesGenerated] once, with the two fields of the manifest, nothing
    is alerted, and the page ends idle.  The tiles stored are those of the
    entries under [tiles/] that are files, have a path of exactly three
    parts and a level name that [Number] accepts; the key is the file name
    without its first [.png]; other entries are skipped without an
    error, and a blob is read only for a stored tile. *)
Theorem usable_manifest_loads (engine : Engine) (entries : list ZipEntry)
  (f : ZipEntry) (v : JSON) :
  Usable engine entries f v ->
  exists stored reads,
    let final := mkLoaded stored (getProp v "originalDimensions")
                   (getProp v "numLevels") in
    handleZipFile engine (inr entries) =
      [SetIsProcessing true; SetProgressMessage "Reading ZIP file...";
       ReadText (name f); SetProgressMessage "Extracting tiles..."] ++
      reads ++
      [SetGeneratedBlobs stored; SetGeneratedData final; OnTilesGenerated final;
       SetIsProcessing false; SetProgressMessage ""] /\
    (forall effect, In effect reads ->
       exists level key e,
         In (level, key, content e) stored /\ In e entries /\
         (effect = ReadBlob (name e) \/ effect = CreateObjectURL (name e))) /\
    (forall message,
       ~ In (Alert message) (handleZipFile engine (inr entries)) /\
       ~ In (ConsoleError message) (handleZipFile engine (inr entries))) /\
    (forall level key blob,
       In (level, key, blob) stored <->
       exists e first levelPart keyPart,
         In e entries /\ dir e = false /\
         String.prefix "tiles/" (name e) = true /\
         splitSlash (name e) = [first; levelPart; keyPart] /\
         Number engine levelPart = Some level /\
         key = replace_first ".png" "" keyPart /\
         blob = content e).
Proof.
  intros Hu.
  exists (somes (map (accepted engine) (tileFilesOf entries))),
         (flat_map (readsOf engine) (tileFilesOf entries)).
  pose proof (handleZipFile_usable engine entries f v Hu) as Hlog.
  cbv zeta in *.
  assert (Hreads : forall effect,
            In effect (flat_map (readsOf engine) (tileFilesOf entries)) ->
            exists level key e,
              In (level, key, content e)
                 (somes (map (accepted engine) (tileFilesOf entries))) /\
              In e entries /\
              (effect = ReadBlob (name e) \/ effect = CreateObjectURL (name e))).
  { intros effect Hin. apply in_flat_map in Hin. destruct Hin as (e & He & Hin).
    pose proof (readsOf_only engine e effect Hin) as Hkind.
    unfold readsOf in Hin.
    destruct (accepted engine e) as [[[level key] blob]|] eqn:Ea; [|destruct Hin].
    assert (Hblob : blob = content e).
    { unfold accepted in Ea. destruct (dir e); [discriminate|].
      destruct (splitSlash (name e)) as [|p1 [|p2 [|p3 [|p4 rest]]]];
        try discriminate.
      destruct (Number engine p2); [|discriminate]. congruence. }
    subst blob. exists level, key, e. split; [|split; [|exact Hkind]].
    - apply somes_In. apply in_map_iff. exists e. auto.
    - unfold tileFilesOf in He. apply filter_In in He. apply He. }
  split; [exact Hlog|]. split; [exact Hreads|]. split.
  - intros message. rewrite Hlog. split; intros Hin.
    + apply in_app_or in Hin. destruct Hin as [Hin | Hin].
      { repeat (destruct Hin as [Hin | Hin]; [discriminate Hin|]). exact Hin. }
      apply in_app_or in Hin. destruct Hin as [Hin | Hin].
      { destruct (Hreads _ Hin) as (? & ? & ? & _ & _ & [H | H]); discriminate H. }
      repeat (destruct Hin as [Hin | Hin]; [discriminate Hin|]). exact Hin.
    + apply in_app_or in Hin. destruct Hin as [Hin | Hin].
      { repeat (destruct Hin as [Hin | Hin]; [discriminate Hin|]). exact Hin. }
      apply in_app_or in Hin. destruct Hin as [Hin | Hin].
      { destruct (Hreads _ Hin) as (? & ? & ? & _ & _ & [H | H]); discriminate H. }
      repeat (destruct Hin as [Hin | Hin]; [discriminate Hin|]). exact Hin.
  - intros level key blob. rewrite somes_In, in_map_iff. split.
    + intros (e & Ha & He). unfold tileFilesOf in He. apply filter_In in He.
      destruct He as [He Hf]. apply andb_prop in Hf. destruct Hf as [Hpre Hdir].
      apply negb_true_iff in Hdir. unfold accepted in Ha. rewrite Hdir in Ha.
      destruct (splitSlash (name e)) as [|p1 [|p2 [|p3 [|p4 rest]]]] eqn:Es;
        try discriminate.
      destruct (Number engine p2) as [l|] eqn:En; [|discriminate].
      injection Ha as <- <- <-. exists e, p1, p2, p3. repeat split; assumption.
    + intros (e & first & levelPart & keyPart & He & Hdir & Hpre & Es & En & -> & ->).
      exists e. split.
      * unfold accepted. rewrite Hdir, Es, En. reflexivity.
      * unfold tileFilesOf. apply filter_In. split; [exact He|].
        rewrite Hpre, Hdir. reflexivity.
Qed.

Lemma usable_manifest_loads_witness :
  exists stored reads,
    handleZipFile Manifest.exampleEngine (inr Manifest.goodArchive) =
      [SetIsProcessing true; SetProgressMessage "Reading ZIP file...";
       ReadText "image_data.js"; SetProgressMessage "Extracting tiles..."] ++
      reads ++
      [SetGeneratedBlobs stored;
       SetGeneratedData
         (mkLoaded stored (getProp Manifest.goodValue "originalDimensions")
            (getProp Manifest.goodValue "numLevels"));
       OnTilesGenerated
         (mkLoaded stored (getProp Manifest.goodValue "originalDimensions")
            (getProp Manifest.goodValue "numLevels"));
       SetIsProcessing false; SetProgressMessage ""].
Proof.
  assert (Hu : Usable Manifest.exampleEngine Manifest.goodArchive
                 (mkEntry "image_data.js" false
                    ("window.imageData = " ++ Manifest.goodText ++ ";")%string)
                 Manifest.goodValue).
  { unfold Usable. split; [reflexivity|]. split; [reflexivity|].
    split; [discriminate|]. split; reflexivity. }
  destruct (usable_manifest_loads Manifest.exampleEngine Manifest.goodArchive
              _ _ Hu) as (stored & reads & Hlog & _).
  exists stored, reads. exact Hlog.
Defined.

End ArchiveTheorems.

(** ** Exports *)

Section Exports.
Import Loader.
Local Open Scope string_scope.
Local Open Scope list_scope.

Lemma filter_all {A} (p : A -> bool) (l : list A) :
  (forall a, In a l -> p a = true) -> filter p l = l.
Proof.
  induction l as [|a l IH]; intros H; [reflexivity|].
  cbn [filter]. rewrite (H a (or_introl eq_refl)). f_equal. apply IH.
  intros b Hb. apply H. right. exact Hb.
Qed.

Lemma filter_flat_map {A B} (p : B -> bool) (f : A -> list B) (l : list A) :
  filter p (flat_map f l) = flat_map (fun a => filter p (f a)) l.
Proof.
  induction l as [|a l IH]; [reflexivity|].
  cbn [flat_map]. rewrite filter_app, IH. reflexivity.
Qed.

Lemma map_flat_map {A B C} (g : B -> C) (f : A -> list B) (l : list A) :
  map g (flat_map f l) = flat_map (fun a => map g (f a)) l.
Proof.
  induction l as [|a l IH]; [reflexivity|].
  cbn [flat_map]. rewrite map_app, IH. reflexivity.
Qed.

Lemma flat_map_flat_map {A B C} (g : B -> list C) (f : A -> list B) (l : list A) :
  flat_map g (flat_map f l) = flat_map (fun a => flat_map g (f a)) l.
Proof.
  induction l as [|a l IH]; [reflexivity|].
  cbn [flat_map]. rewrite flat_map_app, IH. reflexivity.
Qed.

Lemma somes_Some {A} (l : list A) : somes (map Some l) = l.
Proof. induction l as [|a l IH]; [reflexivity|]. cbn. rewrite IH. reflexivity. Qed.

Variable engine : Engine.
Variable png : Canvas -> string.

Lemma tileFiles_of_export blobs :
  filter isTileFile (Page.tileEntries png blobs) = exportedFiles png blobs.
Proof.
  unfold Page.tileEntries, exportedFiles. cbn [filter].
  change (isTileFile (mkEntry "tiles/" true "")) with false. cbn iota.
  rewrite filter_flat_map. apply flat_map_agree. intros level _.
  cbn [filter].
  assert (Hdir : isTileFile (mkEntry ("tiles/" ++ string_of_Z level ++ "/") true "")
                 = false).
  { unfold isTileFile. cbn [dir negb]. apply andb_false_r. }
  rewrite Hdir. apply filter_all. intros e He. apply in_flat_map in He.
  destruct He as (key & _ & He).
  destruct (Page.assignedKey key (Page.levelOf blobs level)); [|destruct He].
  destruct He as [<- | []]. unfold isTileFile. cbn [name dir negb].
  rewrite andb_true_r.
  apply (prefix_app "tiles/"
           (string_of_Z level ++ "/" ++ Page.tileKey key ++ ".png")).
Qed.

Lemma accepted_export blobs :
  (forall level, In level (Page.indexKeys blobs) ->
     Number engine (string_of_Z level) = Some (inject_Z level)) ->
  map (accepted engine) (exportedFiles png blobs) =
  map Some (exportedTiles png blobs).
Proof.
  intros HN. unfold exportedFiles, exportedTiles.
  rewrite !map_flat_map. apply flat_map_agree. intros level Hlevel.
  rewrite !map_flat_map. apply flat_map_agree. intros key _.
  destruct (Page.assignedKey key (Page.levelOf blobs level)); [|reflexivity].
  cbn [map]. unfold accepted. cbn [dir name content].
  destruct (tile_path_parts level key) as [Hparts Hkey].
  rewrite Hparts, (HN level Hlevel), Hkey. reflexivity.
Qed.

Lemma reads_of_export blobs :
  (forall level, In level (Page.indexKeys blobs) ->
     Number engine (string_of_Z level) = Some (inject_Z level)) ->
  flat_map (readsOf engine) (exportedFiles png blobs) =
  flat_map (fun e => [ReadBlob (name e); CreateObjectURL (name e)])
           (exportedFiles png blobs).
Proof.
  intros HN. pose proof (accepted_export blobs HN) as Hacc.
  revert Hacc. generalize (exportedTiles png blobs) as stored.
  induction (exportedFiles png blobs) as [|e files IH]; intros stored Hacc;
    [reflexivity|].
  destruct stored as [|t stored]; [discriminate Hacc|].
  cbn [map] in Hacc. injection Hacc as He Hrest.
  cbn [flat_map]. unfold readsOf at 1. rewrite He. f_equal.
  apply (IH stored). exact Hrest.
Qed.

End Exports.

Section ExportTheorems.
Import Loader.
Local Open Scope string_scope.
Local Open Scope list_scope.

Lemma export_archive stringify png html data blobs :
  Page.handleExport stringify png html (Some data) true (Some blobs) =
  Some (mkEntry "image_data.js" false
          ("window.imageData = " ++ stringify (Page.manifestOf data) ++ ";") ::
        Page.tileEntries png blobs ++ [mkEntry "index.html" false html]).
Proof. reflexivity. Qed.

Lemma export_tileFiles (manifest : string) png html blobs :
  tileFilesOf
    (mkEntry "image_data.js" false manifest ::
     Page.tileEntries png blobs ++ [mkEntry "index.html" false html]) =
  exportedFiles png blobs.
Proof.
  unfold tileFilesOf. change (fun e : ZipEntry =>
    String.prefix "tiles/" (name e) && negb (dir e)) with isTileFile.
  cbn [filter]. change (isTileFile (mkEntry "image_data.js" false manifest))
    with false. cbn iota.
  rewrite filter_app, tileFiles_of_export. cbn [filter].
  change (isTileFile (mkEntry "index.html" false html)) with false. cbn iota.
  apply app_nil_r.
Qed.

Lemma export_usable engine (stringify : JSON -> string) png html data blobs c rest :
  stringify (Page.manifestOf data) = String c rest ->
  isSpace c = false ->
  JSON_parse engine (String c rest) = inr (Page.manifestOf data) ->
  Page.generatedLevels data <> 0%Z ->
  Usable engine
    (mkEntry "image_data.js" false
       ("window.imageData = " ++ stringify (Page.manifestOf data) ++ ";") ::
     Page.tileEntries png blobs ++ [mkEntry "index.html" false html])
    (mkEntry "image_data.js" false
       ("window.imageData = " ++ stringify (Page.manifestOf data) ++ ";"))
    (Page.manifestOf data).
Proof.
  intros Hs Hc Hp HN. unfold Usable.
  split; [reflexivity|]. rewrite Hs, manifestText_statement by exact Hc.
  split; [exact Hp|]. split; [discriminate|]. split; [reflexivity|].
  cbn. apply negb_true_iff. destruct (Qeq_bool _ 0) eqn:E; [|reflexivity].
  apply Qeq_bool_iff in E. change 0 with (inject_Z 0) in E.
  rewrite inject_Z_injective in E. contradiction.
Qed.

(** X23. What the page exports, the page loads back: for a result with a
    level count other than 0 and an engine that parses the manifest it
    wrote and the decimal names of the levels, [handleZipFile] on the
    archive of [handleExport] alerts nothing, hands the result over once
    with the exported dimensions and level count, and stores exactly the
    exported tiles: a level, key and bytes are stored if and only if the
    export holds them, and as many tiles are stored as were exported.  A
    blob is read and a URL made only for a tile file of the export.
    Nothing is said of the order in which the tiles are read or stored. *)
Theorem export_loads_back (engine : Engine) (stringify : JSON -> string)
  (png : Canvas -> string) (html : string) (data : Page.GeneratedData)
  (blobs : list (Z * Builder.LevelTiles)) (c : ascii) (rest : string) :
  stringify (Page.manifestOf data) = String c rest ->
  isSpace c = false ->
  JSON_parse engine (String c rest) = inr (Page.manifestOf data) ->
  Page.generatedLevels data <> 0%Z ->
  (forall level, In level (Page.indexKeys blobs) ->
     Number engine (string_of_Z level) = Some (inject_Z level)) ->
  exists archive stored reads,
    Page.handleExport stringify png html (Some data) true (Some blobs) =
      Some archive /\
    let final :=
      mkLoaded stored
        (Some (JObject
                 [("width", JNumber (inject_Z (fst (Page.generatedDimensions data))));
                  ("height", JNumber (inject_Z (snd (Page.generatedDimensions data))))]))
        (Some (JNumber (inject_Z (Page.generatedLevels data)))) in
    handleZipFile engine (inr archive) =
      [SetIsProcessing true; SetProgressMessage "Reading ZIP file...";
       ReadText "image_data.js"; SetProgressMessage "Extracting tiles..."] ++
      reads ++
      [SetGeneratedBlobs stored; SetGeneratedData final;
       OnTilesGenerated final; SetIsProcessing false; SetProgressMessage ""] /\
    (forall level key bytes,
       In (level, key, bytes) stored <->
       In (level, key, bytes) (exportedTiles png blobs)) /\
    List.length stored = List.length (exportedTiles png blobs) /\
    (forall effect, In effect reads ->
       exists e, In e (exportedFiles png blobs) /\
                 (effect = ReadBlob (name e) \/
                  effect = CreateObjectURL (name e))) /\
    (forall message,
       ~ In (Alert message) (handleZipFile engine (inr archive)) /\
       ~ In (ConsoleError message) (handleZipFile engine (inr archive))).
Proof.
  intros Hs Hc Hp HN HNumber.
  eexists. exists (exportedTiles png blobs).
  exists (flat_map (fun e => [ReadBlob (name e); CreateObjectURL (name e)])
            (exportedFiles png blobs)).
  split; [apply export_archive|].
  cbv zeta.
  assert (Hreads : forall effect,
    In effect (flat_map (fun e => [ReadBlob (name e); CreateObjectURL (name e)])
                 (exportedFiles png blobs)) ->
    exists e, In e (exportedFiles png blobs) /\
              (effect = ReadBlob (name e) \/ effect = CreateObjectURL (name e))).
  { intros effect Hin. apply in_flat_map in Hin. destruct Hin as (e & He & Hin).
    exists e. split; [exact He|].
    destruct Hin as [<- | [<- | []]]; [left | right]; reflexivity. }
  assert (Hlog :
    handleZipFile engine
      (inr (mkEntry "image_data.js" false
              ("window.imageData = " ++ stringify (Page.manifestOf data) ++ ";")
            :: Page.tileEntries png blobs ++ [mkEntry "index.html" false html])) =
    [SetIsProcessing true; SetProgressMessage "Reading ZIP file...";
     ReadText "image_data.js"; SetProgressMessage "Extracting tiles..."] ++
    flat_map (fun e => [ReadBlob (name e); CreateObjectURL (name e)])
             (exportedFiles png blobs) ++
    [SetGeneratedBlobs (exportedTiles png blobs);
     SetGeneratedData
       (mkLoaded (exportedTiles png blobs)
          (Some (JObject
                   [("width", JNumber (inject_Z (fst (Page.generatedDimensions data))));
                    ("height", JNumber (inject_Z (snd (Page.generatedDimensions data))))]))
          (Some (JNumber (inject_Z (Page.generatedLevels data)))));
     OnTilesGenerated
       (mkLoaded (exportedTiles png blobs)
          (Some (JObject
                   [("width", JNumber (inject_Z (fst (Page.generatedDimensions data))));
                    ("height", JNumber (inject_Z (snd (Page.generatedDimensions data))))]))
          (Some (JNumber (inject_Z (Page.generatedLevels data)))));
     SetIsProcessing false; SetProgressMessage ""]).
  { rewrite (handleZipFile_usable engine _ _ _
               (export_usable engine stringify png html data blobs c rest
                  Hs Hc Hp HN)).
    cbv zeta. rewrite export_tileFiles, accepted_export by exact HNumber.
    rewrite somes_Some, reads_of_export by exact HNumber. reflexivity. }
  split; [exact Hlog|]. split; [intros; reflexivity|].
  split; [reflexivity|]. split; [exact Hreads|].
  intros message. rewrite Hlog. split; intros Hin.
  - apply in_app_or in Hin. destruct Hin as [Hin | Hin].
    { repeat (destruct Hin as [Hin | Hin]; [discriminate Hin|]). exact Hin. }
    apply in_app_or in Hin. destruct Hin as [Hin | Hin].
    { destruct (Hreads _ Hin) as (? & _ & [H | H]); discriminate H. }
    repeat (destruct Hin as [Hin | Hin]; [discriminate Hin|]). exact Hin.
  - apply in_app_or in Hin. destruct Hin as [Hin | Hin].
    { repeat (destruct Hin as [Hin | Hin]; [discriminate Hin|]). exact Hin. }
    apply in_app_or in Hin. destruct Hin as [Hin | Hin].
    { destruct (Hreads _ Hin) as (? & _ & [H | H]); discriminate H. }
    repeat (destruct Hin as [Hin | Hin]; [discriminate Hin|]). exact Hin.
Qed.

Lemma export_loads_back_witness :
  exists archive stored,
    Page.handleExport exampleStringify examplePng "<html>"
      (Some smallGenerated) true (Some (Builder.tiles smallData)) =
      Some archive /\
    In (SetGeneratedBlobs stored)
       (handleZipFile sessionEngine (inr archive)) /\
    In (1, "0_1", "PNG") stored /\
    List.length stored = 3%nat.
Proof.
  destruct (export_loads_back sessionEngine exampleStringify examplePng
              "<html>" smallGenerated (Builder.tiles smallData)
              "{"%char
              (Manifest.quote ++ "originalDimensions" ++ Manifest.quote ++ ":{" ++
               Manifest.quote ++ "width" ++ Manifest.quote ++ ":200," ++
               Manifest.quote ++ "height" ++ Manifest.quote ++ ":100}," ++
               Manifest.quote ++ "numLevels" ++ Manifest.quote ++ ":2}"))
    as (archive & stored & reads & Harchive & Hlog & Hstored & Hlen & _).
  - reflexivity.
  - reflexivity.
  - reflexivity.
  - vm_compute. discriminate.
  - intros level Hin. vm_compute in Hin.
    destruct Hin as [<- | [<- | []]]; reflexivity.
  - exists archive, stored. split; [exact Harchive|]. split; [|split].
    + cbv zeta in Hlog. rewrite Hlog.
      apply in_or_app. right. apply in_or_app. right. left. reflexivity.
    + apply Hstored. vm_compute. right. right. left. reflexivity.
    + rewrite Hlen. reflexivity.
Defined.

End ExportTheorems.

Section ExportEdges.
Import Loader.
Local Open Scope string_scope.
Local Open Scope list_scope.

Lemma levelsOf_none (image : Canvas) :
  (1 <= cwidth image)%Z -> (1 <= cheight image)%Z ->
  (32 < Z.max (cwidth image) (cheight image) <= 64)%Z ->
  Run.levelsOf image = 0%Z.
Proof.
  intros Hw Hh Hm. unfold Run.levelsOf.
  rewrite computeNumLevels_closed by assumption.
  rewrite (Z.log2_up_unique (Z.max (cwidth image) (cheight image)) 6);
    [reflexivity | lia |]. cbn. lia.
Qed.

Lemma tryBlock_falsy engine entries f fields log :
  findFile "image_data.js" entries = Some f ->
  JSON_parse engine (Manifest.manifestText f) = inr (JObject fields) ->
  negb (truthy (lookupField "originalDimensions" fields)) ||
  negb (truthy (lookupField "numLevels" fields)) = true ->
  tryBlock engine (inr entries) log =
  (Thrown "Invalid image_data.js format.", log ++ [ReadText (name f)]).
Proof.
  intros Hf Hp Hfalsy. unfold tryBlock. rewrite Hf.
  unfold bind at 1. unfold emit at 1. fold (Manifest.manifestText f).
  rewrite Hp. cbn [getProp]. rewrite Hfalsy. reflexivity.
Qed.

(** X24. The page refuses its own export of an image without levels: for
    a source image whose longer side is between 33 and 64 pixels the
    worker posts a pyramid with level count 0 and no tiles; the manifest
    of its export has [numLevels] 0, which the loader takes for a missing
    field, so that loading the archive alerts
    [Invalid image_data.js format.] and hands nothing over. *)
Theorem empty_pyramid_export_is_refused (host : Builder.Host)
  (url : Canvas -> string) (engine : Engine) (stringify : JSON -> string)
  (png : Canvas -> string) (html : string) (image : Canvas)
  (pyramid : Builder.PyramidData) (c : ascii) (rest : string) :
  (1 <= cwidth image)%Z -> (1 <= cheight image)%Z ->
  (32 < Z.max (cwidth image) (cheight image) <= 64)%Z ->
  In (Builder.Posted (Builder.MsgDone pyramid))
     (Builder.onmessage host (Some image)) ->
  stringify (Page.manifestOf (Page.finalDataOf url pyramid)) = String c rest ->
  isSpace c = false ->
  JSON_parse engine (String c rest) =
    inr (Page.manifestOf (Page.finalDataOf url pyramid)) ->
  Builder.pyramidLevels pyramid = 0%Z /\
  Builder.tiles pyramid = [] /\
  exists archive,
    Page.handleExport stringify png html
      (Some (Page.finalDataOf url pyramid)) true
      (Some (Builder.tiles pyramid)) = Some archive /\
    handleZipFile engine (inr archive) =
      [SetIsProcessing true; SetProgressMessage "Reading ZIP file...";
       ReadText "image_data.js";
       ConsoleError "Invalid image_data.js format.";
       Alert "Failed to load tile set: Invalid image_data.js format.";
       SetIsProcessing false; SetProgressMessage ""].
Proof.
  intros Hw Hh Hm Hdone Hs Hc Hp.
  destruct (onmessage_done host (Some image) pyramid Hdone)
    as (image' & [= <-] & -> & _).
  pose proof (levelsOf_none image Hw Hh Hm) as HN.
  assert (Hlevels : Builder.pyramidLevels (Run.expectedData host image) = 0%Z)
    by exact HN.
  assert (Htiles : Builder.tiles (Run.expectedData host image) = []).
  { unfold Run.expectedData. cbn [Builder.tiles]. rewrite HN. reflexivity. }
  split; [exact Hlevels|]. split; [exact Htiles|].
  eexists. split; [apply export_archive|].
  apply (handleZipFile_thrown engine _ "Invalid image_data.js format."
           [ReadText "image_data.js"]).
  eapply (tryBlock_falsy engine _
            (mkEntry "image_data.js" false
               ("window.imageData = " ++
                stringify (Page.manifestOf (Page.finalDataOf url
                                              (Run.expectedData host image))) ++
                ";"))).
  - reflexivity.
  - rewrite Hs, manifestText_statement by exact Hc. exact Hp.
  - cbn [lookupField String.eqb Ascii.eqb Bool.eqb truthy negb orb
         Page.finalDataOf Page.generatedLevels].
    rewrite Hlevels. reflexivity.
Qed.

Lemma empty_pyramid_export_is_refused_witness :
  exists archive,
    Page.handleExport tinyStringify examplePng "<html>"
      (Some tinyGenerated) true (Some (Builder.tiles tinyData)) = Some archive /\
    In (Alert "Failed to load tile set: Invalid image_data.js format.")
       (handleZipFile tinyEngine (inr archive)).
Proof.
  assert (Hdone : In (Builder.Posted (Builder.MsgDone tinyData))
                     (Builder.onmessage Run.roomyHost (Some tinyImage))).
  { vm_compute. left. reflexivity. }
  destruct (empty_pyramid_export_is_refused Run.roomyHost exampleURL tinyEngine
              tinyStringify examplePng "<html>" tinyImage tinyData
              "{"%char
              (Manifest.quote ++ "originalDimensions" ++ Manifest.quote ++ ":{" ++
               Manifest.quote ++ "width" ++ Manifest.quote ++ ":64," ++
               Manifest.quote ++ "height" ++ Manifest.quote ++ ":64}," ++
               Manifest.quote ++ "numLevels" ++ Manifest.quote ++ ":0}"))
    as (_ & _ & archive & Harchive & Hlog).
  - vm_compute. discriminate.
  - vm_compute. discriminate.
  - vm_compute. split; [reflexivity | discriminate].
  - exact Hdone.
  - reflexivity.
  - reflexivity.
  - reflexivity.
  - exists archive. split; [exact Harchive|]. rewrite Hlog.
    do 4 right. left. reflexivity.
Defined.

End ExportEdges.

Section StandaloneExport.
Import Loader.
Local Open Scope string_scope.
Local Open Scope list_scope.

Lemma findFile_skip path (l r : list ZipEntry) :
  (forall e, In e l -> String.eqb (name e) path = false) ->
  findFile path (l ++ r) = findFile path r.
Proof.
  induction l as [|e l IH]; intros H; [reflexivity|].
  cbn [app findFile]. rewrite (H e (or_introl eq_refl)). cbn [andb].
  apply IH. intros e' He'. apply H. right. exact He'.
Qed.

Lemma tileEntries_names png blobs e :
  In e (Page.tileEntries png blobs) -> exists s, name e = ("tiles/" ++ s)%string.
Proof.
  unfold Page.tileEntries. intros [<- | Hin]; [exists ""; reflexivity|].
  apply in_flat_map in Hin. destruct Hin as (level & _ & [<- | Hin]).
  - eexists. reflexivity.
  - apply in_flat_map in Hin. destruct Hin as (key & _ & Hin).
    destruct (Page.assignedKey key (Page.levelOf blobs level)); [|destruct Hin].
    destruct Hin as [<- | []]. eexists. reflexivity.
Qed.

Lemma standaloneTileSrc_name level y x :
  Page.standaloneTileSrc level y x =
  ("tiles/" ++ string_of_Z level ++ "/" ++ Page.tileKey (y, x) ++ ".png")%string.
Proof.
  unfold Page.standaloneTileSrc, Page.tileKey. cbn [fst snd].
  rewrite !append_assoc. reflexivity.
Qed.

(** X25. The exported viewer finds what it asks for: the archive of an
    export of this session holds [index.html] and [image_data.js], and
    for every tile of the pyramid a file with the bytes of that tile
    under the very path [tiles/<level>/<y>_<x>.png] that the drawing
    effect of the exported page sets as the source of the tile. *)
Theorem export_serves_standalone (host : Builder.Host) (url : Canvas -> string)
  (stringify : JSON -> string) (png : Canvas -> string) (html : string)
  (image : Canvas) (pyramid : Builder.PyramidData) :
  In (Builder.Posted (Builder.MsgDone pyramid))
     (Builder.onmessage host (Some image)) ->
  exists archive,
    Page.handleExport stringify png html
      (Some (Page.finalDataOf url pyramid)) true
      (Some (Builder.tiles pyramid)) = Some archive /\
    findFile "index.html" archive = Some (mkEntry "index.html" false html) /\
    findFile "image_data.js" archive =
      Some (mkEntry "image_data.js" false
              ("window.imageData = " ++
               stringify (Page.manifestOf (Page.finalDataOf url pyramid)) ++
               ";")%string) /\
    forall level y x,
      (0 <= level < Run.levelsOf image)%Z ->
      (0 <= y < Expected.gridRows (canvasOfLevel host image level))%Z ->
      (0 <= x < Expected.gridCols (canvasOfLevel host image level))%Z ->
      In (mkEntry (Page.standaloneTileSrc level y x) false
            (png (Expected.tileOf (canvasOfLevel host image level) y x)))
         archive.
Proof.
  intros Hdone.
  destruct (onmessage_done host (Some image) pyramid Hdone)
    as (image' & [= <-] & -> & _).
  eexists. split; [apply export_archive|]. split; [|split].
  - cbn [findFile name dir String.eqb Ascii.eqb Bool.eqb andb].
    rewrite findFile_skip; [reflexivity|].
    intros e He. destruct (tileEntries_names _ _ _ He) as (s & ->). reflexivity.
  - reflexivity.
  - intros level y x Hl Hy Hx. right. apply in_or_app. left.
    unfold Page.tileEntries. right. apply in_flat_map. exists level. split.
    + unfold Run.expectedData. cbn [Builder.tiles].
      rewrite indexKeys_expectedTiles. apply in_map_iff.
      exists (Z.to_nat level). split; [lia | apply in_seq; lia].
    + right. apply in_flat_map. exists (y, x).
      rewrite levelOf_expectedTiles by exact Hl.
      assert (Hin : In ((y, x), Expected.tileOf (canvasOfLevel host image level) y x)
                       (Expected.levelTiles (canvasOfLevel host image level))).
      { apply levelTiles_In. exists y, x. auto. }
      split.
      * rewrite stringKeys_NoDup by apply NoDup_levelTiles.
        apply in_map_iff. eexists. split; [|exact Hin]. reflexivity.
      * pose proof (level_lookup _ _ Hin) as Hlk. cbn [fst snd] in Hlk.
        rewrite Hlk, standaloneTileSrc_name. left. reflexivity.
Qed.

Lemma export_serves_standalone_witness :
  exists archive,
    Page.handleExport exampleStringify examplePng "<html>"
      (Some smallGenerated) true (Some (Builder.tiles smallData)) =
      Some archive /\
    In (mkEntry "tiles/1/0_1.png" false "PNG") archive.
Proof.
  assert (Hdone : In (Builder.Posted (Builder.MsgDone smallData))
                     (Builder.onmessage Run.roomyHost (Some smallImage))).
  { vm_compute. do 5 right. left. reflexivity. }
  destruct (export_serves_standalone Run.roomyHost exampleURL exampleStringify
              examplePng "<html>" smallImage smallData Hdone)
    as (archive & Harchive & _ & _ & Htile).
  exists archive. split; [exact Harchive|].
  apply (Htile 1%Z 0%Z 1%Z); vm_compute; split; try discriminate; reflexivity.
Defined.

End StandaloneExport.

(** ** The archive of the script *)

Section ScriptArchive.
Import Loader.
Local Open Scope string_scope.
Local Open Scope list_scope.





End ScriptArchive.

Lemma reset_forgets_history_witness :
  Explorer.initialize zoomScenarioData (View.handleZoomOutFully zoomScenarioState) =
  Explorer.initialize zoomScenarioData (mountState (mkDims 600 450)).
Proof.
  destruct (reset_forgets_history zoomScenarioData zoomScenarioState 1000 600)
    as (H & _).
  apply H. vm_compute. discriminate.
Defined.

(** ** The resolution readout *)

Lemma round_integer (w : Z) : View.round (inject_Z w) = w.
Proof.
  unfold View.round.
  rewrite (Qfloor_comp _ ((1 # 2) + inject_Z w)) by ring.
  rewrite floor_shift. reflexivity.
Qed.

Lemma round_below (q : Q) (w : Z) : q <= inject_Z w -> (View.round q <= w)%Z.
Proof. intros H. unfold View.round. apply floor_at_most. lra. Qed.

Lemma readout_axis (W s v : Q) (w : Z) :
  W == inject_Z w -> 0 < s ->
  (W / s <= v -> View.round (Qmin (W / s) v * s) = w) /\
  (v <= W / s ->
     View.round (Qmin (W / s) v * s) = View.round (v * s) /\
     (View.round (v * s) <= w)%Z).
Proof.
  intros HW Hs.
  assert (Hback : W / s * s == inject_Z w) by (rewrite <- HW; field; lra).
  split.
  - intros Hfit. rewrite <- (round_integer w). unfold View.round.
    apply Qfloor_comp. rewrite (Q.min_l _ _ Hfit), Hback. reflexivity.
  - intros Hover. split.
    + unfold View.round. apply Qfloor_comp.
      rewrite (Q.min_r _ _ Hover). reflexivity.
    + apply round_below. rewrite <- Hback.
      apply Qmult_le_compat_r; [exact Hover | lra].
Qed.

(** X27. The resolution readout never exceeds the source: for an image
    of [w] by [h] pixels it shows [w] (or [h]) exactly on an axis on
    which the world of the current level fits in the frame, and otherwise
    the frame scaled to source pixels and rounded, which is at most [w]
    (or [h]). *)
Theorem resolution_readout (data : ImageData) (st : ViewportState) (w h : Z) :
  originalDimensions data = mkDims (inject_Z w) (inject_Z h) ->
  (View.worldWidth data st <= width (viewportSize st) ->
     View.displayedResolutionWidth data st = w) /\
  (width (viewportSize st) <= View.worldWidth data st ->
     View.displayedResolutionWidth data st =
       View.round (width (viewportSize st) * View.scale data st) /\
     (View.displayedResolutionWidth data st <= w)%Z) /\
  (View.worldHeight data st <= height (viewportSize st) ->
     View.displayedResolutionHeight data st = h) /\
  (height (viewportSize st) <= View.worldHeight data st ->
     View.displayedResolutionHeight data st =
       View.round (height (viewportSize st) * View.scale data st) /\
     (View.displayedResolutionHeight data st <= h)%Z).
Proof.
  intros Hdims.
  unfold View.displayedResolutionWidth, View.displayedResolutionHeight,
    View.worldWidth, View.worldHeight. cbv zeta. rewrite Hdims.
  cbn [width height].
  assert (Hs : 0 < View.scale data st) by apply pow2_pos.
  destruct (readout_axis (inject_Z w) (View.scale data st)
              (width (viewportSize st)) w (Qeq_refl _) Hs) as [Hw1 Hw2].
  destruct (readout_axis (inject_Z h) (View.scale data st)
              (height (viewportSize st)) h (Qeq_refl _) Hs) as [Hh1 Hh2].
  split; [exact Hw1|]. split.
  { intros H. destruct (Hw2 H) as [E L]. split; [exact E | rewrite E; exact L]. }
  split; [exact Hh1|].
  intros H. destruct (Hh2 H) as [E L]. split; [exact E | rewrite E; exact L].
Qed.

Lemma resolution_readout_witness :
  View.displayedResolutionWidth zoomScenarioData zoomScenarioState = 2400%Z.
Proof.
  destruct (resolution_readout zoomScenarioData zoomScenarioState 4000 3000
              eq_refl) as (_ & H & _).
  destruct H as [E _].
  - vm_compute. discriminate.
  - rewrite E. reflexivity.
Defined.

(** ** The handlers in binary64 *)

Lemma Qabs_cases (x : Q) :
  (0 <= x /\ Qabs x == x) \/ (x <= 0 /\ Qabs x == - x).
Proof.
  destruct (Qlt_le_dec x 0) as [H | H].
  - right. split; [lra|]. apply Qabs_neg. lra.
  - left. split; [exact H|]. apply Qabs_pos. exact H.
Qed.

Section FloatCore.
Import Float.

Lemma pow2_S (e : Z) : pow2 (e + 1) == 2 * pow2 e.
Proof. rewrite pow2_add. change (pow2 1) with 2. ring. Qed.

Lemma pow2_pred (e : Z) : pow2 (e - 1) == pow2 e / 2.
Proof.
  replace e with ((e - 1) + 1)%Z at 2 by lia. rewrite pow2_S. field.
Qed.

Lemma pow2_sub (a b : Z) : pow2 (a - b) == pow2 a / pow2 b.
Proof.
  replace a with ((a - b) + b)%Z at 2 by lia. rewrite pow2_add.
  field. apply pow2_nonzero.
Qed.

Lemma log2_bounds (n : Z) :
  (0 < n)%Z ->
  pow2 (Z.log2 n) <= inject_Z n /\ inject_Z n < pow2 (Z.log2 n + 1).
Proof.
  intros Hn. destruct (Z.log2_spec n Hn) as [Hlo Hhi].
  pose proof (Z.log2_nonneg n) as Hnn.
  rewrite <- !pow2_inject by lia. split.
  - rewrite <- Zle_Qle. exact Hlo.
  - rewrite <- Zlt_Qlt. replace (Z.log2 n + 1)%Z with (Z.succ (Z.log2 n)) by lia.
    exact Hhi.
Qed.

Lemma ilog2_spec (x : Q) :
  0 < x -> pow2 (ilog2 x) <= x /\ x < pow2 (ilog2 x + 1).
Proof.
  intros Hx. unfold ilog2. cbv zeta.
  destruct x as [n d]. cbn [Qnum Qden].
  assert (Hn : (0 < n)%Z).
  { unfold Qlt in Hx. cbn in Hx. lia. }
  destruct (log2_bounds n Hn) as [Hnlo Hnhi].
  destruct (log2_bounds (Zpos d) eq_refl) as [Hdlo Hdhi].
  set (a := Z.log2 n) in *. set (b := Z.log2 (Zpos d)) in *.
  assert (Hxq : n # d == inject_Z n / inject_Z (Zpos d)) by apply Qmake_Qdiv.
  assert (Hdpos : 0 < inject_Z (Zpos d)) by reflexivity.
  pose proof (pow2_pos a) as Ha. pose proof (pow2_pos b) as Hb.
  pose proof (pow2_pos (a - b)) as Hab.
  pose proof (pow2_S a) as HaS. pose proof (pow2_S b) as HbS.
  pose proof (pow2_sub a b) as Hsub.
  assert (Hmul : pow2 (a - b) * pow2 b == pow2 a).
  { rewrite Hsub. field. apply pow2_nonzero. }
  assert (Hx' : (n # d) * inject_Z (Zpos d) == inject_Z n).
  { rewrite Hxq. field. intros H. rewrite H in Hdpos. discriminate. }
  destruct (Qlt_le_dec (n # d) (pow2 (a - b))) as [Hlt | Hge].
  - split.
    + rewrite pow2_pred.
      apply Qnot_lt_le. intros Hcontra.
      assert (H1 : 0 < (n # d) * (pow2 (b + 1) - inject_Z (Zpos d)))
        by (apply Qmult_lt_0_compat; lra).
      assert (H2 : 0 < (pow2 (a - b) - 2 * (n # d)) * pow2 b)
        by (apply Qmult_lt_0_compat; qlra).
      rewrite HbS in H1. lra.
    + replace (a - b - 1 + 1)%Z with (a - b)%Z by lia. exact Hlt.
  - split; [exact Hge|].
    rewrite pow2_S.
    apply Qnot_le_lt. intros Hcontra.
    assert (H1 : 0 <= (n # d) * (inject_Z (Zpos d) - pow2 b))
      by (apply Qmult_le_0_compat; lra).
    assert (H2 : 0 <= ((n # d) - 2 * pow2 (a - b)) * pow2 b)
      by (apply Qmult_le_0_compat; lra).
    lra.
Qed.

Lemma ilog2_unique (x : Q) (e : Z) :
  pow2 e <= x -> x < pow2 (e + 1) -> ilog2 x = e.
Proof.
  intros Hlo Hhi.
  assert (Hx : 0 < x) by (pose proof (pow2_pos e); lra).
  destruct (ilog2_spec x Hx) as [Hlo' Hhi'].
  assert (H1 : (ilog2 x < e + 1)%Z) by (apply pow2_lt_inv; lra).
  assert (H2 : (e < ilog2 x + 1)%Z) by (apply pow2_lt_inv; lra).
  lia.
Qed.

(** *** Rounding to the nearest integer *)

Lemma nearestEven_spec (q : Q) : isNearestEven q (nearestEven q).
Proof.
  unfold isNearestEven, nearestEven. cbv zeta.
  destruct (floor_bounds q) as [Hlo Hhi].
  destruct (Qcompare (q - inject_Z (Qfloor q)) (1 # 2)) eqn:Hc;
    [apply Qeq_alt in Hc | apply Qlt_alt in Hc | apply Qgt_alt in Hc].
  - right. destruct (Z.even (Qfloor q)) eqn:Ev.
    + split; [|exact Ev]. qabs; lra.
    + split.
      * rewrite inject_Z_plus. change (inject_Z 1) with 1. qabs; lra.
      * rewrite Z.even_add, Ev. reflexivity.
  - left. qabs; lra.
  - left. rewrite inject_Z_plus. change (inject_Z 1) with 1. qabs; lra.
Qed.

Lemma isNearestEven_unique (q : Q) (n m : Z) :
  isNearestEven q n -> isNearestEven q m -> n = m.
Proof.
  unfold isNearestEven. intros Hn Hm.
  assert (Hnear : forall k, Qabs (inject_Z k - q) <= 1 # 2 ->
            inject_Z k - q <= 1 # 2 /\ - (1 # 2) <= inject_Z k - q).
  { intros k Hk. apply Qabs_Qle_condition in Hk. lra. }
  assert (Hstrict : forall k, Qabs (inject_Z k - q) < 1 # 2 ->
            inject_Z k - q < 1 # 2 /\ - (1 # 2) < inject_Z k - q).
  { intros k Hk. apply Qabs_Qlt_condition in Hk. lra. }
  assert (Hclose : forall a b : Z, inject_Z a - inject_Z b < 1 -> (a <= b)%Z).
  { intros a b H. assert (H' : inject_Z a < inject_Z (b + 1)).
    { rewrite inject_Z_plus. change (inject_Z 1) with 1. lra. }
    rewrite <- Zlt_Qlt in H'. lia. }
  assert (Hone : forall a b : Z, inject_Z a - inject_Z b <= 1 -> (a <= b + 1)%Z).
  { intros a b H. assert (H' : inject_Z a <= inject_Z (b + 1)).
    { rewrite inject_Z_plus. change (inject_Z 1) with 1. lra. }
    rewrite <- Zle_Qle in H'. lia. }
  destruct Hn as [Hn | [Hn En]]; destruct Hm as [Hm | [Hm Em]].
  - destruct (Hstrict _ Hn), (Hstrict _ Hm).
    assert (n <= m)%Z by (apply Hclose; lra).
    assert (m <= n)%Z by (apply Hclose; lra). lia.
  - destruct (Hstrict _ Hn). destruct (Hnear m) as [? ?]; [lra|].
    assert (n <= m)%Z by (apply Hclose; lra).
    assert (m <= n)%Z by (apply Hclose; lra). lia.
  - destruct (Hstrict _ Hm). destruct (Hnear n) as [? ?]; [lra|].
    assert (n <= m)%Z by (apply Hclose; lra).
    assert (m <= n)%Z by (apply Hclose; lra). lia.
  - destruct (Hnear n) as [? ?]; [lra|]. destruct (Hnear m) as [? ?]; [lra|].
    assert (n <= m + 1)%Z by (apply Hone; lra).
    assert (m <= n + 1)%Z by (apply Hone; lra).
    destruct (Z.eq_dec n m) as [E | NE]; [exact E|].
    assert (Hc : n = (m + 1)%Z \/ m = (n + 1)%Z) by lia.
    destruct Hc as [-> | ->].
    + rewrite Z.even_add, Em in En. discriminate En.
    + rewrite Z.even_add, En in Em. discriminate Em.
Qed.

Lemma nearestEven_unique (q : Q) (n : Z) :
  isNearestEven q n -> nearestEven q = n.
Proof.
  intros H. apply (isNearestEven_unique q); [apply nearestEven_spec | exact H].
Qed.

Lemma nearestEven_comp (q q' : Q) : q == q' -> nearestEven q = nearestEven q'.
Proof.
  intros H. apply nearestEven_unique.
  pose proof (nearestEven_spec q') as Hs. unfold isNearestEven in *.
  rewrite H. exact Hs.
Qed.

Lemma nearestEven_int (n : Z) : nearestEven (inject_Z n) = n.
Proof.
  apply nearestEven_unique. left.
  setoid_replace (inject_Z n - inject_Z n) with 0 by ring. reflexivity.
Qed.

Lemma nearestEven_err (q : Q) : Qabs (inject_Z (nearestEven q) - q) <= 1 # 2.
Proof.
  destruct (nearestEven_spec q) as [H | [H _]]; [lra | rewrite H; lra].
Qed.

Lemma nearestEven_opp (q : Q) : nearestEven (- q) = (- nearestEven q)%Z.
Proof.
  apply nearestEven_unique.
  pose proof (nearestEven_spec q) as Hs. unfold isNearestEven in *.
  assert (He : inject_Z (- nearestEven q) - - q ==
               - (inject_Z (nearestEven q) - q)).
  { rewrite inject_Z_opp. ring. }
  rewrite He, Qabs_opp, Z.even_opp. exact Hs.
Qed.

Lemma nearestEven_mono (q q' : Q) :
  q <= q' -> (nearestEven q <= nearestEven q')%Z.
Proof.
  intros Hle.
  pose proof (nearestEven_spec q) as Hn. pose proof (nearestEven_spec q') as Hm.
  set (n := nearestEven q) in *. set (m := nearestEven q') in *.
  destruct (Z_le_gt_dec n m) as [H | H]; [exact H | exfalso].
  assert (Hgap : inject_Z m + 1 <= inject_Z n).
  { assert (H' : inject_Z (m + 1) <= inject_Z n) by (rewrite <- Zle_Qle; lia).
    rewrite inject_Z_plus in H'. exact H'. }
  unfold isNearestEven in *.
  assert (Hq : Qabs (inject_Z n - q) <= 1 # 2)
    by (destruct Hn as [Hn | [Hn _]]; [lra | rewrite Hn; lra]).
  assert (Hq' : Qabs (inject_Z m - q') <= 1 # 2)
    by (destruct Hm as [Hm | [Hm _]]; [lra | rewrite Hm; lra]).
  apply Qabs_Qle_condition in Hq, Hq'.
  assert (En : inject_Z n - q == 1 # 2) by lra.
  assert (Em : inject_Z m - q' == - (1 # 2)) by lra.
  assert (Enm : inject_Z n == inject_Z m + 1) by lra.
  assert (Hnm : n = (m + 1)%Z).
  { apply inject_Z_injective. rewrite inject_Z_plus. exact Enm. }
  destruct Hn as [Hn | [_ Evn]].
  { rewrite En in Hn. discriminate Hn. }
  destruct Hm as [Hm | [_ Evm]].
  { rewrite Em in Hm. discriminate Hm. }
  rewrite Hnm, Z.even_add, Evm in Evn. discriminate Evn.
Qed.

(** *** Rounding to the nearest double *)

Lemma ilog2_comp (x y : Q) : 0 < x -> x == y -> ilog2 x = ilog2 y.
Proof.
  intros Hx Hxy. assert (Hy : 0 < y) by (rewrite <- Hxy; exact Hx).
  destruct (ilog2_spec y Hy) as [Hlo Hhi].
  apply ilog2_unique; rewrite Hxy; assumption.
Qed.

Lemma ilog2_mono (x y : Q) : 0 < x -> x <= y -> (ilog2 x <= ilog2 y)%Z.
Proof.
  intros Hx Hxy. assert (Hy : 0 < y) by lra.
  destruct (ilog2_spec x Hx) as [Hlo _]. destruct (ilog2_spec y Hy) as [_ Hhi].
  assert (H : (ilog2 x < ilog2 y + 1)%Z) by (apply pow2_lt_inv; lra). lia.
Qed.

Lemma ilog2_scale (x : Q) (k : Z) : 0 < x -> ilog2 (x * pow2 k) = (ilog2 x + k)%Z.
Proof.
  intros Hx. destruct (ilog2_spec x Hx) as [Hlo Hhi].
  pose proof (pow2_pos k) as Hk.
  apply ilog2_unique.
  - rewrite pow2_add. apply Qmult_le_compat_r; lra.
  - replace (ilog2 x + k + 1)%Z with ((ilog2 x + 1) + k)%Z by lia.
    rewrite pow2_add. apply Qmult_lt_r; assumption.
Qed.

Lemma ulp_pos (x : Q) : 0 < ulp x.
Proof. apply pow2_pos. Qed.

Lemma ulp_of_pos (x : Q) : 0 < x -> ulp x = pow2 (ilog2 x - 52).
Proof.
  intros Hx. unfold ulp. f_equal. f_equal. symmetry.
  apply ilog2_comp; [exact Hx|]. symmetry. apply Qabs_pos. lra.
Qed.

Lemma ulp_opp (x : Q) : ulp (- x) = ulp x.
Proof.
  unfold ulp. destruct x as [n d]. unfold Qopp, Qabs. cbn [Qnum Qden].
  rewrite Z.abs_opp. reflexivity.
Qed.

Lemma significand_bounds (x : Q) :
  0 < x ->
  pow2 52 <= x / pow2 (ilog2 x - 52) /\ x / pow2 (ilog2 x - 52) < pow2 53.
Proof.
  intros Hx. destruct (ilog2_spec x Hx) as [Hlo Hhi].
  pose proof (pow2_pos (ilog2 x - 52)) as Hp.
  assert (H52 : pow2 (ilog2 x) == pow2 52 * pow2 (ilog2 x - 52)).
  { rewrite <- pow2_add. replace (52 + (ilog2 x - 52))%Z with (ilog2 x) by lia.
    reflexivity. }
  assert (H53 : pow2 (ilog2 x + 1) == pow2 53 * pow2 (ilog2 x - 52)).
  { rewrite <- pow2_add. replace (53 + (ilog2 x - 52))%Z with (ilog2 x + 1)%Z by lia.
    reflexivity. }
  split.
  - apply Qle_shift_div_l; [exact Hp|]. rewrite <- H52. exact Hlo.
  - apply Qlt_shift_div_r; [exact Hp|]. rewrite <- H53. exact Hhi.
Qed.

Lemma binary64_zero (x : Q) : x == 0 -> binary64 x = 0.
Proof.
  intros H. unfold binary64. apply Qeq_bool_iff in H. rewrite H. reflexivity.
Qed.

Lemma binary64_nonzero (x : Q) :
  ~ x == 0 -> binary64 x = inject_Z (nearestEven (x / ulp x)) * ulp x.
Proof.
  intros H. unfold binary64.
  destruct (Qeq_bool x 0) eqn:E; [|reflexivity].
  apply Qeq_bool_iff in E. contradiction.
Qed.

Lemma binary64_of_pos (x : Q) :
  0 < x ->
  binary64 x =
  inject_Z (nearestEven (x / pow2 (ilog2 x - 52))) * pow2 (ilog2 x - 52).
Proof.
  intros Hx. rewrite binary64_nonzero by lra.
  rewrite (ulp_of_pos x Hx). reflexivity.
Qed.

Lemma binary64_opp (x : Q) : binary64 (- x) == - binary64 x.
Proof.
  destruct (Qeq_dec x 0) as [E | NE].
  - rewrite (binary64_zero x E), (binary64_zero (- x)); [reflexivity|].
    rewrite E. reflexivity.
  - rewrite (binary64_nonzero x NE), (binary64_nonzero (- x)) by lra.
    rewrite ulp_opp.
    rewrite (nearestEven_comp (- x / ulp x) (- (x / ulp x))).
    + rewrite nearestEven_opp, inject_Z_opp. ring.
    + field. apply pow2_nonzero.
Qed.

Lemma binary64_comp (x y : Q) : x == y -> binary64 x == binary64 y.
Proof.
  intros Hxy.
  assert (Hpos : forall a b, 0 < a -> a == b -> binary64 a == binary64 b).
  { intros a b Ha Hab. assert (Hb : 0 < b) by (rewrite <- Hab; exact Ha).
    rewrite (binary64_of_pos a Ha), (binary64_of_pos b Hb).
    rewrite (ilog2_comp a b Ha Hab).
    rewrite (nearestEven_comp (a / pow2 (ilog2 b - 52)) (b / pow2 (ilog2 b - 52))).
    - reflexivity.
    - rewrite Hab. reflexivity. }
  destruct (Qlt_le_dec 0 x) as [Hx | Hx].
  - apply Hpos; assumption.
  - destruct (Qeq_dec x 0) as [E | NE].
    + rewrite (binary64_zero x E), (binary64_zero y); [reflexivity|].
      rewrite <- Hxy. exact E.
    + assert (H : binary64 (- x) == binary64 (- y)).
      { apply Hpos; [lra | rewrite Hxy; reflexivity]. }
      rewrite !binary64_opp in H. lra.
Qed.

#[global] Instance binary64_proper : Proper (Qeq ==> Qeq) binary64.
Proof. intros x y H. apply binary64_comp. exact H. Qed.

Lemma pow2_52 : pow2 52 == inject_Z (2 ^ 52).
Proof. rewrite pow2_inject by lia. reflexivity. Qed.

Lemma pow2_53 : pow2 53 == inject_Z (2 ^ 53).
Proof. rewrite pow2_inject by lia. reflexivity. Qed.

(** A positive number is rounded within its binade. *)
Lemma binary64_binade (x : Q) :
  0 < x ->
  pow2 (ilog2 x) <= binary64 x /\ binary64 x <= pow2 (ilog2 x + 1).
Proof.
  intros Hx. rewrite (binary64_of_pos x Hx).
  destruct (significand_bounds x Hx) as [Hlo Hhi].
  pose proof (pow2_pos (ilog2 x - 52)) as Hp.
  set (q := x / pow2 (ilog2 x - 52)) in *.
  assert (H52 : pow2 (ilog2 x) == pow2 52 * pow2 (ilog2 x - 52)).
  { rewrite <- pow2_add. replace (52 + (ilog2 x - 52))%Z with (ilog2 x) by lia.
    reflexivity. }
  assert (H53 : pow2 (ilog2 x + 1) == pow2 53 * pow2 (ilog2 x - 52)).
  { rewrite <- pow2_add. replace (53 + (ilog2 x - 52))%Z with (ilog2 x + 1)%Z by lia.
    reflexivity. }
  rewrite H52, H53. split; apply Qmult_le_compat_r; try lra.
  - rewrite pow2_52, <- Zle_Qle.
    rewrite <- (nearestEven_int (2 ^ 52)). apply nearestEven_mono.
    rewrite <- pow2_52. exact Hlo.
  - rewrite pow2_53, <- Zle_Qle.
    rewrite <- (nearestEven_int (2 ^ 53)). apply nearestEven_mono.
    rewrite <- pow2_53. lra.
Qed.

Lemma binary64_pos (x : Q) : 0 < x -> 0 < binary64 x.
Proof.
  intros Hx. destruct (binary64_binade x Hx) as [H _].
  pose proof (pow2_pos (ilog2 x)). lra.
Qed.

Lemma binary64_mono_pos (x y : Q) :
  0 < x -> x <= y -> binary64 x <= binary64 y.
Proof.
  intros Hx Hxy. assert (Hy : 0 < y) by lra.
  pose proof (ilog2_mono x y Hx Hxy) as He.
  destruct (Z.eq_dec (ilog2 x) (ilog2 y)) as [E | NE].
  - rewrite (binary64_of_pos x Hx), (binary64_of_pos y Hy), E.
    pose proof (pow2_pos (ilog2 y - 52)) as Hp.
    apply Qmult_le_compat_r; [|lra].
    rewrite <- Zle_Qle. apply nearestEven_mono.
    apply Qmult_le_compat_r; [exact Hxy|].
    apply Qlt_le_weak, Qinv_lt_0_compat. exact Hp.
  - destruct (binary64_binade x Hx) as [_ Hhi].
    destruct (binary64_binade y Hy) as [Hlo _].
    assert (pow2 (ilog2 x + 1) <= pow2 (ilog2 y)) by (apply pow2_le; lia).
    lra.
Qed.

(** Rounding is monotone. *)
Lemma binary64_mono (x y : Q) : x <= y -> binary64 x <= binary64 y.
Proof.
  intros Hxy.
  destruct (Qlt_le_dec 0 x) as [Hx | Hx].
  - apply binary64_mono_pos; assumption.
  - destruct (Qlt_le_dec 0 y) as [Hy | Hy].
    + pose proof (binary64_pos y Hy).
      destruct (Qeq_dec x 0) as [E | NE].
      * rewrite (binary64_zero x E). lra.
      * assert (H' : 0 < binary64 (- x)) by (apply binary64_pos; lra).
        rewrite binary64_opp in H'. lra.
    + destruct (Qeq_dec y 0) as [E | NE].
      * rewrite (binary64_zero y E).
        destruct (Qeq_dec x 0) as [E' | NE'].
        { rewrite (binary64_zero x E'). lra. }
        assert (H' : 0 < binary64 (- x)) by (apply binary64_pos; lra).
        rewrite binary64_opp in H'. lra.
      * assert (H' : binary64 (- y) <= binary64 (- x))
          by (apply binary64_mono_pos; lra).
        rewrite !binary64_opp in H'. lra.
Qed.

(** The error of a rounding is at most half the distance of the doubles. *)
Lemma binary64_half_ulp (x : Q) : Qabs (binary64 x - x) <= (1 # 2) * ulp x.
Proof.
  pose proof (ulp_pos x) as Hp.
  destruct (Qeq_dec x 0) as [E | NE].
  - rewrite (binary64_zero x E).
    setoid_replace (0 - x) with 0 by (rewrite E; ring).
    change (Qabs 0) with 0. lra.
  - rewrite (binary64_nonzero x NE).
    pose proof (nearestEven_err (x / ulp x)) as Herr.
    set (n := inject_Z (nearestEven (x / ulp x))) in *.
    assert (He : n * ulp x - x == (n - x / ulp x) * ulp x).
    { field. apply pow2_nonzero. }
    rewrite He, Qabs_Qmult, (Qabs_pos (ulp x)) by lra.
    apply Qmult_le_compat_r; lra.
Qed.

Lemma ulp_le (x : Q) : ~ x == 0 -> ulp x <= pow2 (-52) * Qabs x.
Proof.
  intros NE. unfold ulp.
  assert (Hx : 0 < Qabs x).
  { destruct (Qabs_cases x) as [[? Ha] | [? Ha]]; rewrite Ha;
      destruct (Qeq_dec x 0); try contradiction; lra. }
  destruct (ilog2_spec (Qabs x) Hx) as [Hlo _].
  replace (ilog2 (Qabs x) - 52)%Z with (-52 + ilog2 (Qabs x))%Z by lia.
  rewrite pow2_add. apply Qmult_le_l; [apply pow2_pos | exact Hlo].
Qed.

(** The relative error of a rounding is at most the unit roundoff. *)
Lemma binary64_rel (x : Q) : Qabs (binary64 x - x) <= u * Qabs x.
Proof.
  destruct (Qeq_dec x 0) as [E | NE].
  - rewrite (binary64_zero x E), E.
    setoid_replace (0 - 0) with 0 by ring. change (Qabs 0) with 0. lra.
  - pose proof (binary64_half_ulp x) as H1. pose proof (ulp_le x NE) as H2.
    assert (Hu : u == (1 # 2) * pow2 (-52)) by reflexivity.
    rewrite Hu. lra.
Qed.

(** *** The doubles *)

(** Scaling by a power of two commutes with rounding. *)
Lemma binary64_scale (x : Q) (k : Z) :
  binary64 (x * pow2 k) == binary64 x * pow2 k.
Proof.
  assert (Hpos : forall a, 0 < a -> binary64 (a * pow2 k) == binary64 a * pow2 k).
  { intros a Ha. pose proof (pow2_pos k) as Hk.
    assert (Hak : 0 < a * pow2 k) by (apply Qmult_lt_0_compat; assumption).
    rewrite (binary64_of_pos a Ha), (binary64_of_pos _ Hak).
    rewrite (ilog2_scale a k Ha).
    replace (ilog2 a + k - 52)%Z with ((ilog2 a - 52) + k)%Z by lia.
    rewrite (nearestEven_comp (a * pow2 k / pow2 (ilog2 a - 52 + k))
               (a / pow2 (ilog2 a - 52))).
    - rewrite pow2_add. ring.
    - rewrite pow2_add. field. split; apply pow2_nonzero. }
  destruct (Qlt_le_dec 0 x) as [Hx | Hx]; [apply Hpos; exact Hx|].
  destruct (Qeq_dec x 0) as [E | NE].
  - rewrite (binary64_zero x E), (binary64_zero (x * pow2 k)); [ring|].
    rewrite E. ring.
  - assert (H : binary64 (- x * pow2 k) == binary64 (- x) * pow2 k)
      by (apply Hpos; lra).
    assert (He : - x * pow2 k == - (x * pow2 k)) by ring.
    rewrite He, !binary64_opp in H. lra.
Qed.

Lemma binary64_1 : binary64 1 == 1.
Proof. vm_compute. reflexivity. Qed.

(** The powers of two are doubles. *)
Lemma binary64_pow2 (k : Z) : binary64 (pow2 k) == pow2 k.
Proof.
  assert (H : pow2 k == 1 * pow2 k) by ring.
  rewrite H at 1. rewrite binary64_scale, binary64_1. ring.
Qed.

Lemma ilog2_inject (n : Z) : (0 < n)%Z -> ilog2 (inject_Z n) = Z.log2 n.
Proof.
  intros Hn. destruct (log2_bounds n Hn) as [Hlo Hhi].
  apply ilog2_unique; assumption.
Qed.

(** The integers of at most 53 bits are doubles. *)
Lemma binary64_integer (n : Z) :
  (Z.abs n <= 2 ^ 53)%Z -> binary64 (inject_Z n) == inject_Z n.
Proof.
  assert (Hpos : forall m, (0 < m <= 2 ^ 53)%Z ->
                   binary64 (inject_Z m) == inject_Z m).
  { intros m [Hm Hle].
    destruct (Z.eq_dec m (2 ^ 53)) as [-> | NE].
    - rewrite <- pow2_53. apply binary64_pow2.
    - assert (Hlog : (Z.log2 m < 53)%Z) by (apply Z.log2_lt_pow2; lia).
      pose proof (Z.log2_nonneg m) as Hnn.
      assert (Hq : 0 < inject_Z m) by (rewrite <- (Zlt_Qlt 0); exact Hm).
      rewrite (binary64_of_pos _ Hq), (ilog2_inject m Hm).
      set (e := Z.log2 m) in *.
      assert (Hinv : pow2 (e - 52) == / inject_Z (2 ^ (52 - e))).
      { rewrite pow2_inject by lia. rewrite <- pow2_opp. 
        replace (- (52 - e))%Z with (e - 52)%Z by lia. reflexivity. }
      assert (Hnz : ~ inject_Z (2 ^ (52 - e)) == 0).
      { rewrite pow2_inject by lia. apply pow2_nonzero. }
      rewrite (nearestEven_comp (inject_Z m / pow2 (e - 52))
                 (inject_Z (m * 2 ^ (52 - e)))).
      + rewrite nearestEven_int, inject_Z_mult, Hinv. field. exact Hnz.
      + rewrite inject_Z_mult, Hinv. field. exact Hnz. }
  intros Hn. destruct (Z.lt_trichotomy n 0) as [Hneg | [-> | Hp]].
  - assert (H : binary64 (inject_Z (- n)) == inject_Z (- n))
      by (apply Hpos; lia).
    rewrite inject_Z_opp, binary64_opp in H. lra.
  - reflexivity.
  - apply Hpos. lia.
Qed.

(** A representable number is its own rounding. *)
Lemma binary64_fixed (x : Q) : representable x -> binary64 x == x.
Proof.
  intros (n & k & Hn & Hx).
  rewrite Hx, binary64_scale, (binary64_integer n Hn). reflexivity.
Qed.

(** Every rounding is representable. *)
Lemma binary64_representable (x : Q) : representable (binary64 x).
Proof.
  assert (Hpos : forall a, 0 < a -> representable (binary64 a)).
  { intros a Ha. exists (nearestEven (a / pow2 (ilog2 a - 52))), (ilog2 a - 52)%Z.
    split; [|rewrite (binary64_of_pos a Ha); reflexivity].
    destruct (significand_bounds a Ha) as [Hlo Hhi].
    assert (H1 : (2 ^ 52 <= nearestEven (a / pow2 (ilog2 a - 52)))%Z).
    { rewrite <- (nearestEven_int (2 ^ 52)). apply nearestEven_mono.
      rewrite <- pow2_52. exact Hlo. }
    assert (H2 : (nearestEven (a / pow2 (ilog2 a - 52)) <= 2 ^ 53)%Z).
    { rewrite <- (nearestEven_int (2 ^ 53)). apply nearestEven_mono.
      rewrite <- pow2_53. lra. }
    lia. }
  destruct (Qlt_le_dec 0 x) as [Hx | Hx]; [apply Hpos; exact Hx|].
  destruct (Qeq_dec x 0) as [E | NE].
  - exists 0%Z, 0%Z. split; [discriminate|].
    rewrite (binary64_zero x E). reflexivity.
  - destruct (Hpos (- x)) as (n & k & Hn & Hr); [lra|].
    exists (- n)%Z, k. split; [lia|].
    rewrite binary64_opp in Hr. rewrite inject_Z_opp. lra.
Qed.

(** Rounding a rounded number changes nothing. *)
Lemma binary64_idem (x : Q) : binary64 (binary64 x) == binary64 x.
Proof. apply binary64_fixed, binary64_representable. Qed.

(** *** Errors of one operation *)

Lemma u_bounds : 0 < u /\ u <= 1 # 1000.
Proof. split; vm_compute; [reflexivity | discriminate]. Qed.

Lemma binary64_nonneg (x : Q) : 0 <= x -> 0 <= binary64 x.
Proof.
  intros Hx. apply binary64_mono in Hx. rewrite (binary64_zero 0) in Hx;
    [exact Hx | reflexivity].
Qed.

Lemma binary64_nonpos (x : Q) : x <= 0 -> binary64 x <= 0.
Proof.
  intros Hx. apply binary64_mono in Hx. rewrite (binary64_zero 0) in Hx;
    [exact Hx | reflexivity].
Qed.

(** The error of a rounding is at most the unit roundoff times the
    magnitude of the result. *)
Lemma binary64_rel_result (x : Q) :
  Qabs (binary64 x - x) <= u * Qabs (binary64 x).
Proof.
  assert (Hpos : forall a, 0 < a -> Qabs (binary64 a - a) <= u * Qabs (binary64 a)).
  { intros a Ha. pose proof (binary64_half_ulp a) as Hh.
    rewrite (ulp_of_pos a Ha) in Hh.
    destruct (binary64_binade a Ha) as [Hlo _].
    pose proof (binary64_pos a Ha) as Hp.
    rewrite (Qabs_pos (binary64 a)) by lra.
    assert (He : (1 # 2) * pow2 (ilog2 a - 52) == u * pow2 (ilog2 a)).
    { unfold u. rewrite <- pow2_add.
      replace (-53 + ilog2 a)%Z with (-1 + (ilog2 a - 52))%Z by lia.
      rewrite pow2_add. reflexivity. }
    rewrite He in Hh. pose proof u_bounds as [Hu _].
    assert (u * pow2 (ilog2 a) <= u * binary64 a)
      by (apply Qmult_le_l; assumption).
    lra. }
  destruct (Qlt_le_dec 0 x) as [Hx | Hx]; [apply Hpos; exact Hx|].
  destruct (Qeq_dec x 0) as [E | NE].
  - rewrite (binary64_zero x E).
    setoid_replace (0 - x) with 0 by (rewrite E; ring).
    change (Qabs 0) with 0. lra.
  - assert (H : Qabs (binary64 (- x) - - x) <= u * Qabs (binary64 (- x)))
      by (apply Hpos; lra).
    rewrite binary64_opp in H.
    setoid_replace (- binary64 x - - x) with (- (binary64 x - x)) in H by ring.
    rewrite !Qabs_opp in H. exact H.
Qed.

(** A rounding as a factor close to 1. *)
Lemma binary64_delta (x : Q) :
  exists d, - u <= d /\ d <= u /\ binary64 x == x * (1 + d).
Proof.
  pose proof u_bounds as [Hu _].
  destruct (Qeq_dec x 0) as [E | NE].
  - exists 0. split; [lra|]. split; [lra|].
    rewrite (binary64_zero x E), E. ring.
  - exists ((binary64 x - x) / x).
    pose proof (binary64_rel x) as Hrel.
    assert (Hd : Qabs ((binary64 x - x) / x) <= u).
    { unfold Qdiv. rewrite Qabs_Qmult, Qabs_Qinv.
      assert (Hx : 0 < Qabs x).
      { destruct (Qabs_cases x) as [[? Ha] | [? Ha]]; rewrite Ha;
          destruct (Qeq_dec x 0); try contradiction; lra. }
      apply Qle_shift_div_r; [exact Hx | exact Hrel]. }
    apply Qabs_Qle_condition in Hd. split; [lra|]. split; [lra|].
    field. exact NE.
Qed.

End FloatCore.

Section FloatFrame.
Import Float.

Lemma mul_pos (a b : Q) : 0 < a -> 0 < b -> 0 < mul a b.
Proof.
  intros Ha Hb. apply binary64_pos. apply Qmult_lt_0_compat; assumption.
Qed.

Lemma div_pos (a b : Q) : 0 < a -> 0 < b -> 0 < div a b.
Proof.
  intros Ha Hb. apply binary64_pos. apply Qlt_shift_div_l; [exact Hb | lra].
Qed.

(** Two roundings in a product. *)
Lemma two_roundings (d1 d2 : Q) :
  - u <= d1 -> d1 <= u -> - u <= d2 -> d2 <= u ->
  - (2 * u + u * u) <= (1 + d1) * (1 + d2) - 1 /\
  (1 + d1) * (1 + d2) - 1 <= 2 * u + u * u.
Proof.
  pose proof u_bounds as [Hu Hu8]. generalize dependent u. intros u Hu Hu8.
  intros H1l H1u H2l H2u.
  assert (Ha : 0 <= (u - d1) * (u + d2)) by (apply Qmult_le_0_compat; lra).
  assert (Hb : 0 <= (u + d1) * (u - d2)) by (apply Qmult_le_0_compat; lra).
  assert (Hc : 0 <= (u - d1) * (u - d2)) by (apply Qmult_le_0_compat; lra).
  assert (Hd : 0 <= (u + d1) * (u + d2)) by (apply Qmult_le_0_compat; lra).
  split; lra.
Qed.

(** A factor within [2u + u^2] of 1 changes a positive number by at most
    [k] units of roundoff when [c * (2 + u) <= k]. *)
Lemma scaled_error (X e c k : Q) :
  0 <= X -> 0 <= c -> c * (2 + (1 # 1000)) <= k ->
  - (2 * u + u * u) <= e -> e <= 2 * u + u * u ->
  Qabs (X * c * e) <= k * u * X.
Proof.
  pose proof u_bounds as [Hu Hu8]. generalize dependent u. intros u Hu Hu8.
  intros HX Hc Hk Hlo Hhi.
  assert (HXc : 0 <= X * c) by (apply Qmult_le_0_compat; assumption).
  assert (H1 : 0 <= (X * c) * (2 * u + u * u - e))
    by (apply Qmult_le_0_compat; lra).
  assert (H2 : 0 <= (X * c) * (e + (2 * u + u * u)))
    by (apply Qmult_le_0_compat; lra).
  assert (H3 : 0 <= (X * c * u) * ((1 # 1000) - u)).
  { apply Qmult_le_0_compat; [|lra]. apply Qmult_le_0_compat; lra. }
  assert (H4 : 0 <= (X * u) * (k - c * (2 + (1 # 1000)))).
  { apply Qmult_le_0_compat; [|lra]. apply Qmult_le_0_compat; lra. }
  apply Qabs_Qle_condition. split; lra.
Qed.

(** A rounded factor against a rounded divisor. *)
Lemma quotient_error (X E d1 d2 : Q) :
  0 < X -> - u <= d1 -> d1 <= u -> - u <= d2 -> d2 <= u ->
  E * (1 + d1) == X * (d2 - d1) ->
  Qabs E <= 3 * u * X.
Proof.
  pose proof u_bounds as [Hu Hu8]. generalize dependent u. intros u Hu Hu8.
  intros HX H1l H1u H2l H2u Heq.
  assert (h2 : 0 <= X * (2 * u - (d2 - d1))) by (apply Qmult_le_0_compat; lra).
  assert (h2' : 0 <= X * (2 * u + (d2 - d1))) by (apply Qmult_le_0_compat; lra).
  assert (h4 : 0 <= (u * X) * (1 - 3 * u)).
  { apply Qmult_le_0_compat; [|lra]. apply Qmult_le_0_compat; lra. }
  apply Qabs_Qle_condition. split.
  - apply Qnot_lt_le. intros Hc.
    assert (h1 : 0 <= (- E) * (u + d1)) by (apply Qmult_le_0_compat; lra).
    assert (h3 : 0 < (- E - 3 * u * X) * (1 - u))
      by (apply Qmult_lt_0_compat; lra).
    lra.
  - apply Qnot_lt_le. intros Hc.
    assert (h1 : 0 <= E * (u + d1)) by (apply Qmult_le_0_compat; lra).
    assert (h3 : 0 < (E - 3 * u * X) * (1 - u))
      by (apply Qmult_lt_0_compat; lra).
    lra.
Qed.

Lemma box_near (p : Q) :
  0 < p ->
  Qabs (mul p (binary64 (95 # 100)) - p * (95 # 100)) <= 2 * u * p.
Proof.
  intros Hp. unfold mul.
  destruct (binary64_delta (95 # 100)) as (d2 & Hd2l & Hd2u & Hc).
  destruct (binary64_delta (p * binary64 (95 # 100))) as (d1 & Hd1l & Hd1u & Hm).
  rewrite Hm, Hc.
  destruct (two_roundings d1 d2 Hd1l Hd1u Hd2l Hd2u) as [Hlo Hhi].
  setoid_replace (p * ((95 # 100) * (1 + d2)) * (1 + d1) - p * (95 # 100))
    with (p * (95 # 100) * ((1 + d1) * (1 + d2) - 1)) by ring.
  apply scaled_error; try assumption; try lra.
Qed.

(** X1. In binary64 the frame that the resize callback computes for an
    image and a parent of positive, moderate size is positive, lies inside
    the box of 95% of the parent as the callback computes it, touches that
    box on one axis, and has the aspect ratio of the image up to three
    units of roundoff; the computed box is within two units of roundoff of
    95% of the parent. *)
Theorem frame_letterboxed (od : ImageDimensions) (parentWidth parentHeight : Q) :
  moderateDims od -> moderate parentWidth -> moderate parentHeight ->
  0 < width od -> 0 < height od -> 0 < parentWidth -> 0 < parentHeight ->
  let frame := frameFor od parentWidth parentHeight in
  let boxWidth := mul parentWidth (binary64 (95 # 100)) in
  let boxHeight := mul parentHeight (binary64 (95 # 100)) in
  0 < width frame /\ 0 < height frame /\
  width frame <= boxWidth /\ height frame <= boxHeight /\
  (width frame == boxWidth \/ height frame == boxHeight) /\
  Qabs (boxWidth - parentWidth * (95 # 100)) <= 2 * u * parentWidth /\
  Qabs (boxHeight - parentHeight * (95 # 100)) <= 2 * u * parentHeight /\
  Qabs (width frame * height od - height frame * width od) <=
    3 * u * (height frame * width od).
Proof.
  intros _ _ _ Hw Hh Hpw Hph frame boxWidth boxHeight.
  subst frame. unfold frameFor. cbv zeta. fold boxWidth boxHeight.
  assert (Hc : 0 < binary64 (95 # 100)) by (apply binary64_pos; reflexivity).
  assert (Hbw : 0 < boxWidth) by (apply mul_pos; assumption).
  assert (Hbh : 0 < boxHeight) by (apply mul_pos; assumption).
  assert (Ha : 0 < div (width od) (height od)) by (apply div_pos; assumption).
  destruct (binary64_delta (width od / height od)) as (d2 & Hd2l & Hd2u & Hratio).
  fold (div (width od) (height od)) in Hratio.
  set (a := div (width od) (height od)) in *.
  assert (Hah : a * height od == width od * (1 + d2)).
  { rewrite Hratio. field. lra. }
  pose proof u_bounds as [Hu Hu8].
  split; [|split; [|split; [|split; [|split; [|split; [|split]]]]]].
  7: apply box_near; exact Hph.
  6: apply box_near; exact Hpw.
  all: destruct (Qlt_le_dec boxHeight (div boxWidth a)) as [Hover | Hfit];
    cbn [width height].
  - apply mul_pos; assumption.
  - exact Hbw.
  - exact Hbh.
  - apply div_pos; assumption.
  - (* the width computed from the box height stays inside the box *)
    assert (Hreal : boxHeight < boxWidth / a).
    { apply Qnot_le_lt. intros Hle. apply binary64_mono in Hle.
      unfold boxHeight at 1, mul in Hle. rewrite binary64_idem in Hle.
      fold (mul parentHeight (binary64 (95 # 100))) in Hle.
      fold boxHeight in Hle. unfold div in Hover. lra. }
    assert (Hprod : boxHeight * a <= boxWidth).
    { apply Qlt_le_weak.
      setoid_replace boxWidth with (boxWidth / a * a) by (field; lra).
      apply Qmult_lt_r; assumption. }
    apply binary64_mono in Hprod. unfold boxWidth at 1, mul in Hprod.
    rewrite binary64_idem in Hprod. exact Hprod.
  - lra.
  - lra.
  - exact Hfit.
  - right. reflexivity.
  - left. reflexivity.
  - (* frame = (boxHeight * a, boxHeight) *)
    destruct (binary64_delta (boxHeight * a)) as (d1 & Hd1l & Hd1u & Hm).
    fold (mul boxHeight a) in Hm. rewrite Hm.
    destruct (two_roundings d1 d2 Hd1l Hd1u Hd2l Hd2u) as [Hlo Hhi].
    assert (He : boxHeight * a * (1 + d1) * height od - boxHeight * width od ==
                 boxHeight * width od * 1 * ((1 + d1) * (1 + d2) - 1)).
    { setoid_replace (boxHeight * a * (1 + d1) * height od)
        with (boxHeight * (1 + d1) * (a * height od)) by ring.
      rewrite Hah. ring. }
    rewrite He.
    assert (HX : 0 < boxHeight * width od) by (apply Qmult_lt_0_compat; assumption).
    apply scaled_error; try assumption; try lra.
  - (* frame = (boxWidth, boxWidth / a) *)
    destruct (binary64_delta (boxWidth / a)) as (d1 & Hd1l & Hd1u & Hm).
    fold (div boxWidth a) in Hm.
    set (H := div boxWidth a) in *.
    assert (HH : 0 < H) by (apply div_pos; assumption).
    assert (HX : 0 < H * width od) by (apply Qmult_lt_0_compat; assumption).
    assert (Heq : (boxWidth * height od - H * width od) * (1 + d1) ==
                  (H * width od) * (d2 - d1)).
    { rewrite Hm.
      setoid_replace (boxWidth / a * (1 + d1) * width od * (d2 - d1))
        with ((boxWidth / a * (1 + d1)) * (width od * (1 + d2) - width od * (1 + d1)))
        by ring.
      rewrite <- Hah. field. lra. }
    set (X := H * width od) in *.
    set (E := boxWidth * height od - X) in *.
    apply (quotient_error X E d1 d2); assumption.
Qed.

End FloatFrame.

Section FloatHandlers.
Import Float.

Lemma float_clampPan_axes p w v :
  clampPan p w v =
  mkPoint (clampAxis (px p) (width w) (width v))
          (clampAxis (py p) (height w) (height v)).
Proof. reflexivity. Qed.

Lemma float_handleZoom_same data st screenPoint :
  handleZoom data st (zoomIndex st) screenPoint = st.
Proof. unfold handleZoom. rewrite Z.eqb_refl. reflexivity. Qed.

Lemma float_handleZoom_changed data st target screenPoint :
  target <> zoomIndex st ->
  handleZoom data st target screenPoint =
  mkState (zoomTarget data st target) (minZoomIndex st)
    (clampPan (zoomedPan data st target screenPoint)
       (worldSizeAt data (zoomTarget data st target)) (viewportSize st))
    (viewportSize st) (isInitialized st).
Proof.
  intros Hne. unfold handleZoom.
  destruct (Z.eqb_spec target (zoomIndex st)); [contradiction | reflexivity].
Qed.

Lemma float_handlePan_unfold data st direction :
  handlePan data st direction =
  mkState (zoomIndex st) (minZoomIndex st)
    (clampPan (movedPan st direction)
       (worldSizeAt data (zoomIndex st)) (viewportSize st))
    (viewportSize st) (isInitialized st).
Proof. destruct direction; reflexivity. Qed.

Lemma float_clampAxis_compat (p q w v : Q) :
  p == q -> clampAxis p w v == clampAxis q w v.
Proof.
  intros H. unfold clampAxis. destruct (Qlt_le_dec w v); [reflexivity|].
  rewrite H. reflexivity.
Qed.

Lemma float_clampAxis_inside (p w v : Q) :
  v <= w -> 0 <= p <= sub w v -> clampAxis p w v == p.
Proof.
  intros Hvw [Hlo Hhi]. unfold clampAxis.
  destruct (Qlt_le_dec w v) as [Hlt | _]; [lra|].
  rewrite Q.min_l by exact Hhi. apply Q.max_r. exact Hlo.
Qed.

(** The clamp moves no number away from a clamped one. *)
Lemma float_clampAxis_near (x p w v : Q) :
  clampAxis p w v == p ->
  Qabs (clampAxis x w v - p) <= Qabs (x - p).
Proof.
  unfold clampAxis. destruct (Qlt_le_dec w v) as [Hlt | Hge]; intros Hp.
  - setoid_replace (div (sub w v) 2 - p) with 0 by lra.
    apply Qabs_nonneg.
  - revert Hp. set (B := sub w v). intros Hp.
    apply Qabs_Qle_condition.
    destruct (Q.max_spec 0 (Qmin p B)) as [[? Hm1] | [? Hm1]];
    destruct (Q.min_spec p B) as [[? Hm2] | [? Hm2]];
    destruct (Q.max_spec 0 (Qmin x B)) as [[? Hm3] | [? Hm3]];
    destruct (Q.min_spec x B) as [[? Hm4] | [? Hm4]];
    rewrite ?Hm1, ?Hm2 in *; rewrite Hm3; rewrite ?Hm4 in *;
    destruct (Qabs_cases (x - p)) as [[? Ha] | [? Ha]]; rewrite Ha;
    split; lra.
Qed.

(** The ratio of two scales is a power of two, and so exact. *)
Lemma float_zoom_ratio (n z c : Z) :
  div (pow2 (n - 1 - z)) (pow2 (n - 1 - c)) == pow2 (c - z).
Proof.
  unfold div. rewrite <- pow2_sub.
  replace (n - 1 - z - (n - 1 - c))%Z with (c - z)%Z by lia.
  apply binary64_pow2.
Qed.

(** A double times a power of two is exact. *)
Lemma float_mul_pow2 (x : Q) (k : Z) :
  mul (binary64 x) (pow2 k) == binary64 x * pow2 k.
Proof. unfold mul. rewrite binary64_scale, binary64_idem. reflexivity. Qed.

Lemma abs_error_bounds (e b : Q) : Qabs e <= b -> - b <= e /\ e <= b.
Proof. intros H. apply Qabs_Qle_condition in H. exact H. Qed.

(** One axis of a zoom: the world point under the screen point is kept up
    to the roundings of the addition and of the subtraction. *)
Lemma float_zoom_axis (p s : Q) (k : Z) :
  let wp := add p s in
  let np := sub (mul wp (pow2 k)) s in
  Qabs (np + s - (p + s) * pow2 k) <= u * (Qabs np + Qabs wp * pow2 k).
Proof.
  intros wp np.
  assert (Hmul : mul wp (pow2 k) == wp * pow2 k) by apply float_mul_pow2.
  pose proof (binary64_rel_result (p + s)) as H1. fold (add p s) in H1. fold wp in H1.
  pose proof (binary64_rel_result (mul wp (pow2 k) - s)) as H2.
  fold (sub (mul wp (pow2 k)) s) in H2. fold np in H2.
  rewrite Hmul in H2.
  pose proof (pow2_pos k) as Hk.
  apply abs_error_bounds in H1, H2. destruct H1 as [H1l H1u], H2 as [H2l H2u].
  set (A := Qabs np) in *. set (B := Qabs wp) in *.
  assert (h1 : 0 <= (u * B - (wp - (p + s))) * pow2 k)
    by (apply Qmult_le_0_compat; lra).
  assert (h2 : 0 <= ((wp - (p + s)) + u * B) * pow2 k)
    by (apply Qmult_le_0_compat; lra).
  apply Qabs_Qle_condition. split; lra.
Qed.

(** One axis of a pan step and the step back. *)
Lemma float_pan_axis (p p1 x2 d w v : Q) :
  clampAxis p w v == p ->
  p1 == binary64 (p + d) ->
  x2 == binary64 (p1 - d) ->
  Qabs (clampAxis x2 w v - p) <= u * (Qabs p1 + Qabs x2).
Proof.
  intros Hp Hp1 Hx2.
  apply Qle_trans with (Qabs (x2 - p)); [apply float_clampAxis_near; exact Hp|].
  pose proof (binary64_rel_result (p + d)) as H1. rewrite <- Hp1 in H1.
  pose proof (binary64_rel_result (p1 - d)) as H2. rewrite <- Hx2 in H2.
  apply abs_error_bounds in H1, H2. destruct H1 as [H1l H1u], H2 as [H2l H2u].
  set (A := Qabs p1) in *. set (B := Qabs x2) in *.
  apply Qabs_Qle_condition. split; lra.
Qed.

(** One axis of a zoom and the zoom back at the same screen point. *)
Lemma float_zoom_back_axis (p p1 s w v : Q) (k : Z) :
  clampAxis p w v == p ->
  p1 == sub (mul (add p s) (pow2 k)) s ->
  let wp := add p s in
  let wp' := add p1 s in
  let x2 := sub (mul wp' (pow2 (- k))) s in
  Qabs (clampAxis x2 w v - p) <=
    u * (Qabs x2 + (Qabs wp' + Qabs p1) * pow2 (- k) + Qabs wp).
Proof.
  intros Hp Hp1 wp wp' x2.
  apply Qle_trans with (Qabs (x2 - p)); [apply float_clampAxis_near; exact Hp|].
  assert (Hm1 : mul wp (pow2 k) == wp * pow2 k) by apply float_mul_pow2.
  assert (Hm2 : mul wp' (pow2 (- k)) == wp' * pow2 (- k)) by apply float_mul_pow2.
  pose proof (binary64_rel_result (p + s)) as H1.
  fold (add p s) in H1. fold wp in H1.
  pose proof (binary64_rel_result (mul wp (pow2 k) - s)) as H2.
  fold (sub (mul wp (pow2 k)) s) in H2. fold wp in Hp1. rewrite <- Hp1 in H2.
  rewrite Hm1 in H2.
  pose proof (binary64_rel_result (p1 + s)) as H3.
  fold (add p1 s) in H3. fold wp' in H3.
  pose proof (binary64_rel_result (mul wp' (pow2 (- k)) - s)) as H4.
  fold (sub (mul wp' (pow2 (- k))) s) in H4. fold x2 in H4.
  rewrite Hm2 in H4.
  pose proof (pow2_pos k) as Hk. pose proof (pow2_pos (- k)) as Hk'.
  assert (Hinv : pow2 k * pow2 (- k) == 1).
  { rewrite <- pow2_add. replace (k + - k)%Z with 0%Z by lia. reflexivity. }
  apply abs_error_bounds in H1, H2, H3, H4.
  destruct H1 as [H1l H1u], H2 as [H2l H2u], H3 as [H3l H3u], H4 as [H4l H4u].
  set (A := Qabs x2) in *. set (B := Qabs wp') in *.
  set (C := Qabs p1) in *. set (D := Qabs wp) in *.
  set (r := pow2 k) in *. set (r' := pow2 (- k)) in *.
  assert (h3a : 0 <= (u * B - (wp' - (p1 + s))) * r')
    by (apply Qmult_le_0_compat; lra).
  assert (h3b : 0 <= ((wp' - (p1 + s)) + u * B) * r')
    by (apply Qmult_le_0_compat; lra).
  assert (h2a : 0 <= (u * C - (p1 - (wp * r - s))) * r')
    by (apply Qmult_le_0_compat; lra).
  assert (h2b : 0 <= ((p1 - (wp * r - s)) + u * C) * r')
    by (apply Qmult_le_0_compat; lra).
  assert (Hwp : wp * r * r' == wp).
  { rewrite <- Qmult_assoc, Hinv. ring. }
  apply Qabs_Qle_condition. split; lra.
Qed.

End FloatHandlers.

Section FloatTheorems.
Import Float.

(** X3. In binary64, after a zoom the world point under the screen point
    is the old one scaled by [2 ^ (newIndex - oldIndex)] up to the
    roundings of one addition and one subtraction, on every axis on which
    the clamp leaves the computed pan alone: the difference is at most the
    unit roundoff times the sum of the magnitudes of the new pan and of the
    scaled world point that [handleZoom] computes.  The scaling itself is
    exact. *)
Theorem zoom_keeps_point (data : ImageData) (st : ViewportState)
  (target : Z) (screenPoint : Point) :
  moderateState data st -> moderatePoint screenPoint ->
  zoomInvariant data st ->
  target <> zoomIndex st ->
  let c := zoomTarget data st target in
  let world := worldSizeAt data c in
  let computed := zoomedPan data st target screenPoint in
  let st' := handleZoom data st target screenPoint in
  let ratio := pow2 (c - zoomIndex st) in
  (width (viewportSize st) <= width world ->
   0 <= px computed <= sub (width world) (width (viewportSize st)) ->
   Qabs (px (pan st') + px screenPoint -
         (px (pan st) + px screenPoint) * ratio) <=
     u * (Qabs (px (pan st')) +
          Qabs (px (worldPoint st screenPoint)) * ratio)) /\
  (height (viewportSize st) <= height world ->
   0 <= py computed <= sub (height world) (height (viewportSize st)) ->
   Qabs (py (pan st') + py screenPoint -
         (py (pan st) + py screenPoint) * ratio) <=
     u * (Qabs (py (pan st')) +
          Qabs (py (worldPoint st screenPoint)) * ratio)).
Proof.
  intros _ _ _ Hne c world computed st' ratio. subst st'.
  rewrite float_handleZoom_changed by assumption. cbn [pan].
  fold c world computed. rewrite float_clampPan_axes. cbn [px py].
  pose proof (float_zoom_ratio (numLevels data) (zoomIndex st) c) as Hr.
  fold ratio in Hr.
  assert (Hcx : px computed ==
                sub (mul (add (px (pan st)) (px screenPoint)) ratio)
                    (px screenPoint)).
  { unfold computed, zoomedPan. cbv zeta. cbn [px]. fold c.
    unfold sub, mul. rewrite Hr. reflexivity. }
  assert (Hcy : py computed ==
                sub (mul (add (py (pan st)) (py screenPoint)) ratio)
                    (py screenPoint)).
  { unfold computed, zoomedPan. cbv zeta. cbn [py]. fold c.
    unfold sub, mul. rewrite Hr. reflexivity. }
  split; intros Hbig Hin.
  - rewrite float_clampAxis_inside by assumption. rewrite Hcx.
    unfold worldPoint. cbn [px].
    apply (float_zoom_axis (px (pan st)) (px screenPoint) (c - zoomIndex st)).
  - rewrite float_clampAxis_inside by assumption. rewrite Hcy.
    unfold worldPoint. cbn [py].
    apply (float_zoom_axis (py (pan st)) (py screenPoint) (c - zoomIndex st)).
Qed.

(** X4. In binary64, zooming to another level inside the bounds and back
    to the old level at the same screen point restores the zoom index, the
    bounds, the frame and the flag exactly, and the pan up to rounding,
    provided the state was clamped and the clamp did not change the pan
    computed for the first step: on each axis the pan differs from the old
    one by at most the unit roundoff times the sum of the magnitudes of the
    four rounded values, the pan and the world point of the second step
    scaled back to the old level. *)
Theorem zoom_there_and_back (data : ImageData) (st : ViewportState)
  (target : Z) (screenPoint : Point) :
  moderateState data st -> moderatePoint screenPoint ->
  zoomInvariant data st ->
  clampedState data st ->
  (minZoomIndex st <= target <= numLevels data - 1)%Z ->
  point_eq (pan (handleZoom data st target screenPoint))
           (zoomedPan data st target screenPoint) ->
  let mid := handleZoom data st target screenPoint in
  let back := handleZoom data mid (zoomIndex st) screenPoint in
  let ratio := pow2 (zoomIndex st - target) in
  let computed := zoomedPan data mid (zoomIndex st) screenPoint in
  zoomIndex back = zoomIndex st /\ minZoomIndex back = minZoomIndex st /\
  viewportSize back = viewportSize st /\
  isInitialized back = isInitialized st /\
  Qabs (px (pan back) - px (pan st)) <=
    u * (Qabs (px computed) +
         (Qabs (px (worldPoint mid screenPoint)) + Qabs (px (pan mid))) * ratio +
         Qabs (px (worldPoint st screenPoint))) /\
  Qabs (py (pan back) - py (pan st)) <=
    u * (Qabs (py computed) +
         (Qabs (py (worldPoint mid screenPoint)) + Qabs (py (pan mid))) * ratio +
         Qabs (py (worldPoint st screenPoint))).
Proof.
  intros _ _ Hinv Hclamped Htarget Hfree mid back ratio computed.
  pose proof u_bounds as [Hu _].
  destruct (Z.eq_dec target (zoomIndex st)) as [-> | Hne].
  { subst back computed mid. rewrite !float_handleZoom_same.
    split; [reflexivity|]. split; [reflexivity|]. split; [reflexivity|].
    split; [reflexivity|].
    pose proof (pow2_pos (zoomIndex st - zoomIndex st)) as Hr. fold ratio in Hr.
    split.
    - setoid_replace (px (pan st) - px (pan st)) with 0 by ring.
      change (Qabs 0) with 0.
      pose proof (Qabs_nonneg (px (zoomedPan data st (zoomIndex st) screenPoint))).
      pose proof (Qabs_nonneg (px (worldPoint st screenPoint))).
      pose proof (Qabs_nonneg (px (pan st))).
      apply Qmult_le_0_compat; [lra|].
      assert (0 <= (Qabs (px (worldPoint st screenPoint)) + Qabs (px (pan st))) * ratio)
        by (apply Qmult_le_0_compat; lra).
      lra.
    - setoid_replace (py (pan st) - py (pan st)) with 0 by ring.
      change (Qabs 0) with 0.
      pose proof (Qabs_nonneg (py (zoomedPan data st (zoomIndex st) screenPoint))).
      pose proof (Qabs_nonneg (py (worldPoint st screenPoint))).
      pose proof (Qabs_nonneg (py (pan st))).
      apply Qmult_le_0_compat; [lra|].
      assert (0 <= (Qabs (py (worldPoint st screenPoint)) + Qabs (py (pan st))) * ratio)
        by (apply Qmult_le_0_compat; lra).
      lra. }
  unfold zoomInvariant in Hinv.
  assert (Hc : zoomTarget data st target = target) by (unfold zoomTarget; lia).
  assert (Hmid : mid =
    mkState target (minZoomIndex st)
      (clampPan (zoomedPan data st target screenPoint)
         (worldSizeAt data target) (viewportSize st))
      (viewportSize st) (isInitialized st)).
  { unfold mid. rewrite float_handleZoom_changed by assumption.
    rewrite Hc. reflexivity. }
  fold mid in Hfree.
  assert (Hzm : zoomIndex mid = target) by (rewrite Hmid; reflexivity).
  assert (Hmm : minZoomIndex mid = minZoomIndex st) by (rewrite Hmid; reflexivity).
  assert (Hvm : viewportSize mid = viewportSize st) by (rewrite Hmid; reflexivity).
  assert (Him : isInitialized mid = isInitialized st) by (rewrite Hmid; reflexivity).
  assert (Hback : zoomTarget data mid (zoomIndex st) = zoomIndex st).
  { unfold zoomTarget. rewrite Hmm. lia. }
  assert (Hb : back =
    mkState (zoomIndex st) (minZoomIndex st)
      (clampPan computed (worldSizeAt data (zoomIndex st)) (viewportSize st))
      (viewportSize st) (isInitialized st)).
  { unfold back. rewrite float_handleZoom_changed by (rewrite Hzm; auto).
    rewrite Hback, Hmm, Hvm, Him. reflexivity. }
  rewrite Hb. cbn [zoomIndex minZoomIndex viewportSize isInitialized pan].
  split; [reflexivity|]. split; [reflexivity|]. split; [reflexivity|].
  split; [reflexivity|].
  rewrite float_clampPan_axes. cbn [px py].
  unfold clampedState in Hclamped. rewrite float_clampPan_axes in Hclamped.
  destruct Hclamped as [Hcx Hcy]. cbn [px py] in Hcx, Hcy.
  destruct Hfree as [Hfx Hfy].
  pose proof (float_zoom_ratio (numLevels data) (zoomIndex st) target) as Hr1.
  pose proof (float_zoom_ratio (numLevels data) target (zoomIndex st)) as Hr2.
  replace (zoomIndex st - target)%Z with (- (target - zoomIndex st))%Z in *
    by lia.
  set (k := (target - zoomIndex st)%Z) in *.
  assert (Hcomp : point_eq computed
            (mkPoint (sub (mul (add (px (pan mid)) (px screenPoint)) (pow2 (- k)))
                          (px screenPoint))
                     (sub (mul (add (py (pan mid)) (py screenPoint)) (pow2 (- k)))
                          (py screenPoint)))).
  { unfold computed, zoomedPan. cbv zeta. rewrite Hback, Hzm.
    split; cbn [px py]; unfold sub, mul; rewrite Hr2; reflexivity. }
  destruct Hcomp as [Hqx Hqy]. cbn [px py] in Hqx, Hqy.
  assert (Hzx : px (pan mid) ==
                sub (mul (add (px (pan st)) (px screenPoint)) (pow2 k))
                    (px screenPoint)).
  { rewrite Hfx. unfold zoomedPan. cbv zeta. cbn [px]. rewrite Hc.
    unfold sub, mul. rewrite Hr1. reflexivity. }
  assert (Hzy : py (pan mid) ==
                sub (mul (add (py (pan st)) (py screenPoint)) (pow2 k))
                    (py screenPoint)).
  { rewrite Hfy. unfold zoomedPan. cbv zeta. cbn [py]. rewrite Hc.
    unfold sub, mul. rewrite Hr1. reflexivity. }
  unfold ratio. replace (zoomIndex st - target)%Z with (- k)%Z by (unfold k; lia).
  unfold worldPoint. cbn [px py].
  split.
  - rewrite (float_clampAxis_compat _ _ _ _ Hqx). rewrite Hqx.
    apply (float_zoom_back_axis (px (pan st)) (px (pan mid)) (px screenPoint)
             _ _ k Hcx Hzx).
  - rewrite (float_clampAxis_compat _ _ _ _ Hqy). rewrite Hqy.
    apply (float_zoom_back_axis (py (pan st)) (py (pan mid)) (py screenPoint)
             _ _ k Hcy Hzy).
Qed.

(** X28. In binary64, a pan step that the clamp leaves alone is undone by
    the step in the opposite direction up to the roundings of the two
    steps: from a clamped state, when [handlePan] commits the moved pan
    unchanged, [handlePan] in the opposite direction restores the zoom
    index, the bounds, the frame, the flag and the coordinate across the
    direction exactly, and the coordinate along the direction to within
    the unit roundoff times the sum of the magnitudes of the two computed
    coordinates. *)
Theorem pan_there_and_back (data : ImageData) (st : ViewportState)
  (direction : Direction) :
  moderateState data st -> zoomInvariant data st ->
  clampedState data st ->
  point_eq (pan (handlePan data st direction)) (movedPan st direction) ->
  let mid := handlePan data st direction in
  let back := handlePan data mid (opposite direction) in
  zoomIndex back = zoomIndex st /\ minZoomIndex back = minZoomIndex st /\
  viewportSize back = viewportSize st /\
  isInitialized back = isInitialized st /\
  across direction (pan back) == across direction (pan st) /\
  Qabs (along direction (pan back) - along direction (pan st)) <=
    u * (Qabs (along direction (pan mid)) +
         Qabs (along direction (movedPan mid (opposite direction)))).
Proof.
  intros _ _ Hclamped Hfree mid back.
  assert (Hmid : mid =
    mkState (zoomIndex st) (minZoomIndex st)
      (clampPan (movedPan st direction)
         (worldSizeAt data (zoomIndex st)) (viewportSize st))
      (viewportSize st) (isInitialized st))
    by apply float_handlePan_unfold.
  fold mid in Hfree.
  assert (Hzm : zoomIndex mid = zoomIndex st) by (rewrite Hmid; reflexivity).
  assert (Hmm : minZoomIndex mid = minZoomIndex st) by (rewrite Hmid; reflexivity).
  assert (Hvm : viewportSize mid = viewportSize st) by (rewrite Hmid; reflexivity).
  assert (Him : isInitialized mid = isInitialized st) by (rewrite Hmid; reflexivity).
  assert (Hb : back =
    mkState (zoomIndex st) (minZoomIndex st)
      (clampPan (movedPan mid (opposite direction))
         (worldSizeAt data (zoomIndex st)) (viewportSize st))
      (viewportSize st) (isInitialized st)).
  { unfold back. rewrite float_handlePan_unfold, Hzm, Hmm, Hvm, Him.
    reflexivity. }
  rewrite Hb. cbn [zoomIndex minZoomIndex viewportSize isInitialized pan].
  split; [reflexivity|]. split; [reflexivity|]. split; [reflexivity|].
  split; [reflexivity|].
  rewrite float_clampPan_axes.
  unfold clampedState in Hclamped. rewrite float_clampPan_axes in Hclamped.
  destruct Hclamped as [Hcx Hcy]. cbn [px py] in Hcx, Hcy.
  destruct Hfree as [Hfx Hfy].
  destruct direction;
    cbn [opposite movedPan along across px py] in *; rewrite Hvm.
  - (* Up, then Down *)
    split.
    + rewrite (float_clampAxis_compat _ _ _ _ Hfx). exact Hcx.
    + apply (float_pan_axis (py (pan st)) (py (pan mid)) _
               (- mul (height (viewportSize st)) (25 # 100)) _ _ Hcy).
      * rewrite Hfy. reflexivity.
      * unfold add. apply binary64_comp. ring.
  - (* Down, then Up *)
    split.
    + rewrite (float_clampAxis_compat _ _ _ _ Hfx). exact Hcx.
    + apply (float_pan_axis (py (pan st)) (py (pan mid)) _
               (mul (height (viewportSize st)) (25 # 100)) _ _ Hcy).
      * rewrite Hfy. reflexivity.
      * reflexivity.
  - (* Left, then Right *)
    split.
    + rewrite (float_clampAxis_compat _ _ _ _ Hfy). exact Hcy.
    + apply (float_pan_axis (px (pan st)) (px (pan mid)) _
               (- mul (width (viewportSize st)) (25 # 100)) _ _ Hcx).
      * rewrite Hfx. reflexivity.
      * unfold add. apply binary64_comp. ring.
  - (* Right, then Left *)
    split.
    + rewrite (float_clampAxis_compat _ _ _ _ Hfy). exact Hcy.
    + apply (float_pan_axis (px (pan st)) (px (pan mid)) _
               (mul (width (viewportSize st)) (25 # 100)) _ _ Hcx).
      * rewrite Hfx. reflexivity.
      * reflexivity.
Qed.

(** Beyond the top level a repeated zoom is not the early return: the
    first call to level 9 stops at level 5 with the pan at the bound
    387.70000000000005, and the second call, which computes with ratio 1,
    leaves the pan one unit in the last place lower. *)
Lemma float_zoom_beyond_top_moves :
  let once := handleZoom narrowData narrowState 9 narrowPoint in
  let twice := handleZoom narrowData once 9 narrowPoint in
  zoomIndex once = 5%Z /\ zoomIndex twice = 5%Z /\
  px (pan once) == 1705122632355021 # 4398046511104 /\
  px (pan twice) == px (pan once) - pow2 (-44) /\
  ~ px (pan twice) == px (pan once).
Proof.
  cbv zeta. split; [reflexivity|]. split; [reflexivity|].
  split; [vm_compute; reflexivity|]. split; [vm_compute; reflexivity|].
  vm_compute. discriminate.
Qed.

End FloatTheorems.

Section FloatWitnesses.
Import Float.

Lemma frame_letterboxed_witness :
  let frame := frameFor (mkDims 1008 760) 1600 400 in
  width frame == 8866461766385663 # 17592186044416 /\
  height frame == 380 /\
  ~ width frame * 760 == height frame * 1008 /\
  Qabs (width frame * 760 - height frame * 1008) <= 3 * u * (height frame * 1008).
Proof.
  cbv zeta.
  split; [vm_compute; reflexivity|]. split; [vm_compute; reflexivity|].
  split; [vm_compute; discriminate|].
  refine (proj2 (proj2 (proj2 (proj2 (proj2 (proj2 (proj2
    (frame_letterboxed (mkDims 1008 760) 1600 400 _ _ _ _ _ _ _)))))))).
  - split; (split; [vm_compute; reflexivity | right; split; vm_compute; discriminate]).
  - split; [vm_compute; reflexivity | right; split; vm_compute; discriminate].
  - split; [vm_compute; reflexivity | right; split; vm_compute; discriminate].
  - reflexivity.
  - reflexivity.
  - reflexivity.
  - reflexivity.
Defined.

Lemma scenario_moderate : moderateState zoomScenarioData scenarioState.
Proof.
  split; [|split; [|split; [|split]]].
  - split; (split; [vm_compute; reflexivity | right; split; vm_compute; discriminate]).
  - split; (split; [vm_compute; reflexivity | right; split; vm_compute; discriminate]).
  - split; (split; [vm_compute; reflexivity | right; split; vm_compute; discriminate]).
  - vm_compute. discriminate.
  - vm_compute. discriminate.
Defined.

Lemma zoom_keeps_point_witness :
  let st' := handleZoom zoomScenarioData scenarioState 4 scenarioPoint in
  px (pan st') == 1103 # 2 /\
  ~ px (pan st') + px scenarioPoint ==
    (px (pan scenarioState) + px scenarioPoint) * 2 /\
  Qabs (px (pan st') + px scenarioPoint -
        (px (pan scenarioState) + px scenarioPoint) * 2) <=
    u * (Qabs (px (pan st')) +
         Qabs (px (worldPoint scenarioState scenarioPoint)) * 2).
Proof.
  cbv zeta. split; [vm_compute; reflexivity|]. split; [vm_compute; discriminate|].
  assert (Hp : moderatePoint scenarioPoint).
  { split; (split; [vm_compute; reflexivity | right; split; vm_compute; discriminate]). }
  assert (Hinv : zoomInvariant zoomScenarioData scenarioState)
    by (vm_compute; split; discriminate).
  assert (Hne : 4%Z <> zoomIndex scenarioState) by discriminate.
  destruct (zoom_keeps_point zoomScenarioData scenarioState 4 scenarioPoint
              scenario_moderate Hp Hinv Hne) as [Hx _].
  cbv zeta in Hx. apply Hx.
  - vm_compute. discriminate.
  - split; vm_compute; discriminate.
Defined.

Lemma zoom_there_and_back_witness :
  let mid := handleZoom zoomScenarioData scenarioState 4 scenarioPoint in
  let back := handleZoom zoomScenarioData mid 3 scenarioPoint in
  px (pan scenarioState) == 8845351143132365 # 70368744177664 /\
  px (pan back) == 2211337785783091 # 17592186044416 /\
  ~ px (pan back) == px (pan scenarioState) /\
  Qabs (px (pan back) - px (pan scenarioState)) <=
    u * (Qabs (px (zoomedPan zoomScenarioData mid 3 scenarioPoint)) +
         (Qabs (px (worldPoint mid scenarioPoint)) + Qabs (px (pan mid))) *
         pow2 (-1) +
         Qabs (px (worldPoint scenarioState scenarioPoint))).
Proof.
  cbv zeta. split; [vm_compute; reflexivity|]. split; [vm_compute; reflexivity|].
  split; [vm_compute; discriminate|].
  assert (Hp : moderatePoint scenarioPoint).
  { split; (split; [vm_compute; reflexivity | right; split; vm_compute; discriminate]). }
  assert (Hinv : zoomInvariant zoomScenarioData scenarioState)
    by (vm_compute; split; discriminate).
  assert (Hcl : clampedState zoomScenarioData scenarioState)
    by (vm_compute; split; reflexivity).
  assert (Ht : (minZoomIndex scenarioState <= 4 <=
                numLevels zoomScenarioData - 1)%Z)
    by (vm_compute; split; discriminate).
  assert (Hfree : point_eq
            (pan (handleZoom zoomScenarioData scenarioState 4 scenarioPoint))
            (zoomedPan zoomScenarioData scenarioState 4 scenarioPoint))
    by (vm_compute; split; reflexivity).
  destruct (zoom_there_and_back zoomScenarioData scenarioState 4 scenarioPoint
              scenario_moderate Hp Hinv Hcl Ht Hfree)
    as (_ & _ & _ & _ & Hx & _).
  exact Hx.
Defined.

Lemma pan_there_and_back_witness :
  let mid := handlePan zoomScenarioData scenarioState Right in
  let back := handlePan zoomScenarioData mid Left in
  px (pan mid) == 4850165692445491 # 17592186044416 /\
  px (pan back) == 2211337785783091 # 17592186044416 /\
  ~ px (pan back) == px (pan scenarioState) /\
  Qabs (px (pan back) - px (pan scenarioState)) <=
    u * (Qabs (px (pan mid)) + Qabs (px (movedPan mid Left))).
Proof.
  cbv zeta. split; [vm_compute; reflexivity|]. split; [vm_compute; reflexivity|].
  split; [vm_compute; discriminate|].
  assert (Hinv : zoomInvariant zoomScenarioData scenarioState)
    by (vm_compute; split; discriminate).
  assert (Hcl : clampedState zoomScenarioData scenarioState)
    by (vm_compute; split; reflexivity).
  assert (Hfree : point_eq
            (pan (handlePan zoomScenarioData scenarioState Right))
            (movedPan scenarioState Right))
    by (vm_compute; split; reflexivity).
  destruct (pan_there_and_back zoomScenarioData scenarioState Right
              scenario_moderate Hinv Hcl Hfree)
    as (_ & _ & _ & _ & _ & Hx).
  exact Hx.
Defined.

End FloatWitnesses.
